(** * A voxel world: chunk store, generator, streaming scheduler,
      authoritative server actions and client reconciliation

    A shallow embedding of the TypeScript sources.  JavaScript numbers that
    hold integers (block codes, chunk and block coordinates, sequence numbers,
    millisecond clocks) are [Z]; numbers that hold measurements (noise values,
    positions, velocities, hardness) are IEEE 754 binary64 values, [float].
    Objects are records, [Map]s with string keys are [gmap string _], [Set]s
    are [gset _], arrays are lists, and a mutated object is passed in and
    handed back. *)

From Stdlib Require Import ZArith Lia List Floats.
From Stdlib Require Import String Ascii DecimalString DecimalPos DecimalZ Sorted.
From stdpp Require Import base gmap sets list strings.

Set Warnings "-inexact-float,-clear-no-such-hyp".
Open Scope Z_scope.

(* ===================================================================== *)
(** ** JavaScript numeric primitives *)
(* ===================================================================== *)

Module JS.

(** [ToInt32] and [ToUint32] on an integer-valued number. *)
Definition toInt32 (n : Z) : Z := (n + 2 ^ 31) mod 2 ^ 32 - 2 ^ 31.
Definition toUint32 (n : Z) : Z := n mod 2 ^ 32.
Definition toUint16 (n : Z) : Z := n mod 2 ^ 16.

(** [a | 0], [a ^ b], [a >>> k], [Math.imul(a, b)]. *)
Definition or0 (a : Z) : Z := toInt32 a.
Definition xor (a b : Z) : Z := toInt32 (Z.lxor (toInt32 a) (toInt32 b)).
Definition ushr (a k : Z) : Z := Z.shiftr (toUint32 a) (k mod 32).
Definition imul (a b : Z) : Z := toInt32 (toInt32 a * toInt32 b).

(** An integer as a number: the nearest binary64 value. *)
Definition ofZ (n : Z) : float := SF2Prim (binary_normalize prec emax n 0 false).

(** The integer part of a number, rounded toward zero; [0] for NaN and the
    infinities, as in the first steps of [ToInt32]. *)
Definition truncZ (f : float) : Z :=
  match Prim2SF f with
  | S754_finite s m e =>
      let a := if 0 <=? e then Z.shiftl (Z.pos m) e else Z.shiftr (Z.pos m) (- e) in
      if s then - a else a
  | _ => 0
  end.

(** [Math.floor] as an integer ([0] for NaN and the infinities). *)
Definition floorZ (f : float) : Z :=
  match Prim2SF f with
  | S754_finite s m e =>
      if 0 <=? e then (if s then - Z.shiftl (Z.pos m) e else Z.shiftl (Z.pos m) e)
      else
        let q := Z.shiftr (Z.pos m) (- e) in
        if s then (if Z.shiftl q (- e) =? Z.pos m then - q else - (q + 1)) else q
  | _ => 0
  end.

(** [Math.floor] as a number: NaN, the infinities, the zeros and every value
    that is already an integer are returned as they are. *)
Definition Math_floor (f : float) : float :=
  match Prim2SF f with
  | S754_finite _ _ e => if 0 <=? e then f else ofZ (floorZ f)
  | _ => f
  end.

Definition is_negzero (f : float) : bool :=
  match Prim2SF f with S754_zero true => true | _ => false end.

(** [Math.max] and [Math.min] of two numbers. *)
Definition Math_max (a b : float) : float :=
  if PrimFloat.is_nan a || PrimFloat.is_nan b then PrimFloat.nan
  else if PrimFloat.ltb a b then b
  else if PrimFloat.ltb b a then a
  else if is_negzero a then b else a.

Definition Math_min (a b : float) : float :=
  if PrimFloat.is_nan a || PrimFloat.is_nan b then PrimFloat.nan
  else if PrimFloat.ltb a b then a
  else if PrimFloat.ltb b a then b
  else if is_negzero a then a else b.

(** [for (let i = lo; i < hi; i += 1) body], threading the mutated state. *)
Definition forRange {S : Type} (lo hi : Z) (body : Z -> S -> S) (s : S) : S :=
  fold_left (fun acc i => body i acc) (seqZ lo (hi - lo)) s.

End JS.

(* ===================================================================== *)
(** ** noise.ts *)
(* ===================================================================== *)

Module Noise.
Import JS.

Definition hashInt (n : Z) : Z :=
  let x := or0 n in
  let x := imul (xor x (ushr x 16)) 0x85ebca6b in
  let x := imul (xor x (ushr x 13)) 0xc2b2ae35 in
  toUint32 (xor x (ushr x 16)).

(** [x] and [z] arrive as numbers; [Math.imul] reads them through [ToInt32]. *)
Definition hash2 (seed : Z) (x z : float) : float :=
  let n := hashInt (xor (xor seed (imul (truncZ x) 0x1f123bb5))
                        (imul (truncZ z) 0x5f356495)) in
  (ofZ n / ofZ 0xffffffff)%float.

Definition lerp (a b t : float) : float := (a + (b - a) * t)%float.

Definition smoothstep (t : float) : float := (t * t * (3 - 2 * t))%float.

Record ValueNoise2D := { noise_seed : Z }.

Definition newValueNoise2D (seed : Z) : ValueNoise2D := {| noise_seed := or0 seed |}.

Definition sample (self : ValueNoise2D) (x z : float) : float :=
  let x0 := Math_floor x in
  let z0 := Math_floor z in
  let x1 := (x0 + 1)%float in
  let z1 := (z0 + 1)%float in
  let tx := smoothstep (x - x0)%float in
  let tz := smoothstep (z - z0)%float in
  let v00 := hash2 (noise_seed self) x0 z0 in
  let v10 := hash2 (noise_seed self) x1 z0 in
  let v01 := hash2 (noise_seed self) x0 z1 in
  let v11 := hash2 (noise_seed self) x1 z1 in
  let a := lerp v00 v10 tx in
  let b := lerp v01 v11 tx in
  lerp a b tz.

(** The loop state of [fbm]: frequency, amplitude, sum, norm. *)
Definition fbm (self : ValueNoise2D) (x z : float) (octaves : Z) : float :=
  let '(_, _, sum, norm) :=
    forRange 0 octaves
      (fun _ '(frequency, amplitude, sum, norm) =>
         let sum := (sum + sample self (x * frequency) (z * frequency) * amplitude)%float in
         let norm := (norm + amplitude)%float in
         ((frequency * 2)%float, (amplitude * 0.5)%float, sum, norm))
      (1%float, 1%float, 0%float, 0%float) in
  (sum / norm)%float.

Definition hashRange (seed : Z) (x z : float) : float := hash2 seed x z.

End Noise.

(* ===================================================================== *)
(** ** config.ts, types.ts, world/chunk.ts *)
(* ===================================================================== *)

Module Config.
Definition CHUNK_SIZE : Z := 16.
Definition WORLD_HEIGHT : Z := 96.
Definition VIEW_DISTANCE_CHUNKS : Z := 10.
Definition WORLD_SEA_LEVEL : Z := 28.
Definition MAX_STACK : Z := 64.
Definition HOTBAR_SIZE : Z := 9.
Definition PLAYER_HEIGHT : float := 1.8.
Definition PLAYER_HALF_WIDTH : float := 0.3.
Definition PLAYER_EYE_HEIGHT : float := 1.62.
End Config.

Module BlockId.
Definition Air : Z := 0.
Definition Grass : Z := 1.
Definition Dirt : Z := 2.
Definition Stone : Z := 3.
Definition Wood : Z := 4.
Definition Leaves : Z := 5.
Definition Sand : Z := 6.
Definition Water : Z := 7.
End BlockId.

Module Chunk.
Import Config.

(** [blocks] is the [Uint16Array]; a read past its end is [undefined],
    here [None]. *)
Record ChunkData := { cx : Z; cz : Z; blocks : list Z }.

Definition BLOCKS_PER_CHUNK : Z := CHUNK_SIZE * WORLD_HEIGHT * CHUNK_SIZE.

Definition newChunkData (cx cz : Z) (existing : option (list Z)) : ChunkData :=
  {| cx := cx; cz := cz;
     blocks := match existing with
               | Some b => b
               | None => replicate (Z.to_nat BLOCKS_PER_CHUNK) 0
               end |}.

Definition index (localX y localZ : Z) : Z :=
  localX + localZ * CHUNK_SIZE + y * CHUNK_SIZE * CHUNK_SIZE.

Definition inBounds (localX y localZ : Z) : bool :=
  (0 <=? localX) && (localX <? CHUNK_SIZE) &&
  (0 <=? localZ) && (localZ <? CHUNK_SIZE) &&
  (0 <=? y) && (y <? WORLD_HEIGHT).

Definition get (c : ChunkData) (localX y localZ : Z) : option Z :=
  if negb (inBounds localX y localZ) then Some BlockId.Air
  else blocks c !! Z.to_nat (index localX y localZ).

(** A typed-array store: the value is reduced to 16 bits, and a store past
    the end of the array is dropped. *)
Definition set (c : ChunkData) (localX y localZ blockId : Z) : ChunkData :=
  if negb (inBounds localX y localZ) then c
  else {| cx := cx c; cz := cz c;
          blocks := <[Z.to_nat (index localX y localZ) := JS.toUint16 blockId]> (blocks c) |}.

(** Template literal [`${n}`] of an integer. *)
Definition showZ (n : Z) : string := NilZero.string_of_int (Z.to_int n).

(** The same for a number that is an integer or NaN. *)
Definition showNumber (n : option Z) : string :=
  match n with
  | Some n => showZ n
  | None => "NaN"
  end.

(** [Number(s)] on the decimal integer literals; every other string is read
    as NaN, here [None]. *)
Definition Number (s : string) : option Z := Z.of_int <$> NilZero.int_of_string s.

Definition chunkKey (cx cz : Z) : string := showZ cx +:+ ":" +:+ showZ cz.

(** [s.split(sep)] for a one-character separator. *)
Fixpoint split (sep : ascii) (s : string) : list string :=
  match s with
  | EmptyString => [EmptyString]
  | String c rest =>
      if Ascii.eqb c sep then EmptyString :: split sep rest
      else match split sep rest with
           | [] => [String c EmptyString]
           | p :: ps => String c p :: ps
           end
  end.

(** [const [cx, cz] = key.split(":")]: a missing part is [undefined], and
    [Number(undefined)] is NaN. *)
Definition parseChunkKey (key : string) : option Z * option Z :=
  let parts := split ":" key in
  (parts !! 0%nat ≫= Number, parts !! 1%nat ≫= Number).

End Chunk.

(* ===================================================================== *)
(** ** world/generator.ts *)
(* ===================================================================== *)

Module Generator.
Import JS Noise Config Chunk.

(** The fields of the class are read-only and set by the constructor from
    [seed | 0].  The methods read these fields and their arguments and
    nothing else (no clock, no random numbers, no state of the module), and
    they write to the chunk under construction only; they are translated as
    functions of the generator and their arguments. *)
Record WorldGenerator := {
  seed : Z;
  heightNoise : ValueNoise2D;
  detailNoise : ValueNoise2D;
  caveNoise : ValueNoise2D;
  treeSeed : Z
}.

Definition newWorldGenerator (seed0 : Z) : WorldGenerator :=
  let s := or0 seed0 in
  {| seed := s;
     heightNoise := newValueNoise2D (xor s 0x89ab23);
     detailNoise := newValueNoise2D (xor s 0x3281cd);
     caveNoise := newValueNoise2D (xor s 0x7722ff);
     treeSeed := xor s 0x44aa1f |}.

Definition getHeight (self : WorldGenerator) (wx wz : Z) : float :=
  let base := fbm (heightNoise self) (ofZ wx * 0.015)%float (ofZ wz * 0.015)%float 5 in
  let detail := fbm (detailNoise self) (ofZ wx * 0.05)%float (ofZ wz * 0.05)%float 3 in
  let h := (22 + base * 30 + detail * 6)%float in
  Math_max 6 (Math_min (ofZ (WORLD_HEIGHT - 8)) (Math_floor h)).

(** The block chosen for cell [y] of a column of the given height. *)
Definition columnBlock (self : WorldGenerator) (wx wz : Z) (height : float) (y : Z) : Z :=
  let fy := ofZ y in
  if PrimFloat.leb fy height then
    let stoneDepth := (height - 4)%float in
    if PrimFloat.leb fy stoneDepth then
      if (8 <? y) && PrimFloat.ltb fy (height - 3)%float then
        let cave := fbm (caveNoise self) (ofZ wx * 0.08)%float (ofZ (wz + y) * 0.08)%float 3 in
        if PrimFloat.ltb 0.72 cave then BlockId.Air else BlockId.Stone
      else BlockId.Stone
    else if PrimFloat.eqb fy height then
      (if PrimFloat.leb height (ofZ (WORLD_SEA_LEVEL + 1)) then BlockId.Sand else BlockId.Grass)
    else
      (if PrimFloat.leb height (ofZ (WORLD_SEA_LEVEL + 1)) then BlockId.Sand else BlockId.Dirt)
  else if y <=? WORLD_SEA_LEVEL then BlockId.Water
  else BlockId.Air.

(** [for (let y = from; y >= 0; y -= 1)], by recursion on the number of
    cells left to look at. *)
Fixpoint findSurfaceFrom (chunk : ChunkData) (lx lz : Z) (n : nat) : Z :=
  match n with
  | O => 0
  | S k =>
      let y := Z.of_nat k in
      let block := get chunk lx y lz in
      if negb (bool_decide (block = Some BlockId.Air)) &&
         negb (bool_decide (block = Some BlockId.Water))
      then y
      else findSurfaceFrom chunk lx lz k
  end.

Definition findSurface (chunk : ChunkData) (lx lz : Z) : Z :=
  findSurfaceFrom chunk lx lz (Z.to_nat WORLD_HEIGHT).

Definition placeLeaf (lx lz crownBase ox oz oy : Z) (chunk : ChunkData) : ChunkData :=
  let distance := Z.abs ox + Z.abs oz + oy in
  if 4 <? distance then chunk
  else
    let tx := lx + ox in
    let tz := lz + oz in
    let ty := crownBase + oy in
    if (tx <? 0) || (tz <? 0) || (CHUNK_SIZE <=? tx) || (CHUNK_SIZE <=? tz) ||
       (WORLD_HEIGHT <=? ty)
    then chunk
    else if bool_decide (get chunk tx ty tz = Some BlockId.Air)
         then set chunk tx ty tz BlockId.Leaves
         else chunk.

Definition growTree (self : WorldGenerator) (lx lz : Z) (chunk : ChunkData) : ChunkData :=
  let wx := cx chunk * CHUNK_SIZE + lx in
  let wz := cz chunk * CHUNK_SIZE + lz in
  let chance := hashRange (treeSeed self) (ofZ wx) (ofZ wz) in
  if PrimFloat.ltb chance 0.992 then chunk
  else
    let groundY := findSurface chunk lx lz in
    if (groundY <? WORLD_SEA_LEVEL + 1) || (WORLD_HEIGHT - 12 <? groundY) then chunk
    else if negb (bool_decide (get chunk lx groundY lz = Some BlockId.Grass)) then chunk
    else
      let trunkHeight :=
        4 + floorZ (hashRange (xor (treeSeed self) 0xaa1) (ofZ wx) (ofZ wz) * 3)%float in
      let chunk :=
        forRange 1 (trunkHeight + 1)
          (fun y c => set c lx (groundY + y) lz BlockId.Wood) chunk in
      let crownBase := groundY + trunkHeight - 1 in
      forRange (-2) 3 (fun ox =>
        forRange (-2) 3 (fun oz =>
          forRange 0 3 (fun oy => placeLeaf lx lz crownBase ox oz oy))) chunk.

Definition generateTrees (self : WorldGenerator) (chunk : ChunkData) : ChunkData :=
  forRange 2 (CHUNK_SIZE - 2) (fun lx =>
    forRange 2 (CHUNK_SIZE - 2) (fun lz => growTree self lx lz)) chunk.

Definition fillColumn (self : WorldGenerator) (cx cz lx lz : Z) (chunk : ChunkData) : ChunkData :=
  let wx := cx * CHUNK_SIZE + lx in
  let wz := cz * CHUNK_SIZE + lz in
  let height := getHeight self wx wz in
  forRange 0 WORLD_HEIGHT
    (fun y c => set c lx y lz (columnBlock self wx wz height y)) chunk.

Definition generateChunk (self : WorldGenerator) (cx cz : Z) : ChunkData :=
  let chunk := newChunkData cx cz None in
  let chunk :=
    forRange 0 CHUNK_SIZE (fun lx =>
      forRange 0 CHUNK_SIZE (fun lz => fillColumn self cx cz lx lz)) chunk in
  generateTrees self chunk.

End Generator.

(* ===================================================================== *)
(** ** world/worldStore.ts: the client chunk store and its scheduler *)
(* ===================================================================== *)

Module WorldStore.
Import JS Config Chunk Generator.

Record ChunkState := {
  chunk : ChunkData;
  dirty : bool;
  meshDirty : bool;
  lastTouched : float
}.

Definition withMeshDirty (st : ChunkState) (b : bool) : ChunkState :=
  {| chunk := chunk st; dirty := dirty st; meshDirty := b; lastTouched := lastTouched st |}.

Definition withDirty (st : ChunkState) (b : bool) : ChunkState :=
  {| chunk := chunk st; dirty := b; meshDirty := meshDirty st; lastTouched := lastTouched st |}.

Definition withLastTouched (st : ChunkState) (now : float) : ChunkState :=
  {| chunk := chunk st; dirty := dirty st; meshDirty := meshDirty st; lastTouched := now |}.

(** The fields of the class.  The save repository is the database [db]
    that the asynchronous methods take and hand back. *)
Record t := {
  generator : WorldGenerator;
  worldKeyPrefix : string;
  chunks : gmap string ChunkState;
  loadQueue : list (Z * Z);
  queuedKeys : gset string;
  loadingKeys : gset string;
  maxConcurrentLoads : Z
}.

Definition withChunks (s : t) (m : gmap string ChunkState) : t :=
  {| generator := generator s; worldKeyPrefix := worldKeyPrefix s; chunks := m;
     loadQueue := loadQueue s; queuedKeys := queuedKeys s;
     loadingKeys := loadingKeys s; maxConcurrentLoads := maxConcurrentLoads s |}.

Definition withScheduler (s : t) (q : list (Z * Z)) (queued loading : gset string) : t :=
  {| generator := generator s; worldKeyPrefix := worldKeyPrefix s; chunks := chunks s;
     loadQueue := q; queuedKeys := queued;
     loadingKeys := loading; maxConcurrentLoads := maxConcurrentLoads s |}.

Definition new (g : WorldGenerator) (seed : Z) : t :=
  {| generator := g; worldKeyPrefix := showZ seed +:+ ":"; chunks := ∅;
     loadQueue := []; queuedKeys := ∅; loadingKeys := ∅; maxConcurrentLoads := 2 |}.

(** [Math.floor(a / b)] and the floored remainder, on integers. *)
Definition floorDiv (a b : Z) : Z := a / b.

Definition mod_ (a b : Z) : Z :=
  let result := Z.rem a b in
  if result <? 0 then result + b else result.

(** [Math.floor] is the identity on an integer coordinate. *)
Definition worldToChunk (x z : Z) : Z * Z :=
  (floorDiv x CHUNK_SIZE, floorDiv z CHUNK_SIZE).

Record ChunkLocal := { l_cx : Z; l_cz : Z; l_lx : Z; l_lz : Z }.

Definition worldToChunkLocal (x z : Z) : ChunkLocal :=
  let fx := x in
  let fz := z in
  {| l_cx := floorDiv fx CHUNK_SIZE; l_cz := floorDiv fz CHUNK_SIZE;
     l_lx := mod_ fx CHUNK_SIZE; l_lz := mod_ fz CHUNK_SIZE |}.

Definition has (s : t) (key : string) : bool := bool_decide (is_Some (chunks s !! key)).

Definition hasChunk (s : t) (cx cz : Z) : bool := has s (chunkKey cx cz).

Definition getLoadedChunkCount (s : t) : Z := Z.of_nat (size (chunks s)).

Definition getLoadQueueLength (s : t) : Z :=
  Z.of_nat (length (loadQueue s)) + Z.of_nat (size (loadingKeys s)).

(** *** queueChunksAround *)

Record Target := { t_cx : Z; t_cz : Z; dist2 : Z }.

Definition considerTarget (s : t) (center : Z * Z) (dx dz : Z) (targets : list Target)
  : list Target :=
  let cx := fst center + dx in
  let cz := snd center + dz in
  let key := chunkKey cx cz in
  if has s key || bool_decide (key ∈ queuedKeys s) || bool_decide (key ∈ loadingKeys s)
  then targets
  else targets ++ [{| t_cx := cx; t_cz := cz; dist2 := dx * dx + dz * dz |}].

Definition collectTargets (s : t) (center : Z * Z) (radius : Z) : list Target :=
  forRange (- radius) (radius + 1) (fun dx =>
    forRange (- radius) (radius + 1) (fun dz => considerTarget s center dx dz)) [].

(** [targets.sort((a, b) => a.dist2 - b.dist2)]: a stable sort. *)
Fixpoint insertTarget (a : Target) (l : list Target) : list Target :=
  match l with
  | [] => [a]
  | b :: rest => if dist2 b <? dist2 a then b :: insertTarget a rest else a :: b :: rest
  end.

Fixpoint sortTargets (l : list Target) : list Target :=
  match l with
  | [] => []
  | a :: rest => insertTarget a (sortTargets rest)
  end.

(** The coordinates that one call appends to the load queue, in order. *)
Definition enqueued (s : t) (x z radius : Z) : list (Z * Z) :=
  map (fun a => (t_cx a, t_cz a)) (sortTargets (collectTargets s (worldToChunk x z) radius)).

Definition pushTarget (s : t) (c : Z * Z) : t :=
  withScheduler s (loadQueue s ++ [c]) ({[chunkKey (fst c) (snd c)]} ∪ queuedKeys s)
                (loadingKeys s).

Definition queueChunksAround (s : t) (x z radius : Z) : t :=
  fold_left pushTarget (enqueued s x z radius) s.

(** *** processLoadQueue

    The loop runs while a slot is free and the queue is not empty; every
    turn shifts the queue, so the recursion is on the queue.  The second
    component lists the loads started, in order. *)
Fixpoint processLoop (chunks : gmap string ChunkState) (max : Z)
    (queue : list (Z * Z)) (queued loading : gset string) (started : list (Z * Z))
  : list (Z * Z) * gset string * gset string * list (Z * Z) :=
  match queue with
  | [] => ([], queued, loading, started)
  | next :: rest =>
      if Z.of_nat (size loading) <? max then
        let key := chunkKey (fst next) (snd next) in
        let queued := queued ∖ {[key]} in
        if bool_decide (is_Some (chunks !! key)) || bool_decide (key ∈ loading)
        then processLoop chunks max rest queued loading started
        else processLoop chunks max rest queued ({[key]} ∪ loading) (started ++ [next])
      else (queue, queued, loading, started)
  end.

Definition processLoadQueue (s : t) : t * list (Z * Z) :=
  let '(q, queued, loading, started) :=
    processLoop (chunks s) (maxConcurrentLoads s) (loadQueue s)
                (queuedKeys s) (loadingKeys s) [] in
  (withScheduler s q queued loading, started).

(** *** loadChunk: the part after the repository answered, and the
    [finally] callback of [processLoadQueue] *)

Definition markChunkMeshDirty (s : t) (cx cz : Z) : t :=
  match chunks s !! chunkKey cx cz with
  | Some st => withChunks s (<[chunkKey cx cz := withMeshDirty st true]> (chunks s))
  | None => s
  end.

(** [`${prefix}${cx}:${cz}`], also for a coordinate that is NaN. *)
Definition storageKeyOf (s : t) (cx cz : option Z) : string :=
  worldKeyPrefix s +:+ showNumber cx +:+ ":" +:+ showNumber cz.

Definition storageChunkKey (s : t) (cx cz : Z) : string :=
  storageKeyOf s (Some cx) (Some cz).

Definition loadChunkResolved (s : t) (cx cz : Z) (persisted : option (list Z)) (now : float)
  : t :=
  let key := chunkKey cx cz in
  let chunk := match persisted with
               | Some b => newChunkData cx cz (Some b)
               | None => generateChunk (generator s) cx cz
               end in
  let s := withChunks s
             (<[key := {| chunk := chunk; dirty := false; meshDirty := true;
                          lastTouched := now |}]> (chunks s)) in
  let s := markChunkMeshDirty s (cx - 1) cz in
  let s := markChunkMeshDirty s (cx + 1) cz in
  let s := markChunkMeshDirty s cx (cz - 1) in
  markChunkMeshDirty s cx (cz + 1).

Definition loadFinally (s : t) (cx cz : Z) : t :=
  withScheduler s (loadQueue s) (queuedKeys s) (loadingKeys s ∖ {[chunkKey cx cz]}).

(** *** unloadFarChunks, flushDirtyChunks and saveChunkIfDirty

    What a method does to the outside and to the chunk map, in the order
    it does it.  [unloadFarChunks] and [saveChunkIfDirty] are taken to run
    to their end before other code of the store runs; [flushDirtyChunks]
    is given run by run, from one [await] to the next.  The entries of the
    chunk map are visited in the order of [map_to_list], and nothing below
    depends on that order. *)
Inductive Effect :=
| SaveChunk (storageKey : string) (blocks : list Z)
| DeleteChunk (key : string).

(** [Math.abs(c - center) > radius]; a coordinate that did not parse is
    NaN, and no comparison with NaN holds. *)
Definition farther (c : option Z) (center radius : Z) : bool :=
  match c with
  | Some c => radius <? Z.abs (c - center)
  | None => false
  end.

(** The first loop.  [saveOk] tells whether the repository accepts the
    write of a storage key; a rejected write throws out of the method.
    Result: the writes attempted, and the removals when the loop ended. *)
Fixpoint unloadScan (s : t) (center : Z * Z) (radius : Z) (saveOk : string -> bool)
    (entries : list (string * ChunkState)) (removals : list string)
  : list Effect * option (list string) :=
  match entries with
  | [] => ([], Some removals)
  | (key, state) :: rest =>
      let '(cx, cz) := parseChunkKey key in
      if farther cx (fst center) radius || farther cz (snd center) radius then
        if dirty state then
          let skey := storageKeyOf s cx cz in
          let ev := SaveChunk skey (blocks (chunk state)) in
          if saveOk skey then
            let '(log, r) := unloadScan s center radius saveOk rest (removals ++ [key]) in
            (ev :: log, r)
          else ([ev], None)
        else unloadScan s center radius saveOk rest (removals ++ [key])
      else unloadScan s center radius saveOk rest removals
  end.

Definition applySaves (saveOk : string -> bool) (log : list Effect)
    (db : gmap string (list Z)) : gmap string (list Z) :=
  fold_left (fun db ev =>
               match ev with
               | SaveChunk k b => if saveOk k then <[k := b]> db else db
               | DeleteChunk _ => db
               end) log db.

Record Outcome := {
  store : t;
  db : gmap string (list Z);
  log : list Effect;
  rejected : bool
}.

Definition unloadFarChunks (s : t) (db0 : gmap string (list Z)) (x z radius : Z)
    (saveOk : string -> bool) : Outcome :=
  let center := worldToChunk x z in
  let '(saves, removals) := unloadScan s center radius saveOk (map_to_list (chunks s)) [] in
  match removals with
  | Some keys =>
      {| store := withChunks s (fold_left (fun m key => delete key m) keys (chunks s));
         db := applySaves saveOk saves db0;
         log := saves ++ map DeleteChunk keys;
         rejected := false |}
  | None =>
      {| store := s; db := applySaves saveOk saves db0; log := saves; rejected := true |}
  end.

(** [flushDirtyChunks] awaits the repository inside its loop, and the game
    starts it without waiting for its end ([void this.persistState()]), so
    other code of the store runs while a write is under way.  A call is
    therefore a sequence of runs: [flushSeek] is the loop from the position
    of its iterator to the next [await] or to its end, and [flushResume] is
    what follows an [await] that has settled.

    [Flush] is a call that waits for the repository: the key of the entry
    whose write it awaits, whether the repository accepts that write, and
    the keys that its iterator had yet to yield when it stopped. *)
Record Flush := {
  awaited : string;
  accepted : bool;
  todo : list string
}.

(** The loop over the keys that the iterator has yet to yield.  It stops
    at the first dirty chunk: [saveChunk] is called, which copies the
    blocks as they are then ([blocks.slice()]), and the method waits.  An
    entry that has left the map is not yielded.  Result: the write and the
    waiting call, or nothing when the loop has ended. *)
Fixpoint flushSeek (s : t) (saveOk : string -> bool) (keys : list string)
  : option (Effect * Flush) :=
  match keys with
  | [] => None
  | key :: rest =>
      match chunks s !! key with
      | Some state =>
          if negb (dirty state) then flushSeek s saveOk rest
          else
            let '(cx, cz) := parseChunkKey key in
            let skey := storageKeyOf s cx cz in
            Some (SaveChunk skey (blocks (chunk state)),
                  {| awaited := key; accepted := saveOk skey; todo := rest |})
      | None => flushSeek s saveOk rest
      end
  end.

(** The run after the awaited write has settled, on the store as other
    code has left it.  A rejected write throws out of the method.  After an
    accepted one [state.dirty = false] is a write to the state object that
    the loop holds: [live] tells whether this is still the object in the
    map, which it is unless the chunk has been unloaded since.  The loop
    then goes on over [keys], the keys that the iterator has yet to yield
    now: those of [todo] that are still in the map and those added to the
    map since.  Result: the store, the next write and waiting call if there
    is one, and whether the method threw. *)
Definition flushResume (s : t) (saveOk : string -> bool) (f : Flush) (live : bool)
    (keys : list string) : t * option (Effect * Flush) * bool :=
  if negb (accepted f) then (s, None, true)
  else
    let s :=
      match chunks s !! awaited f with
      | Some state =>
          if live then withChunks s (<[awaited f := withDirty state false]> (chunks s))
          else s
      | None => s
      end in
    (s, flushSeek s saveOk keys, false).

(** The whole call when every write settles before any other code of the
    store runs: [flushSeek] and [flushResume] by turns, on the store as the
    call itself has left it.  Result: the writes attempted, the store, and
    whether the method threw. *)
Fixpoint flushUndisturbed (s : t) (saveOk : string -> bool) (keys : list string)
  : list Effect * t * bool :=
  match keys with
  | [] => ([], s, false)
  | key :: rest =>
      match chunks s !! key with
      | Some state =>
          if negb (dirty state) then flushUndisturbed s saveOk rest
          else
            let '(cx, cz) := parseChunkKey key in
            let skey := storageKeyOf s cx cz in
            let ev := SaveChunk skey (blocks (chunk state)) in
            if saveOk skey then
              let s := withChunks s (<[key := withDirty state false]> (chunks s)) in
              let '(log, s, r) := flushUndisturbed s saveOk rest in
              (ev :: log, s, r)
            else ([ev], s, true)
      | None => flushUndisturbed s saveOk rest
      end
  end.

(** A call of [flushDirtyChunks] that nothing disturbs. *)
Definition flushDirtyChunks (s : t) (db0 : gmap string (list Z)) (saveOk : string -> bool)
  : Outcome :=
  let '(saves, s, r) := flushUndisturbed s saveOk (map fst (map_to_list (chunks s))) in
  {| store := s; db := applySaves saveOk saves db0; log := saves; rejected := r |}.

Definition saveChunkIfDirty (s : t) (db0 : gmap string (list Z)) (cx cz : Z)
    (saveOk : string -> bool) : Outcome :=
  let key := chunkKey cx cz in
  match chunks s !! key with
  | Some state =>
      if negb (dirty state) then {| store := s; db := db0; log := []; rejected := false |}
      else
        let skey := storageChunkKey s cx cz in
        let ev := SaveChunk skey (blocks (chunk state)) in
        if saveOk skey then
          {| store := withChunks s (<[key := withDirty state false]> (chunks s));
             db := <[skey := blocks (chunk state)]> db0; log := [ev]; rejected := false |}
        else {| store := s; db := db0; log := [ev]; rejected := true |}
  | None => {| store := s; db := db0; log := []; rejected := false |}
  end.

(** *** getBlock and setBlock *)

Definition getBlock (s : t) (x y z : Z) (now : float) : option Z * t :=
  if (y <? 0) || (WORLD_HEIGHT <=? y) then (Some BlockId.Air, s)
  else
    let l := worldToChunkLocal x z in
    let key := chunkKey (l_cx l) (l_cz l) in
    match chunks s !! key with
    | None => (Some BlockId.Air, s)
    | Some state =>
        (get (chunk state) (l_lx l) y (l_lz l),
         withChunks s (<[key := withLastTouched state now]> (chunks s)))
    end.

(** The block a read would return, without the time stamp. *)
Definition blockAt (s : t) (x y z : Z) : option Z :=
  if (y <? 0) || (WORLD_HEIGHT <=? y) then Some BlockId.Air
  else
    let l := worldToChunkLocal x z in
    match chunks s !! chunkKey (l_cx l) (l_cz l) with
    | None => Some BlockId.Air
    | Some state => get (chunk state) (l_lx l) y (l_lz l)
    end.

Definition setBlock (s : t) (x y z block : Z) (now : float) : bool * t :=
  if (y <? 0) || (WORLD_HEIGHT <=? y) then (false, s)
  else
    let l := worldToChunkLocal x z in
    let cx := l_cx l in
    let cz := l_cz l in
    let lx := l_lx l in
    let lz := l_lz l in
    let key := chunkKey cx cz in
    match chunks s !! key with
    | None => (false, s)
    | Some state =>
        let oldBlock := get (chunk state) lx y lz in
        if bool_decide (oldBlock = Some block) then (false, s)
        else
          let state' := {| chunk := set (chunk state) lx y lz block; dirty := true;
                           meshDirty := true; lastTouched := now |} in
          let s := withChunks s (<[key := state']> (chunks s)) in
          let s := if lx =? 0 then markChunkMeshDirty s (cx - 1) cz
                   else if lx =? CHUNK_SIZE - 1 then markChunkMeshDirty s (cx + 1) cz
                   else s in
          let s := if lz =? 0 then markChunkMeshDirty s cx (cz - 1)
                   else if lz =? CHUNK_SIZE - 1 then markChunkMeshDirty s cx (cz + 1)
                   else s in
          (true, s)
    end.

(** *** The scheduler over time

    A load that [processLoadQueue] started waits for the repository
    ([awaiting]); when the repository answers, the rest of [loadChunk] runs
    and the load waits for its [finally] callback ([settling]); the callback
    frees the slot.  A call of [flushDirtyChunks] either runs undisturbed
    ([FlushDirty]) or is cut at its [await]s: the run up to the first
    [await] starts a write and leaves the store alone ([FlushStarted]), and
    a run after an [await] finds the store as the events in between left
    it ([FlushResumed]).  Everything else the store offers runs to
    completion between two such moments.  A write reaches the repository
    when it is started. *)
Record Sys := {
  st : t;
  disk : gmap string (list Z);
  awaiting : list (Z * Z);
  settling : list (Z * Z)
}.

Definition inFlight (y : Sys) : list (Z * Z) := awaiting y ++ settling y.

Inductive Event :=
| QueueAround (x z radius : Z)
| ProcessQueue
| LoadResolved (c : Z * Z) (now : float)
| LoadRejected (c : Z * Z)
| LoadFinally (c : Z * Z)
| UnloadFar (x z radius : Z) (saveOk : string -> bool)
| FlushDirty (saveOk : string -> bool)
| FlushStarted (saveOk : string -> bool)
| FlushResumed (saveOk : string -> bool) (f : Flush) (live : bool) (keys : list string)
| SaveIfDirty (cx cz : Z) (saveOk : string -> bool)
| SetBlock (x y z block : Z) (now : float)
| GetBlock (x y z : Z) (now : float)
| MeshRebuilt (key : string).

Definition removeFirst (c : Z * Z) (l : list (Z * Z)) : list (Z * Z) :=
  match list_find (fun d => d = c) l with
  | Some (i, _) => take i l ++ drop (S i) l
  | None => l
  end.

Definition isIn (c : Z * Z) (l : list (Z * Z)) : bool := bool_decide (c ∈ l).

(** The repository after the write that a run of [flushDirtyChunks]
    started, if it started one. *)
Definition afterWrite (saveOk : string -> bool) (next : option (Effect * Flush))
    (db : gmap string (list Z)) : gmap string (list Z) :=
  match next with
  | Some (ev, _) => applySaves saveOk [ev] db
  | None => db
  end.

Definition step (y : Sys) (e : Event) : Sys :=
  match e with
  | QueueAround x z radius =>
      {| st := queueChunksAround (st y) x z radius; disk := disk y;
         awaiting := awaiting y; settling := settling y |}
  | ProcessQueue =>
      let '(s, started) := processLoadQueue (st y) in
      {| st := s; disk := disk y; awaiting := awaiting y ++ started;
         settling := settling y |}
  | LoadResolved c now =>
      if isIn c (awaiting y) then
        {| st := loadChunkResolved (st y) (fst c) (snd c)
                   (disk y !! storageChunkKey (st y) (fst c) (snd c)) now;
           disk := disk y;
           awaiting := removeFirst c (awaiting y);
           settling := settling y ++ [c] |}
      else y
  | LoadRejected c =>
      if isIn c (awaiting y) then
        {| st := st y; disk := disk y;
           awaiting := removeFirst c (awaiting y);
           settling := settling y ++ [c] |}
      else y
  | LoadFinally c =>
      if isIn c (settling y) then
        {| st := loadFinally (st y) (fst c) (snd c); disk := disk y;
           awaiting := awaiting y;
           settling := removeFirst c (settling y) |}
      else y
  | UnloadFar x z radius saveOk =>
      let r := unloadFarChunks (st y) (disk y) x z radius saveOk in
      {| st := store r; disk := db r; awaiting := awaiting y; settling := settling y |}
  | FlushDirty saveOk =>
      let r := flushDirtyChunks (st y) (disk y) saveOk in
      {| st := store r; disk := db r; awaiting := awaiting y; settling := settling y |}
  | FlushStarted saveOk =>
      let next := flushSeek (st y) saveOk (map fst (map_to_list (chunks (st y)))) in
      {| st := st y; disk := afterWrite saveOk next (disk y);
         awaiting := awaiting y; settling := settling y |}
  | FlushResumed saveOk f live keys =>
      let '(s, next, _) := flushResume (st y) saveOk f live keys in
      {| st := s; disk := afterWrite saveOk next (disk y);
         awaiting := awaiting y; settling := settling y |}
  | SaveIfDirty cx cz saveOk =>
      let r := saveChunkIfDirty (st y) (disk y) cx cz saveOk in
      {| st := store r; disk := db r; awaiting := awaiting y; settling := settling y |}
  | SetBlock x yy z block now =>
      {| st := snd (setBlock (st y) x yy z block now); disk := disk y;
         awaiting := awaiting y; settling := settling y |}
  | GetBlock x yy z now =>
      {| st := snd (getBlock (st y) x yy z now); disk := disk y;
         awaiting := awaiting y; settling := settling y |}
  | MeshRebuilt key =>
      match chunks (st y) !! key with
      | Some cs =>
          {| st := withChunks (st y) (<[key := withMeshDirty cs false]> (chunks (st y)));
             disk := disk y; awaiting := awaiting y; settling := settling y |}
      | None => y
      end
  end.

Definition run (y : Sys) (events : list Event) : Sys := fold_left step events y.

Definition initial (g : WorldGenerator) (seed : Z) (disk0 : gmap string (list Z)) : Sys :=
  {| st := new g seed; disk := disk0; awaiting := []; settling := [] |}.

End WorldStore.

(* ===================================================================== *)
(** ** The chunk payload on the wire *)
(* ===================================================================== *)

(** [Buffer#toString("base64")] and [atob] are platform functions; they are
    written out here after RFC 4648 (standard alphabet, padded).  A byte is
    an integer in [0, 256); the binary string that [atob] returns is the
    list of its character codes. *)
Module Base64.

Definition alphabet : string :=
  "ABCDEFGHIJKLMNOPQRSTUVWXYZabcdefghijklmnopqrstuvwxyz0123456789+/".

Definition sextet (n : Z) : ascii :=
  match String.get (Z.to_nat n) alphabet with
  | Some c => c
  | None => "="%char
  end.

Fixpoint indexOf (c : ascii) (s : string) (i : Z) : option Z :=
  match s with
  | EmptyString => None
  | String d rest => if Ascii.eqb c d then Some i else indexOf c rest (i + 1)
  end.

Definition unsextet (c : ascii) : option Z := indexOf c alphabet 0.

Fixpoint encode (bytes : list Z) : string :=
  match bytes with
  | [] => EmptyString
  | [a] =>
      String (sextet (a / 4)) (String (sextet (a mod 4 * 16)) "==")
  | [a; b] =>
      String (sextet (a / 4)) (String (sextet (a mod 4 * 16 + b / 16))
        (String (sextet (b mod 16 * 4)) "="))
  | a :: b :: c :: rest =>
      String (sextet (a / 4)) (String (sextet (a mod 4 * 16 + b / 16))
        (String (sextet (b mod 16 * 4 + c / 64)) (String (sextet (c mod 64))
          (encode rest))))
  end.

(** [None] stands for the exception that [atob] throws. *)
Fixpoint decode (s : string) : option (list Z) :=
  match s with
  | EmptyString => Some []
  | String c1 (String c2 (String c3 (String c4 rest))) =>
      n1 ← unsextet c1;
      n2 ← unsextet c2;
      if Ascii.eqb c3 "=" then
        if Ascii.eqb c4 "=" && bool_decide (rest = EmptyString)
        then Some [n1 * 4 + n2 / 16] else None
      else
        n3 ← unsextet c3;
        if Ascii.eqb c4 "=" then
          if bool_decide (rest = EmptyString)
          then Some [n1 * 4 + n2 / 16; n2 mod 16 * 16 + n3 / 4] else None
        else
          n4 ← unsextet c4;
          tail ← decode rest;
          Some (n1 * 4 + n2 / 16 :: n2 mod 16 * 16 + n3 / 4 :: n3 mod 4 * 64 + n4 :: tail)
  | _ => None
  end.

End Base64.

Module Wire.

(** The bytes under a [Uint16Array], least significant byte first. *)
Definition bufferOf (blocks : list Z) : list Z :=
  flat_map (fun v => [v mod 256; v / 256 mod 256]) blocks.

(** [new Uint16Array(buffer)]: throws on an odd byte length. *)
Fixpoint uint16ArrayOf (bytes : list Z) : option (list Z) :=
  match bytes with
  | [] => Some []
  | lo :: hi :: rest => (fun t => lo + 256 * hi :: t) <$> uint16ArrayOf rest
  | [_] => None
  end.

(** [Buffer.from(chunk.blocks.buffer).toString("base64")] *)
Definition blocksToBase64 (blocks : list Z) : string := Base64.encode (bufferOf blocks).

(** [NetworkWorldStore.decodeChunkBase64] *)
Definition decodeChunkBase64 (base64 : string) : option (list Z) :=
  raw ← Base64.decode base64;
  uint16ArrayOf raw.

Definition isUint16 (v : Z) : Prop := 0 <= v < 65536.
Definition isByte (v : Z) : Prop := 0 <= v < 256.

End Wire.

(* ===================================================================== *)
(** ** server/world.ts *)
(* ===================================================================== *)

Module AuthoritativeWorld.
Import JS Config Chunk Generator.

(** [files] is the content of the room's chunk directory. *)
Record t := {
  generator : WorldGenerator;
  chunksDir : string;
  files : gmap string (list Z);
  chunks : gmap string ChunkData;
  dirty : gset string
}.

Definition new (seed : Z) (roomDir : string) (files0 : gmap string (list Z)) : t :=
  {| generator := newWorldGenerator seed; chunksDir := roomDir +:+ "/chunks";
     files := files0; chunks := ∅; dirty := ∅ |}.

Definition mod_ (a b : Z) : Z :=
  let r := Z.rem a b in
  if r <? 0 then r + b else r.

Definition chunkPath (w : t) (cx cz : Z) : string :=
  chunksDir w +:+ "/" +:+ showZ cx +:+ "_" +:+ showZ cz +:+ ".bin".

(** [raw.byteLength / 2 === BLOCKS_PER_CHUNK] holds exactly for a file of
    twice that many bytes. *)
Definition readChunkFile (w : t) (cx cz : Z) : ChunkData :=
  match files w !! chunkPath w cx cz with
  | Some raw =>
      if Z.of_nat (length raw) =? 2 * BLOCKS_PER_CHUNK then
        match Wire.uint16ArrayOf raw with
        | Some b => newChunkData cx cz (Some b)
        | None => generateChunk (generator w) cx cz
        end
      else generateChunk (generator w) cx cz
  | None => generateChunk (generator w) cx cz
  end.

Definition getChunk (w : t) (cx cz : Z) : ChunkData * t :=
  let key := chunkKey cx cz in
  match chunks w !! key with
  | Some cached => (cached, w)
  | None =>
      let chunk := readChunkFile w cx cz in
      (chunk, {| generator := generator w; chunksDir := chunksDir w; files := files w;
                 chunks := <[key := chunk]> (chunks w); dirty := dirty w |})
  end.

Definition getBlock (w : t) (x y z : Z) : option Z * t :=
  if (y <? 0) || (WORLD_HEIGHT <=? y) then (Some BlockId.Air, w)
  else
    let fx := x in
    let fz := z in
    let cx := fx / CHUNK_SIZE in
    let cz := fz / CHUNK_SIZE in
    let lx := mod_ fx CHUNK_SIZE in
    let lz := mod_ fz CHUNK_SIZE in
    let '(chunk, w) := getChunk w cx cz in
    (get chunk lx y lz, w).

Definition setBlock (w : t) (x y z block : Z) : bool * t :=
  if (y <? 0) || (WORLD_HEIGHT <=? y) then (false, w)
  else
    let fx := x in
    let fz := z in
    let cx := fx / CHUNK_SIZE in
    let cz := fz / CHUNK_SIZE in
    let lx := mod_ fx CHUNK_SIZE in
    let lz := mod_ fz CHUNK_SIZE in
    let key := chunkKey cx cz in
    let '(chunk, w) := getChunk w cx cz in
    let old := get chunk lx y lz in
    if bool_decide (old = Some block) then (false, w)
    else
      (true, {| generator := generator w; chunksDir := chunksDir w; files := files w;
                chunks := <[key := set chunk lx y lz block]> (chunks w);
                dirty := {[key]} ∪ dirty w |}).

Definition encodeChunkBase64 (w : t) (cx cz : Z) : string * t :=
  let '(chunk, w) := getChunk w cx cz in
  (Wire.blocksToBase64 (blocks chunk), w).

(** One turn of the loop of [flushDirtyChunks]. *)
Definition flushOne (w : t) (key : string) (fs : gmap string (list Z))
  : gmap string (list Z) :=
  match parseChunkKey key, chunks w !! key with
  | (Some cx, Some cz), Some chunk => <[chunkPath w cx cz := Wire.bufferOf (blocks chunk)]> fs
  | _, _ => fs
  end.

Definition flushDirtyChunks (w : t) : t :=
  {| generator := generator w; chunksDir := chunksDir w;
     files := fold_left (fun fs key => flushOne w key fs) (elements (dirty w)) (files w);
     chunks := chunks w; dirty := ∅ |}.

End AuthoritativeWorld.

(* ===================================================================== *)
(** ** shared/protocol.ts, blocks.ts, server/inventory.ts, server/physics.ts *)
(* ===================================================================== *)

Module Protocol.

Inductive SharedItemId :=
| grass_block | dirt | stone | wood | leaves | sand | plank | stick | pickaxe.

Global Instance SharedItemId_eq_dec : EqDecision SharedItemId.
Proof. solve_decision. Defined.

Record SharedItemStack := { item : SharedItemId; count : Z }.

Global Instance SharedItemStack_eq_dec : EqDecision SharedItemStack.
Proof. solve_decision. Defined.

Record NetPlayerState := {
  np_id : string;
  np_nickname : string;
  np_x : float; np_y : float; np_z : float;
  np_vx : float; np_vy : float; np_vz : float;
  np_yaw : float; np_pitch : float;
  np_health : float;
  np_selectedSlot : Z;
  np_hotbar : list (option SharedItemStack);
  np_lastProcessedSeq : option Z
}.

Record NetMobState := { nm_id : Z; nm_x : float; nm_y : float; nm_z : float; nm_health : float }.

Record BlockDelta := { bd_x : Z; bd_y : Z; bd_z : Z; bd_block : Z }.

Inductive ServerMessage :=
| welcome (playerId : string) (serverTick seed : Z) (roomCode : string) (maxPlayers : Z)
| snapshot (tick : Z) (players : list NetPlayerState) (mobs : list NetMobState)
           (changedBlocks : list BlockDelta)
| chunk_data (cx cz : Z) (blocksBase64 : string)
| inventory_update (hotbar : list (option SharedItemStack)) (selectedSlot : Z)
| event (kind : string)
| error (code message : string)
| pong (clientTime : float) (serverTime : Z).

End Protocol.

Module Blocks.
Import Protocol.

Record BlockDefinition := {
  id : Z;
  name : string;
  solid : bool;
  hardness : float;
  color : Z;
  drop : option SharedItemId
}.

(** [BLOCK_DEFS[code]]; a code without an entry reads [undefined]. *)
Definition BLOCK_DEFS (code : Z) : option BlockDefinition :=
  if code =? BlockId.Air then
    Some {| id := BlockId.Air; name := "Air"; solid := false; hardness := 0;
            color := 0x000000; drop := None |}
  else if code =? BlockId.Grass then
    Some {| id := BlockId.Grass; name := "Grass"; solid := true; hardness := 1.2;
            color := 0x4a9a3c; drop := Some grass_block |}
  else if code =? BlockId.Dirt then
    Some {| id := BlockId.Dirt; name := "Dirt"; solid := true; hardness := 1.0;
            color := 0x8f5f3b; drop := Some dirt |}
  else if code =? BlockId.Stone then
    Some {| id := BlockId.Stone; name := "Stone"; solid := true; hardness := 2.2;
            color := 0x7f7f88; drop := Some stone |}
  else if code =? BlockId.Wood then
    Some {| id := BlockId.Wood; name := "Wood"; solid := true; hardness := 1.6;
            color := 0x8f6a2f; drop := Some wood |}
  else if code =? BlockId.Leaves then
    Some {| id := BlockId.Leaves; name := "Leaves"; solid := true; hardness := 0.4;
            color := 0x2d7b3f; drop := Some leaves |}
  else if code =? BlockId.Sand then
    Some {| id := BlockId.Sand; name := "Sand"; solid := true; hardness := 0.9;
            color := 0xd5c387; drop := Some sand |}
  else if code =? BlockId.Water then
    Some {| id := BlockId.Water; name := "Water"; solid := false; hardness := 0;
            color := 0x3a72b7; drop := None |}
  else None.

Definition itemToBlockId (i : SharedItemId) : option Z :=
  match i with
  | grass_block => Some BlockId.Grass
  | dirt => Some BlockId.Dirt
  | stone => Some BlockId.Stone
  | wood => Some BlockId.Wood
  | leaves => Some BlockId.Leaves
  | sand => Some BlockId.Sand
  | _ => None
  end.

End Blocks.

Module ServerInventory.
Import Config Protocol.

Record t := { hotbar : list (option SharedItemStack); selectedSlot : Z }.

(** [a[i]]: [undefined], here [None], outside the array. *)
Definition at_ {A : Type} (l : list A) (i : Z) : option A :=
  if i <? 0 then None else l !! Z.to_nat i.

(** [a[i] = v] for [i >= 0]: a store past the end extends the array; the
    holes it leaves read as empty slots. *)
Definition store {A : Type} (l : list (option A)) (i : Z) (v : option A) : list (option A) :=
  if (Z.to_nat i <? length l)%nat then <[Z.to_nat i := v]> l
  else l ++ replicate (Z.to_nat i - length l)%nat None ++ [v].

Definition createStarterInventory : t :=
  {| selectedSlot := 0;
     hotbar := [ Some {| item := grass_block; count := 32 |};
                 Some {| item := dirt; count := 32 |};
                 Some {| item := stone; count := 32 |};
                 Some {| item := wood; count := 16 |};
                 Some {| item := sand; count := 16 |};
                 None; None; None; None ] |}.

(** The first loop of [addItem]: top up the stacks of the item.  The flag
    says that the loop returned from the function. *)
Fixpoint topUp (i : SharedItemId) (slots : list (option SharedItemStack)) (remaining : Z)
  : list (option SharedItemStack) * Z * bool :=
  match slots with
  | [] => ([], remaining, false)
  | slot :: rest =>
      match slot with
      | Some st =>
          if negb (bool_decide (item st = i)) || (MAX_STACK <=? count st) then
            let '(rest', r, done) := topUp i rest remaining in (slot :: rest', r, done)
          else
            let canTake := Z.min (MAX_STACK - count st) remaining in
            let st' := {| item := item st; count := count st + canTake |} in
            let remaining := remaining - canTake in
            if remaining =? 0 then (Some st' :: rest, 0, true)
            else
              let '(rest', r, done) := topUp i rest remaining in (Some st' :: rest', r, done)
      | None =>
          let '(rest', r, done) := topUp i rest remaining in (slot :: rest', r, done)
      end
  end.

(** The second loop: fill the empty slots [from .. HOTBAR_SIZE - 1]. *)
Fixpoint fillEmpty (i : SharedItemId) (n : nat) (from : Z)
    (slots : list (option SharedItemStack)) (remaining : Z)
  : list (option SharedItemStack) * Z :=
  match n with
  | O => (slots, remaining)
  | S k =>
      match at_ slots from with
      | Some (Some _) => fillEmpty i k (from + 1) slots remaining
      | _ =>
          let add := Z.min MAX_STACK remaining in
          let slots := store slots from (Some {| item := i; count := add |}) in
          let remaining := remaining - add in
          if remaining =? 0 then (slots, 0)
          else fillEmpty i k (from + 1) slots remaining
      end
  end.

Definition addItem (inv : t) (i : SharedItemId) (n : Z) : Z * t :=
  let '(slots, remaining, done) := topUp i (hotbar inv) n in
  if done then (0, {| hotbar := slots; selectedSlot := selectedSlot inv |})
  else
    let '(slots, remaining) := fillEmpty i (Z.to_nat HOTBAR_SIZE) 0 slots remaining in
    (remaining, {| hotbar := slots; selectedSlot := selectedSlot inv |}).

Definition consumeSelected (inv : t) (n : Z) : bool * t :=
  match at_ (hotbar inv) (selectedSlot inv) with
  | Some (Some slot) =>
      if count slot <? n then (false, inv)
      else
        let slot' := {| item := item slot; count := count slot - n |} in
        let v := if count slot' <=? 0 then None else Some slot' in
        (true, {| hotbar := <[Z.to_nat (selectedSlot inv) := v]> (hotbar inv);
                  selectedSlot := selectedSlot inv |})
  | _ => (false, inv)
  end.

Definition serializeInventory (inv : t) : list (option SharedItemStack) * Z :=
  (map (fun slot => match slot with
                    | Some st => Some {| item := item st; count := count st |}
                    | None => None
                    end) (hotbar inv),
   selectedSlot inv).

End ServerInventory.

Module Physics.

Record Vec3 := { x : float; y : float; z : float }.

Definition vec3 (x y z : float) : Vec3 := {| x := x; y := y; z := z |}.

Definition distanceSquared (a b : Vec3) : float :=
  let dx := (x a - x b)%float in
  let dy := (y a - y b)%float in
  let dz := (z a - z b)%float in
  (dx * dx + dy * dy + dz * dz)%float.

Record CollisionBody := { halfWidth : float; height : float }.

Definition aabbIntersectsBlock (position : Vec3) (body : CollisionBody) (bx by_ bz : float)
  : bool :=
  let minX := (x position - halfWidth body)%float in
  let maxX := (x position + halfWidth body)%float in
  let minY := y position in
  let maxY := (y position + height body)%float in
  let minZ := (z position - halfWidth body)%float in
  let maxZ := (z position + halfWidth body)%float in
  PrimFloat.ltb minX (bx + 1)%float && PrimFloat.ltb bx maxX &&
  PrimFloat.ltb minY (by_ + 1)%float && PrimFloat.ltb by_ maxY &&
  PrimFloat.ltb minZ (bz + 1)%float && PrimFloat.ltb bz maxZ.

End Physics.

(* ===================================================================== *)
(** ** server/room.ts: the two block actions *)
(* ===================================================================== *)

Module RoomServer.
Import JS Config Protocol Blocks.

Record PlayerControl := {
  seq : Z; dt : float; moveX : float; moveZ : float;
  jump : bool; sprint : bool; c_yaw : float; c_pitch : float
}.

Record ServerPlayer := {
  id : string;
  ws : Z;
  nickname : string;
  position : Physics.Vec3;
  velocity : Physics.Vec3;
  yaw : float;
  pitch : float;
  health : float;
  onGround : bool;
  inventory : ServerInventory.t;
  knownChunks : gset string;
  control : PlayerControl;
  lastMineAtMs : Z;
  lastAttackAtMs : Z;
  lastProcessedSeq : Z
}.

Record ServerMob := {
  mob_id : Z;
  mob_position : Physics.Vec3;
  mob_velocity : Physics.Vec3;
  mob_health : float;
  mob_onGround : bool;
  attackCooldown : float
}.

(** The fields of the class, and the two things outside it that the
    handlers touch: which sockets are open, and what was sent on them. *)
Record t := {
  roomCode : string;
  maxPlayers : Z;
  world : AuthoritativeWorld.t;
  players : gmap string ServerPlayer;
  socketToPlayerId : gmap Z string;
  changedBlocks : list BlockDelta;
  mobs : gmap Z ServerMob;
  tick : Z;
  saveTimerTicks : Z;
  mobSpawnTimerTicks : Z;
  playerCounter : Z;
  mobCounter : Z;
  openSockets : gset Z;
  sent : list (Z * ServerMessage)
}.

Definition withWorld (s : t) (w : AuthoritativeWorld.t) : t :=
  {| roomCode := roomCode s; maxPlayers := maxPlayers s; world := w;
     players := players s; socketToPlayerId := socketToPlayerId s;
     changedBlocks := changedBlocks s; mobs := mobs s; tick := tick s;
     saveTimerTicks := saveTimerTicks s; mobSpawnTimerTicks := mobSpawnTimerTicks s;
     playerCounter := playerCounter s; mobCounter := mobCounter s;
     openSockets := openSockets s; sent := sent s |}.

Definition pushChangedBlock (s : t) (d : BlockDelta) : t :=
  {| roomCode := roomCode s; maxPlayers := maxPlayers s; world := world s;
     players := players s; socketToPlayerId := socketToPlayerId s;
     changedBlocks := changedBlocks s ++ [d]; mobs := mobs s; tick := tick s;
     saveTimerTicks := saveTimerTicks s; mobSpawnTimerTicks := mobSpawnTimerTicks s;
     playerCounter := playerCounter s; mobCounter := mobCounter s;
     openSockets := openSockets s; sent := sent s |}.

Definition withInventory (p : ServerPlayer) (inv : ServerInventory.t) : ServerPlayer :=
  {| id := id p; ws := ws p; nickname := nickname p; position := position p;
     velocity := velocity p; yaw := yaw p; pitch := pitch p; health := health p;
     onGround := onGround p; inventory := inv; knownChunks := knownChunks p;
     control := control p; lastMineAtMs := lastMineAtMs p;
     lastAttackAtMs := lastAttackAtMs p; lastProcessedSeq := lastProcessedSeq p |}.

Definition withLastMineAtMs (p : ServerPlayer) (now : Z) : ServerPlayer :=
  {| id := id p; ws := ws p; nickname := nickname p; position := position p;
     velocity := velocity p; yaw := yaw p; pitch := pitch p; health := health p;
     onGround := onGround p; inventory := inventory p; knownChunks := knownChunks p;
     control := control p; lastMineAtMs := now;
     lastAttackAtMs := lastAttackAtMs p; lastProcessedSeq := lastProcessedSeq p |}.

Definition sendRaw (s : t) (socket : Z) (message : ServerMessage) : t :=
  if bool_decide (socket ∈ openSockets s) then
    {| roomCode := roomCode s; maxPlayers := maxPlayers s; world := world s;
       players := players s; socketToPlayerId := socketToPlayerId s;
       changedBlocks := changedBlocks s; mobs := mobs s; tick := tick s;
       saveTimerTicks := saveTimerTicks s; mobSpawnTimerTicks := mobSpawnTimerTicks s;
       playerCounter := playerCounter s; mobCounter := mobCounter s;
       openSockets := openSockets s; sent := sent s ++ [(socket, message)] |}
  else s.

Definition send (s : t) (player : ServerPlayer) (message : ServerMessage) : t :=
  sendRaw s (ws player) message.

Definition sendInventory (s : t) (player : ServerPlayer) : t :=
  let inv := ServerInventory.serializeInventory (inventory player) in
  send s player (inventory_update (fst inv) (snd inv)).

Definition withinReach (player : ServerPlayer) (x y z range : float) : bool :=
  let eye := Physics.vec3 (Physics.x (position player))
                          (Physics.y (position player) + PLAYER_EYE_HEIGHT)%float
                          (Physics.z (position player)) in
  let center := Physics.vec3 (x + 0.5)%float (y + 0.5)%float (z + 0.5)%float in
  PrimFloat.leb (Physics.distanceSquared eye center) (range * range)%float.

(** The statement at which a handler left. *)
Inductive MineExit :=
| MineOutOfReach | MineNothingThere | MineThrew | MineTooSoon | MineUnchanged | Mined.

Inductive PlaceExit :=
| PlaceBadSlot | PlaceEmptySlot | PlaceNotABlock | PlaceOutOfWorld | PlaceOutOfReach
| PlaceOccupied | PlaceInsidePlayer | PlaceNothingToConsume | PlaceUnchanged | Placed.

(** The player object is the one stored in [players]; it is passed in and
    handed back.  [now] is the value of [Date.now()].  The target is floored
    to numbers first; the world is asked at their integer values. *)
Definition handleMineAction (s : t) (player : ServerPlayer) (x y z : float) (now : Z)
  : MineExit * t * ServerPlayer :=
  let bx := Math_floor x in
  let by_ := Math_floor y in
  let bz := Math_floor z in
  if negb (withinReach player bx by_ bz 6.2) then (MineOutOfReach, s, player)
  else
    let '(block, w) :=
      AuthoritativeWorld.getBlock (world s) (truncZ bx) (truncZ by_) (truncZ bz) in
    let s := withWorld s w in
    if bool_decide (block = Some BlockId.Air) || bool_decide (block = Some BlockId.Water)
    then (MineNothingThere, s, player)
    else
      match block ≫= BLOCK_DEFS with
      | None => (MineThrew, s, player)
      | Some def =>
          let hardness := Math_max 0.2 (hardness def) in
          let minIntervalMs := (hardness * 180)%float in
          if PrimFloat.ltb (ofZ now - ofZ (lastMineAtMs player))%float minIntervalMs
          then (MineTooSoon, s, player)
          else
            let '(changed, w) :=
              AuthoritativeWorld.setBlock (world s) (truncZ bx) (truncZ by_) (truncZ bz)
                                          BlockId.Air in
            let s := withWorld s w in
            if changed then
              let player := withLastMineAtMs player now in
              let s := pushChangedBlock s
                         {| bd_x := truncZ bx; bd_y := truncZ by_; bd_z := truncZ bz;
                            bd_block := BlockId.Air |} in
              match drop def with
              | Some d =>
                  let player :=
                    withInventory player (snd (ServerInventory.addItem (inventory player) d 1)) in
                  (Mined, sendInventory s player, player)
              | None => (Mined, s, player)
              end
            else (MineUnchanged, s, player)
      end.

Definition handlePlaceAction (s : t) (player : ServerPlayer)
    (target normal : Physics.Vec3) (selectedSlot : Z)
  : PlaceExit * t * ServerPlayer :=
  if (selectedSlot <? 0) || (HOTBAR_SIZE <=? selectedSlot) then (PlaceBadSlot, s, player)
  else
    let player :=
      withInventory player
        {| ServerInventory.hotbar := ServerInventory.hotbar (inventory player);
           ServerInventory.selectedSlot := selectedSlot |} in
    match ServerInventory.at_ (ServerInventory.hotbar (inventory player)) selectedSlot with
    | Some (Some slot) =>
        match itemToBlockId (item slot) with
        | None => (PlaceNotABlock, s, player)
        | Some placeBlock =>
            let px := Math_floor (Physics.x target + Physics.x normal)%float in
            let py := Math_floor (Physics.y target + Physics.y normal)%float in
            let pz := Math_floor (Physics.z target + Physics.z normal)%float in
            if PrimFloat.ltb py 0 || PrimFloat.leb (ofZ WORLD_HEIGHT) py
            then (PlaceOutOfWorld, s, player)
            else if negb (withinReach player px py pz 6.2) then (PlaceOutOfReach, s, player)
            else
              let '(existing, w) :=
                AuthoritativeWorld.getBlock (world s) (truncZ px) (truncZ py) (truncZ pz) in
              let s := withWorld s w in
              if negb (bool_decide (existing = Some BlockId.Air)) &&
                 negb (bool_decide (existing = Some BlockId.Water))
              then (PlaceOccupied, s, player)
              else if Physics.aabbIntersectsBlock (position player)
                        {| Physics.halfWidth := PLAYER_HALF_WIDTH;
                           Physics.height := PLAYER_HEIGHT |} px py pz
              then (PlaceInsidePlayer, s, player)
              else
                let '(ok, inv) := ServerInventory.consumeSelected (inventory player) 1 in
                if negb ok then (PlaceNothingToConsume, s, player)
                else
                  let player := withInventory player inv in
                  let '(changed, w) :=
                    AuthoritativeWorld.setBlock (world s) (truncZ px) (truncZ py) (truncZ pz)
                                                placeBlock in
                  let s := withWorld s w in
                  if changed then
                    let s := pushChangedBlock s
                               {| bd_x := truncZ px; bd_y := truncZ py; bd_z := truncZ pz;
                                  bd_block := placeBlock |} in
                    (Placed, sendInventory s player, player)
                  else (PlaceUnchanged, s, player)
        end
    | _ => (PlaceEmptySlot, s, player)
    end.

End RoomServer.

(* ===================================================================== *)
(** ** game/multiplayerGame.ts: reconciliation of the local player *)
(* ===================================================================== *)

Module MultiplayerGame.
Import JS Config Protocol.

(** [THREE.Vector3], with the three methods used on it. *)
Record Vector3 := { x : float; y : float; z : float }.

Definition distanceTo (a v : Vector3) : float :=
  let dx := (x a - x v)%float in
  let dy := (y a - y v)%float in
  let dz := (z a - z v)%float in
  PrimFloat.sqrt (dx * dx + dy * dy + dz * dz)%float.

Definition lerp (a v : Vector3) (alpha : float) : Vector3 :=
  {| x := (x a + (x v - x a) * alpha)%float;
     y := (y a + (y v - y a) * alpha)%float;
     z := (z a + (z v - z a) * alpha)%float |}.

Record PlayerController := {
  position : Vector3;
  velocity : Vector3;
  yaw : float;
  pitch : float;
  health : float;
  onGround : bool
}.

Record Inventory := { hotbar : list (option SharedItemStack); selectedSlot : Z }.

(** [new Inventory(initial)]: nine empty slots, then the first nine
    entries of [initial] copied over. *)
Definition newInventory (initial : list (option SharedItemStack)) : Inventory :=
  {| hotbar :=
       forRange 0 (Z.min (Z.of_nat (length initial)) HOTBAR_SIZE)
         (fun i h =>
            <[Z.to_nat i := match initial !! Z.to_nat i with
                            | Some (Some stack) =>
                                Some {| item := item stack; count := count stack |}
                            | _ => None
                            end]> h)
         (replicate (Z.to_nat HOTBAR_SIZE) None);
     selectedSlot := 0 |}.

Definition setSelected (inv : Inventory) (index : Z) : Inventory :=
  let next := Z.rem (Z.rem index HOTBAR_SIZE + HOTBAR_SIZE) HOTBAR_SIZE in
  {| hotbar := hotbar inv; selectedSlot := next |}.

Record PendingInput := {
  seq : Z; dt : float; moveX : float; moveZ : float;
  jump : bool; sprint : bool; p_yaw : float; p_pitch : float
}.

Record t := {
  player : PlayerController;
  inventory : Inventory;
  pendingInputs : list PendingInput;
  inputSeq : Z;
  localPlayerId : string;
  tick : Z
}.

Definition initial : t :=
  {| player := {| position := {| x := 0; y := 50; z := 0 |};
                  velocity := {| x := 0; y := 0; z := 0 |};
                  yaw := 0; pitch := 0; health := 20; onGround := false |};
     inventory := newInventory
       [ Some {| item := grass_block; count := 32 |};
         Some {| item := dirt; count := 32 |};
         Some {| item := stone; count := 32 |};
         Some {| item := wood; count := 16 |};
         Some {| item := sand; count := 16 |};
         None; None; None; None ];
     pendingInputs := [];
     inputSeq := 0;
     localPlayerId := "";
     tick := 0 |}.

(** [while (pending.length > 0 && pending[0].seq <= last) pending.shift()] *)
Fixpoint shiftAcknowledged (last : Z) (pending : list PendingInput) : list PendingInput :=
  match pending with
  | [] => []
  | p :: rest => if seq p <=? last then shiftAcknowledged last rest else pending
  end.

Definition reconcilePosition (local authPos : Vector3) : Vector3 :=
  let dist := distanceTo authPos local in
  if PrimFloat.ltb 2.5 dist then authPos
  else if PrimFloat.ltb 0.15 dist then lerp local authPos 0.35
  else local.

Definition applyLocalReconciliation (g : t) (state : NetPlayerState) : t :=
  let authPos := {| x := np_x state; y := np_y state; z := np_z state |} in
  let p := player g in
  let p := {| position := reconcilePosition (position p) authPos;
              velocity := {| x := np_vx state; y := np_vy state; z := np_vz state |};
              yaw := np_yaw state;
              pitch := np_pitch state;
              health := np_health state;
              onGround := onGround p |} in
  let inv := setSelected (newInventory (np_hotbar state)) (np_selectedSlot state) in
  let pending := match np_lastProcessedSeq state with
                 | Some last => shiftAcknowledged last (pendingInputs g)
                 | None => pendingInputs g
                 end in
  {| player := p; inventory := inv; pendingInputs := pending;
     inputSeq := inputSeq g; localPlayerId := localPlayerId g; tick := tick g |}.

(** [captureMovementInput], which takes the next sequence number, and
    the part of [updateFixed] that buffers what it returns.  [keys] are the
    pressed keys D, A, S, W, Space, ShiftLeft; [Math.hypot] of two of the
    numbers -1, 0 and 1 is the square root of the sum of their squares. *)
Definition captureMovementInput (g : t) (dt : float)
    (keyD keyA keyS keyW space shiftLeft : bool) : PendingInput * t :=
  let b2f (b : bool) : float := if b then 1%float else 0%float in
  let moveX := (b2f keyD - b2f keyA)%float in
  let moveZ := (b2f keyS - b2f keyW)%float in
  let magnitude := PrimFloat.sqrt (moveX * moveX + moveZ * moveZ)%float in
  let normalizedX := if PrimFloat.ltb 0 magnitude then (moveX / magnitude)%float else 0%float in
  let normalizedZ := if PrimFloat.ltb 0 magnitude then (moveZ / magnitude)%float else 0%float in
  let g := {| player := player g; inventory := inventory g;
              pendingInputs := pendingInputs g; inputSeq := inputSeq g + 1;
              localPlayerId := localPlayerId g; tick := tick g |} in
  ({| seq := inputSeq g; dt := dt; moveX := normalizedX; moveZ := normalizedZ;
      jump := space; sprint := shiftLeft;
      p_yaw := yaw (player g); p_pitch := pitch (player g) |}, g).

(** Not a method of the class: the statements of [updateFixed] from the
    call of [captureMovementInput] to the shift of the buffer,
<<
    const pending = this.captureMovementInput(dt);
    this.pendingInputs.push(pending);
    ...
    if (this.pendingInputs.length > 120) { this.pendingInputs.shift(); }
>>
    on the state as the statements before them left it.  Those statements
    ([handleInventorySelection], [handleCraftingInput], [player.update], the
    block interaction and the combat) change the player and the inventory
    and are not embedded; none of them reads or writes [pendingInputs] or
    [inputSeq], so this part says what a whole [updateFixed] does to these
    two fields, and nothing about what it does to the others. *)
Definition bufferInput (g : t) (dt : float)
    (keyD keyA keyS keyW space shiftLeft : bool) : t :=
  let '(pending, g) := captureMovementInput g dt keyD keyA keyS keyW space shiftLeft in
  let buffered := pendingInputs g ++ [pending] in
  let buffered := if (120 <? length buffered)%nat then tail buffered else buffered in
  {| player := player g; inventory := inventory g; pendingInputs := buffered;
     inputSeq := inputSeq g; localPlayerId := localPlayerId g; tick := tick g |}.

End MultiplayerGame.

(* ===================================================================== *)
(** ** Well-formed data and sample states *)
(* ===================================================================== *)

Global Instance isUint16_dec (v : Z) : Decision (Wire.isUint16 v).
Proof. unfold Wire.isUint16. apply _. Defined.

(** A chunk as the generator and the chunk files produce it: a whole
    [Uint16Array] of 16 x 96 x 16 codes. *)
Definition wellFormed (c : Chunk.ChunkData) : Prop :=
  Z.of_nat (length (Chunk.blocks c)) = Chunk.BLOCKS_PER_CHUNK /\
  Forall Wire.isUint16 (Chunk.blocks c).

Definition at_coords (cx cz : Z) (c : Chunk.ChunkData) : Prop :=
  Chunk.cx c = cx /\ Chunk.cz c = cz.

(** The arrays the server holds are [Uint16Array]s of a whole chunk: a
    cached chunk came from the generator or from a file of the right size. *)
Definition worldWellFormed (w : AuthoritativeWorld.t) : Prop :=
  (forall key c, AuthoritativeWorld.chunks w !! key = Some c -> wellFormed c) /\
  (forall path raw, AuthoritativeWorld.files w !! path = Some raw -> Forall Wire.isByte raw).

(** No character of [s] is the separator. *)
Fixpoint sepFree (sep : ascii) (s : string) : Prop :=
  match s with
  | EmptyString => True
  | String c rest => Ascii.eqb c sep = false /\ sepFree sep rest
  end.

(** The test of [unloadFarChunks] on a key of the chunk map. *)
Definition isFar (center : Z * Z) (radius : Z) (key : string) : bool :=
  WorldStore.farther (fst (Chunk.parseChunkKey key)) (fst center) radius ||
  WorldStore.farther (snd (Chunk.parseChunkKey key)) (snd center) radius.

(** The storage key that [unloadFarChunks] writes a chunk-map key to. *)
Definition storageKeyFor (s : WorldStore.t) (key : string) : string :=
  WorldStore.storageKeyOf s (fst (Chunk.parseChunkKey key)) (snd (Chunk.parseChunkKey key)).

(** What the scheduler keeps true: the key sets are the keys of the queue
    and of the loads in flight, no key twice, and at most two loads. *)
Definition keyOf (c : Z * Z) : string := Chunk.chunkKey (fst c) (snd c).

Definition schedulerOk (y : WorldStore.Sys) : Prop :=
  NoDup (map keyOf (WorldStore.inFlight y)) /\
  WorldStore.loadingKeys (WorldStore.st y) = list_to_set (map keyOf (WorldStore.inFlight y)) /\
  NoDup (map keyOf (WorldStore.loadQueue (WorldStore.st y))) /\
  WorldStore.queuedKeys (WorldStore.st y) =
    list_to_set (map keyOf (WorldStore.loadQueue (WorldStore.st y))) /\
  WorldStore.maxConcurrentLoads (WorldStore.st y) = 2 /\
  (length (WorldStore.inFlight y) <= 2)%nat.

(** The scheduler's own fields. *)
Definition scheduler (s : WorldStore.t) : list (Z * Z) * gset string * gset string * Z :=
  (WorldStore.loadQueue s, WorldStore.queuedKeys s, WorldStore.loadingKeys s,
   WorldStore.maxConcurrentLoads s).

Definition coordsOf (a : WorldStore.Target) : Z * Z := (WorldStore.t_cx a, WorldStore.t_cz a).

(** A target that [queueChunksAround] may push: not resident, not queued,
    not loading. *)
Definition missing (s : WorldStore.t) (c : Z * Z) : Prop :=
  WorldStore.chunks s !! keyOf c = None /\
  (keyOf c ∉ WorldStore.queuedKeys s) /\
  (keyOf c ∉ WorldStore.loadingKeys s).

(** The targets collected so far, while the loops stand at [dx], [dz]. *)
Definition collected (s : WorldStore.t) (center : Z * Z) (dx dz : Z)
    (targets : list WorldStore.Target) : Prop :=
  NoDup (map coordsOf targets) /\
  Forall (fun a => missing s (coordsOf a)) targets /\
  Forall (fun a => WorldStore.t_cx a < fst center + dx \/
                   (WorldStore.t_cx a = fst center + dx /\
                    WorldStore.t_cz a < snd center + dz)) targets.

(** What a handler hands back: the statement it left at, the server, the
    player. *)
Definition exitOf {E : Type} (r : E * RoomServer.t * RoomServer.ServerPlayer) : E :=
  fst (fst r).
Definition serverOf {E : Type} (r : E * RoomServer.t * RoomServer.ServerPlayer)
  : RoomServer.t := snd (fst r).
Definition playerOf {E : Type} (r : E * RoomServer.t * RoomServer.ServerPlayer)
  : RoomServer.ServerPlayer := snd r.

(** The cell that an action names, as the world is asked for it. *)
Definition cellOf (v : float) : Z := JS.truncZ (JS.Math_floor v).

(** The returns of [handlePlaceAction] that reject the action: every one
    but the last, which follows the write of the block. *)
Definition validationFailed (e : RoomServer.PlaceExit) : Prop :=
  e <> RoomServer.Placed.

(** The place action as the specification has it: a rejected action leaves
    no trace, neither a message nor a change of the player or the world. *)
Definition rejectedPlaceLeavesNoTrace : Prop :=
  forall (s : RoomServer.t) (p : RoomServer.ServerPlayer) (target normal : Physics.Vec3)
         (selectedSlot : Z),
    let r := RoomServer.handlePlaceAction s p target normal selectedSlot in
    validationFailed (exitOf r) ->
    RoomServer.sent (serverOf r) = RoomServer.sent s /\
    playerOf r = p /\
    RoomServer.changedBlocks (serverOf r) = RoomServer.changedBlocks s /\
    AuthoritativeWorld.dirty (RoomServer.world (serverOf r)) =
      AuthoritativeWorld.dirty (RoomServer.world s).

(** The buffer of pending inputs as [updateFixed] keeps it: sequence
    numbers strictly increasing, none above the last one handed out. *)
Definition pendingOk (g : MultiplayerGame.t) : Prop :=
  StronglySorted Z.lt (map MultiplayerGame.seq (MultiplayerGame.pendingInputs g)) /\
  Forall (fun p => MultiplayerGame.seq p <= MultiplayerGame.inputSeq g)
         (MultiplayerGame.pendingInputs g).

Module Sample.
Import Protocol.

(** Chunk (0, 0) filled with stone up to height 40. *)
Definition stoneChunk : Chunk.ChunkData :=
  Chunk.newChunkData 0 0
    (Some (replicate (Z.to_nat (40 * 256)) BlockId.Stone ++
           replicate (Z.to_nat (56 * 256)) BlockId.Air)).

Definition serverWorld : AuthoritativeWorld.t :=
  {| AuthoritativeWorld.generator := Generator.newWorldGenerator 42;
     AuthoritativeWorld.chunksDir := "data/alpha/chunks";
     AuthoritativeWorld.files := ∅;
     AuthoritativeWorld.chunks := {[ Chunk.chunkKey 0 0 := stoneChunk ]};
     AuthoritativeWorld.dirty := ∅ |}.

Definition clientStore : WorldStore.t :=
  WorldStore.withChunks (WorldStore.new (Generator.newWorldGenerator 42) 42)
    {[ Chunk.chunkKey 0 0 :=
         {| WorldStore.chunk := stoneChunk; WorldStore.dirty := true;
            WorldStore.meshDirty := false; WorldStore.lastTouched := 0 |};
       Chunk.chunkKey 30 0 :=
         {| WorldStore.chunk := Chunk.newChunkData 30 0 (Some [BlockId.Dirt]);
            WorldStore.dirty := true;
            WorldStore.meshDirty := false; WorldStore.lastTouched := 0 |} ]}.

(** A player standing on the stone at (8.5, 40, 8.5). *)
Definition serverPlayer : RoomServer.ServerPlayer :=
  {| RoomServer.id := "p0"; RoomServer.ws := 1; RoomServer.nickname := "Player";
     RoomServer.position := Physics.vec3 8.5 40 8.5;
     RoomServer.velocity := Physics.vec3 0 0 0;
     RoomServer.yaw := 0; RoomServer.pitch := 0; RoomServer.health := 20;
     RoomServer.onGround := true;
     RoomServer.inventory := ServerInventory.createStarterInventory;
     RoomServer.knownChunks := {[ Chunk.chunkKey 0 0 ]};
     RoomServer.control :=
       {| RoomServer.seq := 0; RoomServer.dt := 0.05; RoomServer.moveX := 0;
          RoomServer.moveZ := 0; RoomServer.jump := false; RoomServer.sprint := false;
          RoomServer.c_yaw := 0; RoomServer.c_pitch := 0 |};
     RoomServer.lastMineAtMs := 0; RoomServer.lastAttackAtMs := 0;
     RoomServer.lastProcessedSeq := 0 |}.

Definition server : RoomServer.t :=
  {| RoomServer.roomCode := "alpha"; RoomServer.maxPlayers := 8;
     RoomServer.world := serverWorld;
     RoomServer.players := {[ "p0" := serverPlayer ]};
     RoomServer.socketToPlayerId := {[ 1 := "p0" ]};
     RoomServer.changedBlocks := []; RoomServer.mobs := ∅; RoomServer.tick := 7;
     RoomServer.saveTimerTicks := 0; RoomServer.mobSpawnTimerTicks := 0;
     RoomServer.playerCounter := 1; RoomServer.mobCounter := 0;
     RoomServer.openSockets := {[ 1 ]}; RoomServer.sent := [] |}.

(** The client after three fixed updates, and a snapshot entry for it that
    acknowledges the first two inputs. *)
Definition client : MultiplayerGame.t :=
  MultiplayerGame.bufferInput
    (MultiplayerGame.bufferInput
       (MultiplayerGame.bufferInput MultiplayerGame.initial 0.016 true false false false false false)
       0.016 true false false true false false)
    0.016 false false false true true false.

Definition snapshotEntry : NetPlayerState :=
  {| np_id := "p0"; np_nickname := "Player";
     np_x := 0.1; np_y := 41; np_z := 0.2;
     np_vx := 1.5; np_vy := -0.5; np_vz := 0.25;
     np_yaw := 0.75; np_pitch := -0.125; np_health := 18;
     np_selectedSlot := 3;
     np_hotbar := [ Some {| item := grass_block; count := 31 |};
                    Some {| item := dirt; count := 32 |};
                    Some {| item := stone; count := 33 |};
                    None; None; None; None; None;
                    Some {| item := pickaxe; count := 1 |} ];
     np_lastProcessedSeq := Some 2 |}.

(** Two mine actions on the stone under the player, 100 ms apart. *)
Definition firstMine : RoomServer.MineExit * RoomServer.t * RoomServer.ServerPlayer :=
  RoomServer.handleMineAction server serverPlayer 8 39 8 1700000000000.

Definition secondMine : RoomServer.MineExit * RoomServer.t * RoomServer.ServerPlayer :=
  RoomServer.handleMineAction (serverOf firstMine) (playerOf firstMine) 8 39 8 1700000000100.

(** A place action with the second hotbar slot, on a cell far away, and
    one on the cell right in front of the player's feet. *)
Definition farPlace : RoomServer.PlaceExit * RoomServer.t * RoomServer.ServerPlayer :=
  RoomServer.handlePlaceAction server serverPlayer
    (Physics.vec3 1000 39 1000) (Physics.vec3 0 1 0) 1.

Definition occupiedPlace : RoomServer.PlaceExit * RoomServer.t * RoomServer.ServerPlayer :=
  RoomServer.handlePlaceAction server serverPlayer
    (Physics.vec3 10 39 8) (Physics.vec3 0 (-1) 0) 2.

End Sample.

(* ===================================================================== *)
(** ** blocks.ts: the two look-ups by block id *)
(* ===================================================================== *)

(** [BLOCK_DEFS[blockId]] of a value that is no block id is [undefined],
    and reading a field of it throws: [None] stands for the exception. *)
Module BlockTable.
Import Protocol Blocks.

(** [BLOCK_DEFS[blockId].drop ?? null] *)
Definition blockIdToDrop (blockId : Z) : option (option SharedItemId) :=
  match BLOCK_DEFS blockId with
  | Some def => Some (drop def)
  | None => None
  end.

Definition isSolidBlock (blockId : Z) : option bool :=
  match BLOCK_DEFS blockId with
  | Some def => Some (solid def)
  | None => None
  end.

End BlockTable.

(* ===================================================================== *)
(** ** server/inventory.ts (the counting and removing functions) and
       server/crafting.ts *)
(* ===================================================================== *)

Module Crafting.
Import Config Protocol ServerInventory.

(** [countItem]: the loop adds the count of every slot that holds the item. *)
Definition countItem (inv : ServerInventory.t) (i : SharedItemId) : Z :=
  fold_left (fun count slot =>
               match slot with
               | Some st => if bool_decide (item st = i) then count + Protocol.count st else count
               | None => count
               end) (hotbar inv) 0.

(** The loop of [removeItem] over the slots [from .. HOTBAR_SIZE - 1]. *)
Fixpoint removeLoop (i : SharedItemId) (n : nat) (from : Z)
    (slots : list (option SharedItemStack)) (remaining : Z)
  : list (option SharedItemStack) :=
  match n with
  | O => slots
  | S k =>
      match at_ slots from with
      | Some (Some st) =>
          if negb (bool_decide (item st = i)) then removeLoop i k (from + 1) slots remaining
          else
            let used := Z.min (Protocol.count st) remaining in
            let st' := {| item := item st; count := Protocol.count st - used |} in
            let remaining := remaining - used in
            let slots :=
              <[Z.to_nat from := if Protocol.count st' =? 0 then None else Some st']> slots in
            if remaining =? 0 then slots
            else removeLoop i k (from + 1) slots remaining
      | _ => removeLoop i k (from + 1) slots remaining
      end
  end.

Definition removeItem (inv : ServerInventory.t) (i : SharedItemId) (n : Z)
  : bool * ServerInventory.t :=
  if countItem inv i <? n then (false, inv)
  else (true, {| hotbar := removeLoop i (Z.to_nat HOTBAR_SIZE) 0 (hotbar inv) n;
                 selectedSlot := selectedSlot inv |}).

Record Recipe := {
  recipe_id : string;
  inputs : list (SharedItemId * Z);
  output : SharedItemId * Z
}.

Definition RECIPES : list Recipe :=
  [ {| recipe_id := "planks"; inputs := [(wood, 1)]; output := (plank, 4) |};
    {| recipe_id := "sticks"; inputs := [(plank, 2)]; output := (stick, 4) |};
    {| recipe_id := "pickaxe"; inputs := [(plank, 3); (stick, 2)]; output := (pickaxe, 1) |} ].

(** The first loop returns [false] at the first input that is short; the
    second removes the inputs in order; what [addItem] could not store is
    dropped. *)
Definition craftRecipe (inv : ServerInventory.t) (recipeId : string)
  : bool * ServerInventory.t :=
  match List.find (fun candidate => bool_decide (recipe_id candidate = recipeId)) RECIPES with
  | None => (false, inv)
  | Some recipe =>
      if existsb (fun input => countItem inv (fst input) <? snd input) (inputs recipe)
      then (false, inv)
      else
        let inv := fold_left (fun inv input => snd (removeItem inv (fst input) (snd input)))
                             (inputs recipe) inv in
        (true, snd (addItem inv (fst (output recipe)) (snd (output recipe))))
  end.

End Crafting.

(* ===================================================================== *)
(** ** game/inventory.ts: the client inventory *)
(* ===================================================================== *)

(** The class is [MultiplayerGame.Inventory]: a hotbar and a selected slot.
    [remove], [consumeSelected], [count] and the second loop of [add] are,
    statement for statement, the server's [removeItem], [consumeSelected],
    [countItem] and second loop of [addItem]; they are taken from there.
    The first loop of [add] runs over the indices below [HOTBAR_SIZE], not
    over the slots of the array. *)
Module Inventory.
Import Config Protocol.

Definition createStarterInventory : MultiplayerGame.Inventory :=
  MultiplayerGame.newInventory
    [ Some {| item := grass_block; count := 32 |};
      Some {| item := dirt; count := 32 |};
      Some {| item := stone; count := 32 |};
      Some {| item := wood; count := 16 |};
      Some {| item := sand; count := 16 |};
      None; None; None; None ].

Definition scrollSelected (inv : MultiplayerGame.Inventory) (step : Z)
  : MultiplayerGame.Inventory :=
  MultiplayerGame.setSelected inv (MultiplayerGame.selectedSlot inv + step).

Definition getSelectedStack (inv : MultiplayerGame.Inventory) : option SharedItemStack :=
  match ServerInventory.at_ (MultiplayerGame.hotbar inv) (MultiplayerGame.selectedSlot inv) with
  | Some (Some stack) => Some {| item := item stack; count := count stack |}
  | _ => None
  end.

(** The first loop of [add], over the slots [from .. HOTBAR_SIZE - 1]. *)
Fixpoint topUp (i : SharedItemId) (n : nat) (from : Z)
    (slots : list (option SharedItemStack)) (remaining : Z)
  : list (option SharedItemStack) * Z * bool :=
  match n with
  | O => (slots, remaining, false)
  | S k =>
      match ServerInventory.at_ slots from with
      | Some (Some st) =>
          if negb (bool_decide (item st = i)) || (MAX_STACK <=? count st)
          then topUp i k (from + 1) slots remaining
          else
            let canTake := Z.min (MAX_STACK - count st) remaining in
            let st' := {| item := item st; count := count st + canTake |} in
            let slots := <[Z.to_nat from := Some st']> slots in
            let remaining := remaining - canTake in
            if remaining =? 0 then (slots, 0, true)
            else topUp i k (from + 1) slots remaining
      | _ => topUp i k (from + 1) slots remaining
      end
  end.

Definition add (inv : MultiplayerGame.Inventory) (i : SharedItemId) (n : Z)
  : Z * MultiplayerGame.Inventory :=
  let '(slots, remaining, done) :=
    topUp i (Z.to_nat HOTBAR_SIZE) 0 (MultiplayerGame.hotbar inv) n in
  if done then (0, {| MultiplayerGame.hotbar := slots;
                      MultiplayerGame.selectedSlot := MultiplayerGame.selectedSlot inv |})
  else
    let '(slots, remaining) :=
      ServerInventory.fillEmpty i (Z.to_nat HOTBAR_SIZE) 0 slots remaining in
    (remaining, {| MultiplayerGame.hotbar := slots;
                   MultiplayerGame.selectedSlot := MultiplayerGame.selectedSlot inv |}).

(** The same data as the server's record. *)
Definition toServer (inv : MultiplayerGame.Inventory) : ServerInventory.t :=
  {| ServerInventory.hotbar := MultiplayerGame.hotbar inv;
     ServerInventory.selectedSlot := MultiplayerGame.selectedSlot inv |}.

Definition ofServer (inv : ServerInventory.t) : MultiplayerGame.Inventory :=
  {| MultiplayerGame.hotbar := ServerInventory.hotbar inv;
     MultiplayerGame.selectedSlot := ServerInventory.selectedSlot inv |}.

Definition remove (inv : MultiplayerGame.Inventory) (i : SharedItemId) (n : Z)
  : bool * MultiplayerGame.Inventory :=
  let r := Crafting.removeItem (toServer inv) i n in (fst r, ofServer (snd r)).

Definition consumeSelected (inv : MultiplayerGame.Inventory) (n : Z)
  : bool * MultiplayerGame.Inventory :=
  let r := ServerInventory.consumeSelected (toServer inv) n in (fst r, ofServer (snd r)).

Definition count (inv : MultiplayerGame.Inventory) (i : SharedItemId) : Z :=
  Crafting.countItem (toServer inv) i.

Definition serialize (inv : MultiplayerGame.Inventory) : list (option SharedItemStack) :=
  fst (ServerInventory.serializeInventory (toServer inv)).

End Inventory.

(* ===================================================================== *)
(** ** net/networkWorld.ts: the client's copy of the server world *)
(* ===================================================================== *)

Module NetworkWorldStore.
Import JS Config Chunk.

(** [blocks] is the [Uint16Array] that came with the chunk message. *)
Record ChunkState := { blocks : list Z; meshDirty : bool }.

Record t := { chunks : gmap string ChunkState }.

Definition index (lx y lz : Z) : Z := lx + lz * CHUNK_SIZE + y * CHUNK_SIZE * CHUNK_SIZE.

(** [((f % CHUNK_SIZE) + CHUNK_SIZE) % CHUNK_SIZE] *)
Definition localOf (f : Z) : Z := Z.rem (Z.rem f CHUNK_SIZE + CHUNK_SIZE) CHUNK_SIZE.

Definition hasChunk (s : t) (cx cz : Z) : bool :=
  bool_decide (is_Some (chunks s !! chunkKey cx cz)).

Definition getLoadedChunkCount (s : t) : Z := Z.of_nat (size (chunks s)).

(** A read past the end of the array is [undefined], here [None]. *)
Definition getBlock (s : t) (x y z : Z) : option Z :=
  if (y <? 0) || (WORLD_HEIGHT <=? y) then Some BlockId.Air
  else
    let fx := x in
    let fz := z in
    let cx := fx / CHUNK_SIZE in
    let cz := fz / CHUNK_SIZE in
    let lx := localOf fx in
    let lz := localOf fz in
    match chunks s !! chunkKey cx cz with
    | None => Some BlockId.Air
    | Some state => blocks state !! Z.to_nat (index lx y lz)
    end.

Definition markChunkDirty (s : t) (cx cz : Z) : t :=
  match chunks s !! chunkKey cx cz with
  | Some state =>
      {| chunks := <[chunkKey cx cz := {| blocks := blocks state; meshDirty := true |}]>
                     (chunks s) |}
  | None => s
  end.

(** [markNeighborChunksDirty(cx, cz)], without the local coordinates, and
    with them. *)
Definition markNeighborChunksDirty (s : t) (cx cz : Z) : t :=
  let s := markChunkDirty s (cx - 1) cz in
  let s := markChunkDirty s (cx + 1) cz in
  let s := markChunkDirty s cx (cz - 1) in
  markChunkDirty s cx (cz + 1).

Definition markNeighborChunksDirtyAt (s : t) (cx cz lx lz : Z) : t :=
  let s := if lx =? 0 then markChunkDirty s (cx - 1) cz
           else if lx =? CHUNK_SIZE - 1 then markChunkDirty s (cx + 1) cz
           else s in
  if lz =? 0 then markChunkDirty s cx (cz - 1)
  else if lz =? CHUNK_SIZE - 1 then markChunkDirty s cx (cz + 1)
  else s.

Definition setChunk (s : t) (cx cz : Z) (blocks : list Z) : t :=
  let key := chunkKey cx cz in
  let s := {| chunks := <[key := {| blocks := blocks; meshDirty := true |}]> (chunks s) |} in
  markNeighborChunksDirty s cx cz.

(** The store into the typed array keeps 16 bits of the value and is
    dropped past the end of the array. *)
Definition applyBlockDelta (s : t) (x y z block : Z) : t :=
  if (y <? 0) || (WORLD_HEIGHT <=? y) then s
  else
    let fx := x in
    let fz := z in
    let cx := fx / CHUNK_SIZE in
    let cz := fz / CHUNK_SIZE in
    let lx := localOf fx in
    let lz := localOf fz in
    let key := chunkKey cx cz in
    match chunks s !! key with
    | None => s
    | Some state =>
        let state := {| blocks := <[Z.to_nat (index lx y lz) := toUint16 block]> (blocks state);
                        meshDirty := true |} in
        let s := {| chunks := <[key := state]> (chunks s) |} in
        markNeighborChunksDirtyAt s cx cz lx lz
    end.

(** [isSolidBlock(this.getBlock(x, y, z))]; [None] when the look-up throws. *)
Definition isSolid (s : t) (x y z : Z) : option bool :=
  match getBlock s x y z with
  | Some block => BlockTable.isSolidBlock block
  | None => None
  end.

(** The two cases of [MultiplayerGame.onServerMessage] that reach the store:
    a chunk message (a payload that does not decode throws, and the store
    is left as it was) and the block deltas of a snapshot, in order. *)
Definition onChunkData (s : t) (cx cz : Z) (blocksBase64 : string) : t :=
  match Wire.decodeChunkBase64 blocksBase64 with
  | Some blocks => setChunk s cx cz blocks
  | None => s
  end.

Definition onChangedBlocks (s : t) (deltas : list Protocol.BlockDelta) : t :=
  fold_left (fun s d => applyBlockDelta s (Protocol.bd_x d) (Protocol.bd_y d)
                                        (Protocol.bd_z d) (Protocol.bd_block d))
            deltas s.

End NetworkWorldStore.

(* ===================================================================== *)
(** ** server/room.ts: chunk streaming, snapshots, spawn points *)
(* ===================================================================== *)

Module Room.
Import JS Config Protocol RoomServer.

Definition SERVER_VIEW_DISTANCE_CHUNKS : Z := 8.

Definition withKnownChunks (p : ServerPlayer) (known : gset string) : ServerPlayer :=
  {| id := id p; ws := ws p; nickname := nickname p; position := position p;
     velocity := velocity p; yaw := yaw p; pitch := pitch p; health := health p;
     onGround := onGround p; inventory := inventory p; knownChunks := known;
     control := control p; lastMineAtMs := lastMineAtMs p;
     lastAttackAtMs := lastAttackAtMs p; lastProcessedSeq := lastProcessedSeq p |}.

(** One turn of the inner loop of [sendVisibleChunks].  The message is
    built first, and building it reads the chunk through the world's cache;
    then it is sent, and the key is recorded as known. *)
Definition visitChunk (center : Z * Z) (dx dz : Z)
    (acc : RoomServer.t * ServerPlayer * gset string)
  : RoomServer.t * ServerPlayer * gset string :=
  let '(s, player, keep) := acc in
  let cx := fst center + dx in
  let cz := snd center + dz in
  let key := Chunk.chunkKey cx cz in
  let keep := {[key]} ∪ keep in
  if bool_decide (key ∈ knownChunks player) then (s, player, keep)
  else
    let '(payload, w) := AuthoritativeWorld.encodeChunkBase64 (world s) cx cz in
    let s := send (withWorld s w) player (chunk_data cx cz payload) in
    (s, withKnownChunks player ({[key]} ∪ knownChunks player), keep).

(** [sendVisibleChunks], from its second statement on: [center] is the
    chunk that [worldToChunk] finds for the player's position (a position
    with finite coordinates).  The last loop drops the known keys that are
    not kept. *)
Definition sendVisibleChunks (s : RoomServer.t) (player : ServerPlayer) (center : Z * Z)
  : RoomServer.t * ServerPlayer :=
  let '(s, player, keep) :=
    forRange (- SERVER_VIEW_DISTANCE_CHUNKS) (SERVER_VIEW_DISTANCE_CHUNKS + 1) (fun dx =>
      forRange (- SERVER_VIEW_DISTANCE_CHUNKS) (SERVER_VIEW_DISTANCE_CHUNKS + 1) (fun dz =>
        visitChunk center dx dz)) (s, player, ∅) in
  (s, withKnownChunks player (filter (fun key => key ∈ keep) (knownChunks player))).

Definition netPlayerOf (player : ServerPlayer) : NetPlayerState :=
  let inv := ServerInventory.serializeInventory (inventory player) in
  {| np_id := id player; np_nickname := nickname player;
     np_x := Physics.x (position player); np_y := Physics.y (position player);
     np_z := Physics.z (position player);
     np_vx := Physics.x (velocity player); np_vy := Physics.y (velocity player);
     np_vz := Physics.z (velocity player);
     np_yaw := yaw player; np_pitch := pitch player; np_health := health player;
     np_selectedSlot := snd inv; np_hotbar := fst inv;
     np_lastProcessedSeq := Some (lastProcessedSeq player) |}.

Definition netMobOf (mob : ServerMob) : NetMobState :=
  {| nm_id := mob_id mob;
     nm_x := Physics.x (mob_position mob); nm_y := Physics.y (mob_position mob);
     nm_z := Physics.z (mob_position mob); nm_health := mob_health mob |}.

(** [this.changedBlocks.splice(0, this.changedBlocks.length)] leaves the
    buffer empty. *)
Definition spliceChangedBlocks (s : RoomServer.t) : RoomServer.t :=
  {| roomCode := roomCode s; maxPlayers := maxPlayers s; world := world s;
     players := players s; socketToPlayerId := socketToPlayerId s;
     changedBlocks := []; mobs := mobs s; tick := tick s;
     saveTimerTicks := saveTimerTicks s; mobSpawnTimerTicks := mobSpawnTimerTicks s;
     playerCounter := playerCounter s; mobCounter := mobCounter s;
     openSockets := openSockets s; sent := sent s |}.

(** The message of [broadcastSnapshot].  The players and mobs are listed
    in the order of the maps; a [gmap] has an order of its own, not the
    insertion order of a JavaScript [Map], and nothing below depends on
    it. *)
Definition snapshotOf (s : RoomServer.t) : ServerMessage :=
  snapshot (tick s)
    (map (fun e => netPlayerOf (snd e)) (map_to_list (players s)))
    (map (fun e => netMobOf (snd e)) (map_to_list (mobs s)))
    (changedBlocks s).

Definition broadcastSnapshot (s : RoomServer.t) : RoomServer.t :=
  let message := snapshotOf s in
  let s := spliceChangedBlocks s in
  fold_left (fun s e => send s (snd e) message) (map_to_list (players s)) s.

(** [findSurfaceY] on integer coordinates: the loop from [WORLD_HEIGHT - 1]
    down to 0, by recursion on the number of cells left; every read goes
    through the world's cache. *)
Fixpoint findSurfaceYFrom (w : AuthoritativeWorld.t) (x z : Z) (n : nat)
  : Z * AuthoritativeWorld.t :=
  match n with
  | O => (20, w)
  | S k =>
      let y := Z.of_nat k in
      let '(block, w) := AuthoritativeWorld.getBlock w x y z in
      if negb (bool_decide (block = Some BlockId.Air)) &&
         negb (bool_decide (block = Some BlockId.Water))
      then (y, w)
      else findSurfaceYFrom w x z k
  end.

Definition findSurfaceY (w : AuthoritativeWorld.t) (x z : Z) : Z * AuthoritativeWorld.t :=
  findSurfaceYFrom w x z (Z.to_nat WORLD_HEIGHT).

(** [computeSpawnPoint]: two cells above the surface, in the middle of the
    column. *)
Definition computeSpawnPoint (w : AuthoritativeWorld.t) (x z : Z)
  : Physics.Vec3 * AuthoritativeWorld.t :=
  let '(sy, w) := findSurfaceY w x z in
  (Physics.vec3 (ofZ x + 0.5)%float (ofZ (sy + 2)) (ofZ z + 0.5)%float, w).

Definition clamp (value min max : float) : float := Math_max min (Math_min max value).

(** [nickname.replace(/[^a-zA-Z0-9_-]/g, "_")] on the UTF-16 code units of
    the nickname: the regular expression has no [u] flag, so it looks at
    one code unit at a time. *)
Definition safeUnit (u : Z) : bool :=
  ((97 <=? u) && (u <=? 122)) || ((65 <=? u) && (u <=? 90)) ||
  ((48 <=? u) && (u <=? 57)) || (u =? 95) || (u =? 45).

Definition safeName (nickname : list Z) : list Z :=
  map (fun u => if safeUnit u then u else 95) nickname.

End Room.

(* ===================================================================== *)
(** ** game/game.ts: placing and breaking blocks in single-player *)
(* ===================================================================== *)

(** The world is the [WorldStore]; every read and write of it stamps the
    chunk with [performance.now()], whose two values are [now1] and
    [now2].  [aabbIntersectsBlock] of the client is, statement for
    statement, the server's. *)
Module Game.
Import JS Config Protocol Blocks.

(** A hit of [voxelRaycast] from a finite origin: the cell, the face
    normal (components -1, 0 or 1) and the block found. *)
Record VoxelHit := {
  hit_x : Z; hit_y : Z; hit_z : Z;
  normal_x : Z; normal_y : Z; normal_z : Z;
  hit_block : Z
}.

(** The statement at which a method left. *)
Inductive PlaceExit :=
| NoStack | NotABlock | OutOfWorld | Occupied | InsidePlayer | Unchanged | Placed.

Inductive BreakExit :=
| NothingThere | BreakUnchanged | BreakThrew | Broke.

Definition tryPlaceBlock (w : WorldStore.t) (inv : MultiplayerGame.Inventory)
    (position : Physics.Vec3) (hit : VoxelHit) (now1 now2 : float)
  : PlaceExit * WorldStore.t * MultiplayerGame.Inventory :=
  match Inventory.getSelectedStack inv with
  | None => (NoStack, w, inv)
  | Some selected =>
      match itemToBlockId (item selected) with
      | None => (NotABlock, w, inv)
      | Some placeBlock =>
          let px := hit_x hit + normal_x hit in
          let py := hit_y hit + normal_y hit in
          let pz := hit_z hit + normal_z hit in
          if (py <? 0) || (WORLD_HEIGHT <=? py) then (OutOfWorld, w, inv)
          else
            let '(existing, w) := WorldStore.getBlock w px py pz now1 in
            if negb (bool_decide (existing = Some BlockId.Air)) &&
               negb (bool_decide (existing = Some BlockId.Water))
            then (Occupied, w, inv)
            else if Physics.aabbIntersectsBlock position
                      {| Physics.halfWidth := PLAYER_HALF_WIDTH;
                         Physics.height := PLAYER_HEIGHT |} (ofZ px) (ofZ py) (ofZ pz)
            then (InsidePlayer, w, inv)
            else
              let '(changed, w) := WorldStore.setBlock w px py pz placeBlock now2 in
              if changed then (Placed, w, snd (Inventory.consumeSelected inv 1))
              else (Unchanged, w, inv)
      end
  end.

(** [blockIdToDrop] of a block that is [undefined] or no block id throws,
    after the world has been written. *)
Definition breakBlock (w : WorldStore.t) (inv : MultiplayerGame.Inventory)
    (hit : VoxelHit) (now1 now2 : float)
  : BreakExit * WorldStore.t * MultiplayerGame.Inventory :=
  let '(block, w) := WorldStore.getBlock w (hit_x hit) (hit_y hit) (hit_z hit) now1 in
  if bool_decide (block = Some BlockId.Air) || bool_decide (block = Some BlockId.Water)
  then (NothingThere, w, inv)
  else
    let '(changed, w) :=
      WorldStore.setBlock w (hit_x hit) (hit_y hit) (hit_z hit) BlockId.Air now2 in
    if changed then
      match block ≫= BlockTable.blockIdToDrop with
      | None => (BreakThrew, w, inv)
      | Some (Some d) => (Broke, w, snd (Inventory.add inv d 1))
      | Some None => (Broke, w, inv)
      end
    else (BreakUnchanged, w, inv).

End Game.

(* ===================================================================== *)
(** ** render/terrainRenderer.ts: which blocks of a chunk are drawn *)
(* ===================================================================== *)

(** The renderer sees the world through [RenderWorld]; of it,
    [rebuildChunk] uses [getBlock] only, which is the variable of the
    section.  A read that is [undefined] is [None], and so is a call that
    throws: [isSolidBlock] of a value without an entry in [BLOCK_DEFS]. *)
Module TerrainRenderer.
Import JS Config.

Definition CARDINAL_NEIGHBORS : list (Z * Z * Z) :=
  [ (1, 0, 0); (-1, 0, 0); (0, 1, 0); (0, -1, 0); (0, 0, 1); (0, 0, -1) ].

(** [instancesByBlock]: a [Map] in insertion order, from the block to the
    cells drawn with it. *)
Definition Instances : Type := list (option Z * list (Z * Z * Z)).

Fixpoint pushInstance (block : option Z) (cell : Z * Z * Z) (m : Instances) : Instances :=
  match m with
  | [] => [(block, [cell])]
  | (b, entries) :: rest =>
      if decide (b = block) then (b, entries ++ [cell]) :: rest
      else (b, entries) :: pushInstance block cell rest
  end.

(** A material exists for every numeric value of [BlockId] except air. *)
Definition hasMaterial (block : option Z) : bool :=
  match block with
  | Some b => (1 <=? b) && (b <=? 7)
  | None => false
  end.

Section World.
Variable getBlock : Z -> Z -> Z -> option Z.

(** The loop of [isBlockVisible] over the neighbours that are left. *)
Fixpoint visibleAmong (x y z : Z) (neighbors : list (Z * Z * Z)) : option bool :=
  match neighbors with
  | [] => Some false
  | (dx, dy, dz) :: rest =>
      match getBlock (x + dx) (y + dy) (z + dz) ≫= BlockTable.isSolidBlock with
      | None => None
      | Some false => Some true
      | Some true => visibleAmong x y z rest
      end
  end.

Definition isBlockVisible (x y z : Z) : option bool :=
  visibleAmong x y z CARDINAL_NEIGHBORS.

(** One turn of the innermost loop of [rebuildChunk]; once a call has
    thrown, nothing more happens. *)
Definition visitCell (worldXBase worldZBase lx lz y : Z) (acc : option Instances)
  : option Instances :=
  match acc with
  | None => None
  | Some m =>
      let wx := worldXBase + lx in
      let wz := worldZBase + lz in
      let block := getBlock wx y wz in
      if bool_decide (block = Some BlockId.Air) || bool_decide (block = Some BlockId.Water)
      then Some m
      else
        match isBlockVisible wx y wz with
        | None => None
        | Some false => Some m
        | Some true => Some (pushInstance block (wx, y, wz) m)
        end
  end.

Definition collectInstances (cx cz : Z) : option Instances :=
  let worldXBase := cx * CHUNK_SIZE in
  let worldZBase := cz * CHUNK_SIZE in
  forRange (S := option Instances) 0 CHUNK_SIZE (fun lx =>
    forRange 0 CHUNK_SIZE (fun lz =>
      forRange 0 WORLD_HEIGHT (fun y =>
        visitCell worldXBase worldZBase lx lz y))) (Some []).

(** [rebuildChunk] for the chunk with key [chunkKey cx cz]: the meshes of
    the new group, each the block it is drawn with and the cells that carry
    an instance (placed at the centre of the cell).  A block without a
    material gets no mesh. *)
Definition rebuildChunk (cx cz : Z) : option Instances :=
  option_map (List.filter (fun e => hasMaterial (fst e))) (collectInstances cx cz).

End World.

(** *** update, over the multiplayer world

    The world of the renderer is a [NetworkWorldStore] here.  Of the
    renderer, [chunkGroups] is kept, the group of a key as the instances of
    its meshes: a group is in the scene exactly while it is in this map, and
    it is disposed of when it leaves the map. *)
Record t := {
  chunkGroups : gmap string Instances;
  lastBuildDurationMs : float
}.

(** [chunkKey] of two numbers that may be NaN. *)
Definition keyOf (cx cz : option Z) : string :=
  Chunk.showNumber cx +:+ ":" +:+ Chunk.showNumber cz.

(** [this.world.hasChunk(cx, cz)] with the coordinates out of [key]. *)
Definition isResident (w : NetworkWorldStore.t) (key : string) : bool :=
  let '(cx, cz) := Chunk.parseChunkKey key in
  bool_decide (is_Some (NetworkWorldStore.chunks w !! keyOf cx cz)).

Definition removeStaleChunkGroups (w : NetworkWorldStore.t) (groups : gmap string Instances)
  : gmap string Instances :=
  filter (fun entry => isResident w (fst entry) = true) groups.

(** The new group of [rebuildChunk(key)], [None] when a call throws.  With
    a coordinate that is NaN, every read of the loops is a read of the
    chunk [keyOf cx cz] at an index that is NaN: air when that chunk is not
    resident, so that nothing is collected; [undefined] when it is, and
    then [isSolidBlock] throws at the first neighbour of the first cell. *)
Definition rebuildKey (w : NetworkWorldStore.t) (key : string) : option Instances :=
  match Chunk.parseChunkKey key with
  | (Some cx, Some cz) => rebuildChunk (NetworkWorldStore.getBlock w) cx cz
  | (cx, cz) =>
      if bool_decide (is_Some (NetworkWorldStore.chunks w !! keyOf cx cz)) then None
      else Some []
  end.

(** The state of the callback of [forEachChunk] in [update]. *)
Record Pass := {
  rebuilt : Z;
  groups : gmap string Instances;
  world : NetworkWorldStore.t;
  threw : bool
}.

(** One call of the callback.  [rebuildChunk] removes the old group of
    the key before it reads the world, so a call that throws leaves the key
    without a group. *)
Definition visitEntry (maxChunkRebuilds : Z)
    (entry : string * NetworkWorldStore.ChunkState) (p : Pass) : Pass :=
  let '(key, state) := entry in
  if threw p then p
  else if maxChunkRebuilds <=? rebuilt p then p
  else if negb (NetworkWorldStore.meshDirty state) then p
  else
    match rebuildKey (world p) key with
    | None =>
        {| rebuilt := rebuilt p; groups := delete key (groups p); world := world p;
           threw := true |}
    | Some group =>
        let state := {| NetworkWorldStore.blocks := NetworkWorldStore.blocks state;
                        NetworkWorldStore.meshDirty := false |} in
        {| rebuilt := rebuilt p + 1;
           groups := <[key := group]> (groups p);
           world := {| NetworkWorldStore.chunks :=
                         <[key := state]> (NetworkWorldStore.chunks (world p)) |};
           threw := false |}
    end.

(** [update(maxChunkRebuilds)]; [startedAt] and [endedAt] are the two
    readings of the clock.  The chunks are visited in the order of
    [map_to_list], and nothing below depends on that order.  The last
    component tells whether the call threw. *)
Definition update (r : t) (w : NetworkWorldStore.t) (maxChunkRebuilds : Z)
    (startedAt endedAt : float) : t * NetworkWorldStore.t * bool :=
  let p := fold_left (fun p entry => visitEntry maxChunkRebuilds entry p)
             (map_to_list (NetworkWorldStore.chunks w))
             {| rebuilt := 0; groups := removeStaleChunkGroups w (chunkGroups r);
                world := w; threw := false |} in
  ({| chunkGroups := groups p;
      lastBuildDurationMs := if threw p then lastBuildDurationMs r
                             else PrimFloat.sub endedAt startedAt |},
   world p, threw p).

End TerrainRenderer.

(* ===================================================================== *)
(** ** game/input.ts: keys, buttons, mouse and wheel *)
(* ===================================================================== *)

(** The listeners that [bindEvents] installs, each as a function of the
    state of the controller.  Whether the pointer is locked to the canvas
    is a fact of the document; an event that asks for it carries the answer
    as [locked].  What a listener does to the document (requesting the
    pointer lock, [preventDefault]) leaves the controller as it is. *)
Module InputController.

Record t := {
  keyDown : gset string;
  keyPressed : gset string;
  mouseDown : gset Z;
  mousePressed : gset Z;
  lookDeltaX : float;
  lookDeltaY : float;
  wheelSteps : float
}.

Definition new : t :=
  {| keyDown := ∅; keyPressed := ∅; mouseDown := ∅; mousePressed := ∅;
     lookDeltaX := 0; lookDeltaY := 0; wheelSteps := 0 |}.

Definition isKeyDown (s : t) (code : string) : bool := bool_decide (code ∈ keyDown s).
Definition wasKeyPressed (s : t) (code : string) : bool := bool_decide (code ∈ keyPressed s).
Definition isMouseDown (s : t) (button : Z) : bool := bool_decide (button ∈ mouseDown s).
Definition wasMousePressed (s : t) (button : Z) : bool :=
  bool_decide (button ∈ mousePressed s).

Definition consumeLookDelta (s : t) : (float * float) * t :=
  ((lookDeltaX s, lookDeltaY s),
   {| keyDown := keyDown s; keyPressed := keyPressed s; mouseDown := mouseDown s;
      mousePressed := mousePressed s; lookDeltaX := 0; lookDeltaY := 0;
      wheelSteps := wheelSteps s |}).

Definition consumeWheelSteps (s : t) : float * t :=
  (wheelSteps s,
   {| keyDown := keyDown s; keyPressed := keyPressed s; mouseDown := mouseDown s;
      mousePressed := mousePressed s; lookDeltaX := lookDeltaX s;
      lookDeltaY := lookDeltaY s; wheelSteps := 0 |}).

Definition endFrame (s : t) : t :=
  {| keyDown := keyDown s; keyPressed := ∅; mouseDown := mouseDown s;
     mousePressed := ∅; lookDeltaX := lookDeltaX s; lookDeltaY := lookDeltaY s;
     wheelSteps := wheelSteps s |}.

(** [Math.sign]: NaN for NaN, the zero itself for a zero. *)
Definition Math_sign (f : float) : float :=
  if PrimFloat.is_nan f then PrimFloat.nan
  else if PrimFloat.ltb 0 f then 1
  else if PrimFloat.ltb f 0 then (-1)%float
  else f.

Inductive DomEvent :=
| KeyDown (code : string)
| KeyUp (code : string)
| MouseDown (button : Z)
| MouseUp (button : Z)
| MouseMove (locked : bool) (movementX movementY : float)
| Wheel (locked : bool) (deltaY : float).

(** The listener of the event. *)
Definition dispatch (s : t) (event : DomEvent) : t :=
  match event with
  | KeyDown code =>
      let pressed := if negb (bool_decide (code ∈ keyDown s)) then keyPressed s ∪ {[code]}
                     else keyPressed s in
      {| keyDown := keyDown s ∪ {[code]}; keyPressed := pressed;
         mouseDown := mouseDown s; mousePressed := mousePressed s;
         lookDeltaX := lookDeltaX s; lookDeltaY := lookDeltaY s;
         wheelSteps := wheelSteps s |}
  | KeyUp code =>
      {| keyDown := keyDown s ∖ {[code]}; keyPressed := keyPressed s;
         mouseDown := mouseDown s; mousePressed := mousePressed s;
         lookDeltaX := lookDeltaX s; lookDeltaY := lookDeltaY s;
         wheelSteps := wheelSteps s |}
  | MouseDown button =>
      let pressed := if negb (bool_decide (button ∈ mouseDown s))
                     then mousePressed s ∪ {[button]}
                     else mousePressed s in
      {| keyDown := keyDown s; keyPressed := keyPressed s;
         mouseDown := mouseDown s ∪ {[button]}; mousePressed := pressed;
         lookDeltaX := lookDeltaX s; lookDeltaY := lookDeltaY s;
         wheelSteps := wheelSteps s |}
  | MouseUp button =>
      {| keyDown := keyDown s; keyPressed := keyPressed s;
         mouseDown := mouseDown s ∖ {[button]}; mousePressed := mousePressed s;
         lookDeltaX := lookDeltaX s; lookDeltaY := lookDeltaY s;
         wheelSteps := wheelSteps s |}
  | MouseMove locked movementX movementY =>
      if negb locked then s
      else
        {| keyDown := keyDown s; keyPressed := keyPressed s;
           mouseDown := mouseDown s; mousePressed := mousePressed s;
           lookDeltaX := lookDeltaX s + movementX; lookDeltaY := lookDeltaY s + movementY;
           wheelSteps := wheelSteps s |}
  | Wheel locked deltaY =>
      if negb locked then s
      else
        {| keyDown := keyDown s; keyPressed := keyPressed s;
           mouseDown := mouseDown s; mousePressed := mousePressed s;
           lookDeltaX := lookDeltaX s; lookDeltaY := lookDeltaY s;
           wheelSteps := wheelSteps s + Math_sign deltaY |}
  end.

(** The events that arrive between two calls into the controller, in the
    order they arrive. *)
Definition dispatchAll (s : t) (events : list DomEvent) : t := fold_left dispatch events s.

End InputController.

(* ===================================================================== *)
(** ** Well-formed data and sample states, continued *)
(* ===================================================================== *)

(** *** Inventories *)

(** What one slot adds to the count of an item, and the count over a list
    of slots. *)
Definition slotCount (i : Protocol.SharedItemId) (slot : option Protocol.SharedItemStack) : Z :=
  match slot with
  | Some st => if bool_decide (Protocol.item st = i) then Protocol.count st else 0
  | None => 0
  end.

Definition total (i : Protocol.SharedItemId) (slots : list (option Protocol.SharedItemStack))
  : Z :=
  foldr (fun slot acc => slotCount i slot + acc) 0 slots.

(** A slot as the game keeps it: empty, or a stack of 1 to [MAX_STACK]
    items. *)
Definition stackOk (slot : option Protocol.SharedItemStack) : Prop :=
  match slot with
  | Some st => 1 <= Protocol.count st <= Config.MAX_STACK
  | None => True
  end.

(** A hotbar as the constructors build it: [HOTBAR_SIZE] such slots. *)
Definition hotbarOk (slots : list (option Protocol.SharedItemStack)) : Prop :=
  length slots = 9%nat /\ Forall stackOk slots.

Definition inventoryOk (inv : ServerInventory.t) : Prop :=
  hotbarOk (ServerInventory.hotbar inv).

(** No room is left for an item: every slot is taken, and every stack of
    the item is full. *)
Definition noRoomFor (i : Protocol.SharedItemId)
    (slots : list (option Protocol.SharedItemStack)) : Prop :=
  Forall (fun slot => exists st, slot = Some st /\
                        (Protocol.item st = i -> Config.MAX_STACK <= Protocol.count st)) slots.

(** Every stack of the item is full. *)
Definition fullStacksOf (i : Protocol.SharedItemId)
    (slots : list (option Protocol.SharedItemStack)) : Prop :=
  Forall (fun slot => forall st, slot = Some st -> Protocol.item st = i ->
                        Config.MAX_STACK <= Protocol.count st) slots.

(** The items of [i] in the [k] slots from [from] on. *)
Definition available (i : Protocol.SharedItemId) (from : Z) (k : nat)
    (slots : list (option Protocol.SharedItemStack)) : Z :=
  total i (take k (drop (Z.to_nat from) slots)).

(** *** Blocks *)

(** A code of the [BlockId] enumeration. *)
Definition blockCode (v : Z) : Prop := 0 <= v <= 7.

(** *** The server world *)

(** The world that a new server process builds over the same room
    directory with the same seed: nothing cached, nothing dirty. *)
Definition restart (w : AuthoritativeWorld.t) : AuthoritativeWorld.t :=
  {| AuthoritativeWorld.generator := AuthoritativeWorld.generator w;
     AuthoritativeWorld.chunksDir := AuthoritativeWorld.chunksDir w;
     AuthoritativeWorld.files := AuthoritativeWorld.files w;
     AuthoritativeWorld.chunks := ∅;
     AuthoritativeWorld.dirty := ∅ |}.

(** The dirty set holds keys that [setBlock] put there: chunk keys. *)
Definition dirtyKeysOk (w : AuthoritativeWorld.t) : Prop :=
  forall key, key ∈ AuthoritativeWorld.dirty w -> exists a b, key = Chunk.chunkKey a b.

(** *** More sample states *)

Module Scenario.

(** The sample server world after an edit of chunk (0, 0) that has not
    been flushed yet. *)
Definition editedWorld : AuthoritativeWorld.t :=
  {| AuthoritativeWorld.generator := Generator.newWorldGenerator 42;
     AuthoritativeWorld.chunksDir := "data/alpha/chunks";
     AuthoritativeWorld.files := ∅;
     AuthoritativeWorld.chunks := {[ Chunk.chunkKey 0 0 := Sample.stoneChunk ]};
     AuthoritativeWorld.dirty := {[ Chunk.chunkKey 0 0 ]} |}.

End Scenario.

(** *** The client's copy *)

(** Every chunk the client holds is the server's cached chunk, block for
    block. *)
Definition mirrors (n : NetworkWorldStore.t) (w : AuthoritativeWorld.t) : Prop :=
  forall key st, NetworkWorldStore.chunks n !! key = Some st ->
    exists c, AuthoritativeWorld.chunks w !! key = Some c /\
              NetworkWorldStore.blocks st = Chunk.blocks c.

Module ClientScenario.

(** A client that holds the sample server's chunk (0, 0). *)
Definition clientCopy : NetworkWorldStore.t :=
  {| NetworkWorldStore.chunks :=
       {[ Chunk.chunkKey 0 0 :=
            {| NetworkWorldStore.blocks := Chunk.blocks Sample.stoneChunk;
               NetworkWorldStore.meshDirty := false |} ]} |}.

Definition emptyClient : NetworkWorldStore.t := {| NetworkWorldStore.chunks := ∅ |}.

End ClientScenario.

(** Chunk streaming: the keys of the view window around [center], and the
    keys that the two loops of [sendVisibleChunks] have visited when they
    arrive at [(dx, dz)]. *)
Definition inView (center : Z * Z) (key : string) : Prop :=
  exists dx dz, -8 <= dx <= 8 /\ -8 <= dz <= 8 /\
    key = Chunk.chunkKey (fst center + dx) (snd center + dz).

Definition visited (center : Z * Z) (dx dz : Z) (key : string) : Prop :=
  exists a b, -8 <= a <= 8 /\ -8 <= b <= 8 /\ (a < dx \/ (a = dx /\ b < dz)) /\
    key = Chunk.chunkKey (fst center + a) (snd center + b).

(** A room that differs from [s] in the world and in what was sent. *)
Definition withSent (s : RoomServer.t) (w : AuthoritativeWorld.t)
    (out : list (Z * Protocol.ServerMessage)) : RoomServer.t :=
  {| RoomServer.roomCode := RoomServer.roomCode s;
     RoomServer.maxPlayers := RoomServer.maxPlayers s;
     RoomServer.world := w;
     RoomServer.players := RoomServer.players s;
     RoomServer.socketToPlayerId := RoomServer.socketToPlayerId s;
     RoomServer.changedBlocks := RoomServer.changedBlocks s;
     RoomServer.mobs := RoomServer.mobs s;
     RoomServer.tick := RoomServer.tick s;
     RoomServer.saveTimerTicks := RoomServer.saveTimerTicks s;
     RoomServer.mobSpawnTimerTicks := RoomServer.mobSpawnTimerTicks s;
     RoomServer.playerCounter := RoomServer.playerCounter s;
     RoomServer.mobCounter := RoomServer.mobCounter s;
     RoomServer.openSockets := RoomServer.openSockets s;
     RoomServer.sent := out |}.

(** A world that differs from [w0] in its cache, and hands out the same
    chunks. *)
Definition sameReads (w0 w : AuthoritativeWorld.t) : Prop :=
  AuthoritativeWorld.files w = AuthoritativeWorld.files w0 /\
  AuthoritativeWorld.generator w = AuthoritativeWorld.generator w0 /\
  AuthoritativeWorld.chunksDir w = AuthoritativeWorld.chunksDir w0 /\
  AuthoritativeWorld.dirty w = AuthoritativeWorld.dirty w0 /\
  forall cx cz, fst (AuthoritativeWorld.getChunk w cx cz) =
                fst (AuthoritativeWorld.getChunk w0 cx cz).

(** The frame that carries chunk [(cx, cz)] of world [w0] to player [p]. *)
Definition chunkMessage (w0 : AuthoritativeWorld.t) (p : RoomServer.ServerPlayer)
    (cx cz : Z) : Z * Protocol.ServerMessage :=
  (RoomServer.ws p,
   Protocol.chunk_data cx cz
     (Wire.blocksToBase64 (Chunk.blocks (fst (AuthoritativeWorld.getChunk w0 cx cz))))).

Definition streamed (s : RoomServer.t) (p : RoomServer.ServerPlayer) (center : Z * Z)
    (dx dz : Z) (st : RoomServer.t * RoomServer.ServerPlayer * gset string) : Prop :=
  let '(s1, p1, keep) := st in
  (forall key, key ∈ keep <-> visited center dx dz key) /\
  p1 = Room.withKnownChunks p (RoomServer.knownChunks p ∪ keep) /\
  exists w1 msgs,
    s1 = withSent s w1 (RoomServer.sent s ++ msgs) /\
    sameReads (RoomServer.world s) w1 /\
    NoDup msgs /\
    forall m, m ∈ msgs <->
      (RoomServer.ws p ∈ RoomServer.openSockets s) /\
      exists cx cz, visited center dx dz (Chunk.chunkKey cx cz) /\
        (Chunk.chunkKey cx cz ∉ RoomServer.knownChunks p) /\
        m = chunkMessage (RoomServer.world s) p cx cz.

(** A cell that [findSurfaceY] stops at: what the world reads there is
    neither air nor water. *)
Definition surfaceAt (w : AuthoritativeWorld.t) (x y z : Z) : Prop :=
  fst (AuthoritativeWorld.getBlock w x y z) <> Some BlockId.Air /\
  fst (AuthoritativeWorld.getBlock w x y z) <> Some BlockId.Water.

(** *** The single-player store *)

(** Every resident chunk holds a whole array of 16-bit codes. *)
Definition storeWellFormed (s : WorldStore.t) : Prop :=
  forall key st, WorldStore.chunks s !! key = Some st -> wellFormed (WorldStore.chunk st).

(** Two states of a resident chunk that differ at most in that the second
    asks for a new mesh. *)
Definition remeshed (st st' : WorldStore.ChunkState) : Prop :=
  WorldStore.chunk st' = WorldStore.chunk st /\
  WorldStore.dirty st' = WorldStore.dirty st /\
  WorldStore.lastTouched st' = WorldStore.lastTouched st /\
  (WorldStore.meshDirty st = true -> WorldStore.meshDirty st' = true).

(** Two chunk maps with the same keys whose chunks differ at most in
    that. *)
Definition remeshedAt (m m' : gmap string WorldStore.ChunkState) (key : string) : Prop :=
  match m !! key, m' !! key with
  | Some st, Some st' => remeshed st st'
  | None, None => True
  | _, _ => False
  end.

Module Solo.

(** A single-player store that holds the sample chunk (0, 0), edited and
    not saved yet, and an empty chunk west of it. *)
Definition store : WorldStore.t :=
  WorldStore.withChunks (WorldStore.new (Generator.newWorldGenerator 42) 42)
    {[ Chunk.chunkKey 0 0 :=
         {| WorldStore.chunk := Sample.stoneChunk; WorldStore.dirty := true;
            WorldStore.meshDirty := false; WorldStore.lastTouched := 0 |};
       Chunk.chunkKey (-1) 0 :=
         {| WorldStore.chunk := Chunk.newChunkData (-1) 0 None; WorldStore.dirty := false;
            WorldStore.meshDirty := false; WorldStore.lastTouched := 0 |} ]}.

End Solo.

(** The keys of the chunk map are chunk keys: [loadChunk] is the only
    place that adds one. *)
Definition storeKeysOk (s : WorldStore.t) : Prop :=
  forall key st, WorldStore.chunks s !! key = Some st -> exists a b, key = Chunk.chunkKey a b.

(** Two chunk maps that hold the same chunks with the same flags: a read
    changes a time stamp only. *)
Definition touchedAt (m m' : gmap string WorldStore.ChunkState) (key : string) : Prop :=
  match m !! key, m' !! key with
  | Some st, Some st' =>
      WorldStore.chunk st' = WorldStore.chunk st /\
      WorldStore.dirty st' = WorldStore.dirty st /\
      WorldStore.meshDirty st' = WorldStore.meshDirty st
  | None, None => True
  | _, _ => False
  end.

(** Every cell reads the same in both stores. *)
Definition sameBlocks (s s' : WorldStore.t) : Prop :=
  forall x y z, WorldStore.blockAt s' x y z = WorldStore.blockAt s x y z.

(** The cell a placement goes to, and the cell of a hit. *)
Definition placeCell (hit : Game.VoxelHit) : Z * Z * Z :=
  (Game.hit_x hit + Game.normal_x hit, Game.hit_y hit + Game.normal_y hit,
   Game.hit_z hit + Game.normal_z hit).

Definition hitCell (hit : Game.VoxelHit) : Z * Z * Z :=
  (Game.hit_x hit, Game.hit_y hit, Game.hit_z hit).

Definition blockAtCell (s : WorldStore.t) (c : Z * Z * Z) : option Z :=
  WorldStore.blockAt s (fst (fst c)) (snd (fst c)) (snd c).

(** *** Rendering *)

(** A cell of chunk [(cx, cz)]. *)
Definition cellOfChunk (cx cz : Z) (cell : Z * Z * Z) : Prop :=
  let '(x, y, z) := cell in
  16 * cx <= x < 16 * cx + 16 /\ 0 <= y < 96 /\ 16 * cz <= z < 16 * cz + 16.

(** A cell with a face that can be seen: one of the six cells next to it
    reads as air or water. *)
Definition exposed (getBlock : Z -> Z -> Z -> option Z) (cell : Z * Z * Z) : Prop :=
  let '(x, y, z) := cell in
  exists d, d ∈ TerrainRenderer.CARDINAL_NEIGHBORS /\
    let '(dx, dy, dz) := d in
    (getBlock (x + dx) (y + dy) (z + dz) = Some BlockId.Air \/
     getBlock (x + dx) (y + dy) (z + dz) = Some BlockId.Water).

(** The cell carries an instance of the mesh of [block]. *)
Definition drawn (m : TerrainRenderer.Instances) (block : Z) (cell : Z * Z * Z) : Prop :=
  exists cells, (Some block, cells) ∈ m /\ cell ∈ cells.

(** All cells that carry an instance. *)
Definition drawnCells (m : TerrainRenderer.Instances) : list (Z * Z * Z) :=
  concat (map snd m).

(** The world hands out block ids only. *)
Definition blockIdsOnly (getBlock : Z -> Z -> Z -> option Z) : Prop :=
  forall x y z, exists b, getBlock x y z = Some b /\ 0 <= b <= 7.

(** The cells that the loops of [rebuildChunk] have visited when they
    stand at [(lx, lz, y)]. *)
Definition scanned (cx cz lx lz y : Z) (cell : Z * Z * Z) : Prop :=
  exists a c h, 0 <= a < 16 /\ 0 <= c < 16 /\ 0 <= h < 96 /\
    (a < lx \/ (a = lx /\ (c < lz \/ (c = lz /\ h < y)))) /\
    cell = (cx * 16 + a, h, cz * 16 + c).

(** What the loops have collected at that point. *)
Definition collected_cells (getBlock : Z -> Z -> Z -> option Z) (cx cz lx lz y : Z)
    (acc : option TerrainRenderer.Instances) : Prop :=
  exists m, acc = Some m /\
    NoDup (map fst m) /\ NoDup (drawnCells m) /\
    (forall key cells, (key, cells) ∈ m -> exists b, key = Some b /\ 1 <= b <= 6) /\
    forall b cell, drawn m b cell <->
      scanned cx cz lx lz y cell /\
      getBlock (fst (fst cell)) (snd (fst cell)) (snd cell) = Some b /\
      b <> BlockId.Air /\ b <> BlockId.Water /\ exposed getBlock cell.

(** A world of stone below height 40 and air above. *)
Definition stoneFloor (x y z : Z) : option Z :=
  Some (if y <? 40 then BlockId.Stone else BlockId.Air).

(** *** The meshes of the multiplayer world *)

(** Every key of the store is the key of a chunk. *)
Definition netKeysOk (w : NetworkWorldStore.t) : Prop :=
  forall key st, NetworkWorldStore.chunks w !! key = Some st ->
    exists cx cz, key = Chunk.chunkKey cx cz.

(** Every chunk holds a full array of block ids. *)
Definition netBlocksOk (w : NetworkWorldStore.t) : Prop :=
  forall key st, NetworkWorldStore.chunks w !! key = Some st ->
    Z.of_nat (length (NetworkWorldStore.blocks st)) = Chunk.BLOCKS_PER_CHUNK /\
    Forall (fun b => 0 <= b <= 7) (NetworkWorldStore.blocks st).

(** Every group belongs to a resident chunk. *)
Definition groupsOk (r : TerrainRenderer.t) (w : NetworkWorldStore.t) : Prop :=
  forall key group, TerrainRenderer.chunkGroups r !! key = Some group ->
    is_Some (NetworkWorldStore.chunks w !! key).

(** Every group is filed under the key of a chunk. *)
Definition groupKeysOk (r : TerrainRenderer.t) : Prop :=
  forall key group, TerrainRenderer.chunkGroups r !! key = Some group ->
    exists cx cz, key = Chunk.chunkKey cx cz.

(** The group of a chunk that is not flagged is the one that
    [rebuildChunk] would build from the world as it is now. *)
Definition meshCurrent (r : TerrainRenderer.t) (w : NetworkWorldStore.t) : Prop :=
  forall key st, NetworkWorldStore.chunks w !! key = Some st ->
    NetworkWorldStore.meshDirty st = false ->
    TerrainRenderer.chunkGroups r !! key = TerrainRenderer.rebuildKey w key.

(** The three together: what the renderer holds fits the world. *)
Definition meshesOk (r : TerrainRenderer.t) (w : NetworkWorldStore.t) : Prop :=
  netKeysOk w /\ groupsOk r w /\ meshCurrent r w.

(** The keys of the chunks that are flagged for a new mesh. *)
Definition flagged (w : NetworkWorldStore.t) : gset string :=
  dom (filter (fun entry => NetworkWorldStore.meshDirty (snd entry) = true)
              (NetworkWorldStore.chunks w)).

(** The scene shows the world: every resident chunk has the group that
    [rebuildChunk] builds from the world as it is, and there is no other
    group. *)
Definition sceneShows (r : TerrainRenderer.t) (w : NetworkWorldStore.t) : Prop :=
  forall key,
    TerrainRenderer.chunkGroups r !! key =
      match NetworkWorldStore.chunks w !! key with
      | Some _ => TerrainRenderer.rebuildKey w key
      | None => None
      end.

(** A chunk state with the flag cleared. *)
Definition cleared (st : NetworkWorldStore.ChunkState) : NetworkWorldStore.ChunkState :=
  {| NetworkWorldStore.blocks := NetworkWorldStore.blocks st;
     NetworkWorldStore.meshDirty := false |}.

(** What [update] did to a key it rebuilt: the chunk was flagged, it has
    the group that [rebuildChunk] builds and its flag is cleared. *)
Definition rebuiltAt (w w' : NetworkWorldStore.t) (groups' : gmap string TerrainRenderer.Instances)
    (key : string) : Prop :=
  exists st group,
    NetworkWorldStore.chunks w !! key = Some st /\
    NetworkWorldStore.meshDirty st = true /\
    TerrainRenderer.rebuildKey w key = Some group /\
    NetworkWorldStore.chunks w' !! key = Some (cleared st) /\
    groups' !! key = Some group.

(** And to the key at which [rebuildChunk] threw: the chunk is still
    flagged, and it has no group. *)
Definition failedAt (w : NetworkWorldStore.t) (groups' : gmap string TerrainRenderer.Instances)
    (key : string) : Prop :=
  exists st,
    NetworkWorldStore.chunks w !! key = Some st /\
    NetworkWorldStore.meshDirty st = true /\
    TerrainRenderer.rebuildKey w key = None /\
    groups' !! key = None.

(** The state of the loop of [update] over a world [w] that started with
    the groups [g0], when it has rebuilt the keys [done]. *)
Definition passOk (w : NetworkWorldStore.t) (g0 : gmap string TerrainRenderer.Instances)
    (maxChunkRebuilds : Z) (p : TerrainRenderer.Pass) (done : list string) : Prop :=
  NoDup done /\
  TerrainRenderer.rebuilt p = Z.of_nat (length done) /\
  Z.of_nat (length done) <= Z.max 0 maxChunkRebuilds /\
  (forall key, key ∈ done ->
     rebuiltAt w (TerrainRenderer.world p) (TerrainRenderer.groups p) key) /\
  (forall key, key ∉ done ->
     NetworkWorldStore.chunks (TerrainRenderer.world p) !! key =
       NetworkWorldStore.chunks w !! key) /\
  (forall key, key ∉ done ->
     TerrainRenderer.groups p !! key = g0 !! key \/
     (TerrainRenderer.threw p = true /\ failedAt w (TerrainRenderer.groups p) key)) /\
  (TerrainRenderer.threw p = true ->
     exists key, (key ∉ done) /\ failedAt w (TerrainRenderer.groups p) key).

(** The cells that [rebuildChunk] reads for chunk [(cx, cz)]: its own and
    the ones next to them. *)
Definition readBy (cx cz : Z) (cell : Z * Z * Z) : Prop :=
  exists own d, cellOfChunk cx cz own /\
    (d = (0, 0, 0) \/ (d ∈ TerrainRenderer.CARDINAL_NEIGHBORS)) /\
    cell = (fst (fst own) + fst (fst d), snd (fst own) + snd (fst d), snd own + snd d).

(** A renderer that has drawn nothing, and a client that has just received
    chunk (0, 0). *)
Definition freshRenderer : TerrainRenderer.t :=
  {| TerrainRenderer.chunkGroups := ∅; TerrainRenderer.lastBuildDurationMs := 0 |}.

Definition arrivedClient : NetworkWorldStore.t :=
  NetworkWorldStore.setChunk ClientScenario.emptyClient 0 0 (Chunk.blocks Sample.stoneChunk).

(* ===================================================================== *)
(** * Properties *)
(* ===================================================================== *)

(** ** Loops *)

Lemma fold_left_invariant {S A : Type} (P : S -> Prop) (Q : A -> Prop)
    (f : S -> A -> S) (l : list A) (s : S) :
  P s -> Forall Q l -> (forall a s, Q a -> P s -> P (f s a)) -> P (fold_left f l s).
Proof.
  intros Hs Hl Hstep. revert s Hs.
  induction Hl as [|a l Ha _ IH]; intros s Hs; simpl; [exact Hs|].
  apply IH. apply Hstep; assumption.
Qed.

Lemma forRange_invariant {S : Type} (P : S -> Prop) (lo hi : Z)
    (body : Z -> S -> S) (s : S) :
  P s -> (forall i s, lo <= i < hi -> P s -> P (body i s)) -> P (JS.forRange lo hi body s).
Proof.
  intros Hs Hstep. unfold JS.forRange.
  apply (fold_left_invariant P (fun i => lo <= i < hi)); [exact Hs| |].
  - apply Forall_forall. intros i Hi. apply elem_of_seqZ in Hi. lia.
  - intros a s0 Ha Hp. apply Hstep; assumption.
Qed.

(** ** Coordinates *)

Lemma mod__spec (a b : Z) : 0 < b -> WorldStore.mod_ a b = a mod b.
Proof.
  intros Hb. unfold WorldStore.mod_. cbv zeta.
  pose proof (Z.quot_rem' a b) as Hq.
  assert (Habs : Z.abs (Z.rem a b) < Z.abs b) by (apply Z.rem_bound_abs; lia).
  destruct (Z.rem a b <? 0) eqn:E; [apply Z.ltb_lt in E|apply Z.ltb_ge in E].
  - apply Z.mod_unique_pos with (q := Z.quot a b - 1); lia.
  - apply Z.mod_unique_pos with (q := Z.quot a b); lia.
Qed.

Lemma server_mod__spec (a b : Z) : 0 < b -> AuthoritativeWorld.mod_ a b = a mod b.
Proof. apply mod__spec. Qed.

(** C2.  For every integer world coordinate, [worldToChunkLocal] returns the
    floored quotients by 16 as chunk coordinates (the chunk column starts at
    or below the coordinate and ends above it), local offsets in [0, 16),
    and [cx * 16 + lx], [cz * 16 + lz] give the coordinate back; at -1 the
    chunk is -1 and the offset is 15. *)
Theorem worldToChunkLocal_roundtrip (x z : Z) :
  let l := WorldStore.worldToChunkLocal x z in
  WorldStore.l_cx l = WorldStore.floorDiv x 16 /\
  WorldStore.l_cz l = WorldStore.floorDiv z 16 /\
  (16 * WorldStore.l_cx l <= x < 16 * WorldStore.l_cx l + 16) /\
  (16 * WorldStore.l_cz l <= z < 16 * WorldStore.l_cz l + 16) /\
  (0 <= WorldStore.l_lx l < 16) /\
  (0 <= WorldStore.l_lz l < 16) /\
  WorldStore.l_cx l * 16 + WorldStore.l_lx l = x /\
  WorldStore.l_cz l * 16 + WorldStore.l_lz l = z /\
  WorldStore.worldToChunkLocal (-1) (-1) =
    {| WorldStore.l_cx := -1; WorldStore.l_cz := -1;
       WorldStore.l_lx := 15; WorldStore.l_lz := 15 |}.
Proof.
  cbn zeta. unfold WorldStore.worldToChunkLocal, WorldStore.floorDiv, Config.CHUNK_SIZE.
  cbn [WorldStore.l_cx WorldStore.l_cz WorldStore.l_lx WorldStore.l_lz].
  rewrite !mod__spec by lia.
  repeat split; try reflexivity; Z.to_euclidean_division_equations; lia.
Qed.

(** ** Chunk cells *)

Lemma inBounds_spec (x y z : Z) :
  Chunk.inBounds x y z = true <-> (0 <= x < 16 /\ 0 <= y < 96 /\ 0 <= z < 16).
Proof.
  unfold Chunk.inBounds, Config.CHUNK_SIZE, Config.WORLD_HEIGHT.
  rewrite !andb_true_iff, !Z.leb_le, !Z.ltb_lt. lia.
Qed.

Lemma index_range (x y z : Z) :
  Chunk.inBounds x y z = true -> 0 <= Chunk.index x y z < Chunk.BLOCKS_PER_CHUNK.
Proof.
  intros H. apply inBounds_spec in H.
  unfold Chunk.index, Chunk.BLOCKS_PER_CHUNK, Config.CHUNK_SIZE, Config.WORLD_HEIGHT. lia.
Qed.

(** C9.  At a coordinate outside [0, 16) x [0, 96) x [0, 16), [get] returns
    the air code and [set] hands back the chunk as it was, for every chunk
    and every block value. *)
Theorem chunk_out_of_bounds (c : Chunk.ChunkData) (x y z blockId : Z) :
  ~ (0 <= x < 16 /\ 0 <= y < 96 /\ 0 <= z < 16) ->
  Chunk.get c x y z = Some BlockId.Air /\
  Chunk.set c x y z blockId = c /\
  Chunk.blocks (Chunk.set c x y z blockId) = Chunk.blocks c.
Proof.
  intros Hout.
  assert (Hb : Chunk.inBounds x y z = false).
  { destruct (Chunk.inBounds x y z) eqn:E; [|reflexivity].
    apply inBounds_spec in E. contradiction. }
  unfold Chunk.get, Chunk.set. rewrite Hb. simpl. auto.
Qed.

Lemma chunk_out_of_bounds_witness :
  Chunk.get (Chunk.newChunkData 0 0 (Some [3; 3])) 16 0 0 = Some BlockId.Air /\
  Chunk.set (Chunk.newChunkData 0 0 (Some [3; 3])) 16 0 0 BlockId.Stone =
    Chunk.newChunkData 0 0 (Some [3; 3]) /\
  Chunk.blocks (Chunk.set (Chunk.newChunkData 0 0 (Some [3; 3])) 16 0 0 BlockId.Stone) =
    Chunk.blocks (Chunk.newChunkData 0 0 (Some [3; 3])).
Proof.
  apply (chunk_out_of_bounds (Chunk.newChunkData 0 0 (Some [3; 3])) 16 0 0 BlockId.Stone).
  lia.
Defined.

Lemma set_length (c : Chunk.ChunkData) (x y z b : Z) :
  length (Chunk.blocks (Chunk.set c x y z b)) = length (Chunk.blocks c).
Proof.
  unfold Chunk.set. destruct (negb (Chunk.inBounds x y z)); [reflexivity|].
  simpl. apply length_insert.
Qed.

Lemma set_coords (c : Chunk.ChunkData) (x y z b : Z) :
  Chunk.cx (Chunk.set c x y z b) = Chunk.cx c /\ Chunk.cz (Chunk.set c x y z b) = Chunk.cz c.
Proof. unfold Chunk.set. destruct (negb (Chunk.inBounds x y z)); auto. Qed.

Lemma toUint16_range (b : Z) : Wire.isUint16 (JS.toUint16 b).
Proof. unfold Wire.isUint16, JS.toUint16. pose proof (Z.mod_pos_bound b (2 ^ 16)). lia. Qed.

Lemma set_uint16 (c : Chunk.ChunkData) (x y z b : Z) :
  Forall Wire.isUint16 (Chunk.blocks c) ->
  Forall Wire.isUint16 (Chunk.blocks (Chunk.set c x y z b)).
Proof.
  intros H. unfold Chunk.set. destruct (negb (Chunk.inBounds x y z)); [exact H|].
  simpl. apply Forall_insert; [exact H|apply toUint16_range].
Qed.

(** A stored value is read back: the cell is inside the chunk and inside
    the array. *)
Lemma get_set_same (c : Chunk.ChunkData) (x y z b : Z) :
  Chunk.inBounds x y z = true ->
  (Z.to_nat (Chunk.index x y z) < length (Chunk.blocks c))%nat ->
  Chunk.get (Chunk.set c x y z b) x y z = Some (JS.toUint16 b).
Proof.
  intros Hb Hlen. unfold Chunk.get, Chunk.set. rewrite Hb. simpl.
  apply list_lookup_insert_eq. exact Hlen.
Qed.

(** ** The generator *)

Lemma set_wellFormed (c : Chunk.ChunkData) (x y z b : Z) :
  wellFormed c -> wellFormed (Chunk.set c x y z b).
Proof.
  intros [Hl Hu]. split; [rewrite set_length; exact Hl|apply set_uint16; exact Hu].
Qed.

Lemma newChunkData_wellFormed (cx cz : Z) : wellFormed (Chunk.newChunkData cx cz None).
Proof.
  unfold wellFormed, Chunk.newChunkData. cbn [Chunk.blocks]. split.
  - rewrite length_replicate. apply Z2Nat.id. discriminate.
  - apply Forall_replicate. unfold Wire.isUint16. lia.
Qed.

Lemma placeLeaf_wellFormed lx lz crownBase ox oz oy c :
  wellFormed c -> wellFormed (Generator.placeLeaf lx lz crownBase ox oz oy c).
Proof.
  intros H. unfold Generator.placeLeaf.
  repeat (case_match; try exact H). apply set_wellFormed, H.
Qed.

Lemma growTree_wellFormed g lx lz c :
  wellFormed c -> wellFormed (Generator.growTree g lx lz c).
Proof.
  intros H. unfold Generator.growTree. cbv zeta.
  destruct (PrimFloat.ltb _ _); [exact H|].
  destruct (_ || _); [exact H|].
  destruct (negb _); [exact H|].
  apply (forRange_invariant wellFormed).
  - apply (forRange_invariant wellFormed); [exact H|].
    intros. apply set_wellFormed. assumption.
  - intros ox c1 _ H1. apply (forRange_invariant wellFormed); [exact H1|].
    intros oz c2 _ H2. apply (forRange_invariant wellFormed); [exact H2|].
    intros oy c3 _ H3. apply placeLeaf_wellFormed. exact H3.
Qed.

Lemma fillColumn_wellFormed g cx cz lx lz c :
  wellFormed c -> wellFormed (Generator.fillColumn g cx cz lx lz c).
Proof.
  intros H. unfold Generator.fillColumn. cbv zeta.
  apply (forRange_invariant wellFormed); [exact H|].
  intros. apply set_wellFormed. assumption.
Qed.

Lemma generateChunk_wellFormed (g : Generator.WorldGenerator) (cx cz : Z) :
  wellFormed (Generator.generateChunk g cx cz).
Proof.
  unfold Generator.generateChunk, Generator.generateTrees. cbv zeta.
  apply (forRange_invariant wellFormed).
  - apply (forRange_invariant wellFormed); [apply newChunkData_wellFormed|].
    intros lx c1 _ H1. apply (forRange_invariant wellFormed); [exact H1|].
    intros lz c2 _ H2. apply fillColumn_wellFormed. exact H2.
  - intros lx c1 _ H1. apply (forRange_invariant wellFormed); [exact H1|].
    intros lz c2 _ H2. apply growTree_wellFormed. exact H2.
Qed.

Lemma set_at_coords cx cz c x y z b :
  at_coords cx cz c -> at_coords cx cz (Chunk.set c x y z b).
Proof.
  intros [H1 H2]. destruct (set_coords c x y z b) as [E1 E2].
  split; congruence.
Qed.

Lemma generateChunk_coords (g : Generator.WorldGenerator) (cx cz : Z) :
  at_coords cx cz (Generator.generateChunk g cx cz).
Proof.
  unfold Generator.generateChunk, Generator.generateTrees. cbv zeta.
  apply (forRange_invariant (at_coords cx cz)).
  - apply (forRange_invariant (at_coords cx cz)); [split; reflexivity|].
    intros lx c1 _ H1. apply (forRange_invariant (at_coords cx cz)); [exact H1|].
    intros lz c2 _ H2. unfold Generator.fillColumn. cbv zeta.
    apply (forRange_invariant (at_coords cx cz)); [exact H2|].
    intros. apply set_at_coords. assumption.
  - intros lx c1 _ H1. apply (forRange_invariant (at_coords cx cz)); [exact H1|].
    intros lz c2 _ H2. unfold Generator.growTree. cbv zeta.
    destruct (PrimFloat.ltb _ _); [exact H2|].
    destruct (_ || _); [exact H2|].
    destruct (negb _); [exact H2|].
    apply (forRange_invariant (at_coords cx cz)).
    + apply (forRange_invariant (at_coords cx cz)); [exact H2|].
      intros. apply set_at_coords. assumption.
    + intros ox c3 _ H3. apply (forRange_invariant (at_coords cx cz)); [exact H3|].
      intros oz c4 _ H4. apply (forRange_invariant (at_coords cx cz)); [exact H4|].
      intros oy c5 _ H5. unfold Generator.placeLeaf. cbv zeta.
      repeat (case_match; try exact H5). apply set_at_coords. exact H5.
Qed.


(** ** The chunk payload *)

Lemma sextet_table :
  forallb (fun n => bool_decide (Base64.unsextet (Base64.sextet n) = Some n) &&
                    negb (Ascii.eqb (Base64.sextet n) "="))
          (seqZ 0 64) = true.
Proof. vm_compute. reflexivity. Qed.

Lemma sextet_facts (n : Z) :
  0 <= n < 64 ->
  Base64.unsextet (Base64.sextet n) = Some n /\ Ascii.eqb (Base64.sextet n) "=" = false.
Proof.
  intros Hn. pose proof sextet_table as T.
  rewrite forallb_forall in T. specialize (T n).
  assert (Hin : In n (seqZ 0 64)).
  { apply list_elem_of_In, elem_of_seqZ. lia. }
  apply T in Hin. apply andb_true_iff in Hin as [H1 H2].
  apply bool_decide_eq_true in H1. apply negb_true_iff in H2. auto.
Qed.

(** Lists three elements at a time. *)
Lemma list_ind3 {A : Type} (P : list A -> Prop) :
  P [] -> (forall a, P [a]) -> (forall a b, P [a; b]) ->
  (forall a b c l, P l -> P (a :: b :: c :: l)) ->
  forall l, P l.
Proof.
  intros H0 H1 H2 H3.
  fix IH 1. intros [|a [|b [|c l]]].
  - exact H0.
  - apply H1.
  - apply H2.
  - apply H3. apply IH.
Qed.

Ltac solve_bytes :=
  rewrite ?bool_decide_eq_true_2 by reflexivity;
  repeat match goal with
         | |- Some _ = Some _ => f_equal
         | |- _ :: _ = _ :: _ => f_equal
         end;
  try reflexivity; Z.to_euclidean_division_equations; lia.

Lemma decode_encode (bytes : list Z) :
  Forall Wire.isByte bytes -> Base64.decode (Base64.encode bytes) = Some bytes.
Proof.
  induction bytes as [|a|a b|a b c rest IH] using list_ind3; intros HB.
  - reflexivity.
  - apply Forall_cons in HB as [Ha _]. unfold Wire.isByte in Ha.
    destruct (sextet_facts (a / 4)) as [E1 _]; [Z.to_euclidean_division_equations; lia|].
    destruct (sextet_facts (a mod 4 * 16)) as [E2 _]; [Z.to_euclidean_division_equations; lia|].
    cbn [Base64.encode Base64.decode]. rewrite E1, E2. cbn.
    solve_bytes.
  - apply Forall_cons in HB as [Ha HB]. apply Forall_cons in HB as [Hb _].
    unfold Wire.isByte in *.
    destruct (sextet_facts (a / 4)) as [E1 _]; [Z.to_euclidean_division_equations; lia|].
    destruct (sextet_facts (a mod 4 * 16 + b / 16)) as [E2 _];
      [Z.to_euclidean_division_equations; lia|].
    destruct (sextet_facts (b mod 16 * 4)) as [E3 N3];
      [Z.to_euclidean_division_equations; lia|].
    cbn [Base64.encode Base64.decode]. rewrite E1, E2. cbn [mbind option_bind].
    rewrite N3, E3. cbn.
    solve_bytes.
  - apply Forall_cons in HB as [Ha HB]. apply Forall_cons in HB as [Hb HB].
    apply Forall_cons in HB as [Hc HB]. unfold Wire.isByte in *.
    destruct (sextet_facts (a / 4)) as [E1 _]; [Z.to_euclidean_division_equations; lia|].
    destruct (sextet_facts (a mod 4 * 16 + b / 16)) as [E2 _];
      [Z.to_euclidean_division_equations; lia|].
    destruct (sextet_facts (b mod 16 * 4 + c / 64)) as [E3 N3];
      [Z.to_euclidean_division_equations; lia|].
    destruct (sextet_facts (c mod 64)) as [E4 N4]; [Z.to_euclidean_division_equations; lia|].
    cbn [Base64.encode Base64.decode]. rewrite E1, E2. cbn [mbind option_bind].
    rewrite N3, E3. cbn [mbind option_bind]. rewrite N4, E4. cbn [mbind option_bind].
    rewrite (IH HB). cbn [mbind option_bind].
    solve_bytes.
Qed.

Lemma bufferOf_bytes (blocks : list Z) : Forall Wire.isByte (Wire.bufferOf blocks).
Proof.
  unfold Wire.bufferOf. induction blocks as [|v l IH]; [constructor|].
  cbn [flat_map app]. constructor; [|constructor; [|exact IH]]; unfold Wire.isByte.
  - pose proof (Z.mod_pos_bound v 256). lia.
  - pose proof (Z.mod_pos_bound (v / 256) 256). lia.
Qed.

Lemma uint16ArrayOf_bufferOf (blocks : list Z) :
  Forall Wire.isUint16 blocks -> Wire.uint16ArrayOf (Wire.bufferOf blocks) = Some blocks.
Proof.
  unfold Wire.bufferOf. induction 1 as [|v l Hv _ IH]; [reflexivity|].
  cbn [flat_map app Wire.uint16ArrayOf]. rewrite IH. cbn.
  unfold Wire.isUint16 in Hv. solve_bytes.
Qed.

Lemma decodeChunkBase64_blocksToBase64 (blocks : list Z) :
  Forall Wire.isUint16 blocks ->
  Wire.decodeChunkBase64 (Wire.blocksToBase64 blocks) = Some blocks.
Proof.
  intros H. unfold Wire.decodeChunkBase64, Wire.blocksToBase64.
  rewrite decode_encode by apply bufferOf_bytes. cbn [mbind option_bind].
  apply uint16ArrayOf_bufferOf, H.
Qed.

Lemma list_ind2 {A : Type} (P : list A -> Prop) :
  P [] -> (forall a, P [a]) -> (forall a b l, P l -> P (a :: b :: l)) ->
  forall l, P l.
Proof.
  intros H0 H1 H2.
  fix IH 1. intros [|a [|b l]].
  - exact H0.
  - apply H1.
  - apply H2. apply IH.
Qed.

Lemma uint16ArrayOf_wellFormed (raw blocks : list Z) :
  Forall Wire.isByte raw -> Wire.uint16ArrayOf raw = Some blocks ->
  Forall Wire.isUint16 blocks /\ Z.of_nat (length raw) = 2 * Z.of_nat (length blocks).
Proof.
  revert blocks. induction raw as [|a|a b rest IH] using list_ind2; intros blocks HB E.
  - injection E as <-. split; [constructor|reflexivity].
  - discriminate.
  - cbn [Wire.uint16ArrayOf] in E.
    destruct (Wire.uint16ArrayOf rest) as [t|] eqn:Et; [|discriminate].
    cbn in E. injection E as <-.
    apply Forall_cons in HB as [Ha HB]. apply Forall_cons in HB as [Hb HB].
    destruct (IH t HB eq_refl) as [Hu Hl].
    unfold Wire.isByte in *. split.
    + constructor; [unfold Wire.isUint16; lia|exact Hu].
    + cbn [length]. lia.
Qed.

Lemma getChunk_wellFormed (w : AuthoritativeWorld.t) (cx cz : Z) :
  worldWellFormed w ->
  wellFormed (fst (AuthoritativeWorld.getChunk w cx cz)) /\
  worldWellFormed (snd (AuthoritativeWorld.getChunk w cx cz)).
Proof.
  intros [Hc Hf]. unfold AuthoritativeWorld.getChunk. cbv zeta.
  destruct (AuthoritativeWorld.chunks w !! Chunk.chunkKey cx cz) as [cached|] eqn:E.
  - split; [exact (Hc _ _ E)|split; assumption].
  - assert (Hnew : wellFormed (AuthoritativeWorld.readChunkFile w cx cz)).
    { unfold AuthoritativeWorld.readChunkFile.
      destruct (AuthoritativeWorld.files w !! _) as [raw|] eqn:Ef;
        [|apply generateChunk_wellFormed].
      destruct (_ =? _) eqn:El; [|apply generateChunk_wellFormed].
      destruct (Wire.uint16ArrayOf raw) as [b|] eqn:Eb; [|apply generateChunk_wellFormed].
      apply Z.eqb_eq in El.
      destruct (uint16ArrayOf_wellFormed raw b (Hf _ _ Ef) Eb) as [Hu Hl].
      split; cbn [Chunk.newChunkData Chunk.blocks]; [lia|exact Hu]. }
    cbn [fst snd]. split; [exact Hnew|]. split; cbn.
    + intros key c Hk. apply lookup_insert_Some in Hk as [[_ <-]|[_ Hk]];
        [exact Hnew|exact (Hc _ _ Hk)].
    + exact Hf.
Qed.

(** C3.  The payload that [encodeChunkBase64] produces for a chunk decodes,
    with [decodeChunkBase64], to exactly the block array of that chunk: for
    every chunk whose array holds 16-bit codes, and so for every chunk of a
    server world whose cache and chunk files are well formed. *)
Theorem chunk_base64_roundtrip (w : AuthoritativeWorld.t) (cx cz : Z) :
  Forall Wire.isUint16 (Chunk.blocks (fst (AuthoritativeWorld.getChunk w cx cz))) ->
  Wire.decodeChunkBase64 (fst (AuthoritativeWorld.encodeChunkBase64 w cx cz)) =
    Some (Chunk.blocks (fst (AuthoritativeWorld.getChunk w cx cz))).
Proof.
  intros H. unfold AuthoritativeWorld.encodeChunkBase64.
  destruct (AuthoritativeWorld.getChunk w cx cz) as [chunk w'] eqn:E.
  cbn [fst] in *. apply decodeChunkBase64_blocksToBase64, H.
Qed.

(** Every chunk of a well-formed server world is a whole chunk of 16-bit
    codes, so its payload decodes to its block array. *)
Lemma server_chunk_payload_decodes (w : AuthoritativeWorld.t) (cx cz : Z) :
  worldWellFormed w ->
  Wire.decodeChunkBase64 (fst (AuthoritativeWorld.encodeChunkBase64 w cx cz)) =
    Some (Chunk.blocks (fst (AuthoritativeWorld.getChunk w cx cz))) /\
  Z.of_nat (length (Chunk.blocks (fst (AuthoritativeWorld.getChunk w cx cz)))) = 16 * 96 * 16.
Proof.
  intros Hw. destruct (getChunk_wellFormed w cx cz Hw) as [[Hl Hu] _].
  split; [|exact Hl].
  unfold AuthoritativeWorld.encodeChunkBase64.
  destruct (AuthoritativeWorld.getChunk w cx cz) as [chunk w'].
  cbn [fst] in *. apply decodeChunkBase64_blocksToBase64, Hu.
Qed.

Lemma chunk_base64_roundtrip_witness :
  Wire.decodeChunkBase64 (fst (AuthoritativeWorld.encodeChunkBase64 Sample.serverWorld 0 0)) =
    Some (Chunk.blocks (fst (AuthoritativeWorld.getChunk Sample.serverWorld 0 0))).
Proof.
  apply (chunk_base64_roundtrip Sample.serverWorld 0 0).
  apply (bool_decide_unpack _). vm_compute. exact I.
Defined.

(** ** Writing the block that is already there *)

Lemma server_getChunk_cached (w : AuthoritativeWorld.t) (cx cz : Z) :
  AuthoritativeWorld.getChunk (snd (AuthoritativeWorld.getChunk w cx cz)) cx cz =
    AuthoritativeWorld.getChunk w cx cz.
Proof.
  unfold AuthoritativeWorld.getChunk. cbv zeta.
  destruct (AuthoritativeWorld.chunks w !! Chunk.chunkKey cx cz) as [c|] eqn:E; cbn [snd].
  - rewrite E. reflexivity.
  - cbn [AuthoritativeWorld.chunks]. rewrite lookup_insert_eq. reflexivity.
Qed.

Lemma server_getChunk_frame (w : AuthoritativeWorld.t) (cx cz : Z) :
  AuthoritativeWorld.dirty (snd (AuthoritativeWorld.getChunk w cx cz)) =
    AuthoritativeWorld.dirty w /\
  AuthoritativeWorld.files (snd (AuthoritativeWorld.getChunk w cx cz)) =
    AuthoritativeWorld.files w /\
  (is_Some (AuthoritativeWorld.chunks w !! Chunk.chunkKey cx cz) ->
   snd (AuthoritativeWorld.getChunk w cx cz) = w).
Proof.
  unfold AuthoritativeWorld.getChunk. cbv zeta.
  destruct (AuthoritativeWorld.chunks w !! Chunk.chunkKey cx cz) as [c|] eqn:E; cbn.
  - auto.
  - repeat split. intros [c Hc]. discriminate.
Qed.

(** C10.  When the block handed to [setBlock] is the one already stored at
    the cell, the client store returns false and is left exactly as it was
    (no dirty flag, no mesh-dirty flag, no neighbour touched), and the
    server world returns false with its dirty set and its files as they
    were: all that may have happened is that the read brought the chunk
    into the cache, and with the chunk already cached the world is left
    exactly as it was. *)
Theorem setBlock_same_block (s : WorldStore.t) (w : AuthoritativeWorld.t)
    (x y z block : Z) (now : float) :
  WorldStore.blockAt s x y z = Some block ->
  fst (AuthoritativeWorld.getBlock w x y z) = Some block ->
  WorldStore.setBlock s x y z block now = (false, s) /\
  AuthoritativeWorld.setBlock w x y z block = (false, snd (AuthoritativeWorld.getBlock w x y z)) /\
  AuthoritativeWorld.dirty (snd (AuthoritativeWorld.setBlock w x y z block)) =
    AuthoritativeWorld.dirty w /\
  AuthoritativeWorld.files (snd (AuthoritativeWorld.setBlock w x y z block)) =
    AuthoritativeWorld.files w /\
  (is_Some (AuthoritativeWorld.chunks w !!
             Chunk.chunkKey (x / Config.CHUNK_SIZE) (z / Config.CHUNK_SIZE)) ->
   snd (AuthoritativeWorld.setBlock w x y z block) = w).
Proof.
  intros Hc Hs.
  assert (Hclient : WorldStore.setBlock s x y z block now = (false, s)).
  { unfold WorldStore.setBlock, WorldStore.blockAt in *. cbv zeta in *.
    destruct ((y <? 0) || (Config.WORLD_HEIGHT <=? y)); [reflexivity|].
    destruct (WorldStore.chunks s !! _) as [state|]; [|reflexivity].
    rewrite Hc. rewrite bool_decide_eq_true_2 by reflexivity. reflexivity. }
  assert (Hserver : AuthoritativeWorld.setBlock w x y z block =
                    (false, snd (AuthoritativeWorld.getBlock w x y z))).
  { unfold AuthoritativeWorld.setBlock, AuthoritativeWorld.getBlock in *. cbv zeta in *.
    destruct ((y <? 0) || (Config.WORLD_HEIGHT <=? y)); [reflexivity|].
    destruct (AuthoritativeWorld.getChunk w _ _) as [chunk w'] eqn:E.
    cbn [fst snd] in *. rewrite Hs.
    rewrite bool_decide_eq_true_2 by reflexivity. reflexivity. }
  split; [exact Hclient|]. split; [exact Hserver|].
  rewrite Hserver. cbn [snd].
  unfold AuthoritativeWorld.getBlock. cbv zeta.
  destruct ((y <? 0) || (Config.WORLD_HEIGHT <=? y)); cbn [snd]; [auto|].
  pose proof (server_getChunk_frame w (x / Config.CHUNK_SIZE) (z / Config.CHUNK_SIZE))
    as (Hd & Hf & Hsame).
  destruct (AuthoritativeWorld.getChunk w _ _) as [chunk w'] eqn:E.
  cbn [fst snd] in *. auto.
Qed.

Lemma setBlock_same_block_witness :
  WorldStore.setBlock Sample.clientStore 1 2 3 BlockId.Stone 0 = (false, Sample.clientStore) /\
  AuthoritativeWorld.setBlock Sample.serverWorld 1 2 3 BlockId.Stone =
    (false, snd (AuthoritativeWorld.getBlock Sample.serverWorld 1 2 3)) /\
  AuthoritativeWorld.dirty (snd (AuthoritativeWorld.setBlock Sample.serverWorld 1 2 3 BlockId.Stone)) =
    AuthoritativeWorld.dirty Sample.serverWorld /\
  AuthoritativeWorld.files (snd (AuthoritativeWorld.setBlock Sample.serverWorld 1 2 3 BlockId.Stone)) =
    AuthoritativeWorld.files Sample.serverWorld /\
  (is_Some (AuthoritativeWorld.chunks Sample.serverWorld !!
             Chunk.chunkKey (1 / Config.CHUNK_SIZE) (3 / Config.CHUNK_SIZE)) ->
   snd (AuthoritativeWorld.setBlock Sample.serverWorld 1 2 3 BlockId.Stone) =
     Sample.serverWorld).
Proof.
  apply (setBlock_same_block Sample.clientStore Sample.serverWorld 1 2 3 BlockId.Stone 0).
  - vm_compute. reflexivity.
  - vm_compute. reflexivity.
Defined.

(** ** Reconciliation of the local player *)

Lemma copy_stack (st : Protocol.SharedItemStack) :
  {| Protocol.item := Protocol.item st; Protocol.count := Protocol.count st |} = st.
Proof. destruct st. reflexivity. Qed.

Lemma newInventory_nine (initial : list (option Protocol.SharedItemStack)) :
  length initial = 9%nat ->
  MultiplayerGame.hotbar (MultiplayerGame.newInventory initial) = initial.
Proof.
  intros H.
  do 9 (destruct initial as [|? initial]; [discriminate H|]).
  destruct initial; [|discriminate H].
  vm_compute.
  repeat match goal with
         | |- context [match ?o with Some _ => _ | None => _ end] => destruct o as [[]|]
         end; reflexivity.
Qed.

Lemma setSelected_in_range (inv : MultiplayerGame.Inventory) (i : Z) :
  0 <= i < 9 ->
  MultiplayerGame.selectedSlot (MultiplayerGame.setSelected inv i) = i.
Proof.
  intros H. unfold MultiplayerGame.setSelected, Config.HOTBAR_SIZE. cbn.
  rewrite (Z.rem_small i 9) by lia.
  pose proof (Z.quot_rem' (i + 9) 9) as Hq.
  pose proof (Z.rem_bound_pos (i + 9) 9 ltac:(lia) ltac:(lia)) as Hb.
  assert (Z.quot (i + 9) 9 = 1) by nia. lia.
Qed.

Lemma filter_all {A : Type} (P : A -> Prop) `{forall x, Decision (P x)} (l : list A) :
  Forall P l -> filter P l = l.
Proof.
  induction 1 as [|x l Hx _ IH]; [reflexivity|].
  rewrite filter_cons_True by exact Hx. f_equal. exact IH.
Qed.

Lemma shiftAcknowledged_filter (last : Z) (pending : list MultiplayerGame.PendingInput) :
  StronglySorted Z.lt (map MultiplayerGame.seq pending) ->
  MultiplayerGame.shiftAcknowledged last pending =
    filter (fun p => last < MultiplayerGame.seq p) pending.
Proof.
  induction pending as [|p rest IH]; intros HS; [reflexivity|].
  cbn [map] in HS. apply StronglySorted_inv in HS as [HS Hall].
  cbn [MultiplayerGame.shiftAcknowledged].
  destruct (MultiplayerGame.seq p <=? last) eqn:E.
  - apply Z.leb_le in E. rewrite filter_cons_False by lia. apply IH, HS.
  - apply Z.leb_gt in E. rewrite filter_cons_True by lia. f_equal.
    symmetry. apply filter_all.
    rewrite Forall_map in Hall. eapply Forall_impl; [exact Hall|].
    intros q Hq. cbn in Hq. lia.
Qed.

Lemma shiftAcknowledged_suffix (last : Z) (pending : list MultiplayerGame.PendingInput) :
  exists dropped, pending = dropped ++ MultiplayerGame.shiftAcknowledged last pending.
Proof.
  induction pending as [|p rest [d Hd]]; [exists []; reflexivity|].
  cbn [MultiplayerGame.shiftAcknowledged].
  destruct (MultiplayerGame.seq p <=? last).
  - exists (p :: d). cbn. f_equal. exact Hd.
  - exists []. reflexivity.
Qed.

Lemma StronglySorted_app_r {A : Type} (R : A -> A -> Prop) (l1 l2 : list A) :
  StronglySorted R (l1 ++ l2) -> StronglySorted R l2.
Proof.
  induction l1 as [|a l1 IH]; [auto|].
  cbn. intros H. apply StronglySorted_inv in H as [H _]. auto.
Qed.

Lemma pendingOk_initial : pendingOk MultiplayerGame.initial.
Proof. split; constructor. Qed.

Lemma pendingOk_bufferInput g dt kd ka ks kw sp sh :
  pendingOk g -> pendingOk (MultiplayerGame.bufferInput g dt kd ka ks kw sp sh).
Proof.
  intros [HS HB]. unfold MultiplayerGame.bufferInput, MultiplayerGame.captureMovementInput.
  cbv zeta. cbn [MultiplayerGame.pendingInputs MultiplayerGame.inputSeq].
  set (p := {| MultiplayerGame.seq := MultiplayerGame.inputSeq g + 1 |}).
  assert (Hall : pendingOk
    {| MultiplayerGame.player := MultiplayerGame.player g;
       MultiplayerGame.inventory := MultiplayerGame.inventory g;
       MultiplayerGame.pendingInputs := MultiplayerGame.pendingInputs g ++ [p];
       MultiplayerGame.inputSeq := MultiplayerGame.inputSeq g + 1;
       MultiplayerGame.localPlayerId := MultiplayerGame.localPlayerId g;
       MultiplayerGame.tick := MultiplayerGame.tick g |}).
  { split; cbn [MultiplayerGame.pendingInputs MultiplayerGame.inputSeq].
    - rewrite map_app. cbn [map].
      revert HS HB. generalize (MultiplayerGame.pendingInputs g) as l.
      induction l as [|q l IH]; intros HS HB.
      + cbn. repeat constructor.
      + cbn [map app] in *. apply StronglySorted_inv in HS as [HS Hq].
        apply Forall_cons in HB as [Hle HB]. constructor; [apply IH; assumption|].
        apply Forall_app. split; [exact Hq|]. constructor; [|constructor].
        subst p. cbn. lia.
    - apply Forall_app. split.
      + eapply Forall_impl; [exact HB|]. intros q Hq. cbn in Hq. lia.
      + constructor; [|constructor]. subst p. cbn. lia. }
  destruct (120 <? length (MultiplayerGame.pendingInputs g ++ [p]))%nat; [|exact Hall].
  destruct Hall as [HS' HB']. cbn [MultiplayerGame.pendingInputs MultiplayerGame.inputSeq] in *.
  destruct (MultiplayerGame.pendingInputs g ++ [p]) as [|q l]; [split; constructor|].
  cbn [tail map] in *. split.
  - apply StronglySorted_inv in HS' as [HS' _]. exact HS'.
  - apply Forall_cons in HB' as [_ HB']. exact HB'.
Qed.

Lemma pendingOk_applyLocalReconciliation g state :
  pendingOk g -> pendingOk (MultiplayerGame.applyLocalReconciliation g state).
Proof.
  intros [HS HB]. unfold MultiplayerGame.applyLocalReconciliation. cbv zeta.
  split; cbn [MultiplayerGame.pendingInputs MultiplayerGame.inputSeq].
  - destruct (Protocol.np_lastProcessedSeq state) as [last|]; [|exact HS].
    destruct (shiftAcknowledged_suffix last (MultiplayerGame.pendingInputs g)) as [d Hd].
    rewrite Hd, map_app in HS. apply StronglySorted_app_r in HS. exact HS.
  - destruct (Protocol.np_lastProcessedSeq state) as [last|]; [|exact HB].
    destruct (shiftAcknowledged_suffix last (MultiplayerGame.pendingInputs g)) as [d Hd].
    rewrite Hd in HB. apply Forall_app in HB as [_ HB]. exact HB.
Qed.

(** C6.  Applying a snapshot entry to the local player stores the entry's
    velocity, health, yaw and pitch, and (for an entry with nine hotbar
    slots and a selected slot among them) its hotbar and selected slot,
    whatever the distance between the two positions; with the inputs
    buffered as the fixed update buffers them, the inputs left are exactly
    those with a sequence number above the server's last processed one, in
    their order; the position is the local one, the authoritative one or a
    blend of the two, and nothing of the new player depends on the buffer:
    no input is replayed. *)
Theorem applyLocalReconciliation_overwrites
    (g : MultiplayerGame.t) (state : Protocol.NetPlayerState) (last : Z) :
  pendingOk g ->
  length (Protocol.np_hotbar state) = 9%nat ->
  0 <= Protocol.np_selectedSlot state < 9 ->
  Protocol.np_lastProcessedSeq state = Some last ->
  let g' := MultiplayerGame.applyLocalReconciliation g state in
  MultiplayerGame.velocity (MultiplayerGame.player g') =
    {| MultiplayerGame.x := Protocol.np_vx state; MultiplayerGame.y := Protocol.np_vy state;
       MultiplayerGame.z := Protocol.np_vz state |} /\
  MultiplayerGame.health (MultiplayerGame.player g') = Protocol.np_health state /\
  MultiplayerGame.yaw (MultiplayerGame.player g') = Protocol.np_yaw state /\
  MultiplayerGame.pitch (MultiplayerGame.player g') = Protocol.np_pitch state /\
  MultiplayerGame.hotbar (MultiplayerGame.inventory g') = Protocol.np_hotbar state /\
  MultiplayerGame.selectedSlot (MultiplayerGame.inventory g') = Protocol.np_selectedSlot state /\
  MultiplayerGame.pendingInputs g' =
    filter (fun p => last < MultiplayerGame.seq p) (MultiplayerGame.pendingInputs g) /\
  (forall p, p ∈ MultiplayerGame.pendingInputs g ->
     (p ∈ MultiplayerGame.pendingInputs g' <-> ~ MultiplayerGame.seq p <= last)) /\
  MultiplayerGame.position (MultiplayerGame.player g') =
    MultiplayerGame.reconcilePosition (MultiplayerGame.position (MultiplayerGame.player g))
      {| MultiplayerGame.x := Protocol.np_x state; MultiplayerGame.y := Protocol.np_y state;
         MultiplayerGame.z := Protocol.np_z state |} /\
  (forall h : MultiplayerGame.t,
     MultiplayerGame.player h = MultiplayerGame.player g ->
     MultiplayerGame.player (MultiplayerGame.applyLocalReconciliation h state) =
       MultiplayerGame.player g') /\
  pendingOk g'.
Proof.
  intros Hok Hlen Hslot Hlast g'.
  assert (Hpend : MultiplayerGame.pendingInputs g' =
    filter (fun p => last < MultiplayerGame.seq p) (MultiplayerGame.pendingInputs g)).
  { subst g'. unfold MultiplayerGame.applyLocalReconciliation. cbv zeta.
    cbn [MultiplayerGame.pendingInputs]. rewrite Hlast.
    apply shiftAcknowledged_filter, Hok. }
  repeat split.
  - subst g'. unfold MultiplayerGame.applyLocalReconciliation. cbv zeta.
    cbn [MultiplayerGame.inventory]. unfold MultiplayerGame.setSelected.
    cbn [MultiplayerGame.hotbar]. apply newInventory_nine, Hlen.
  - subst g'. unfold MultiplayerGame.applyLocalReconciliation. cbv zeta.
    cbn [MultiplayerGame.inventory]. apply setSelected_in_range, Hslot.
  - exact Hpend.
  - rewrite Hpend. intros Hin. apply list_elem_of_filter in Hin as [Hp _]. lia.
  - rewrite Hpend. intros Hp. apply list_elem_of_filter. split; [lia|assumption].
  - intros h Hh. subst g'. unfold MultiplayerGame.applyLocalReconciliation. cbv zeta.
    cbn [MultiplayerGame.player]. rewrite Hh. reflexivity.
  - apply pendingOk_applyLocalReconciliation, Hok.
  - apply pendingOk_applyLocalReconciliation, Hok.
Qed.

(** ** Chunk keys *)

Lemma append_cons (c : ascii) (s t : string) : String c s +:+ t = String c (s +:+ t).
Proof. reflexivity. Qed.

Lemma append_nil (t : string) : EmptyString +:+ t = t.
Proof. reflexivity. Qed.

Lemma split_sepFree (sep : ascii) (s : string) :
  sepFree sep s -> Chunk.split sep s = [s].
Proof.
  induction s as [|c s IH]; [reflexivity|].
  intros [Hc Hs]. cbn [Chunk.split]. rewrite Hc, (IH Hs). reflexivity.
Qed.

Lemma split_app (sep : ascii) (s t : string) :
  sepFree sep s -> Chunk.split sep (s +:+ String sep t) = s :: Chunk.split sep t.
Proof.
  induction s as [|c s IH]; intros Hs.
  - rewrite append_nil. cbn [Chunk.split]. rewrite Ascii.eqb_refl. reflexivity.
  - destruct Hs as [Hc Hs]. rewrite append_cons. cbn [Chunk.split].
    rewrite Hc, (IH Hs). reflexivity.
Qed.

Lemma string_of_uint_sepFree (d : Decimal.uint) :
  sepFree ":" (NilEmpty.string_of_uint d).
Proof. induction d; cbn; auto. Qed.

Lemma showZ_sepFree (n : Z) : sepFree ":" (Chunk.showZ n).
Proof.
  unfold Chunk.showZ, NilZero.string_of_int, NilZero.string_of_uint.
  destruct (Z.to_int n) as [d|d]; destruct d; cbn; auto using string_of_uint_sepFree.
Qed.

Lemma Number_showZ (n : Z) : Chunk.Number (Chunk.showZ n) = Some n.
Proof.
  unfold Chunk.Number, Chunk.showZ. rewrite NilZero.isi.
  - cbn. f_equal. apply DecimalZ.of_to.
  - destruct n; cbn; try discriminate.
    intros [= H]. exact (DecimalPos.Unsigned.to_uint_nonnil _ H).
  - destruct n; cbn; try discriminate.
    intros [= H]. exact (DecimalPos.Unsigned.to_uint_nonnil _ H).
Qed.

Lemma parseChunkKey_chunkKey (cx cz : Z) :
  Chunk.parseChunkKey (Chunk.chunkKey cx cz) = (Some cx, Some cz).
Proof.
  unfold Chunk.parseChunkKey, Chunk.chunkKey. cbv zeta.
  change (":" +:+ Chunk.showZ cz) with (String ":" (Chunk.showZ cz)).
  rewrite split_app by apply showZ_sepFree.
  rewrite split_sepFree by apply showZ_sepFree.
  cbn [lookup list_lookup mbind option_bind]. rewrite !Number_showZ. reflexivity.
Qed.

Lemma chunkKey_inj (a b c d : Z) :
  Chunk.chunkKey a b = Chunk.chunkKey c d -> a = c /\ b = d.
Proof.
  intros H. apply (f_equal Chunk.parseChunkKey) in H.
  rewrite !parseChunkKey_chunkKey in H. injection H as -> ->. auto.
Qed.

(** ** Eviction *)

Lemma unloadScan_spec (s : WorldStore.t) (center : Z * Z) (radius : Z)
    (saveOk : string -> bool) (entries : list (string * WorldStore.ChunkState))
    (removals : list string) (saves : list WorldStore.Effect) (keys : list string) :
  WorldStore.unloadScan s center radius saveOk entries removals = (saves, Some keys) ->
  exists added,
    keys = removals ++ added /\
    (forall key, key ∈ added -> isFar center radius key = true) /\
    (forall key state, (key, state) ∈ entries -> isFar center radius key = true ->
       key ∈ added /\
       (WorldStore.dirty state = true ->
        WorldStore.SaveChunk (storageKeyFor s key)
                             (Chunk.blocks (WorldStore.chunk state)) ∈ saves /\
        saveOk (storageKeyFor s key) = true)).
Proof.
  revert removals saves keys.
  induction entries as [|[k st] rest IH]; intros removals saves keys H.
  - cbn in H. injection H as <- <-. exists []. rewrite app_nil_r.
    split; [reflexivity|]. split.
    + intros key Hk. apply elem_of_nil in Hk. contradiction.
    + intros key state Hk. apply elem_of_nil in Hk. contradiction.
  - cbn [WorldStore.unloadScan] in H.
    assert (Hfar : (let '(cx, cz) := Chunk.parseChunkKey k in
                    WorldStore.farther cx (fst center) radius ||
                    WorldStore.farther cz (snd center) radius) = isFar center radius k).
    { unfold isFar. destruct (Chunk.parseChunkKey k). reflexivity. }
    assert (Hkey : WorldStore.storageKeyOf s (fst (Chunk.parseChunkKey k))
                     (snd (Chunk.parseChunkKey k)) = storageKeyFor s k) by reflexivity.
    destruct (Chunk.parseChunkKey k) as [cx cz] eqn:Ep. cbn [fst snd] in Hkey.
    rewrite Hfar in H. clear Hfar.
    destruct (isFar center radius k) eqn:Ef.
    + destruct (WorldStore.dirty st) eqn:Ed.
      * rewrite Hkey in H. destruct (saveOk (storageKeyFor s k)) eqn:Eok; [|discriminate].
        destruct (WorldStore.unloadScan s center radius saveOk rest (removals ++ [k]))
          as [log r] eqn:Er.
        injection H as <- ->.
        destruct (IH _ _ _ Er) as (added & -> & Hfarall & Hall).
        exists (k :: added). rewrite <- app_assoc. split; [reflexivity|]. split.
        -- intros key Hin. apply elem_of_cons in Hin as [->|Hin]; auto.
        -- intros key state Hin Hf. apply elem_of_cons in Hin as [[= -> ->]|Hin].
           ++ split; [left|]. intros _. split; [left|exact Eok].
           ++ destruct (Hall key state Hin Hf) as [Ha Hd]. split; [right; exact Ha|].
              intros Hdirty. destruct (Hd Hdirty). split; [right|]; assumption.
      * destruct (IH _ _ _ H) as (added & -> & Hfarall & Hall).
        exists (k :: added). rewrite <- app_assoc. split; [reflexivity|]. split.
        -- intros key Hin. apply elem_of_cons in Hin as [->|Hin]; auto.
        -- intros key state Hin Hf. apply elem_of_cons in Hin as [[= -> ->]|Hin].
           ++ split; [left|]. intros Hdirty. congruence.
           ++ destruct (Hall key state Hin Hf) as [Ha Hd]. split; [right; exact Ha|exact Hd].
    + destruct (IH _ _ _ H) as (added & -> & Hfarall & Hall).
      exists added. split; [reflexivity|]. split; [exact Hfarall|].
      intros key state Hin Hf. apply elem_of_cons in Hin as [[= -> ->]|Hin].
      * congruence.
      * exact (Hall key state Hin Hf).
Qed.

Lemma lookup_fold_delete {V : Type} (keys : list string) (m : gmap string V) (key : string) :
  fold_left (fun m k => delete k m) keys m !! key =
    if bool_decide (key ∈ keys) then None else m !! key.
Proof.
  revert m. induction keys as [|k keys IH]; intros m; cbn [fold_left].
  - rewrite bool_decide_eq_false_2; [reflexivity|]. apply not_elem_of_nil.
  - rewrite IH. destruct (decide (key ∈ keys)) as [Hin|Hout].
    + rewrite !bool_decide_eq_true_2; [reflexivity|right; exact Hin|exact Hin].
    + rewrite (bool_decide_eq_false_2 _ Hout).
      destruct (decide (key = k)) as [->|Hne].
      * rewrite bool_decide_eq_true_2 by left. apply lookup_delete_eq.
      * rewrite bool_decide_eq_false_2.
        -- apply lookup_delete_ne. congruence.
        -- intros Hin. apply elem_of_cons in Hin as [?|?]; contradiction.
Qed.



(** ** The streaming scheduler *)

Lemma keyOf_inj (c d : Z * Z) : keyOf c = keyOf d -> c = d.
Proof.
  destruct c, d. unfold keyOf. cbn. intros H.
  apply chunkKey_inj in H as [-> ->]. reflexivity.
Qed.

Lemma NoDup_keys (l : list (Z * Z)) : NoDup l -> NoDup (map keyOf l).
Proof.
  intros H. apply (NoDup_fmap_2_strong keyOf); [|exact H].
  intros c d _ _. apply keyOf_inj.
Qed.

Lemma forRange_empty {S : Type} (lo hi : Z) (body : Z -> S -> S) (s : S) :
  hi <= lo -> JS.forRange lo hi body s = s.
Proof.
  intros H. unfold JS.forRange. unfold seqZ.
  replace (Z.to_nat (hi - lo)) with 0%nat by lia. reflexivity.
Qed.

Lemma forRange_step {S : Type} (lo hi : Z) (body : Z -> S -> S) (s : S) :
  lo < hi -> JS.forRange lo hi body s = JS.forRange (lo + 1) hi body (body lo s).
Proof.
  intros H. unfold JS.forRange.
  rewrite (seqZ_cons lo (hi - lo)) by lia. cbn [fold_left].
  replace (Z.succ lo) with (lo + 1) by lia.
  replace (Z.pred (hi - lo)) with (hi - (lo + 1)) by lia. reflexivity.
Qed.

(** An invariant that follows the loop counter. *)
Lemma forRange_counted {S : Type} (P : Z -> S -> Prop) (lo hi : Z)
    (body : Z -> S -> S) (s : S) :
  lo <= hi -> P lo s ->
  (forall i s, lo <= i < hi -> P i s -> P (i + 1) (body i s)) ->
  P hi (JS.forRange lo hi body s).
Proof.
  intros Hle. remember (Z.to_nat (hi - lo)) as n eqn:En.
  revert lo s Hle En. induction n as [|n IH]; intros lo s Hle En Hs Hstep.
  - assert (lo = hi) as -> by lia. rewrite forRange_empty by lia. exact Hs.
  - rewrite forRange_step by lia. apply IH; [lia|lia| |].
    + apply Hstep; [lia|exact Hs].
    + intros i s0 Hi. apply Hstep. lia.
Qed.

Lemma considerTarget_cases (s : WorldStore.t) (center : Z * Z) (dx dz : Z)
    (targets : list WorldStore.Target) :
  WorldStore.considerTarget s center dx dz targets = targets \/
  (exists a, WorldStore.considerTarget s center dx dz targets = targets ++ [a] /\
             coordsOf a = (fst center + dx, snd center + dz) /\
             missing s (coordsOf a)).
Proof.
  unfold WorldStore.considerTarget. cbv zeta.
  destruct (WorldStore.has s _) eqn:E1; [left; reflexivity|].
  destruct (bool_decide (_ ∈ WorldStore.queuedKeys s)) eqn:E2; [left; reflexivity|].
  destruct (bool_decide (_ ∈ WorldStore.loadingKeys s)) eqn:E3; [left; reflexivity|].
  right. eexists. split; [reflexivity|]. split; [reflexivity|].
  unfold missing, coordsOf, keyOf. cbn.
  apply bool_decide_eq_false in E2, E3.
  unfold WorldStore.has in E1. apply bool_decide_eq_false in E1.
  split; [|split; assumption].
  apply eq_None_not_Some. exact E1.
Qed.

Lemma collectTargets_spec (s : WorldStore.t) (center : Z * Z) (radius : Z) :
  NoDup (map coordsOf (WorldStore.collectTargets s center radius)) /\
  Forall (fun a => missing s (coordsOf a)) (WorldStore.collectTargets s center radius).
Proof.
  unfold WorldStore.collectTargets.
  destruct (Z_lt_le_dec radius 0) as [Hneg|Hpos].
  { rewrite forRange_empty by lia. split; constructor. }
  set (P := fun dx targets => collected s center dx (- radius) targets).
  assert (H : P (radius + 1)
    (JS.forRange (- radius) (radius + 1)
       (fun dx => JS.forRange (- radius) (radius + 1)
                    (fun dz => WorldStore.considerTarget s center dx dz)) [])).
  { apply (forRange_counted P); [lia| |].
    - repeat split; constructor.
    - intros dx targets Hdx HP.
      set (Q := fun dz targets => collected s center dx dz targets).
      assert (HQ : Q (radius + 1)
        (JS.forRange (- radius) (radius + 1)
           (fun dz => WorldStore.considerTarget s center dx dz) targets)).
      { apply (forRange_counted Q); [lia|exact HP|].
        intros dz ts Hdz (Hnd & Hmiss & Hpos').
        destruct (considerTarget_cases s center dx dz ts) as [->|(a & -> & Hc & Hm)].
        - repeat split; [exact Hnd|exact Hmiss|].
          eapply Forall_impl; [exact Hpos'|]. intros b Hb. cbn in Hb. lia.
        - assert (Hcx : WorldStore.t_cx a = fst center + dx) by (injection Hc; auto).
          assert (Hcz : WorldStore.t_cz a = snd center + dz) by (injection Hc; auto).
          repeat split.
          + rewrite map_app. cbn [map]. apply NoDup_app. split; [exact Hnd|]. split.
            * intros c Hin Hc'. apply list_elem_of_singleton in Hc'. subst c.
              apply list_elem_of_fmap in Hin as (b & Hb & Hin).
              rewrite Forall_forall in Hpos'. specialize (Hpos' b Hin).
              unfold coordsOf in Hb. injection Hb as Hb1 Hb2. lia.
            * apply NoDup_singleton.
          + apply Forall_app. split; [exact Hmiss|]. constructor; [exact Hm|constructor].
          + apply Forall_app. split.
            * eapply Forall_impl; [exact Hpos'|]. intros b Hb. cbn in Hb. lia.
            * constructor; [|constructor]. right. lia. }
      destruct HQ as (Hnd & Hmiss & Hpos'). repeat split; [exact Hnd|exact Hmiss|].
      eapply Forall_impl; [exact Hpos'|]. intros b Hb. cbn in Hb. lia. }
  destruct H as (Hnd & Hmiss & _). split; assumption.
Qed.

Lemma insertTarget_perm (a : WorldStore.Target) (l : list WorldStore.Target) :
  WorldStore.insertTarget a l ≡ₚ a :: l.
Proof.
  induction l as [|b l IH]; [reflexivity|].
  cbn [WorldStore.insertTarget]. destruct (WorldStore.dist2 b <? WorldStore.dist2 a).
  - rewrite IH. apply Permutation_swap.
  - reflexivity.
Qed.

Lemma sortTargets_perm (l : list WorldStore.Target) : WorldStore.sortTargets l ≡ₚ l.
Proof.
  induction l as [|a l IH]; [reflexivity|].
  cbn [WorldStore.sortTargets]. rewrite insertTarget_perm, IH. reflexivity.
Qed.

Lemma enqueued_spec (s : WorldStore.t) (x z radius : Z) :
  NoDup (WorldStore.enqueued s x z radius) /\
  Forall (missing s) (WorldStore.enqueued s x z radius).
Proof.
  unfold WorldStore.enqueued.
  destruct (collectTargets_spec s (WorldStore.worldToChunk x z) radius) as [Hnd Hm].
  pose proof (sortTargets_perm
    (WorldStore.collectTargets s (WorldStore.worldToChunk x z) radius)) as Hp.
  split.
  - change (map (fun a => (WorldStore.t_cx a, WorldStore.t_cz a))) with (map coordsOf).
    rewrite Hp. exact Hnd.
  - apply Forall_fmap. rewrite Hp. exact Hm.
Qed.

Lemma fold_pushTarget (cs : list (Z * Z)) (s : WorldStore.t) :
  WorldStore.loadQueue (fold_left WorldStore.pushTarget cs s) = WorldStore.loadQueue s ++ cs /\
  WorldStore.queuedKeys (fold_left WorldStore.pushTarget cs s) =
    list_to_set (map keyOf cs) ∪ WorldStore.queuedKeys s /\
  WorldStore.loadingKeys (fold_left WorldStore.pushTarget cs s) = WorldStore.loadingKeys s /\
  WorldStore.maxConcurrentLoads (fold_left WorldStore.pushTarget cs s) =
    WorldStore.maxConcurrentLoads s /\
  WorldStore.chunks (fold_left WorldStore.pushTarget cs s) = WorldStore.chunks s.
Proof.
  revert s. induction cs as [|c cs IH]; intros s; cbn [fold_left map].
  - rewrite app_nil_r. repeat split. set_solver.
  - destruct (IH (WorldStore.pushTarget s c)) as (H1 & H2 & H3 & H4 & H5).
    rewrite H1, H2, H3, H4, H5. cbn. rewrite <- app_assoc. repeat split.
    unfold keyOf. set_solver.
Qed.

Lemma processLoop_spec (chunks : gmap string WorldStore.ChunkState) (queue : list (Z * Z)) :
  forall (queued loading : gset string) (started fl q' : list (Z * Z))
         (queued' loading' : gset string) (started' : list (Z * Z)),
  WorldStore.processLoop chunks 2 queue queued loading started =
    (q', queued', loading', started') ->
  NoDup (map keyOf queue) -> queued = list_to_set (map keyOf queue) ->
  NoDup (map keyOf fl) -> loading = list_to_set (map keyOf fl) ->
  (length fl <= 2)%nat ->
  exists new,
    started' = started ++ new /\
    NoDup (map keyOf q') /\ queued' = list_to_set (map keyOf q') /\
    NoDup (map keyOf (fl ++ new)) /\ loading' = list_to_set (map keyOf (fl ++ new)) /\
    (length (fl ++ new) <= 2)%nat.
Proof.
  induction queue as [|next rest IH];
    intros queued loading started fl q' queued' loading' started' E Hq Hqs Hf Hfs Hlen.
  - cbn in E. injection E as <- <- <- <-. exists [].
    rewrite !app_nil_r. repeat split; assumption.
  - cbn [WorldStore.processLoop] in E.
    assert (Hsize : size loading = length fl).
    { rewrite Hfs, size_list_to_set by exact Hf. apply length_map. }
    destruct (Z.of_nat (size loading) <? 2) eqn:Eslot.
    + apply Z.ltb_lt in Eslot.
      cbn [map] in Hq, Hqs. apply NoDup_cons in Hq as [Hnotin Hq].
      assert (Hqs' : queued ∖ {[Chunk.chunkKey (fst next) (snd next)]} =
                     list_to_set (map keyOf rest)).
      { rewrite Hqs. change (Chunk.chunkKey (fst next) (snd next)) with (keyOf next).
        apply set_eq. intros k.
        rewrite elem_of_difference, elem_of_list_to_set, elem_of_cons,
          elem_of_singleton, elem_of_list_to_set.
        split; [intros [[?|?] ?]; [contradiction|assumption]|].
        intros Hk. split; [right; exact Hk|]. intros ->. contradiction. }
      destruct (bool_decide (is_Some (chunks !! _)) || bool_decide (_ ∈ loading)) eqn:Eskip.
      * exact (IH _ _ _ fl _ _ _ _ E Hq Hqs' Hf Hfs Hlen).
      * apply orb_false_iff in Eskip as [_ Eload]. apply bool_decide_eq_false in Eload.
        change (Chunk.chunkKey (fst next) (snd next)) with (keyOf next) in *.
        assert (Hnew : keyOf next ∉ map keyOf fl).
        { intros Hin. apply Eload. rewrite Hfs. apply elem_of_list_to_set. exact Hin. }
        destruct (IH _ _ _ (fl ++ [next]) _ _ _ _ E Hq Hqs') as (new & -> & H1 & H2 & H3 & H4 & H5).
        -- rewrite map_app. cbn [map]. apply NoDup_app. split; [exact Hf|]. split.
           ++ intros k Hk Hk'. apply list_elem_of_singleton in Hk'. subst k. contradiction.
           ++ apply NoDup_singleton.
        -- rewrite Hfs, map_app. cbn [map]. apply set_eq. intros k.
           rewrite elem_of_union, !elem_of_list_to_set, elem_of_app, elem_of_singleton,
             list_elem_of_singleton. tauto.
        -- rewrite length_app. cbn [length]. lia.
        -- exists (next :: new). rewrite <- !app_assoc in *. cbn [app] in *.
           repeat split; assumption.
    + injection E as <- <- <- <-. exists [].
      rewrite !app_nil_r. repeat split; assumption.
Qed.

Lemma removeFirst_perm (c : Z * Z) (l : list (Z * Z)) :
  c ∈ l -> l ≡ₚ c :: WorldStore.removeFirst c l.
Proof.
  intros Hin. unfold WorldStore.removeFirst.
  destruct (list_find (fun d => d = c) l) as [[i d]|] eqn:E.
  - apply list_find_Some in E as (Hi & -> & _).
    rewrite <- (take_drop_middle l i c Hi) at 1.
    symmetry. apply Permutation_middle.
  - apply list_find_None in E. rewrite Forall_forall in E.
    exfalso. exact (E c Hin eq_refl).
Qed.

Lemma markChunkMeshDirty_scheduler (s : WorldStore.t) (cx cz : Z) :
  scheduler (WorldStore.markChunkMeshDirty s cx cz) = scheduler s.
Proof. unfold WorldStore.markChunkMeshDirty. destruct (_ !! _); reflexivity. Qed.

Lemma loadChunkResolved_scheduler s cx cz persisted now :
  scheduler (WorldStore.loadChunkResolved s cx cz persisted now) = scheduler s.
Proof.
  unfold WorldStore.loadChunkResolved. cbv zeta.
  rewrite !markChunkMeshDirty_scheduler. reflexivity.
Qed.

Lemma setBlock_scheduler s x y z block now :
  scheduler (snd (WorldStore.setBlock s x y z block now)) = scheduler s.
Proof.
  unfold WorldStore.setBlock. cbv zeta.
  destruct (_ || _); [reflexivity|].
  destruct (_ !! _); [|reflexivity].
  destruct (bool_decide _); [reflexivity|]. cbn [snd].
  repeat (match goal with
          | |- context [if ?b then _ else _] => destruct b
          end; rewrite ?markChunkMeshDirty_scheduler); reflexivity.
Qed.

Lemma getBlock_scheduler s x y z now :
  scheduler (snd (WorldStore.getBlock s x y z now)) = scheduler s.
Proof.
  unfold WorldStore.getBlock. cbv zeta.
  destruct (_ || _); [reflexivity|]. destruct (_ !! _); reflexivity.
Qed.

Lemma unloadFarChunks_scheduler s db0 x z radius saveOk :
  scheduler (WorldStore.store (WorldStore.unloadFarChunks s db0 x z radius saveOk)) =
    scheduler s.
Proof.
  unfold WorldStore.unloadFarChunks. cbv zeta.
  destruct (WorldStore.unloadScan _ _ _ _ _ _) as [saves [keys|]]; reflexivity.
Qed.

Lemma flushUndisturbed_scheduler saveOk keys :
  forall s, scheduler (snd (fst (WorldStore.flushUndisturbed s saveOk keys))) = scheduler s.
Proof.
  induction keys as [|key rest IH]; intros s; cbn [WorldStore.flushUndisturbed]; [reflexivity|].
  destruct (WorldStore.chunks s !! key) as [state|]; [|apply IH].
  destruct (negb (WorldStore.dirty state)); [apply IH|].
  destruct (Chunk.parseChunkKey key) as [cx cz].
  destruct (saveOk _); [|reflexivity].
  specialize (IH (WorldStore.withChunks s
                    (<[key := WorldStore.withDirty state false]> (WorldStore.chunks s)))).
  destruct (WorldStore.flushUndisturbed _ saveOk rest) as [[log s'] r].
  cbn [fst snd] in *. exact IH.
Qed.

Lemma flushDirtyChunks_scheduler s db0 saveOk :
  scheduler (WorldStore.store (WorldStore.flushDirtyChunks s db0 saveOk)) = scheduler s.
Proof.
  unfold WorldStore.flushDirtyChunks.
  pose proof (flushUndisturbed_scheduler saveOk
                (map fst (map_to_list (WorldStore.chunks s))) s) as H.
  destruct (WorldStore.flushUndisturbed _ _ _) as [[saves s'] r]. exact H.
Qed.

Lemma flushResume_scheduler s saveOk f live keys :
  scheduler (fst (fst (WorldStore.flushResume s saveOk f live keys))) = scheduler s.
Proof.
  unfold WorldStore.flushResume.
  destruct (negb (WorldStore.accepted f)); [reflexivity|]. cbn [fst].
  destruct (WorldStore.chunks s !! WorldStore.awaited f); [|reflexivity].
  destruct live; reflexivity.
Qed.

Lemma saveChunkIfDirty_scheduler s db0 cx cz saveOk :
  scheduler (WorldStore.store (WorldStore.saveChunkIfDirty s db0 cx cz saveOk)) = scheduler s.
Proof.
  unfold WorldStore.saveChunkIfDirty. cbv zeta.
  destruct (_ !! _); [|reflexivity].
  destruct (negb _); [reflexivity|]. destruct (saveOk _); reflexivity.
Qed.

Lemma schedulerOk_frame (y y' : WorldStore.Sys) :
  scheduler (WorldStore.st y') = scheduler (WorldStore.st y) ->
  WorldStore.awaiting y' = WorldStore.awaiting y ->
  WorldStore.settling y' = WorldStore.settling y ->
  schedulerOk y -> schedulerOk y'.
Proof.
  unfold scheduler, schedulerOk, WorldStore.inFlight.
  intros [= -> -> -> ->] -> ->. auto.
Qed.

Lemma schedulerOk_perm (y y' : WorldStore.Sys) :
  scheduler (WorldStore.st y') = scheduler (WorldStore.st y) ->
  WorldStore.inFlight y' ≡ₚ WorldStore.inFlight y ->
  schedulerOk y -> schedulerOk y'.
Proof.
  unfold scheduler, schedulerOk.
  intros [= -> -> -> ->] Hp (H1 & H2 & H3 & H4 & H5 & H6).
  repeat split; try assumption.
  - rewrite Hp. exact H1.
  - rewrite H2. apply list_to_set_perm_L. rewrite Hp. reflexivity.
  - rewrite Hp. exact H6.
Qed.

Lemma schedulerOk_initial g seed disk0 : schedulerOk (WorldStore.initial g seed disk0).
Proof.
  unfold schedulerOk, WorldStore.inFlight. cbn.
  repeat split; try constructor; lia.
Qed.

Lemma schedulerOk_step (y : WorldStore.Sys) (e : WorldStore.Event) :
  schedulerOk y -> schedulerOk (WorldStore.step y e).
Proof.
  intros Hok.
  destruct e as [x z radius| |c now|c|c|x z radius saveOk|saveOk|saveOk|saveOk f live keys
                |cx cz saveOk|x yy z block now|x yy z now|key];
    cbn [WorldStore.step].
  - (* queueChunksAround *)
    destruct Hok as (H1 & H2 & H3 & H4 & H5 & H6).
    unfold WorldStore.queueChunksAround.
    destruct (fold_pushTarget (WorldStore.enqueued (WorldStore.st y) x z radius)
                (WorldStore.st y)) as (Q1 & Q2 & Q3 & Q4 & _).
    destruct (enqueued_spec (WorldStore.st y) x z radius) as [Hnd Hmiss].
    unfold schedulerOk, WorldStore.inFlight in *.
    cbn [WorldStore.st WorldStore.awaiting WorldStore.settling].
    rewrite Q1, Q2, Q3, Q4. repeat split; try assumption.
    + rewrite map_app. apply NoDup_app. split; [exact H3|]. split.
      * intros k Hk Hk'. apply list_elem_of_fmap in Hk' as (c & -> & Hc).
        rewrite Forall_forall in Hmiss. destruct (Hmiss c Hc) as (_ & Hq & _).
        apply Hq. rewrite H4. apply elem_of_list_to_set. exact Hk.
      * apply NoDup_keys, Hnd.
    + rewrite H4, map_app, list_to_set_app_L. apply (comm_L (∪)).
  - (* processLoadQueue *)
    destruct Hok as (H1 & H2 & H3 & H4 & H5 & H6).
    unfold WorldStore.processLoadQueue. rewrite H5.
    destruct (WorldStore.processLoop _ _ _ _ _ _) as [[[q' queued'] loading'] started'] eqn:E.
    destruct (processLoop_spec _ _ _ _ _ (WorldStore.inFlight y) _ _ _ _ E H3 H4 H1 H2 H6)
      as (new & -> & N1 & N2 & N3 & N4 & N5).
    cbn [app] in *.
    assert (Hp : WorldStore.awaiting y ++ new ++ WorldStore.settling y ≡ₚ
                 WorldStore.inFlight y ++ new).
    { unfold WorldStore.inFlight. rewrite <- app_assoc.
      apply Permutation_app_head, Permutation_app_comm. }
    unfold schedulerOk, WorldStore.inFlight.
    cbn [WorldStore.st WorldStore.awaiting WorldStore.settling WorldStore.withScheduler
         WorldStore.loadQueue WorldStore.queuedKeys WorldStore.loadingKeys
         WorldStore.maxConcurrentLoads].
    rewrite <- app_assoc.
    repeat split; try assumption.
    + rewrite Hp. exact N3.
    + rewrite N4. apply list_to_set_perm_L. rewrite Hp. reflexivity.
    + rewrite Hp. exact N5.
  - (* the repository answered *)
    unfold WorldStore.isIn. destruct (bool_decide (c ∈ WorldStore.awaiting y)) eqn:E;
      [|exact Hok].
    apply bool_decide_eq_true in E. eapply schedulerOk_perm; [| |exact Hok].
    + cbn [WorldStore.st]. apply loadChunkResolved_scheduler.
    + unfold WorldStore.inFlight. cbn [WorldStore.awaiting WorldStore.settling].
      rewrite (removeFirst_perm c (WorldStore.awaiting y) E) at 2.
      rewrite app_assoc, <- Permutation_middle. cbn [app].
      rewrite Permutation_app_comm. cbn [app]. reflexivity.
  - (* the repository failed *)
    unfold WorldStore.isIn. destruct (bool_decide (c ∈ WorldStore.awaiting y)) eqn:E;
      [|exact Hok].
    apply bool_decide_eq_true in E. eapply schedulerOk_perm; [| |exact Hok].
    + reflexivity.
    + unfold WorldStore.inFlight. cbn [WorldStore.awaiting WorldStore.settling].
      rewrite (removeFirst_perm c (WorldStore.awaiting y) E) at 2.
      rewrite app_assoc, <- Permutation_middle. cbn [app].
      rewrite Permutation_app_comm. cbn [app]. reflexivity.
  - (* the finally callback *)
    unfold WorldStore.isIn. destruct (bool_decide (c ∈ WorldStore.settling y)) eqn:E;
      [|exact Hok].
    apply bool_decide_eq_true in E.
    destruct Hok as (H1 & H2 & H3 & H4 & H5 & H6).
    assert (Hp : WorldStore.inFlight y ≡ₚ
                 c :: WorldStore.awaiting y ++ WorldStore.removeFirst c (WorldStore.settling y)).
    { unfold WorldStore.inFlight.
      rewrite (removeFirst_perm c (WorldStore.settling y) E) at 1.
      symmetry. apply Permutation_middle. }
    rewrite Hp in H1, H6. cbn [map length] in H1, H6. apply NoDup_cons in H1 as [Hc H1].
    unfold schedulerOk, WorldStore.inFlight.
    cbn [WorldStore.st WorldStore.awaiting WorldStore.settling WorldStore.loadFinally
         WorldStore.withScheduler WorldStore.loadQueue WorldStore.queuedKeys
         WorldStore.loadingKeys WorldStore.maxConcurrentLoads].
    repeat split; try assumption; [|lia].
    rewrite H2. change (Chunk.chunkKey (fst c) (snd c)) with (keyOf c).
    apply set_eq. intros k.
    rewrite elem_of_difference, !elem_of_list_to_set, elem_of_singleton.
    rewrite Hp. cbn [map]. rewrite elem_of_cons.
    split; [intros [[?|?] ?]; [contradiction|assumption]|].
    intros Hk. split; [right; exact Hk|]. intros ->. contradiction.
  - eapply schedulerOk_frame; [| | |exact Hok]; try reflexivity.
    cbn [WorldStore.st]. apply unloadFarChunks_scheduler.
  - eapply schedulerOk_frame; [| | |exact Hok]; try reflexivity.
    cbn [WorldStore.st]. apply flushDirtyChunks_scheduler.
  - eapply schedulerOk_frame; [| | |exact Hok]; reflexivity.
  - pose proof (flushResume_scheduler (WorldStore.st y) saveOk f live keys) as Hs.
    destruct (WorldStore.flushResume (WorldStore.st y) saveOk f live keys) as [[s next] thrown].
    eapply schedulerOk_frame; [| | |exact Hok]; try reflexivity. exact Hs.
  - eapply schedulerOk_frame; [| | |exact Hok]; try reflexivity.
    cbn [WorldStore.st]. apply saveChunkIfDirty_scheduler.
  - eapply schedulerOk_frame; [| | |exact Hok]; try reflexivity.
    cbn [WorldStore.st]. apply setBlock_scheduler.
  - eapply schedulerOk_frame; [| | |exact Hok]; try reflexivity.
    cbn [WorldStore.st]. apply getBlock_scheduler.
  - destruct (WorldStore.chunks (WorldStore.st y) !! key); [|exact Hok].
    eapply schedulerOk_frame; [| | |exact Hok]; reflexivity.
Qed.

Lemma schedulerOk_run (y : WorldStore.Sys) (events : list WorldStore.Event) :
  schedulerOk y -> schedulerOk (WorldStore.run y events).
Proof.
  unfold WorldStore.run. revert y.
  induction events as [|e events IH]; intros y Hok; [exact Hok|].
  cbn [fold_left]. apply IH, schedulerOk_step, Hok.
Qed.

(** C4.  In every state that the store reaches from its initial state, by
    any sequence of its operations and of load completions, at most two
    loads are in flight (as many as there are loading keys, and never more
    than the configured limit of 2); and what a call of [queueChunksAround]
    appends to the load queue has no coordinate twice and no coordinate
    that is resident in the store, in the load queue or in flight. *)
Theorem scheduler_bounded_and_enqueues_missing
    (g : Generator.WorldGenerator) (seed : Z) (disk0 : gmap string (list Z))
    (events : list WorldStore.Event) (x z radius : Z) :
  let y := WorldStore.run (WorldStore.initial g seed disk0) events in
  (length (WorldStore.inFlight y) <= 2)%nat /\
  size (WorldStore.loadingKeys (WorldStore.st y)) = length (WorldStore.inFlight y) /\
  WorldStore.maxConcurrentLoads (WorldStore.st y) = 2 /\
  WorldStore.loadQueue (WorldStore.queueChunksAround (WorldStore.st y) x z radius) =
    WorldStore.loadQueue (WorldStore.st y) ++ WorldStore.enqueued (WorldStore.st y) x z radius /\
  NoDup (WorldStore.enqueued (WorldStore.st y) x z radius) /\
  (forall c, c ∈ WorldStore.enqueued (WorldStore.st y) x z radius ->
     WorldStore.hasChunk (WorldStore.st y) (fst c) (snd c) = false /\
     (c ∉ WorldStore.loadQueue (WorldStore.st y)) /\
     (c ∉ WorldStore.inFlight y)).
Proof.
  intros y.
  assert (Hok : schedulerOk y) by (apply schedulerOk_run, schedulerOk_initial).
  destruct Hok as (H1 & H2 & H3 & H4 & H5 & H6).
  destruct (enqueued_spec (WorldStore.st y) x z radius) as [Hnd Hmiss].
  repeat split.
  - exact H6.
  - rewrite H2, size_list_to_set by exact H1. apply length_map.
  - exact H5.
  - unfold WorldStore.queueChunksAround. apply fold_pushTarget.
  - exact Hnd.
  - rewrite Forall_forall in Hmiss. destruct (Hmiss c H) as (Hc & _ & _).
    unfold WorldStore.hasChunk, WorldStore.has. apply bool_decide_eq_false.
    intros [v Hv]. unfold keyOf in Hc. congruence.
  - rewrite Forall_forall in Hmiss. destruct (Hmiss c H) as (_ & Hq & _).
    intros Hin. apply Hq. rewrite H4. apply elem_of_list_to_set.
    apply list_elem_of_fmap. exists c. auto.
  - rewrite Forall_forall in Hmiss. destruct (Hmiss c H) as (_ & _ & Hl).
    intros Hin. apply Hl. rewrite H2. apply elem_of_list_to_set.
    apply list_elem_of_fmap. exists c. auto.
Qed.

(** ** Block actions on the server *)

Lemma withWorld_same (s : RoomServer.t) : RoomServer.withWorld s (RoomServer.world s) = s.
Proof. destruct s. reflexivity. Qed.

Lemma withWorld_twice (s : RoomServer.t) (w w' : AuthoritativeWorld.t) :
  RoomServer.withWorld (RoomServer.withWorld s w) w' = RoomServer.withWorld s w'.
Proof. reflexivity. Qed.

Lemma world_sendInventory (s : RoomServer.t) (p : RoomServer.ServerPlayer) :
  RoomServer.world (RoomServer.sendInventory s p) = RoomServer.world s.
Proof.
  unfold RoomServer.sendInventory, RoomServer.send, RoomServer.sendRaw.
  destruct (bool_decide _); reflexivity.
Qed.

Lemma server_getBlock_again (w : AuthoritativeWorld.t) (x y z : Z) :
  AuthoritativeWorld.getBlock (snd (AuthoritativeWorld.getBlock w x y z)) x y z =
    AuthoritativeWorld.getBlock w x y z.
Proof.
  unfold AuthoritativeWorld.getBlock. cbv zeta.
  destruct ((y <? 0) || (Config.WORLD_HEIGHT <=? y)) eqn:E; cbn [snd]; [reflexivity|].
  pose proof (server_getChunk_cached w (x / Config.CHUNK_SIZE) (z / Config.CHUNK_SIZE)) as H.
  destruct (AuthoritativeWorld.getChunk w _ _) as [chunk w'] eqn:E1.
  cbn [snd] in *. rewrite H. reflexivity.
Qed.

Lemma get_Some_in_array (c : Chunk.ChunkData) (x y z b : Z) :
  Chunk.get c x y z = Some b -> b <> BlockId.Air ->
  Chunk.inBounds x y z = true /\
  (Z.to_nat (Chunk.index x y z) < length (Chunk.blocks c))%nat.
Proof.
  unfold Chunk.get. destruct (Chunk.inBounds x y z); cbn [negb].
  - intros H _. split; [reflexivity|]. apply lookup_lt_Some in H. exact H.
  - intros [= <-] H. contradiction.
Qed.

(** After a write that changed a cell holding a block, the cell reads as
    the value written. *)
Lemma server_getBlock_setBlock (w : AuthoritativeWorld.t) (x y z b v : Z) :
  fst (AuthoritativeWorld.getBlock w x y z) = Some b -> b <> BlockId.Air ->
  fst (AuthoritativeWorld.setBlock w x y z v) = true ->
  AuthoritativeWorld.getBlock (snd (AuthoritativeWorld.setBlock w x y z v)) x y z =
    (Some (JS.toUint16 v), snd (AuthoritativeWorld.setBlock w x y z v)).
Proof.
  unfold AuthoritativeWorld.getBlock, AuthoritativeWorld.setBlock. cbv zeta.
  destruct ((y <? 0) || (Config.WORLD_HEIGHT <=? y)) eqn:E; [intros _ _ [=]|].
  destruct (AuthoritativeWorld.getChunk w _ _) as [chunk w'] eqn:E1. cbn [fst].
  intros Hb Hne. destruct (bool_decide _); [intros [=]|]. intros _. cbn [snd].
  unfold AuthoritativeWorld.getChunk at 1.
  cbn [AuthoritativeWorld.chunks]. rewrite lookup_insert_eq.
  destruct (get_Some_in_array _ _ _ _ _ Hb Hne) as [Hin Hlen].
  rewrite (get_set_same _ _ _ _ _ Hin Hlen). reflexivity.
Qed.

Lemma server_setBlock_unchanged (w : AuthoritativeWorld.t) (x y z v : Z) :
  fst (AuthoritativeWorld.setBlock (snd (AuthoritativeWorld.getBlock w x y z)) x y z v) = false ->
  snd (AuthoritativeWorld.setBlock (snd (AuthoritativeWorld.getBlock w x y z)) x y z v) =
    snd (AuthoritativeWorld.getBlock w x y z).
Proof.
  unfold AuthoritativeWorld.setBlock, AuthoritativeWorld.getBlock. cbv zeta.
  destruct ((y <? 0) || (Config.WORLD_HEIGHT <=? y)); [reflexivity|].
  pose proof (server_getChunk_cached w (x / Config.CHUNK_SIZE) (z / Config.CHUNK_SIZE)) as Hc.
  destruct (AuthoritativeWorld.getChunk w _ _) as [c w'].
  cbn [snd] in *. rewrite Hc. destruct (bool_decide _); [reflexivity|intros [=]].
Qed.

Lemma mine_same_position (p : RoomServer.ServerPlayer) (inv : ServerInventory.t) (now : Z)
    (x y z r : float) :
  RoomServer.withinReach
    (RoomServer.withInventory (RoomServer.withLastMineAtMs p now) inv) x y z r =
  RoomServer.withinReach p x y z r.
Proof. reflexivity. Qed.

(** What [handleMineAction] does, by the tests it makes. *)
Section MineCases.
Variables (s : RoomServer.t) (p : RoomServer.ServerPlayer) (x y z : float) (now : Z).

Let reach : bool :=
  RoomServer.withinReach p (JS.Math_floor x) (JS.Math_floor y) (JS.Math_floor z) 6.2.
Let read : option Z * AuthoritativeWorld.t :=
  AuthoritativeWorld.getBlock (RoomServer.world s) (cellOf x) (cellOf y) (cellOf z).
Let nothing : bool :=
  bool_decide (fst read = Some BlockId.Air) || bool_decide (fst read = Some BlockId.Water).
Let tooSoon (def : Blocks.BlockDefinition) : bool :=
  PrimFloat.ltb (JS.ofZ now - JS.ofZ (RoomServer.lastMineAtMs p))%float
                (JS.Math_max 0.2 (Blocks.hardness def) * 180)%float.

Lemma mine_out_of_reach :
  reach = false ->
  RoomServer.handleMineAction s p x y z now = (RoomServer.MineOutOfReach, s, p).
Proof.
  subst reach. intros H. unfold RoomServer.handleMineAction. cbv zeta.
  rewrite H. reflexivity.
Qed.

Lemma mine_nothing_there :
  reach = true -> nothing = true ->
  RoomServer.handleMineAction s p x y z now =
    (RoomServer.MineNothingThere, RoomServer.withWorld s (snd read), p).
Proof.
  subst reach nothing read. intros H N. unfold RoomServer.handleMineAction. cbv zeta.
  rewrite H. cbn [negb]. fold (cellOf x) (cellOf y) (cellOf z).
  destruct (AuthoritativeWorld.getBlock _ _ _ _) as [b w]. cbn [fst snd] in *.
  rewrite N. reflexivity.
Qed.

Lemma mine_threw :
  reach = true -> nothing = false -> fst read ≫= Blocks.BLOCK_DEFS = None ->
  RoomServer.handleMineAction s p x y z now =
    (RoomServer.MineThrew, RoomServer.withWorld s (snd read), p).
Proof.
  subst reach nothing read. intros H N D. unfold RoomServer.handleMineAction. cbv zeta.
  rewrite H. cbn [negb]. fold (cellOf x) (cellOf y) (cellOf z).
  destruct (AuthoritativeWorld.getBlock _ _ _ _) as [b w]. cbn [fst snd] in *.
  rewrite N, D. reflexivity.
Qed.

Lemma mine_too_soon (def : Blocks.BlockDefinition) :
  reach = true -> nothing = false -> fst read ≫= Blocks.BLOCK_DEFS = Some def ->
  tooSoon def = true ->
  RoomServer.handleMineAction s p x y z now =
    (RoomServer.MineTooSoon, RoomServer.withWorld s (snd read), p).
Proof.
  subst reach nothing read tooSoon. intros H N D T.
  unfold RoomServer.handleMineAction. cbv zeta.
  rewrite H. cbn [negb]. fold (cellOf x) (cellOf y) (cellOf z).
  destruct (AuthoritativeWorld.getBlock _ _ _ _) as [b w]. cbn [fst snd] in *.
  rewrite N, D, T. reflexivity.
Qed.

(** Every run is one of these. *)
Lemma mine_cases :
  let r := RoomServer.handleMineAction s p x y z now in
  RoomServer.position (playerOf r) = RoomServer.position p /\
  ((reach = false /\ r = (RoomServer.MineOutOfReach, s, p)) \/
   (reach = true /\ nothing = true /\
    r = (RoomServer.MineNothingThere, RoomServer.withWorld s (snd read), p)) \/
   (reach = true /\ nothing = false /\ fst read ≫= Blocks.BLOCK_DEFS = None /\
    r = (RoomServer.MineThrew, RoomServer.withWorld s (snd read), p)) \/
   (exists def, reach = true /\ nothing = false /\
      fst read ≫= Blocks.BLOCK_DEFS = Some def /\ tooSoon def = true /\
      r = (RoomServer.MineTooSoon, RoomServer.withWorld s (snd read), p)) \/
   (exists def, reach = true /\ nothing = false /\
      fst read ≫= Blocks.BLOCK_DEFS = Some def /\ tooSoon def = false /\
      fst (AuthoritativeWorld.setBlock (snd read) (cellOf x) (cellOf y) (cellOf z)
             BlockId.Air) = false /\
      r = (RoomServer.MineUnchanged,
           RoomServer.withWorld s
             (snd (AuthoritativeWorld.setBlock (snd read) (cellOf x) (cellOf y) (cellOf z)
                     BlockId.Air)), p)) \/
   (exists def, reach = true /\ nothing = false /\
      fst read ≫= Blocks.BLOCK_DEFS = Some def /\ tooSoon def = false /\
      fst (AuthoritativeWorld.setBlock (snd read) (cellOf x) (cellOf y) (cellOf z)
             BlockId.Air) = true /\
      r = let s1 :=
            RoomServer.pushChangedBlock
              (RoomServer.withWorld s
                 (snd (AuthoritativeWorld.setBlock (snd read) (cellOf x) (cellOf y) (cellOf z)
                         BlockId.Air)))
              {| Protocol.bd_x := cellOf x; Protocol.bd_y := cellOf y;
                 Protocol.bd_z := cellOf z; Protocol.bd_block := BlockId.Air |} in
          let p1 := RoomServer.withLastMineAtMs p now in
          match Blocks.drop def with
          | Some d =>
              let p2 := RoomServer.withInventory p1
                          (snd (ServerInventory.addItem (RoomServer.inventory p1) d 1)) in
              (RoomServer.Mined, RoomServer.sendInventory s1 p2, p2)
          | None => (RoomServer.Mined, s1, p1)
          end)).
Proof.
  subst reach nothing read tooSoon. unfold RoomServer.handleMineAction. cbv zeta.
  fold (cellOf x) (cellOf y) (cellOf z).
  destruct (RoomServer.withinReach p _ _ _ _); cbn [negb];
    [|split; [reflexivity|left; auto]].
  destruct (AuthoritativeWorld.getBlock _ _ _ _) as [b w]. cbn [fst snd].
  destruct (bool_decide (b = Some BlockId.Air) || bool_decide (b = Some BlockId.Water));
    [split; [reflexivity|right; left; auto]|].
  destruct (b ≫= Blocks.BLOCK_DEFS) as [def|];
    [|split; [reflexivity|right; right; left; auto]].
  destruct (PrimFloat.ltb _ _) eqn:T;
    [split; [reflexivity|right; right; right; left; exists def; auto]|].
  cbn [RoomServer.world RoomServer.withWorld].
  destruct (AuthoritativeWorld.setBlock w _ _ _ _) as [changed w2]. cbn [fst snd].
  destruct changed.
  - rewrite withWorld_twice.
    destruct (Blocks.drop def) as [d|] eqn:Ed.
    + split; [reflexivity|]. do 5 right. exists def. rewrite Ed.
      repeat split; try reflexivity; exact T.
    + split; [reflexivity|]. do 5 right. exists def. rewrite Ed.
      repeat split; try reflexivity; exact T.
  - split; [reflexivity|]. do 4 right. left. exists def.
    repeat split; try reflexivity; exact T.
Qed.
End MineCases.

(** Inside the world's height a write of a block other than the one read
    changes the cell. *)
Lemma server_setBlock_changes (w : AuthoritativeWorld.t) (x y z v : Z) :
  0 <= y < Config.WORLD_HEIGHT ->
  fst (AuthoritativeWorld.getBlock w x y z) <> Some v ->
  fst (AuthoritativeWorld.setBlock (snd (AuthoritativeWorld.getBlock w x y z)) x y z v) = true.
Proof.
  intros Hy. unfold AuthoritativeWorld.setBlock, AuthoritativeWorld.getBlock. cbv zeta.
  replace ((y <? 0) || (Config.WORLD_HEIGHT <=? y)) with false
    by (symmetry; apply orb_false_iff; split; [apply Z.ltb_ge|apply Z.leb_gt]; lia).
  pose proof (server_getChunk_cached w (x / Config.CHUNK_SIZE) (z / Config.CHUNK_SIZE)) as Hc.
  destruct (AuthoritativeWorld.getChunk w _ _) as [c w'].
  cbn [fst snd] in *. rewrite Hc. intros Hne.
  rewrite bool_decide_eq_false_2 by exact Hne. reflexivity.
Qed.

(** A cell that does not read as air lies inside the height of the world. *)
Lemma server_getBlock_height (w : AuthoritativeWorld.t) (x y z b : Z) :
  fst (AuthoritativeWorld.getBlock w x y z) = Some b -> b <> BlockId.Air ->
  0 <= y < Config.WORLD_HEIGHT.
Proof.
  unfold AuthoritativeWorld.getBlock. cbv zeta.
  destruct ((y <? 0) || (Config.WORLD_HEIGHT <=? y)) eqn:E.
  - cbn [fst]. intros [= <-] H. contradiction.
  - intros _ _. apply orb_false_iff in E as [E1 E2].
    apply Z.ltb_ge in E1. apply Z.leb_gt in E2. lia.
Qed.

(** What is sent with an inventory. *)
Lemma sent_sendInventory (s : RoomServer.t) (p : RoomServer.ServerPlayer) :
  RoomServer.sent (RoomServer.sendInventory s p) =
  RoomServer.sent s ++
    (if bool_decide (RoomServer.ws p ∈ RoomServer.openSockets s)
     then [(RoomServer.ws p,
            Protocol.inventory_update
              (fst (ServerInventory.serializeInventory (RoomServer.inventory p)))
              (snd (ServerInventory.serializeInventory (RoomServer.inventory p))))]
     else []).
Proof.
  unfold RoomServer.sendInventory, RoomServer.send, RoomServer.sendRaw. cbv zeta.
  destruct (bool_decide _); cbn [RoomServer.sent]; [reflexivity|].
  rewrite app_nil_r. reflexivity.
Qed.

Lemma changedBlocks_sendInventory (s : RoomServer.t) (p : RoomServer.ServerPlayer) :
  RoomServer.changedBlocks (RoomServer.sendInventory s p) = RoomServer.changedBlocks s.
Proof.
  unfold RoomServer.sendInventory, RoomServer.send, RoomServer.sendRaw. cbv zeta.
  destruct (bool_decide _); reflexivity.
Qed.

(** C7.  Take two mine actions of one player on one cell that holds a
    block of the block table, the second handled right after the first and
    before the interval derived from the hardness of that block has passed
    since the player's last successful mine.

    The first removes the block exactly when it passes the tests of the
    handler: the cell is within reach, the block is neither air nor water,
    and the interval has passed since the player's last mine.  Then the
    cell reads as air, the time of the mine is recorded, one delta is
    queued, the drop of the block is added to the inventory and the
    inventory is sent.  A first action that fails a test changes neither
    the player nor the delta buffer, sends nothing, and leaves the block in
    its cell.

    The second never removes a block: server and player are exactly as the
    first left them (world, dirty set, inventory, delta buffer, time
    stamps, messages sent).  After a first that removed the block it leaves
    at the test for air. *)
Theorem second_mine_is_noop
    (s0 : RoomServer.t) (p0 : RoomServer.ServerPlayer) (x y z : float) (t1 t2 block : Z)
    (def : Blocks.BlockDefinition) :
  let r1 := RoomServer.handleMineAction s0 p0 x y z t1 in
  let r2 := RoomServer.handleMineAction (serverOf r1) (playerOf r1) x y z t2 in
  let interval := (JS.Math_max 0.2 (Blocks.hardness def) * 180)%float in
  let sentInventory :=
    if bool_decide (RoomServer.ws p0 ∈ RoomServer.openSockets s0)
    then [(RoomServer.ws p0,
           Protocol.inventory_update
             (fst (ServerInventory.serializeInventory (RoomServer.inventory (playerOf r1))))
             (snd (ServerInventory.serializeInventory (RoomServer.inventory (playerOf r1)))))]
    else [] in
  fst (AuthoritativeWorld.getBlock (RoomServer.world s0) (cellOf x) (cellOf y) (cellOf z)) =
    Some block ->
  Blocks.BLOCK_DEFS block = Some def ->
  PrimFloat.ltb (JS.ofZ t2 - JS.ofZ (RoomServer.lastMineAtMs (playerOf r1)))%float interval
    = true ->
  (exitOf r1 = RoomServer.Mined <->
   RoomServer.withinReach p0 (JS.Math_floor x) (JS.Math_floor y) (JS.Math_floor z) 6.2 = true /\
   block <> BlockId.Air /\ block <> BlockId.Water /\
   PrimFloat.ltb (JS.ofZ t1 - JS.ofZ (RoomServer.lastMineAtMs p0))%float interval = false) /\
  (exitOf r1 = RoomServer.Mined ->
   fst (AuthoritativeWorld.getBlock (RoomServer.world (serverOf r1))
          (cellOf x) (cellOf y) (cellOf z)) = Some BlockId.Air /\
   RoomServer.lastMineAtMs (playerOf r1) = t1 /\
   RoomServer.changedBlocks (serverOf r1) =
     RoomServer.changedBlocks s0 ++
       [{| Protocol.bd_x := cellOf x; Protocol.bd_y := cellOf y; Protocol.bd_z := cellOf z;
           Protocol.bd_block := BlockId.Air |}] /\
   (exists d, Blocks.drop def = Some d /\
      RoomServer.inventory (playerOf r1) =
        snd (ServerInventory.addItem (RoomServer.inventory p0) d 1)) /\
   RoomServer.sent (serverOf r1) = RoomServer.sent s0 ++ sentInventory /\
   exitOf r2 = RoomServer.MineNothingThere) /\
  (exitOf r1 <> RoomServer.Mined ->
   playerOf r1 = p0 /\
   RoomServer.changedBlocks (serverOf r1) = RoomServer.changedBlocks s0 /\
   RoomServer.sent (serverOf r1) = RoomServer.sent s0 /\
   fst (AuthoritativeWorld.getBlock (RoomServer.world (serverOf r1))
          (cellOf x) (cellOf y) (cellOf z)) = Some block) /\
  serverOf r2 = serverOf r1 /\
  playerOf r2 = playerOf r1 /\
  RoomServer.sent (serverOf r2) = RoomServer.sent (serverOf r1) /\
  exitOf r2 <> RoomServer.Mined.
Proof.
  intros r1 r2 interval sentInventory Hblock Hdef Hsoon.
  pose proof (server_getBlock_again (RoomServer.world s0) (cellOf x) (cellOf y) (cellOf z))
    as Hagain.
  destruct (mine_cases s0 p0 x y z t1) as [Hpos Hcases]. fold r1 in Hpos, Hcases.
  assert (Hreach : forall a b c d,
            RoomServer.withinReach (playerOf r1) a b c d = RoomServer.withinReach p0 a b c d).
  { intros. unfold RoomServer.withinReach. rewrite Hpos. reflexivity. }
  set (read := AuthoritativeWorld.getBlock (RoomServer.world s0) (cellOf x) (cellOf y) (cellOf z))
    in *.
  assert (Hread : fst read ≫= Blocks.BLOCK_DEFS = Some def)
    by (rewrite Hblock; exact Hdef).
  assert (Hnothing : bool_decide (fst read = Some BlockId.Air) ||
                     bool_decide (fst read = Some BlockId.Water) = false <->
                     block <> BlockId.Air /\ block <> BlockId.Water).
  { rewrite Hblock, orb_false_iff, !bool_decide_eq_false. split.
    - intros [Ha Hw]. split; intros ->; [apply Ha|apply Hw]; reflexivity.
    - intros [Ha Hw]. split; intros [= ->]; [apply Ha|apply Hw]; reflexivity. }
  assert (Hsecond : forall e s1 p1,
            r1 = (e, RoomServer.withWorld s0 (snd read), p1) -> p1 = p0 ->
            e <> RoomServer.Mined ->
            (e = RoomServer.MineTooSoon \/ e = RoomServer.MineNothingThere \/
             e = RoomServer.MineThrew) ->
            s1 = RoomServer.withWorld s0 (snd read) ->
            RoomServer.withinReach p0 (JS.Math_floor x) (JS.Math_floor y) (JS.Math_floor z) 6.2
              = true ->
            (e = RoomServer.MineNothingThere ->
             bool_decide (fst read = Some BlockId.Air) ||
             bool_decide (fst read = Some BlockId.Water) = true) ->
            serverOf r2 = serverOf r1 /\ playerOf r2 = playerOf r1 /\
            exitOf r2 <> RoomServer.Mined).
  { intros e s1 p1 E -> He Hwhich -> R Hn.
    subst r2. rewrite E in *. cbn [serverOf playerOf exitOf fst snd] in *.
    destruct (bool_decide (fst read = Some BlockId.Air) ||
              bool_decide (fst read = Some BlockId.Water)) eqn:N.
    - rewrite (mine_nothing_there _ _ _ _ _ _); cbn [RoomServer.world RoomServer.withWorld];
        [|exact R|fold read; rewrite Hagain; exact N].
      fold read. rewrite Hagain, withWorld_twice. cbn. repeat split; discriminate.
    - rewrite (mine_too_soon _ _ _ _ _ _ def); cbn [RoomServer.world RoomServer.withWorld];
        [|exact R|fold read; rewrite Hagain; exact N
         |fold read; rewrite Hagain; exact Hread|exact Hsoon].
      fold read. rewrite Hagain, withWorld_twice. cbn. repeat split; discriminate. }
  destruct Hcases as [(R & E)|[(R & N & E)|[(R & N & D & E)|[(def' & R & N & D & T & E)|
                     [(def' & R & N & D & T & C & E)|(def' & R & N & D & T & C & E)]]]]].
  - (* out of reach, twice *)
    assert (Hr2 : r2 = (RoomServer.MineOutOfReach, s0, p0)).
    { subst r2. rewrite E. cbn [serverOf playerOf fst snd]. apply mine_out_of_reach. exact R. }
    rewrite Hr2, E. cbn [serverOf playerOf exitOf fst snd].
    split; [split; [discriminate|intros (R' & _); congruence]|].
    split; [discriminate|].
    split; [intros _; split_and!; try reflexivity; exact Hblock|].
    split_and!; try reflexivity; discriminate.
  - (* air or water, twice *)
    destruct (Hsecond _ _ _ E eq_refl ltac:(discriminate) ltac:(auto) eq_refl R
                ltac:(intros _; exact N)) as (H1 & H2 & H3).
    rewrite H1. rewrite E in *. cbn [serverOf playerOf exitOf fst snd] in *.
    split; [split; [discriminate|]|].
    { intros (_ & Ha & Hw & _). rewrite (proj2 Hnothing (conj Ha Hw)) in N. discriminate. }
    split; [discriminate|].
    split.
    { intros _. split_and!; try reflexivity.
      cbn [RoomServer.world RoomServer.withWorld]. fold read. rewrite Hagain. exact Hblock. }
    split_and!; auto.
  - (* no definition for the code: excluded *)
    rewrite Hread in D. discriminate.
  - (* the first was too soon, and so is the second *)
    rewrite Hread in D. injection D as <-.
    destruct (Hsecond _ _ _ E eq_refl ltac:(discriminate) ltac:(auto) eq_refl R
                ltac:(discriminate)) as (H1 & H2 & H3).
    rewrite H1. rewrite E in *. cbn [serverOf playerOf exitOf fst snd] in *.
    split; [split; [discriminate|]|].
    { intros (_ & _ & _ & T'). fold interval in T. congruence. }
    split; [discriminate|].
    split.
    { intros _. split_and!; try reflexivity.
      cbn [RoomServer.world RoomServer.withWorld]. fold read. rewrite Hagain. exact Hblock. }
    split_and!; auto.
  - (* the write changes the cell: this case does not arise *)
    exfalso. apply Hnothing in N as [Ha Hw].
    pose proof (server_getBlock_height _ _ _ _ _ Hblock Ha) as Hy.
    pose proof (server_setBlock_changes (RoomServer.world s0) (cellOf x) (cellOf y) (cellOf z)
                  BlockId.Air Hy) as Hch.
    fold read in Hch. rewrite Hch in C; [discriminate|].
    rewrite Hblock. intros [= ->]. apply Ha. reflexivity.
  - (* the first removed the block: the second finds air *)
    rewrite Hread in D. injection D as <-.
    pose proof N as N'. apply Hnothing in N' as [Ha Hw].
    pose proof (server_getBlock_setBlock (snd read) (cellOf x) (cellOf y) (cellOf z)
                  block BlockId.Air) as Hafter.
    fold read in Hagain. rewrite Hagain in Hafter.
    specialize (Hafter Hblock Ha C).
    change (JS.toUint16 BlockId.Air) with BlockId.Air in Hafter.
    set (w2 := snd (AuthoritativeWorld.setBlock (snd read) (cellOf x) (cellOf y) (cellOf z)
                      BlockId.Air)) in *.
    assert (Hdrop : exists d, Blocks.drop def = Some d).
    { clear - Hdef Ha Hw. unfold Blocks.BLOCK_DEFS in Hdef.
      repeat match type of Hdef with
             | (if ?c then _ else _) = _ => destruct c eqn:?
             end; try discriminate; injection Hdef as <-; cbn; eauto;
        exfalso; [apply Ha|apply Hw]; apply Z.eqb_eq; assumption. }
    destruct Hdrop as [d Hd]. rewrite Hd in E.
    assert (Hw1 : RoomServer.world (serverOf r1) = w2).
    { rewrite E. cbn [serverOf fst snd]. rewrite world_sendInventory. reflexivity. }
    assert (Hp1 : RoomServer.ws (playerOf r1) = RoomServer.ws p0).
    { rewrite E. reflexivity. }
    assert (Hr2 : r2 = (RoomServer.MineNothingThere, serverOf r1, playerOf r1)).
    { subst r2.
      rewrite (mine_nothing_there (serverOf r1) (playerOf r1) x y z t2).
      - rewrite Hw1, Hafter. cbn [snd]. rewrite <- Hw1, withWorld_same. reflexivity.
      - rewrite Hreach. exact R.
      - rewrite Hw1, Hafter. reflexivity. }
    rewrite Hr2. cbn [serverOf playerOf exitOf fst snd].
    assert (He : exitOf r1 = RoomServer.Mined) by (rewrite E; reflexivity).
    split; [split; [intros _|intros _; exact He]|].
    { fold interval in T. auto. }
    split.
    { intros _.
      split; [rewrite Hw1, Hafter; reflexivity|].
      split; [rewrite E; reflexivity|].
      split.
      { rewrite E. cbv zeta. cbn [serverOf fst snd].
        rewrite changedBlocks_sendInventory. reflexivity. }
      split; [exists d; split; [exact Hd|]; rewrite E; reflexivity|].
      split; [|reflexivity].
      subst sentInventory. rewrite E. cbv zeta. cbn [serverOf playerOf fst snd].
      rewrite sent_sendInventory. reflexivity. }
    split; [intros Hne; contradiction|].
    split_and!; try reflexivity. discriminate.
Qed.

Lemma second_mine_is_noop_witness :
  let r1 := Sample.firstMine in
  let r2 := Sample.secondMine in
  let interval := (JS.Math_max 0.2 2.2 * 180)%float in
  let sentInventory :=
    if bool_decide (RoomServer.ws Sample.serverPlayer ∈ RoomServer.openSockets Sample.server)
    then [(RoomServer.ws Sample.serverPlayer,
           Protocol.inventory_update
             (fst (ServerInventory.serializeInventory (RoomServer.inventory (playerOf r1))))
             (snd (ServerInventory.serializeInventory (RoomServer.inventory (playerOf r1)))))]
    else [] in
  (exitOf r1 = RoomServer.Mined <->
   RoomServer.withinReach Sample.serverPlayer (JS.Math_floor 8) (JS.Math_floor 39)
     (JS.Math_floor 8) 6.2 = true /\
   BlockId.Stone <> BlockId.Air /\ BlockId.Stone <> BlockId.Water /\
   PrimFloat.ltb (JS.ofZ 1700000000000 -
                  JS.ofZ (RoomServer.lastMineAtMs Sample.serverPlayer))%float interval = false) /\
  (exitOf r1 = RoomServer.Mined ->
   fst (AuthoritativeWorld.getBlock (RoomServer.world (serverOf r1))
          (cellOf 8) (cellOf 39) (cellOf 8)) = Some BlockId.Air /\
   RoomServer.lastMineAtMs (playerOf r1) = 1700000000000 /\
   RoomServer.changedBlocks (serverOf r1) =
     RoomServer.changedBlocks Sample.server ++
       [{| Protocol.bd_x := cellOf 8; Protocol.bd_y := cellOf 39; Protocol.bd_z := cellOf 8;
           Protocol.bd_block := BlockId.Air |}] /\
   (exists d, Some Protocol.stone = Some d /\
      RoomServer.inventory (playerOf r1) =
        snd (ServerInventory.addItem (RoomServer.inventory Sample.serverPlayer) d 1)) /\
   RoomServer.sent (serverOf r1) = RoomServer.sent Sample.server ++ sentInventory /\
   exitOf r2 = RoomServer.MineNothingThere) /\
  (exitOf r1 <> RoomServer.Mined ->
   playerOf r1 = Sample.serverPlayer /\
   RoomServer.changedBlocks (serverOf r1) = RoomServer.changedBlocks Sample.server /\
   RoomServer.sent (serverOf r1) = RoomServer.sent Sample.server /\
   fst (AuthoritativeWorld.getBlock (RoomServer.world (serverOf r1))
          (cellOf 8) (cellOf 39) (cellOf 8)) = Some BlockId.Stone) /\
  serverOf r2 = serverOf r1 /\
  playerOf r2 = playerOf r1 /\
  RoomServer.sent (serverOf r2) = RoomServer.sent (serverOf r1) /\
  exitOf r2 <> RoomServer.Mined.
Proof.
  apply (second_mine_is_noop Sample.server Sample.serverPlayer 8 39 8
           1700000000000 1700000000100 BlockId.Stone
           {| Blocks.id := BlockId.Stone; Blocks.name := "Stone"; Blocks.solid := true;
              Blocks.hardness := 2.2; Blocks.color := 0x7f7f88;
              Blocks.drop := Some Protocol.stone |}).
  - vm_compute. reflexivity.
  - reflexivity.
  - vm_compute. reflexivity.
Defined.

(** The two sample actions do what they are meant to show. *)
Example firstMine_removes_the_block :
  exitOf Sample.firstMine = RoomServer.Mined /\
  map fst (RoomServer.sent (serverOf Sample.firstMine)) = [1] /\
  RoomServer.lastMineAtMs (playerOf Sample.firstMine) = 1700000000000 /\
  exitOf Sample.secondMine = RoomServer.MineNothingThere.
Proof. vm_compute. auto. Qed.

(** A player who mined 100 ms before the first action: both actions leave
    at the interval test, and the block stays in its cell. *)
Example both_mines_too_soon :
  let p := RoomServer.withLastMineAtMs Sample.serverPlayer 1699999999900 in
  let r1 := RoomServer.handleMineAction Sample.server p 8 39 8 1700000000000 in
  let r2 := RoomServer.handleMineAction (serverOf r1) (playerOf r1) 8 39 8 1700000000100 in
  exitOf r1 = RoomServer.MineTooSoon /\ exitOf r2 = RoomServer.MineTooSoon /\
  fst (AuthoritativeWorld.getBlock (RoomServer.world (serverOf r2)) 8 39 8) =
    Some BlockId.Stone.
Proof. vm_compute. auto. Qed.

Lemma server_getBlock_frame (w : AuthoritativeWorld.t) (x y z : Z) :
  AuthoritativeWorld.dirty (snd (AuthoritativeWorld.getBlock w x y z)) =
    AuthoritativeWorld.dirty w /\
  AuthoritativeWorld.files (snd (AuthoritativeWorld.getBlock w x y z)) =
    AuthoritativeWorld.files w.
Proof.
  unfold AuthoritativeWorld.getBlock. cbv zeta.
  destruct ((y <? 0) || (Config.WORLD_HEIGHT <=? y)); cbn [snd]; [auto|].
  pose proof (server_getChunk_frame w (x / Config.CHUNK_SIZE) (z / Config.CHUNK_SIZE))
    as (Hd & Hf & _).
  destruct (AuthoritativeWorld.getChunk w _ _) as [c w']. cbn [snd] in *. auto.
Qed.

Lemma consumeSelected_false (inv : ServerInventory.t) (n : Z) :
  fst (ServerInventory.consumeSelected inv n) = false ->
  snd (ServerInventory.consumeSelected inv n) = inv.
Proof.
  unfold ServerInventory.consumeSelected.
  destruct (ServerInventory.at_ _ _) as [[slot|]|]; try reflexivity.
  destruct (_ <? _); [reflexivity|intros [=]].
Qed.

Lemma digits2_pos_bound (m : positive) : Z.pos m < 2 ^ Z.pos (digits2_pos m).
Proof.
  induction m as [m IH|m IH|]; cbn [digits2_pos].
  - rewrite Pos2Z.inj_succ, Z.pow_succ_r by lia. lia.
  - rewrite Pos2Z.inj_succ, Z.pow_succ_r by lia. lia.
  - reflexivity.
Qed.

Lemma valid_mantissa_bound (s : bool) (m : positive) (e : Z) :
  valid_binary (S754_finite s m e) = true -> Z.pos m < 2 ^ 53.
Proof.
  cbn [SpecFloat.valid_binary]. unfold bounded, canonical_mantissa, fexp.
  intros H. apply andb_true_iff in H as [H _]. apply Z.eqb_eq in H.
  pose proof (digits2_pos_bound m) as Hb.
  assert (Hd : Z.pos (digits2_pos m) <= 53) by (unfold prec in H; lia).
  eapply Z.lt_le_trans; [exact Hb|]. apply Z.pow_le_mono_r; lia.
Qed.

Lemma ofZ_96 : Prim2SF (JS.ofZ 96) = S754_finite false 6755399441055744 (-46).
Proof. vm_compute. reflexivity. Qed.

Lemma zero_SF : Prim2SF 0%float = S754_zero false.
Proof. vm_compute. reflexivity. Qed.

Lemma shiftr_small (m : positive) (k : Z) :
  47 <= k -> Z.pos m < 2 ^ 53 -> 0 <= Z.shiftr (Z.pos m) k < 96.
Proof.
  intros Hk Hm. rewrite Z.shiftr_div_pow2 by lia.
  assert (Hp : 0 < 2 ^ k) by (apply Z.pow_pos_nonneg; lia).
  assert (Hq : 2 ^ 47 <= 2 ^ k) by (apply Z.pow_le_mono_r; lia).
  split; [apply Z.div_pos; lia|].
  apply Z.div_lt_upper_bound; [exact Hp|].
  apply Z.lt_le_trans with (2 ^ 53); [exact Hm|].
  apply Z.le_trans with (2 ^ 47 * 96).
  - vm_compute. discriminate.
  - apply Z.mul_le_mono_nonneg_r; [lia|exact Hq].
Qed.

Lemma shiftr_below (m : positive) :
  Z.pos m < 2 ^ 46 * 96 -> 0 <= Z.shiftr (Z.pos m) 46 < 96.
Proof.
  intros Hm. rewrite Z.shiftr_div_pow2 by lia. split.
  - apply Z.div_pos; [lia|]. apply Z.pow_pos_nonneg; lia.
  - apply Z.div_lt_upper_bound; [apply Z.pow_pos_nonneg; lia|exact Hm].
Qed.

(** A number that passed [py < 0 || py >= 96] and is not NaN is a height
    inside the world. *)
Lemma height_in_world (py : float) :
  PrimFloat.ltb py 0 = false -> PrimFloat.leb (JS.ofZ 96) py = false ->
  Prim2SF py <> S754_nan ->
  0 <= JS.truncZ py < 96.
Proof.
  rewrite ltb_spec, leb_spec, ofZ_96, zero_SF. unfold JS.truncZ.
  pose proof (Prim2SF_valid py) as Hv.
  destruct (Prim2SF py) as [s|s| |s m e]; intros Hlt Hle Hnan.
  - lia.
  - destruct s; discriminate.
  - contradiction.
  - apply valid_mantissa_bound in Hv.
    destruct s; [discriminate|].
    unfold SFleb, SFcompare in Hle.
    destruct (Z.compare_spec (-46) e) as [He|He|He]; try discriminate.
    + subst e. cbn [Z.leb Z.compare Z.opp].
      destruct (Pos.compare_cont Eq 6755399441055744 m) eqn:Ec; try discriminate.
      apply shiftr_below.
      change (Pos.compare 6755399441055744 m = Gt) in Ec.
      apply Pos.compare_gt_iff in Ec. apply Pos2Z.pos_lt_pos in Ec. exact Ec.
    + destruct (0 <=? e) eqn:E0; [apply Z.leb_le in E0; lia|].
      apply shiftr_small; [lia|exact Hv].
Qed.

Lemma SF64add_nan_l (y : spec_float) : SF64add S754_nan y = S754_nan.
Proof. destruct y; reflexivity. Qed.

Lemma SF64add_nan_r (x : spec_float) : SF64add x S754_nan = S754_nan.
Proof. destruct x; reflexivity. Qed.

Lemma SF64sub_nan_r (x : spec_float) : SF64sub x S754_nan = S754_nan.
Proof. destruct x; reflexivity. Qed.

Lemma SF64mul_nan_l (y : spec_float) : SF64mul S754_nan y = S754_nan.
Proof. destruct y; reflexivity. Qed.

Lemma SFleb_nan_l (y : spec_float) : SFleb S754_nan y = false.
Proof. destruct y; reflexivity. Qed.

(** A target whose height is NaN is out of reach: the distance is NaN and
    the comparison with the range fails. *)
Lemma withinReach_nan (p : RoomServer.ServerPlayer) (x y z range : float) :
  Prim2SF y = S754_nan -> RoomServer.withinReach p x y z range = false.
Proof.
  intros Hy. unfold RoomServer.withinReach, Physics.distanceSquared. cbv zeta.
  cbn [Physics.x Physics.y Physics.z Physics.vec3].
  rewrite leb_spec.
  rewrite !add_spec, !mul_spec, !sub_spec, !add_spec, Hy.
  rewrite SF64add_nan_l, SF64sub_nan_r, SF64mul_nan_l, SF64add_nan_r, SF64add_nan_l.
  apply SFleb_nan_l.
Qed.

Lemma itemToBlockId_placeable (i : Protocol.SharedItemId) (b : Z) :
  Blocks.itemToBlockId i = Some b -> b <> BlockId.Air /\ b <> BlockId.Water.
Proof. destruct i; intros [= <-]; split; discriminate. Qed.

(** The last return of [handlePlaceAction], a write that changed nothing
    after the item was consumed, is never taken: the target was read as air
    or water just before, and no item places either. *)
Lemma place_always_changes
    (s : RoomServer.t) (p : RoomServer.ServerPlayer) (target normal : Physics.Vec3)
    (selectedSlot : Z) :
  exitOf (RoomServer.handlePlaceAction s p target normal selectedSlot) <>
    RoomServer.PlaceUnchanged.
Proof.
  unfold RoomServer.handlePlaceAction, exitOf. cbv zeta.
  destruct ((selectedSlot <? 0) || (Config.HOTBAR_SIZE <=? selectedSlot)); [discriminate|].
  destruct (ServerInventory.at_ _ selectedSlot) as [[slot|]|]; try discriminate.
  destruct (Blocks.itemToBlockId _) as [placeBlock|] eqn:Eitem; [|discriminate].
  apply itemToBlockId_placeable in Eitem as [Hair Hwater].
  destruct (PrimFloat.ltb _ _ || PrimFloat.leb _ _) eqn:Ey; [discriminate|].
  apply orb_false_iff in Ey as [Hlo Hhi].
  destruct (RoomServer.withinReach _ _ _ _ _) eqn:Er; cbn [negb]; [|discriminate].
  assert (Hy : 0 <= JS.truncZ (JS.Math_floor (Physics.y target + Physics.y normal))
               < Config.WORLD_HEIGHT).
  { apply height_in_world; [exact Hlo|exact Hhi|].
    intros Hnan. rewrite (withinReach_nan _ _ _ _ _ Hnan) in Er. discriminate. }
  pose proof (server_setBlock_changes (RoomServer.world s)
    (JS.truncZ (JS.Math_floor (Physics.x target + Physics.x normal)))
    (JS.truncZ (JS.Math_floor (Physics.y target + Physics.y normal)))
    (JS.truncZ (JS.Math_floor (Physics.z target + Physics.z normal))) placeBlock Hy) as Hset.
  destruct (AuthoritativeWorld.getBlock _ _ _ _) as [existing w1]. cbn [fst snd] in Hset.
  destruct (bool_decide (existing = Some BlockId.Air)) eqn:Ea;
    [|destruct (bool_decide (existing = Some BlockId.Water)) eqn:Ew]; cbn [negb andb];
    try discriminate.
  - apply bool_decide_eq_true_1 in Ea.
    destruct (Physics.aabbIntersectsBlock _ _ _ _ _); [discriminate|].
    destruct (ServerInventory.consumeSelected _ _) as [[] inv]; cbn [negb]; [|discriminate].
    cbn [RoomServer.world RoomServer.withWorld].
    destruct (AuthoritativeWorld.setBlock _ _ _ _ _) as [changed w2]. cbn [fst] in Hset.
    rewrite Hset; [discriminate|]. subst existing. congruence.
  - apply bool_decide_eq_true_1 in Ew.
    destruct (Physics.aabbIntersectsBlock _ _ _ _ _); [discriminate|].
    destruct (ServerInventory.consumeSelected _ _) as [[] inv]; cbn [negb]; [|discriminate].
    cbn [RoomServer.world RoomServer.withWorld].
    destruct (AuthoritativeWorld.setBlock _ _ _ _ _) as [changed w2]. cbn [fst] in Hset.
    rewrite Hset; [discriminate|]. subst existing. congruence.
Qed.

(** C8, as the code has it.  A place action that a validation rejects,
    that is one that returns anywhere but after placing the block,
    sends nothing and changes no block, no dirty-set entry, no chunk file,
    no block delta and no hotbar slot; the player is as before except that
    the selected slot is the one named in the message (a slot outside 0..8
    changes nothing at all), and the world is as before except that the
    occupancy check may have brought the target's chunk into the cache. *)
Theorem rejected_place_frame
    (s : RoomServer.t) (p : RoomServer.ServerPlayer) (target normal : Physics.Vec3)
    (selectedSlot : Z) :
  let r := RoomServer.handlePlaceAction s p target normal selectedSlot in
  let px := cellOf (Physics.x target + Physics.x normal)%float in
  let py := cellOf (Physics.y target + Physics.y normal)%float in
  let pz := cellOf (Physics.z target + Physics.z normal)%float in
  validationFailed (exitOf r) ->
  RoomServer.sent (serverOf r) = RoomServer.sent s /\
  RoomServer.changedBlocks (serverOf r) = RoomServer.changedBlocks s /\
  AuthoritativeWorld.dirty (RoomServer.world (serverOf r)) =
    AuthoritativeWorld.dirty (RoomServer.world s) /\
  AuthoritativeWorld.files (RoomServer.world (serverOf r)) =
    AuthoritativeWorld.files (RoomServer.world s) /\
  (serverOf r = s \/
   serverOf r = RoomServer.withWorld s
                  (snd (AuthoritativeWorld.getBlock (RoomServer.world s) px py pz))) /\
  ServerInventory.hotbar (RoomServer.inventory (playerOf r)) =
    ServerInventory.hotbar (RoomServer.inventory p) /\
  (exitOf r = RoomServer.PlaceBadSlot -> playerOf r = p) /\
  (exitOf r <> RoomServer.PlaceBadSlot ->
   0 <= selectedSlot < 9 /\
   playerOf r =
     RoomServer.withInventory p
       {| ServerInventory.hotbar := ServerInventory.hotbar (RoomServer.inventory p);
          ServerInventory.selectedSlot := selectedSlot |}).
Proof.
  intros r px py pz. subst r px py pz.
  pose proof (place_always_changes s p target normal selectedSlot) as Hchanges.
  revert Hchanges.
  unfold RoomServer.handlePlaceAction, cellOf, validationFailed. cbv zeta.
  destruct ((selectedSlot <? 0) || (Config.HOTBAR_SIZE <=? selectedSlot)) eqn:Eslot.
  { intros _ _. cbn. repeat split; auto; congruence. }
  assert (Hrange : 0 <= selectedSlot < 9).
  { apply orb_false_iff in Eslot as [H1 H2]. apply Z.ltb_ge in H1. apply Z.leb_gt in H2.
    unfold Config.HOTBAR_SIZE in H2. lia. }
  cbn [RoomServer.inventory RoomServer.withInventory ServerInventory.hotbar].
  destruct (ServerInventory.at_ _ selectedSlot) as [[slot|]|];
    try (intros _ _; cbn; repeat split; auto; try lia; congruence).
  destruct (Blocks.itemToBlockId _) as [placeBlock|];
    [|intros _ _; cbn; repeat split; auto; try lia; congruence].
  clear Eslot.
  destruct (PrimFloat.ltb _ _ || PrimFloat.leb _ _);
    [intros _ _; cbn; repeat split; auto; try lia; congruence|].
  destruct (negb _); [intros _ _; cbn; repeat split; auto; try lia; congruence|].
  pose proof (server_getBlock_frame (RoomServer.world s)
    (JS.truncZ (JS.Math_floor (Physics.x target + Physics.x normal)))
    (JS.truncZ (JS.Math_floor (Physics.y target + Physics.y normal)))
    (JS.truncZ (JS.Math_floor (Physics.z target + Physics.z normal)))) as [Hd Hf].
  destruct (AuthoritativeWorld.getBlock _ _ _ _) as [existing w1]. cbn [snd] in *.
  destruct (_ && _); [intros _ _; cbn; repeat split; auto; try lia; congruence|].
  destruct (Physics.aabbIntersectsBlock _ _ _ _ _);
    [intros _ _; cbn; repeat split; auto; try lia; congruence|].
  match goal with
  | |- context [ServerInventory.consumeSelected ?i ?n] =>
      pose proof (consumeSelected_false i n) as Hkeep;
      destruct (ServerInventory.consumeSelected i n) as [ok inv]
  end.
  cbn [fst snd] in Hkeep. destruct ok; cbn [negb].
  - cbn [RoomServer.world RoomServer.withWorld].
    destruct (AuthoritativeWorld.setBlock _ _ _ _ _) as [changed w2].
    destruct changed; cbn; intros H1 H2; contradiction.
  - intros _ _. cbn. repeat split; auto; try lia; congruence.
Qed.

Lemma rejected_place_frame_witness :
  RoomServer.sent (serverOf Sample.occupiedPlace) = RoomServer.sent Sample.server /\
  RoomServer.changedBlocks (serverOf Sample.occupiedPlace) =
    RoomServer.changedBlocks Sample.server /\
  AuthoritativeWorld.dirty (RoomServer.world (serverOf Sample.occupiedPlace)) =
    AuthoritativeWorld.dirty (RoomServer.world Sample.server) /\
  AuthoritativeWorld.files (RoomServer.world (serverOf Sample.occupiedPlace)) =
    AuthoritativeWorld.files (RoomServer.world Sample.server) /\
  (serverOf Sample.occupiedPlace = Sample.server \/
   serverOf Sample.occupiedPlace =
     RoomServer.withWorld Sample.server
       (snd (AuthoritativeWorld.getBlock (RoomServer.world Sample.server)
               (cellOf (10 + 0)) (cellOf (39 + -1)) (cellOf (8 + 0))))) /\
  ServerInventory.hotbar (RoomServer.inventory (playerOf Sample.occupiedPlace)) =
    ServerInventory.hotbar (RoomServer.inventory Sample.serverPlayer) /\
  (exitOf Sample.occupiedPlace = RoomServer.PlaceBadSlot ->
   playerOf Sample.occupiedPlace = Sample.serverPlayer) /\
  (exitOf Sample.occupiedPlace <> RoomServer.PlaceBadSlot ->
   0 <= 2 < 9 /\
   playerOf Sample.occupiedPlace =
     RoomServer.withInventory Sample.serverPlayer
       {| ServerInventory.hotbar :=
            ServerInventory.hotbar (RoomServer.inventory Sample.serverPlayer);
          ServerInventory.selectedSlot := 2 |}).
Proof.
  apply (rejected_place_frame Sample.server Sample.serverPlayer
           (Physics.vec3 10 39 8) (Physics.vec3 0 (-1) 0) 2).
  vm_compute; discriminate.
Defined.

Example sample_places_are_rejected :
  exitOf Sample.farPlace = RoomServer.PlaceOutOfReach /\
  exitOf Sample.occupiedPlace = RoomServer.PlaceOccupied.
Proof. vm_compute. auto. Qed.

(** C8, as the specification has it, fails: the place action on the far
    cell is rejected for reach, yet the player's selected slot has gone
    from 0 to 1. *)
Lemma rejected_place_changes_selected_slot : ~ rejectedPlaceLeavesNoTrace.
Proof.
  intros H.
  destruct (H Sample.server Sample.serverPlayer
              (Physics.vec3 1000 39 1000) (Physics.vec3 0 1 0) 1) as (_ & Hp & _).
  - vm_compute; discriminate.
  - apply (f_equal (fun q => ServerInventory.selectedSlot (RoomServer.inventory q))) in Hp.
    vm_compute in Hp. discriminate.
Qed.

Lemma applyLocalReconciliation_overwrites_witness :
  MultiplayerGame.hotbar
    (MultiplayerGame.inventory
       (MultiplayerGame.applyLocalReconciliation Sample.client Sample.snapshotEntry)) =
    Protocol.np_hotbar Sample.snapshotEntry /\
  MultiplayerGame.selectedSlot
    (MultiplayerGame.inventory
       (MultiplayerGame.applyLocalReconciliation Sample.client Sample.snapshotEntry)) =
    Protocol.np_selectedSlot Sample.snapshotEntry /\
  MultiplayerGame.pendingInputs
    (MultiplayerGame.applyLocalReconciliation Sample.client Sample.snapshotEntry) =
    filter (fun p => 2 < MultiplayerGame.seq p) (MultiplayerGame.pendingInputs Sample.client).
Proof.
  assert (Hok : pendingOk Sample.client).
  { split; vm_compute; repeat (constructor || easy). }
  destruct (applyLocalReconciliation_overwrites Sample.client Sample.snapshotEntry 2 Hok)
    as (_ & _ & _ & _ & Hh & Hs & Hp & _).
  - reflexivity.
  - simpl. lia.
  - reflexivity.
  - auto.
Defined.

Example sample_reconciliation :
  map MultiplayerGame.seq (MultiplayerGame.pendingInputs Sample.client) = [1; 2; 3] /\
  map MultiplayerGame.seq
    (MultiplayerGame.pendingInputs
       (MultiplayerGame.applyLocalReconciliation Sample.client Sample.snapshotEntry)) = [3] /\
  MultiplayerGame.position
    (MultiplayerGame.player
       (MultiplayerGame.applyLocalReconciliation Sample.client Sample.snapshotEntry)) =
    {| MultiplayerGame.x := 0.1; MultiplayerGame.y := 41; MultiplayerGame.z := 0.2 |}.
Proof. vm_compute. auto. Qed.

(** ** Sample values of the generator *)

Example sample_column_seed_42 :
  Generator.getHeight (Generator.newWorldGenerator 42) 8 8 = 42%float /\
  map (Generator.columnBlock (Generator.newWorldGenerator 42) 8 8 42) [0; 26; 27; 33; 39; 42; 43] =
    [BlockId.Stone; BlockId.Stone; BlockId.Air; BlockId.Stone; BlockId.Dirt;
     BlockId.Grass; BlockId.Air].
Proof. vm_compute. auto. Qed.

Example sample_queue :
  let y := WorldStore.run (WorldStore.initial (Generator.newWorldGenerator 1) 1 ∅)
             [WorldStore.QueueAround 0 0 1; WorldStore.ProcessQueue] in
  WorldStore.awaiting y = [(0, 0); (-1, 0)] /\
  WorldStore.loadQueue (WorldStore.st y) =
    [(0, -1); (0, 1); (1, 0); (-1, -1); (-1, 1); (1, -1); (1, 1)].
Proof. vm_compute. auto. Qed.

(* ===================================================================== *)
(** * Further properties *)
(* ===================================================================== *)

(** ** Inventories *)

Lemma total_app i l1 l2 : total i (l1 ++ l2) = total i l1 + total i l2.
Proof. induction l1 as [|a l1 IH]; simpl; [reflexivity|]. rewrite IH. lia. Qed.

Lemma total_replicate_None i n : total i (replicate n None) = 0.
Proof. induction n as [|n IH]; simpl; [reflexivity|exact IH]. Qed.

Lemma countItem_total (inv : ServerInventory.t) (i : Protocol.SharedItemId) :
  Crafting.countItem inv i = total i (ServerInventory.hotbar inv).
Proof.
  unfold Crafting.countItem.
  assert (H : forall l acc,
    fold_left (fun count slot =>
                 match slot with
                 | Some st => if bool_decide (Protocol.item st = i)
                              then count + Protocol.count st else count
                 | None => count
                 end) l acc = acc + total i l).
  { induction l as [|slot l IH]; intros acc; simpl; [lia|].
    rewrite IH. destruct slot as [st|]; simpl; [|lia].
    destruct (bool_decide _); lia. }
  rewrite H. lia.
Qed.

Lemma total_insert i (l : list (option Protocol.SharedItemStack)) (k : nat) old v :
  l !! k = Some old ->
  total i (<[k := v]> l) = total i l - slotCount i old + slotCount i v.
Proof.
  revert k. induction l as [|a l IH]; intros [|k] H; simpl in *; try discriminate.
  - injection H as ->. lia.
  - rewrite (IH k H). lia.
Qed.

Lemma at_Some {A : Type} (l : list A) (i : Z) (v : A) :
  ServerInventory.at_ l i = Some v -> 0 <= i /\ l !! Z.to_nat i = Some v.
Proof.
  unfold ServerInventory.at_. destruct (i <? 0) eqn:E; [discriminate|].
  apply Z.ltb_ge in E. auto.
Qed.

Lemma at_None {A : Type} (l : list A) (i : Z) :
  0 <= i -> ServerInventory.at_ l i = None -> (length l <= Z.to_nat i)%nat.
Proof.
  unfold ServerInventory.at_. intros Hi. destruct (i <? 0) eqn:E; [apply Z.ltb_lt in E; lia|].
  intros H. apply lookup_ge_None in H. exact H.
Qed.

Lemma total_store i (l : list (option Protocol.SharedItemStack)) (k : Z) v :
  0 <= k ->
  match ServerInventory.at_ l k with Some (Some _) => False | _ => True end ->
  total i (ServerInventory.store l k v) = total i l + slotCount i v.
Proof.
  intros Hk Hat. unfold ServerInventory.store.
  destruct (Z.to_nat k <? length l)%nat eqn:E.
  - apply Nat.ltb_lt in E. destruct (lookup_lt_is_Some_2 l (Z.to_nat k) E) as [old Hold].
    unfold ServerInventory.at_ in Hat.
    destruct (k <? 0) eqn:E0; [apply Z.ltb_lt in E0; lia|].
    rewrite Hold in Hat. destruct old as [st|]; [contradiction|].
    rewrite (total_insert i l _ None v Hold). simpl. lia.
  - rewrite !total_app, total_replicate_None. simpl. lia.
Qed.

Lemma Forall_store (P : option Protocol.SharedItemStack -> Prop) l k v :
  P None -> P v -> Forall P l -> Forall P (ServerInventory.store l k v).
Proof.
  intros HN Hv Hl. unfold ServerInventory.store.
  destruct (_ <? _)%nat.
  - apply Forall_insert; assumption.
  - apply Forall_app. split; [exact Hl|]. apply Forall_app. split.
    + apply Forall_replicate. exact HN.
    + constructor; [exact Hv|constructor].
Qed.

Lemma length_store {A : Type} (l : list (option A)) (k : Z) v :
  (Z.to_nat k < length l)%nat -> length (ServerInventory.store l k v) = length l.
Proof.
  intros H. unfold ServerInventory.store.
  apply Nat.ltb_lt in H. rewrite H. apply length_insert.
Qed.

(** The first loop of [addItem]. *)
Lemma topUp_spec i slots n :
  0 <= n ->
  forall slots' r done, ServerInventory.topUp i slots n = (slots', r, done) ->
  0 <= r <= n /\
  total i slots' = total i slots + n - r /\
  (forall j, j <> i -> total j slots' = total j slots) /\
  length slots' = length slots /\
  (Forall stackOk slots -> Forall stackOk slots') /\
  (done = true -> r = 0) /\
  (done = false -> 1 <= n -> 1 <= r) /\
  (done = false ->
   Forall (fun slot => forall st, slot = Some st -> Protocol.item st = i ->
                         Config.MAX_STACK <= Protocol.count st) slots').
Proof.
  revert n. induction slots as [|slot rest IH]; intros n Hn slots' r done H; simpl in H.
  - injection H as <- <- <-. split_and!; try lia; auto; try discriminate.
  - destruct slot as [st|].
    + destruct (negb (bool_decide (Protocol.item st = i)) ||
                (Config.MAX_STACK <=? Protocol.count st)) eqn:Eskip.
      * destruct (ServerInventory.topUp i rest n) as [[rest' r0] d0] eqn:E.
        injection H as <- <- <-.
        destruct (IH n Hn _ _ _ E) as (H1 & H2 & H3 & H4 & H5 & H6 & H7 & H8).
        split_and!.
        -- lia.
        -- lia.
        -- simpl. lia.
        -- intros j Hj. simpl. rewrite (H3 j Hj). reflexivity.
        -- simpl. lia.
        -- intros Hok. inversion Hok; subst. constructor; auto.
        -- exact H6.
        -- exact H7.
        -- intros Hd. constructor; [|auto].
           intros st0 [= <-] Hi. apply orb_true_iff in Eskip as [Es|Es].
           ++ apply negb_true_iff, bool_decide_eq_false in Es. contradiction.
           ++ apply Z.leb_le in Es. exact Es.
      * apply orb_false_iff in Eskip as [Ei Ec].
        apply negb_false_iff, bool_decide_eq_true in Ei. apply Z.leb_gt in Ec.
        cbv zeta in H.
        set (canTake := Z.min (Config.MAX_STACK - Protocol.count st) n) in *.
        assert (Hct : 0 <= canTake <= n /\ canTake <= Config.MAX_STACK - Protocol.count st)
          by (unfold canTake; lia).
        destruct (n - canTake =? 0) eqn:Ez.
        -- apply Z.eqb_eq in Ez. injection H as <- <- <-.
           split_and!.
           ++ lia.
           ++ lia.
           ++ simpl. rewrite !bool_decide_eq_true_2 by exact Ei. lia.
           ++ intros j Hj. simpl. rewrite !bool_decide_eq_false_2 by congruence. reflexivity.
           ++ reflexivity.
           ++ intros Hok. inversion Hok as [|? ? Hst Hrest]; subst.
              constructor; [|exact Hrest]. simpl in *. lia.
           ++ reflexivity.
           ++ discriminate.
           ++ discriminate.
        -- apply Z.eqb_neq in Ez.
           destruct (ServerInventory.topUp i rest (n - canTake)) as [[rest' r0] d0] eqn:E.
           injection H as <- <- <-.
           destruct (IH (n - canTake) ltac:(lia) _ _ _ E)
             as (H1 & H2 & H3 & H4 & H5 & H6 & H7 & H8).
           split_and!.
           ++ lia.
           ++ lia.
           ++ simpl. rewrite !bool_decide_eq_true_2 by exact Ei. lia.
           ++ intros j Hj. simpl. rewrite !bool_decide_eq_false_2 by congruence.
              rewrite (H3 j Hj). reflexivity.
           ++ simpl. lia.
           ++ intros Hok. inversion Hok as [|? ? Hst Hrest]; subst.
              constructor; [|auto]. simpl in *. lia.
           ++ exact H6.
           ++ intros Hd _. apply H7; [exact Hd|lia].
           ++ intros Hd. constructor; [|auto].
              intros st0 [= <-] _. simpl.
              assert (1 <= n - canTake) by lia. unfold canTake in *. lia.
    + destruct (ServerInventory.topUp i rest n) as [[rest' r0] d0] eqn:E.
      injection H as <- <- <-.
      destruct (IH n Hn _ _ _ E) as (H1 & H2 & H3 & H4 & H5 & H6 & H7 & H8).
      split_and!.
      * lia.
      * lia.
      * simpl. lia.
      * intros j Hj. simpl. rewrite (H3 j Hj). reflexivity.
      * simpl. lia.
      * intros Hok. inversion Hok; subst. constructor; auto.
      * exact H6.
      * exact H7.
      * intros Hd. constructor; [|auto]. intros st0 [=].
Qed.

Lemma at_store_same {A : Type} (l : list (option A)) (k : Z) (v : option A) :
  0 <= k -> ServerInventory.at_ (ServerInventory.store l k v) k = Some v.
Proof.
  intros Hk. unfold ServerInventory.at_, ServerInventory.store.
  destruct (k <? 0) eqn:E0; [apply Z.ltb_lt in E0; lia|].
  destruct (Z.to_nat k <? length l)%nat eqn:E.
  - apply Nat.ltb_lt in E. apply list_lookup_insert_eq. exact E.
  - apply Nat.ltb_ge in E. rewrite lookup_app_r by exact E.
    rewrite lookup_app_r by (rewrite length_replicate; lia).
    rewrite length_replicate. replace (_ - _ - _)%nat with 0%nat by lia. reflexivity.
Qed.

Lemma at_store_other {A : Type} (l : list (option A)) (k j : Z) (v : option A) (x : A) :
  0 <= k -> j <> k -> ServerInventory.at_ l j = Some (Some x) ->
  ServerInventory.at_ (ServerInventory.store l k v) j = Some (Some x).
Proof.
  intros Hk Hne Hj. apply at_Some in Hj as [Hj0 Hj].
  unfold ServerInventory.at_, ServerInventory.store.
  destruct (j <? 0) eqn:E0; [apply Z.ltb_lt in E0; lia|].
  destruct (Z.to_nat k <? length l)%nat eqn:E.
  - rewrite list_lookup_insert_ne by lia. exact Hj.
  - apply lookup_app_l_Some. exact Hj.
Qed.

(** The second loop of [addItem], over the slots [from .. from + k - 1]. *)
Lemma fillEmpty_spec i k :
  forall from slots rem, 0 <= from -> 0 <= rem ->
  forall slots' r, ServerInventory.fillEmpty i k from slots rem = (slots', r) ->
  0 <= r <= rem /\
  total i slots' = total i slots + rem - r /\
  (forall j, j <> i -> total j slots' = total j slots) /\
  ((Z.to_nat from + k <= length slots)%nat -> length slots' = length slots) /\
  (1 <= rem -> Forall stackOk slots -> Forall stackOk slots') /\
  (0 < r -> fullStacksOf i slots -> fullStacksOf i slots') /\
  (0 < r -> forall idx, from <= idx < from + Z.of_nat k ->
     exists st, ServerInventory.at_ slots' idx = Some (Some st)) /\
  (forall idx st, 0 <= idx -> ServerInventory.at_ slots idx = Some (Some st) ->
     ServerInventory.at_ slots' idx = Some (Some st)).
Proof.
  induction k as [|k IH]; intros from slots rem Hfrom Hrem slots' r H; simpl in H.
  - injection H as <- <-. split_and!; try lia; auto.
  - destruct (ServerInventory.at_ slots from) as [[st|]|] eqn:Eat.
    + destruct (IH (from + 1) slots rem ltac:(lia) Hrem _ _ H)
        as (H1 & H2 & H3 & H4 & H5 & H6 & H7 & H8).
      split_and!.
      * lia.
      * lia.
      * exact H2.
      * exact H3.
      * intros Hl. apply H4. lia.
      * exact H5.
      * exact H6.
      * intros Hr idx Hidx. destruct (decide (idx = from)) as [->|Hne].
        -- exists st. apply H8; [lia|exact Eat].
        -- apply H7; [exact Hr|lia].
      * exact H8.
    + cbv zeta in H.
      set (add := Z.min Config.MAX_STACK rem) in *.
      set (v := Some {| Protocol.item := i; Protocol.count := add |}) in *.
      assert (Hadd : 0 <= add <= rem /\ add <= Config.MAX_STACK)
        by (unfold add, Config.MAX_STACK; lia).
      assert (Htot : forall j, total j (ServerInventory.store slots from v) =
                               total j slots + slotCount j v).
      { intros j. apply total_store; [exact Hfrom|rewrite Eat; exact I]. }
      assert (Hlen : (Z.to_nat from < length slots)%nat).
      { apply at_Some in Eat as [_ Eat]. apply lookup_lt_Some in Eat. exact Eat. }
      destruct (rem - add =? 0) eqn:Ez.
      * apply Z.eqb_eq in Ez. injection H as <- <-.
        split_and!; try lia.
        -- rewrite Htot. simpl. rewrite bool_decide_eq_true_2 by reflexivity. lia.
        -- intros j Hj. rewrite Htot. simpl. rewrite bool_decide_eq_false_2 by congruence. lia.
        -- intros _. apply length_store. exact Hlen.
        -- intros Hr Hok. apply Forall_store; [exact I| |exact Hok].
           simpl. unfold Config.MAX_STACK in *. lia.
        -- intros idx st Hidx Hat. destruct (decide (idx = from)) as [->|Hne].
           ++ rewrite Eat in Hat. discriminate.
           ++ apply at_store_other; assumption.
      * apply Z.eqb_neq in Ez.
        destruct (IH (from + 1) (ServerInventory.store slots from v) (rem - add)
                     ltac:(lia) ltac:(lia) _ _ H)
          as (H1 & H2 & H3 & H4 & H5 & H6 & H7 & H8).
        assert (Hfull : add = Config.MAX_STACK) by (unfold add, Config.MAX_STACK in *; lia).
        split_and!; try lia.
        -- rewrite H2, Htot. simpl. rewrite bool_decide_eq_true_2 by reflexivity. lia.
        -- intros j Hj. rewrite (H3 j Hj), Htot. simpl.
           rewrite bool_decide_eq_false_2 by congruence. lia.
        -- intros Hl. rewrite H4; [apply length_store; exact Hlen|].
           rewrite length_store by exact Hlen. lia.
        -- intros Hr Hok. apply H5; [lia|]. apply Forall_store; [exact I| |exact Hok].
           simpl. unfold Config.MAX_STACK in *. lia.
        -- intros Hr Hf. apply H6; [exact Hr|]. apply Forall_store; [discriminate| |exact Hf].
           intros st [= <-] _. simpl. lia.
        -- intros Hr idx Hidx. destruct (decide (idx = from)) as [->|Hne].
           ++ eexists. apply H8; [lia|]. apply at_store_same. exact Hfrom.
           ++ apply H7; [exact Hr|lia].
        -- intros idx st Hidx Hat. apply H8; [exact Hidx|].
           destruct (decide (idx = from)) as [->|Hne].
           ++ rewrite Eat in Hat. discriminate.
           ++ apply at_store_other; assumption.
    + cbv zeta in H.
      set (add := Z.min Config.MAX_STACK rem) in *.
      set (v := Some {| Protocol.item := i; Protocol.count := add |}) in *.
      assert (Hadd : 0 <= add <= rem /\ add <= Config.MAX_STACK)
        by (unfold add, Config.MAX_STACK; lia).
      assert (Htot : forall j, total j (ServerInventory.store slots from v) =
                               total j slots + slotCount j v).
      { intros j. apply total_store; [exact Hfrom|rewrite Eat; exact I]. }
      assert (Hlen : (length slots <= Z.to_nat from)%nat) by (apply at_None; assumption).
      destruct (rem - add =? 0) eqn:Ez.
      * apply Z.eqb_eq in Ez. injection H as <- <-.
        split_and!; try lia.
        -- rewrite Htot. simpl. rewrite bool_decide_eq_true_2 by reflexivity. lia.
        -- intros j Hj. rewrite Htot. simpl. rewrite bool_decide_eq_false_2 by congruence. lia.
        -- intros Hr Hok. apply Forall_store; [exact I| |exact Hok].
           simpl. unfold Config.MAX_STACK in *. lia.
        -- intros idx st Hidx Hat. destruct (decide (idx = from)) as [->|Hne].
           ++ rewrite Eat in Hat. discriminate.
           ++ apply at_store_other; assumption.
      * apply Z.eqb_neq in Ez.
        destruct (IH (from + 1) (ServerInventory.store slots from v) (rem - add)
                     ltac:(lia) ltac:(lia) _ _ H)
          as (H1 & H2 & H3 & H4 & H5 & H6 & H7 & H8).
        assert (Hfull : add = Config.MAX_STACK) by (unfold add, Config.MAX_STACK in *; lia).
        split_and!; try lia.
        -- rewrite H2, Htot. simpl. rewrite bool_decide_eq_true_2 by reflexivity. lia.
        -- intros j Hj. rewrite (H3 j Hj), Htot. simpl.
           rewrite bool_decide_eq_false_2 by congruence. lia.
        -- intros Hr Hok. apply H5; [lia|]. apply Forall_store; [exact I| |exact Hok].
           simpl. unfold Config.MAX_STACK in *. lia.
        -- intros Hr Hf. apply H6; [exact Hr|]. apply Forall_store; [discriminate| |exact Hf].
           intros st [= <-] _. simpl. lia.
        -- intros Hr idx Hidx. destruct (decide (idx = from)) as [->|Hne].
           ++ eexists. apply H8; [lia|]. apply at_store_same. exact Hfrom.
           ++ apply H7; [exact Hr|lia].
        -- intros idx st Hidx Hat. apply H8; [exact Hidx|].
           destruct (decide (idx = from)) as [->|Hne].
           ++ rewrite Eat in Hat. discriminate.
           ++ apply at_store_other; assumption.
Qed.

Lemma addItem_spec (inv : ServerInventory.t) (i : Protocol.SharedItemId) (n : Z) :
  0 <= n ->
  let r := ServerInventory.addItem inv i n in
  0 <= fst r <= n /\
  Crafting.countItem (snd r) i = Crafting.countItem inv i + n - fst r /\
  (forall j, j <> i -> Crafting.countItem (snd r) j = Crafting.countItem inv j) /\
  ServerInventory.selectedSlot (snd r) = ServerInventory.selectedSlot inv /\
  (inventoryOk inv -> 1 <= n -> inventoryOk (snd r)) /\
  (inventoryOk inv -> 0 < fst r -> noRoomFor i (ServerInventory.hotbar (snd r))).
Proof.
  intros Hn r. subst r. unfold ServerInventory.addItem.
  destruct (ServerInventory.topUp i (ServerInventory.hotbar inv) n) as [[slots r1] done] eqn:E1.
  destruct (topUp_spec i _ n Hn _ _ _ E1) as (A1 & A2 & A3 & A4 & A5 & A6 & A7 & A8).
  destruct done.
  - specialize (A6 eq_refl). subst r1. cbn [fst snd].
    rewrite !countItem_total. cbn [ServerInventory.hotbar ServerInventory.selectedSlot].
    split_and!; try lia.
    + intros j Hj. rewrite !countItem_total. cbn [ServerInventory.hotbar]. apply A3, Hj.
    + intros [Hl Hok] _. split; [cbn [ServerInventory.hotbar]; rewrite A4; exact Hl|apply A5, Hok].
  - destruct (ServerInventory.fillEmpty i (Z.to_nat Config.HOTBAR_SIZE) 0 slots r1)
      as [slots2 r2] eqn:E2.
    destruct (fillEmpty_spec i _ 0 slots r1 ltac:(lia) ltac:(lia) _ _ E2)
      as (B1 & B2 & B3 & B4 & B5 & B6 & B7 & B8).
    cbn [fst snd]. rewrite !countItem_total.
    cbn [ServerInventory.hotbar ServerInventory.selectedSlot].
    split_and!; try lia.
    + intros j Hj. rewrite !countItem_total. cbn [ServerInventory.hotbar].
      rewrite (B3 j Hj). apply A3, Hj.
    + intros [Hl Hok] H1. split.
      * cbn [ServerInventory.hotbar]. rewrite B4; [rewrite A4; exact Hl|].
        rewrite A4, Hl. reflexivity.
      * apply B5; [apply A7; [reflexivity|exact H1]|apply A5, Hok].
    + intros [Hl Hok] Hr.
      assert (Hlen2 : length slots2 = 9%nat).
      { rewrite B4; [rewrite A4; exact Hl|]. rewrite A4, Hl. reflexivity. }
      specialize (B6 Hr (A8 eq_refl)). specialize (B7 Hr).
      unfold noRoomFor. apply Forall_lookup_2. intros k slot Hk.
      assert (Hk9 : (k < 9)%nat) by (apply lookup_lt_Some in Hk; lia).
      destruct (B7 (Z.of_nat k)) as [st Hst]; [unfold Config.HOTBAR_SIZE; lia|].
      apply at_Some in Hst as [_ Hst]. rewrite Nat2Z.id in Hst.
      rewrite Hk in Hst. injection Hst as ->.
      exists st. split; [reflexivity|].
      intros Hi. unfold fullStacksOf in B6.
      eapply Forall_lookup_1 in B6; [|exact Hk]. exact (B6 st eq_refl Hi).
Qed.

(** A count of 0: when no stack of the item can take more, the first
    loop changes nothing, and the second loop writes a stack of 0 items
    into the first free slot. *)
Lemma topUp_full_stacks i slots n :
  fullStacksOf i slots -> ServerInventory.topUp i slots n = (slots, n, false).
Proof.
  induction slots as [|slot rest IH]; intros Hfull; cbn [ServerInventory.topUp]; [reflexivity|].
  apply Forall_cons in Hfull as [Hslot Hrest]. rewrite (IH Hrest).
  destruct slot as [st|]; [|reflexivity].
  destruct (negb (bool_decide (Protocol.item st = i)) ||
            (Config.MAX_STACK <=? Protocol.count st)) eqn:E; [reflexivity|].
  apply orb_false_iff in E as [Ei Ec].
  apply negb_false_iff, bool_decide_eq_true in Ei. apply Z.leb_gt in Ec.
  specialize (Hslot st eq_refl Ei). lia.
Qed.

Lemma fillEmpty_zero i k :
  forall from slots idx, 0 <= from -> from <= idx < from + Z.of_nat k ->
  ServerInventory.at_ slots idx = Some None ->
  Some {| Protocol.item := i; Protocol.count := 0 |} ∈
    fst (ServerInventory.fillEmpty i k from slots 0).
Proof.
  induction k as [|k IH]; intros from slots idx Hfrom Hidx Hat; [lia|].
  cbn [ServerInventory.fillEmpty].
  assert (Hstore : Some {| Protocol.item := i; Protocol.count := 0 |} ∈
            ServerInventory.store slots from
              (Some {| Protocol.item := i; Protocol.count := 0 |})).
  { pose proof (at_store_same slots from
                  (Some {| Protocol.item := i; Protocol.count := 0 |}) Hfrom) as H.
    apply at_Some in H as [_ H]. apply list_elem_of_lookup. eauto. }
  destruct (ServerInventory.at_ slots from) as [[st|]|] eqn:Efrom.
  - apply (IH (from + 1) slots idx); [lia| |exact Hat].
    destruct (decide (idx = from)) as [->|Hne]; [congruence|lia].
  - exact Hstore.
  - exact Hstore.
Qed.

Lemma addItem_zero (inv : ServerInventory.t) (i : Protocol.SharedItemId) :
  length (ServerInventory.hotbar inv) = 9%nat ->
  fullStacksOf i (ServerInventory.hotbar inv) ->
  None ∈ ServerInventory.hotbar inv ->
  Some {| Protocol.item := i; Protocol.count := 0 |} ∈
    ServerInventory.hotbar (snd (ServerInventory.addItem inv i 0)) /\
  ~ inventoryOk (snd (ServerInventory.addItem inv i 0)).
Proof.
  intros Hlen Hfull Hnone.
  assert (Hin : Some {| Protocol.item := i; Protocol.count := 0 |} ∈
            ServerInventory.hotbar (snd (ServerInventory.addItem inv i 0))).
  { unfold ServerInventory.addItem. rewrite (topUp_full_stacks i _ 0 Hfull).
    apply list_elem_of_lookup in Hnone as [k Hk].
    pose proof (lookup_lt_Some _ _ _ Hk) as Hlt. rewrite Hlen in Hlt.
    pose proof (fillEmpty_zero i (Z.to_nat Config.HOTBAR_SIZE) 0 (ServerInventory.hotbar inv)
                  (Z.of_nat k)) as H.
    destruct (ServerInventory.fillEmpty i (Z.to_nat Config.HOTBAR_SIZE) 0
                (ServerInventory.hotbar inv) 0) as [slots2 r2].
    cbn [fst snd ServerInventory.hotbar] in *. apply H.
    - lia.
    - unfold Config.HOTBAR_SIZE. lia.
    - unfold ServerInventory.at_.
      destruct (Z.of_nat k <? 0) eqn:E; [apply Z.ltb_lt in E; lia|].
      rewrite Nat2Z.id. exact Hk. }
  split; [exact Hin|].
  intros [_ Hok]. rewrite Forall_forall in Hok. specialize (Hok _ Hin).
  cbn [stackOk Protocol.count] in Hok. lia.
Qed.

(** X1.  [addItem] with a count that is not negative loses nothing: what it
    returns as left over is between 0 and the count, the inventory holds
    that many fewer than all of the new items, the other items are counted
    as before and the selected slot is kept.  On a hotbar of nine stacks of
    1 to 64 items a count of at least 1 leaves such a hotbar, and something
    is left over only when no slot is free and every stack of the item is
    full.  A count of 0 does not always leave such a hotbar: when a slot
    is free and no stack of the item can take more, it puts a stack of 0
    items into a slot. *)
Theorem addItem_conserves (inv : ServerInventory.t) (i : Protocol.SharedItemId) (n : Z) :
  0 <= n ->
  let r := ServerInventory.addItem inv i n in
  0 <= fst r <= n /\
  Crafting.countItem (snd r) i = Crafting.countItem inv i + n - fst r /\
  (forall j, j <> i -> Crafting.countItem (snd r) j = Crafting.countItem inv j) /\
  ServerInventory.selectedSlot (snd r) = ServerInventory.selectedSlot inv /\
  (inventoryOk inv -> 1 <= n -> inventoryOk (snd r)) /\
  (inventoryOk inv -> 0 < fst r -> noRoomFor i (ServerInventory.hotbar (snd r))) /\
  (inventoryOk inv -> n = 0 -> fullStacksOf i (ServerInventory.hotbar inv) ->
   None ∈ ServerInventory.hotbar inv ->
   Some {| Protocol.item := i; Protocol.count := 0 |} ∈ ServerInventory.hotbar (snd r) /\
   ~ inventoryOk (snd r)).
Proof.
  intros Hn. cbv zeta.
  destruct (addItem_spec inv i n Hn) as (H1 & H2 & H3 & H4 & H5 & H6).
  do 6 (split; [assumption|]).
  intros [Hlen _] -> Hfull Hnone. exact (addItem_zero inv i Hlen Hfull Hnone).
Qed.

Lemma addItem_conserves_witness :
  let inv := ServerInventory.createStarterInventory in
  let i := Protocol.leaves in
  let n := 0 in
  0 <= n /\
  let r := ServerInventory.addItem inv i n in
  0 <= fst r <= n /\
  Crafting.countItem (snd r) i = Crafting.countItem inv i + n - fst r /\
  (forall j, j <> i -> Crafting.countItem (snd r) j = Crafting.countItem inv j) /\
  ServerInventory.selectedSlot (snd r) = ServerInventory.selectedSlot inv /\
  (inventoryOk inv -> 1 <= n -> inventoryOk (snd r)) /\
  (inventoryOk inv -> 0 < fst r -> noRoomFor i (ServerInventory.hotbar (snd r))) /\
  (inventoryOk inv -> n = 0 -> fullStacksOf i (ServerInventory.hotbar inv) ->
   None ∈ ServerInventory.hotbar inv ->
   Some {| Protocol.item := i; Protocol.count := 0 |} ∈ ServerInventory.hotbar (snd r) /\
   ~ inventoryOk (snd r)).
Proof.
  split; [lia|].
  apply (addItem_conserves ServerInventory.createStarterInventory Protocol.leaves 0). lia.
Defined.

(** The starter inventory holds no leaves and has free slots: adding 0
    leaves puts a stack of 0 leaves into slot 5. *)
Example addItem_zero_to_the_starter_inventory :
  ServerInventory.addItem ServerInventory.createStarterInventory Protocol.leaves 0 =
    (0, {| ServerInventory.selectedSlot := 0;
           ServerInventory.hotbar :=
             [ Some {| Protocol.item := Protocol.grass_block; Protocol.count := 32 |};
               Some {| Protocol.item := Protocol.dirt; Protocol.count := 32 |};
               Some {| Protocol.item := Protocol.stone; Protocol.count := 32 |};
               Some {| Protocol.item := Protocol.wood; Protocol.count := 16 |};
               Some {| Protocol.item := Protocol.sand; Protocol.count := 16 |};
               Some {| Protocol.item := Protocol.leaves; Protocol.count := 0 |};
               None; None; None ] |}).
Proof. reflexivity. Qed.

(** A count of at least 1 on the same inventory. *)
Example addItem_forty_dirt_to_the_starter_inventory :
  ServerInventory.addItem ServerInventory.createStarterInventory Protocol.dirt 40 =
    (0, {| ServerInventory.selectedSlot := 0;
           ServerInventory.hotbar :=
             [ Some {| Protocol.item := Protocol.grass_block; Protocol.count := 32 |};
               Some {| Protocol.item := Protocol.dirt; Protocol.count := 64 |};
               Some {| Protocol.item := Protocol.stone; Protocol.count := 32 |};
               Some {| Protocol.item := Protocol.wood; Protocol.count := 16 |};
               Some {| Protocol.item := Protocol.sand; Protocol.count := 16 |};
               Some {| Protocol.item := Protocol.dirt; Protocol.count := 8 |};
               None; None; None ] |}).
Proof. reflexivity. Qed.

Lemma slotCount_nonneg i slot : stackOk slot -> 0 <= slotCount i slot.
Proof.
  destruct slot as [st|]; simpl; [|lia]. unfold Config.MAX_STACK.
  destruct (bool_decide _); lia.
Qed.

Lemma total_nonneg i slots : Forall stackOk slots -> 0 <= total i slots.
Proof.
  induction 1 as [|slot l Hs _ IH]; simpl; [lia|].
  pose proof (slotCount_nonneg i slot Hs). lia.
Qed.

Lemma available_step i from k slots slot :
  0 <= from -> slots !! Z.to_nat from = Some slot ->
  available i from (S k) slots = slotCount i slot + available i (from + 1) k slots.
Proof.
  intros Hf H. unfold available. rewrite (drop_S _ _ _ H). simpl.
  replace (Z.to_nat (from + 1)) with (S (Z.to_nat from)) by lia. reflexivity.
Qed.

Lemma available_end i from k slots :
  (length slots <= Z.to_nat from)%nat -> available i from k slots = 0.
Proof.
  intros H. unfold available. rewrite drop_ge by exact H. rewrite take_nil. reflexivity.
Qed.

Lemma available_insert i from k slots v :
  0 <= from ->
  available i (from + 1) k (<[Z.to_nat from := v]> slots) = available i (from + 1) k slots.
Proof.
  intros Hf. unfold available. rewrite drop_insert_lt by lia. reflexivity.
Qed.

Lemma available_nonneg i from k slots : Forall stackOk slots -> 0 <= available i from k slots.
Proof.
  intros H. unfold available. apply total_nonneg.
  apply Forall_take, Forall_drop, H.
Qed.

(** The loop of [removeItem], over the slots [from .. from + k - 1]. *)
Lemma removeLoop_spec i k :
  forall from slots rem, 0 <= from -> 0 <= rem -> Forall stackOk slots ->
  let slots' := Crafting.removeLoop i k from slots rem in
  length slots' = length slots /\
  (forall j, j <> i -> total j slots' = total j slots) /\
  Forall stackOk slots' /\
  total i slots' = total i slots - Z.min rem (available i from k slots).
Proof.
  induction k as [|k IH]; intros from slots rem Hfrom Hrem Hok; cbn zeta.
  - simpl. unfold available. rewrite take_0. simpl. split_and!; auto; lia.
  - simpl. destruct (ServerInventory.at_ slots from) as [[st|]|] eqn:Eat.
    + apply at_Some in Eat as [_ Eat].
      pose proof (Forall_lookup_1 _ _ _ _ Hok Eat) as Hst. simpl in Hst.
      rewrite (available_step i from k slots _ Hfrom Eat).
      pose proof (available_nonneg i (from + 1) k slots Hok) as Hav.
      destruct (bool_decide (Protocol.item st = i)) eqn:Ei; cbn [negb].
      * apply bool_decide_eq_true in Ei.
        set (used := Z.min (Protocol.count st) rem).
        set (v := if Protocol.count st - used =? 0 then None
                  else Some {| Protocol.item := Protocol.item st;
                               Protocol.count := Protocol.count st - used |}).
        assert (Hv : slotCount i v = Protocol.count st - used /\ stackOk v /\
                     forall j, j <> i -> slotCount j v = 0).
        { unfold v. destruct (Protocol.count st - used =? 0) eqn:Ez.
          - apply Z.eqb_eq in Ez. simpl. split; [lia|]. split; [exact I|]. reflexivity.
          - apply Z.eqb_neq in Ez. simpl. rewrite bool_decide_eq_true_2 by exact Ei.
            split; [reflexivity|]. split; [unfold used, Config.MAX_STACK in *; lia|].
            intros j Hj. rewrite bool_decide_eq_false_2 by congruence. reflexivity. }
        destruct Hv as (Hv1 & Hv2 & Hv3).
        assert (Hold : slotCount i (Some st) = Protocol.count st)
          by (simpl; rewrite bool_decide_eq_true_2 by exact Ei; reflexivity).
        assert (Hins : forall j, total j (<[Z.to_nat from := v]> slots) =
                                 total j slots - slotCount j (Some st) + slotCount j v)
          by (intros j; apply total_insert; exact Eat).
        assert (Hokins : Forall stackOk (<[Z.to_nat from := v]> slots))
          by (apply Forall_insert; assumption).
        rewrite Hold.
        destruct (rem - used =? 0) eqn:Ez.
        -- apply Z.eqb_eq in Ez. split_and!.
           ++ apply length_insert.
           ++ intros j Hj. rewrite Hins, (Hv3 j Hj). simpl.
              rewrite bool_decide_eq_false_2 by congruence. lia.
           ++ exact Hokins.
           ++ rewrite Hins, Hv1, Hold. unfold used in *. lia.
        -- apply Z.eqb_neq in Ez.
           destruct (IH (from + 1) (<[Z.to_nat from := v]> slots) (rem - used)
                        ltac:(lia) ltac:(unfold used; lia) Hokins) as (H1 & H2 & H3 & H4).
           split_and!.
           ++ rewrite H1. apply length_insert.
           ++ intros j Hj. rewrite (H2 j Hj), Hins, (Hv3 j Hj). simpl.
              rewrite bool_decide_eq_false_2 by congruence. lia.
           ++ exact H3.
           ++ rewrite H4, Hins, Hv1, Hold, available_insert by exact Hfrom.
              unfold used in *. lia.
      * destruct (IH (from + 1) slots rem ltac:(lia) Hrem Hok) as (H1 & H2 & H3 & H4).
        split_and!; auto; try (rewrite H4; simpl; rewrite Ei; lia).
    + apply at_Some in Eat as [_ Eat].
      rewrite (available_step i from k slots _ Hfrom Eat).
      destruct (IH (from + 1) slots rem ltac:(lia) Hrem Hok) as (H1 & H2 & H3 & H4).
      split_and!; auto; try (rewrite H4; simpl; lia).
    + apply (at_None _ _ Hfrom) in Eat.
      rewrite (available_end i from (S k) slots Eat).
      destruct (IH (from + 1) slots rem ltac:(lia) Hrem Hok) as (H1 & H2 & H3 & H4).
      split_and!; auto; try (rewrite H4, available_end by lia; reflexivity).
Qed.

Lemma removeItem_spec (inv : ServerInventory.t) (i : Protocol.SharedItemId) (n : Z) :
  inventoryOk inv -> 0 <= n ->
  let r := Crafting.removeItem inv i n in
  fst r = bool_decide (n <= Crafting.countItem inv i) /\
  (fst r = false -> snd r = inv) /\
  (fst r = true -> Crafting.countItem (snd r) i = Crafting.countItem inv i - n) /\
  (forall j, j <> i -> Crafting.countItem (snd r) j = Crafting.countItem inv j) /\
  inventoryOk (snd r) /\
  ServerInventory.selectedSlot (snd r) = ServerInventory.selectedSlot inv.
Proof.
  intros [Hl Hok] Hn r. subst r. unfold Crafting.removeItem.
  destruct (Crafting.countItem inv i <? n) eqn:E; cbn [fst snd].
  - apply Z.ltb_lt in E. rewrite bool_decide_eq_false_2 by lia.
    split_and!; auto; [discriminate|split; assumption].
  - apply Z.ltb_ge in E. rewrite bool_decide_eq_true_2 by lia.
    destruct (removeLoop_spec i (Z.to_nat Config.HOTBAR_SIZE) 0
                (ServerInventory.hotbar inv) n ltac:(lia) Hn Hok) as (H1 & H2 & H3 & H4).
    assert (Hav : available i 0 (Z.to_nat Config.HOTBAR_SIZE) (ServerInventory.hotbar inv) =
                  total i (ServerInventory.hotbar inv)).
    { unfold available. change (Z.to_nat 0) with 0%nat. rewrite drop_0.
      rewrite take_ge; [reflexivity|]. rewrite Hl. unfold Config.HOTBAR_SIZE. lia. }
    rewrite countItem_total in E.
    split_and!.
    + reflexivity.
    + discriminate.
    + intros _. rewrite !countItem_total. cbn [ServerInventory.hotbar].
      rewrite H4, Hav. lia.
    + intros j Hj. rewrite !countItem_total. cbn [ServerInventory.hotbar]. apply H2, Hj.
    + split; cbn [ServerInventory.hotbar]; [rewrite H1; exact Hl|exact H3].
    + reflexivity.
Qed.

(** X2.  On a hotbar of nine stacks, [removeItem] with a count that is not
    negative succeeds exactly when the inventory holds that many of the
    item; a failed call leaves the inventory as it was, a successful one
    removes exactly that many of the item and nothing of any other item,
    and leaves nine stacks of 1 to 64 items. *)
Theorem removeItem_takes_exactly (inv : ServerInventory.t) (i : Protocol.SharedItemId) (n : Z) :
  inventoryOk inv -> 0 <= n ->
  let r := Crafting.removeItem inv i n in
  fst r = bool_decide (n <= Crafting.countItem inv i) /\
  (fst r = false -> snd r = inv) /\
  (fst r = true -> Crafting.countItem (snd r) i = Crafting.countItem inv i - n) /\
  (forall j, j <> i -> Crafting.countItem (snd r) j = Crafting.countItem inv j) /\
  inventoryOk (snd r) /\
  ServerInventory.selectedSlot (snd r) = ServerInventory.selectedSlot inv.
Proof. exact (removeItem_spec inv i n). Qed.

Lemma starter_inventoryOk : inventoryOk ServerInventory.createStarterInventory.
Proof.
  split; [reflexivity|]. unfold ServerInventory.createStarterInventory.
  cbn [ServerInventory.hotbar]. repeat constructor; simpl; unfold Config.MAX_STACK; lia.
Qed.

Lemma removeItem_takes_exactly_witness :
  let r := Crafting.removeItem ServerInventory.createStarterInventory Protocol.stone 5 in
  fst r = bool_decide (5 <= Crafting.countItem ServerInventory.createStarterInventory
                                Protocol.stone) /\
  (fst r = false -> snd r = ServerInventory.createStarterInventory) /\
  (fst r = true ->
   Crafting.countItem (snd r) Protocol.stone =
     Crafting.countItem ServerInventory.createStarterInventory Protocol.stone - 5) /\
  (forall j, j <> Protocol.stone ->
     Crafting.countItem (snd r) j = Crafting.countItem ServerInventory.createStarterInventory j) /\
  inventoryOk (snd r) /\
  ServerInventory.selectedSlot (snd r) =
    ServerInventory.selectedSlot ServerInventory.createStarterInventory.
Proof.
  apply (removeItem_takes_exactly ServerInventory.createStarterInventory Protocol.stone 5).
  - split; [reflexivity|]. repeat constructor; simpl; unfold Config.MAX_STACK; lia.
  - lia.
Defined.

(** What the three recipes have in common: distinct inputs with positive
    counts, and an output that is none of the inputs. *)
Lemma recipes_shape (recipe : Crafting.Recipe) :
  recipe ∈ Crafting.RECIPES ->
  NoDup (map fst (Crafting.inputs recipe)) /\
  Forall (fun input => 0 <= snd input) (Crafting.inputs recipe) /\
  (fst (Crafting.output recipe) ∉ map fst (Crafting.inputs recipe)) /\
  1 <= snd (Crafting.output recipe) /\
  List.find (fun candidate => bool_decide (Crafting.recipe_id candidate =
                                           Crafting.recipe_id recipe)) Crafting.RECIPES =
    Some recipe.
Proof.
  unfold Crafting.RECIPES. intros H.
  repeat (apply elem_of_cons in H as [->|H]); [| | |apply elem_of_nil in H; contradiction];
    cbn; (split_and!; [| |set_solver|lia|reflexivity]);
    repeat constructor; simpl; try lia; set_solver.
Qed.

(** The second loop of [craftRecipe]. *)
Lemma removeInputs_spec (inputs : list (Protocol.SharedItemId * Z)) :
  forall inv : ServerInventory.t,
  NoDup (map fst inputs) -> Forall (fun input => 0 <= snd input) inputs ->
  inventoryOk inv ->
  Forall (fun input => snd input <= Crafting.countItem inv (fst input)) inputs ->
  let inv' := fold_left (fun inv input => snd (Crafting.removeItem inv (fst input) (snd input)))
                        inputs inv in
  inventoryOk inv' /\
  (forall input, input ∈ inputs ->
     Crafting.countItem inv' (fst input) = Crafting.countItem inv (fst input) - snd input) /\
  (forall j, j ∉ map fst inputs -> Crafting.countItem inv' j = Crafting.countItem inv j) /\
  ServerInventory.selectedSlot inv' = ServerInventory.selectedSlot inv.
Proof.
  induction inputs as [|[i n] rest IH]; intros inv Hnd Hpos Hok Havail; cbn zeta.
  - simpl. split_and!; auto. intros input Hin. apply elem_of_nil in Hin. contradiction.
  - simpl. apply NoDup_cons in Hnd as [Hni Hnd].
    apply Forall_cons in Hpos as [Hn Hpos]. apply Forall_cons in Havail as [Hav Havail].
    cbn [fst snd] in *.
    destruct (removeItem_spec inv i n Hok Hn) as (R1 & R2 & R3 & R4 & R5 & R6).
    cbv zeta in *.
    assert (Rt : fst (Crafting.removeItem inv i n) = true)
      by (rewrite R1; apply bool_decide_eq_true_2; exact Hav).
    specialize (R3 Rt).
    destruct (IH (snd (Crafting.removeItem inv i n)) Hnd Hpos R5) as (I1 & I2 & I3 & I4).
    { apply Forall_forall. intros input Hin.
      rewrite Forall_forall in Havail. specialize (Havail input Hin).
      rewrite R4; [exact Havail|].
      intros Heq. apply Hni. rewrite <- Heq. apply (list_elem_of_fmap_2 fst). exact Hin. }
    cbv zeta in *. split_and!.
    + exact I1.
    + intros input Hin. apply elem_of_cons in Hin as [->|Hin]; cbn [fst snd].
      * rewrite I3 by exact Hni. exact R3.
      * rewrite (I2 input Hin). rewrite R4; [reflexivity|].
        intros Heq. apply Hni. rewrite <- Heq. apply (list_elem_of_fmap_2 fst). exact Hin.
    + intros j Hj. apply not_elem_of_cons in Hj as [Hji Hj].
      rewrite (I3 j Hj). apply R4, Hji.
    + rewrite I4. exact R6.
Qed.

Lemma existsb_short (inv : ServerInventory.t) (inputs : list (Protocol.SharedItemId * Z)) :
  existsb (fun input => Crafting.countItem inv (fst input) <? snd input) inputs = false <->
  Forall (fun input => snd input <= Crafting.countItem inv (fst input)) inputs.
Proof.
  induction inputs as [|input rest IH]; simpl.
  - split; [constructor|reflexivity].
  - rewrite orb_false_iff, IH, Forall_cons, Z.ltb_ge. tauto.
Qed.

(** X3.  [craftRecipe] on a hotbar of nine stacks returns true exactly when
    the recipe id names a recipe and the inventory holds every input of
    it; a failed craft leaves the inventory as it was.  A successful craft
    removes exactly the inputs and adds the output, except for the part of
    the output that no slot could take: that part is dropped and the call
    still returns true.  Items that are neither input nor output are
    counted as before. *)
Theorem craftRecipe_exchanges (inv : ServerInventory.t) (recipeId : string) :
  inventoryOk inv ->
  let r := Crafting.craftRecipe inv recipeId in
  (fst r = false -> snd r = inv) /\
  (fst r = true <->
   exists recipe, recipe ∈ Crafting.RECIPES /\ Crafting.recipe_id recipe = recipeId /\
     Forall (fun input => snd input <= Crafting.countItem inv (fst input))
            (Crafting.inputs recipe)) /\
  (fst r = true ->
   exists recipe lost, recipe ∈ Crafting.RECIPES /\ Crafting.recipe_id recipe = recipeId /\
     (forall input, input ∈ Crafting.inputs recipe ->
        Crafting.countItem (snd r) (fst input) =
          Crafting.countItem inv (fst input) - snd input) /\
     0 <= lost <= snd (Crafting.output recipe) /\
     Crafting.countItem (snd r) (fst (Crafting.output recipe)) =
       Crafting.countItem inv (fst (Crafting.output recipe)) +
       snd (Crafting.output recipe) - lost /\
     (0 < lost -> noRoomFor (fst (Crafting.output recipe)) (ServerInventory.hotbar (snd r))) /\
     (forall j, j <> fst (Crafting.output recipe) ->
        j ∉ map fst (Crafting.inputs recipe) ->
        Crafting.countItem (snd r) j = Crafting.countItem inv j)) /\
  inventoryOk (snd r) /\
  ServerInventory.selectedSlot (snd r) = ServerInventory.selectedSlot inv.
Proof.
  intros Hok r. subst r. unfold Crafting.craftRecipe.
  destruct (List.find _ Crafting.RECIPES) as [recipe|] eqn:Efind.
  - apply find_some in Efind as [Hin Hid]. apply list_elem_of_In in Hin.
    apply bool_decide_eq_true in Hid.
    destruct (recipes_shape recipe Hin) as (S1 & S2 & S3 & S4 & S5).
    destruct (existsb _ (Crafting.inputs recipe)) eqn:Eshort; cbn [fst snd].
    + split_and!; auto; try discriminate.
      split; [discriminate|]. intros (recipe' & Hin' & Hid' & Hav).
      destruct (recipes_shape recipe' Hin') as (_ & _ & _ & _ & T5).
      rewrite Hid', <- Hid, S5 in T5. injection T5 as <-.
      apply existsb_short in Hav. congruence.
    + apply existsb_short in Eshort.
      destruct (removeInputs_spec (Crafting.inputs recipe) inv S1 S2 Hok Eshort)
        as (I1 & I2 & I3 & I4). cbv zeta in *.
      set (inv1 := fold_left _ (Crafting.inputs recipe) inv) in *.
      destruct (addItem_spec inv1 (fst (Crafting.output recipe))
                  (snd (Crafting.output recipe)) ltac:(lia)) as (A1 & A2 & A3 & A4 & A5 & A6).
      cbv zeta in *.
      split_and!.
      * discriminate.
      * split; [|reflexivity]. intros _. exists recipe. auto.
      * intros _. exists recipe, (fst (ServerInventory.addItem inv1 (fst (Crafting.output recipe))
                                         (snd (Crafting.output recipe)))).
        split_and!; auto; try lia.
        -- intros input Hinp. rewrite A3, (I2 input Hinp); [reflexivity|].
           intros Heq. apply S3. rewrite <- Heq. apply (list_elem_of_fmap_2 fst). exact Hinp.
        -- rewrite A2, I3 by exact S3. reflexivity.
        -- intros j Hj Hjn. rewrite (A3 j Hj). apply I3, Hjn.
      * apply A5; [exact I1|exact S4].
      * rewrite A4. exact I4.
  - cbn [fst snd]. split_and!; auto; try discriminate.
    split; [discriminate|]. intros (recipe' & Hin' & Hid' & Hav).
    destruct (recipes_shape recipe' Hin') as (_ & _ & _ & _ & T5).
    rewrite Hid' in T5. congruence.
Qed.

Lemma craftRecipe_exchanges_witness :
  let inv := ServerInventory.createStarterInventory in
  let r := Crafting.craftRecipe inv "planks" in
  (fst r = false -> snd r = inv) /\
  (fst r = true <->
   exists recipe, recipe ∈ Crafting.RECIPES /\ Crafting.recipe_id recipe = "planks"%string /\
     Forall (fun input => snd input <= Crafting.countItem inv (fst input))
            (Crafting.inputs recipe)) /\
  (fst r = true ->
   exists recipe lost, recipe ∈ Crafting.RECIPES /\
     Crafting.recipe_id recipe = "planks"%string /\
     (forall input, input ∈ Crafting.inputs recipe ->
        Crafting.countItem (snd r) (fst input) =
          Crafting.countItem inv (fst input) - snd input) /\
     0 <= lost <= snd (Crafting.output recipe) /\
     Crafting.countItem (snd r) (fst (Crafting.output recipe)) =
       Crafting.countItem inv (fst (Crafting.output recipe)) +
       snd (Crafting.output recipe) - lost /\
     (0 < lost -> noRoomFor (fst (Crafting.output recipe)) (ServerInventory.hotbar (snd r))) /\
     (forall j, j <> fst (Crafting.output recipe) ->
        j ∉ map fst (Crafting.inputs recipe) ->
        Crafting.countItem (snd r) j = Crafting.countItem inv j)) /\
  inventoryOk (snd r) /\
  ServerInventory.selectedSlot (snd r) = ServerInventory.selectedSlot inv.
Proof.
  apply (craftRecipe_exchanges ServerInventory.createStarterInventory "planks").
  split; [reflexivity|]. repeat constructor; simpl; unfold Config.MAX_STACK; lia.
Defined.

(** ** The client inventory *)

Lemma client_topUp_spec i k :
  forall from slots rem, 0 <= from -> (Z.to_nat from + k = length slots)%nat ->
  Inventory.topUp i k from slots rem =
    let '(rest, r, done) := ServerInventory.topUp i (drop (Z.to_nat from) slots) rem in
    (take (Z.to_nat from) slots ++ rest, r, done).
Proof.
  induction k as [|k IH]; intros from slots rem Hfrom Hlen.
  - simpl. rewrite drop_ge by lia. simpl. rewrite take_ge by lia.
    rewrite app_nil_r. reflexivity.
  - destruct (lookup_lt_is_Some_2 slots (Z.to_nat from) ltac:(lia)) as [slot Hslot].
    assert (Hat : ServerInventory.at_ slots from = Some slot).
    { unfold ServerInventory.at_. destruct (from <? 0) eqn:E; [apply Z.ltb_lt in E; lia|].
      exact Hslot. }
    assert (Hnext : Z.to_nat (from + 1) = S (Z.to_nat from)) by lia.
    cbn [Inventory.topUp]. rewrite Hat, (drop_S _ _ _ Hslot).
    cbn [ServerInventory.topUp].
    assert (Hkeep : Inventory.topUp i k (from + 1) slots rem =
                    let '(rest, r, done) :=
                      ServerInventory.topUp i (drop (S (Z.to_nat from)) slots) rem in
                    (take (Z.to_nat from) slots ++ slot :: rest, r, done)).
    { rewrite IH by lia. rewrite Hnext.
      destruct (ServerInventory.topUp i _ rem) as [[rest r] done].
      rewrite (take_S_r _ _ _ Hslot), <- app_assoc. reflexivity. }
    assert (Hkeep' : forall f : list (option Protocol.SharedItemStack) * Z * bool ->
                                list (option Protocol.SharedItemStack) * Z * bool,
              (forall rest r done, f (rest, r, done) = (slot :: rest, r, done)) ->
              Inventory.topUp i k (from + 1) slots rem =
              let '(rest, r, done) :=
                f (ServerInventory.topUp i (drop (S (Z.to_nat from)) slots) rem) in
              (take (Z.to_nat from) slots ++ rest, r, done)).
    { intros f Hf. rewrite Hkeep.
      destruct (ServerInventory.topUp i _ rem) as [[rest r] done]. rewrite Hf. reflexivity. }
    destruct slot as [st|];
      [|apply (Hkeep' (fun '(rest', r, done) => (None :: rest', r, done))); reflexivity].
    destruct (negb (bool_decide (Protocol.item st = i)) ||
              (Config.MAX_STACK <=? Protocol.count st));
      [apply (Hkeep' (fun '(rest', r, done) => (Some st :: rest', r, done))); reflexivity|].
    cbv zeta.
    set (canTake := Z.min (Config.MAX_STACK - Protocol.count st) rem).
    set (st' := {| Protocol.item := Protocol.item st;
                   Protocol.count := Protocol.count st + canTake |}).
    assert (Hins : <[Z.to_nat from := Some st']> slots =
                   take (Z.to_nat from) slots ++ Some st' :: drop (S (Z.to_nat from)) slots)
      by (apply insert_take_drop; lia).
    destruct (rem - canTake =? 0).
    + rewrite Hins. reflexivity.
    + rewrite IH by (rewrite ?length_insert; lia). rewrite Hnext.
      rewrite drop_insert_lt by lia.
      destruct (ServerInventory.topUp i _ (rem - canTake)) as [[rest r] done].
      rewrite take_insert_lt by lia.
      rewrite (take_S_r _ _ _ Hslot).
      rewrite insert_app_r_alt by (rewrite length_take; lia).
      rewrite length_take. replace (Z.to_nat from - _)%nat with 0%nat by lia.
      simpl. rewrite <- app_assoc. reflexivity.
Qed.

(** X4.  On a hotbar of nine slots the client's [Inventory.add] returns the
    same left-over count and the same hotbar as the server's [addItem] on
    the same data. *)
Theorem client_add_agrees_with_server
    (inv : MultiplayerGame.Inventory) (i : Protocol.SharedItemId) (n : Z) :
  length (MultiplayerGame.hotbar inv) = 9%nat ->
  fst (Inventory.add inv i n) = fst (ServerInventory.addItem (Inventory.toServer inv) i n) /\
  Inventory.toServer (snd (Inventory.add inv i n)) =
    snd (ServerInventory.addItem (Inventory.toServer inv) i n).
Proof.
  intros Hl. unfold Inventory.add, ServerInventory.addItem, Inventory.toServer.
  cbn [ServerInventory.hotbar ServerInventory.selectedSlot].
  rewrite client_topUp_spec by (rewrite ?Hl; unfold Config.HOTBAR_SIZE; lia).
  change (Z.to_nat 0) with 0%nat. rewrite drop_0, take_0.
  destruct (ServerInventory.topUp i (MultiplayerGame.hotbar inv) n) as [[slots r] done].
  cbn [app]. destruct done; [split; reflexivity|].
  destruct (ServerInventory.fillEmpty i _ 0 slots r) as [slots2 r2].
  split; reflexivity.
Qed.

Lemma client_add_agrees_with_server_witness :
  fst (Inventory.add Inventory.createStarterInventory Protocol.wood 100) =
    fst (ServerInventory.addItem (Inventory.toServer Inventory.createStarterInventory)
           Protocol.wood 100) /\
  Inventory.toServer (snd (Inventory.add Inventory.createStarterInventory Protocol.wood 100)) =
    snd (ServerInventory.addItem (Inventory.toServer Inventory.createStarterInventory)
           Protocol.wood 100).
Proof.
  apply (client_add_agrees_with_server Inventory.createStarterInventory Protocol.wood 100).
  reflexivity.
Defined.

Lemma rem_rem_mod (a b : Z) : 0 < b -> Z.rem (Z.rem a b + b) b = a mod b.
Proof.
  intros Hb. pose proof (Z.rem_bound_abs a b ltac:(lia)) as Habs.
  pose proof (Z.quot_rem' a b) as Hq.
  rewrite Z.rem_mod_nonneg by lia.
  destruct (Z_lt_le_dec (Z.rem a b) 0) as [Hneg|Hpos].
  - rewrite Z.mod_small by lia.
    apply Z.mod_unique_pos with (q := Z.quot a b - 1); lia.
  - rewrite <- (Z.mod_unique_pos (Z.rem a b + b) b 1 (Z.rem a b)) by lia.
    apply Z.mod_unique_pos with (q := Z.quot a b); lia.
Qed.

(** X5.  [setSelected] stores the index reduced to its floored remainder
    by 9, so the selected slot is always one of the nine slots, and
    scrolling by a number of steps moves the selection around the hotbar:
    after the last slot comes the first, before the first the last.  The
    hotbar is not touched. *)
Theorem setSelected_wraps (inv : MultiplayerGame.Inventory) (index step : Z) :
  MultiplayerGame.selectedSlot (MultiplayerGame.setSelected inv index) = index mod 9 /\
  0 <= MultiplayerGame.selectedSlot (MultiplayerGame.setSelected inv index) < 9 /\
  MultiplayerGame.selectedSlot (Inventory.scrollSelected inv step) =
    (MultiplayerGame.selectedSlot inv + step) mod 9 /\
  MultiplayerGame.hotbar (Inventory.scrollSelected inv step) = MultiplayerGame.hotbar inv /\
  MultiplayerGame.selectedSlot
    (Inventory.scrollSelected (MultiplayerGame.setSelected inv 8) 1) = 0 /\
  MultiplayerGame.selectedSlot
    (Inventory.scrollSelected (MultiplayerGame.setSelected inv 0) (-1)) = 8.
Proof.
  unfold Inventory.scrollSelected, MultiplayerGame.setSelected.
  cbn [MultiplayerGame.selectedSlot MultiplayerGame.hotbar]. unfold Config.HOTBAR_SIZE.
  rewrite !rem_rem_mod by lia.
  pose proof (Z.mod_pos_bound index 9 ltac:(lia)).
  split_and!; auto; lia.
Qed.

(** ** Cells of a chunk *)

Lemma index_inj (x y z x' y' z' : Z) :
  Chunk.inBounds x y z = true -> Chunk.inBounds x' y' z' = true ->
  Chunk.index x y z = Chunk.index x' y' z' -> x = x' /\ y = y' /\ z = z'.
Proof.
  intros H H'. apply inBounds_spec in H. apply inBounds_spec in H'.
  unfold Chunk.index, Config.CHUNK_SIZE. lia.
Qed.

Lemma get_set_other (c : Chunk.ChunkData) (x y z b x' y' z' : Z) :
  Chunk.inBounds x y z = true -> Chunk.inBounds x' y' z' = true ->
  (x', y', z') <> (x, y, z) ->
  Chunk.get (Chunk.set c x y z b) x' y' z' = Chunk.get c x' y' z'.
Proof.
  intros H H' Hne. unfold Chunk.get, Chunk.set. rewrite H, H'. cbn [negb Chunk.blocks].
  apply list_lookup_insert_ne. intros Heq.
  pose proof (index_range x y z H). pose proof (index_range x' y' z' H').
  destruct (index_inj x y z x' y' z' H H') as (-> & -> & ->); [lia|]. contradiction.
Qed.

(** X6.  In a chunk whose array has all 16 x 96 x 16 entries, [set] at a
    cell inside the chunk is read back by [get] at that cell, reduced to
    16 bits, and leaves every other cell, the length of the array and the
    chunk coordinates as they were. *)
Theorem chunk_set_then_get (c : Chunk.ChunkData) (x y z b x' y' z' : Z) :
  Z.of_nat (length (Chunk.blocks c)) = Chunk.BLOCKS_PER_CHUNK ->
  0 <= x < 16 /\ 0 <= y < 96 /\ 0 <= z < 16 ->
  0 <= x' < 16 /\ 0 <= y' < 96 /\ 0 <= z' < 16 ->
  Chunk.get (Chunk.set c x y z b) x y z = Some (b mod 65536) /\
  ((x', y', z') <> (x, y, z) ->
   Chunk.get (Chunk.set c x y z b) x' y' z' = Chunk.get c x' y' z') /\
  length (Chunk.blocks (Chunk.set c x y z b)) = length (Chunk.blocks c) /\
  Chunk.cx (Chunk.set c x y z b) = Chunk.cx c /\
  Chunk.cz (Chunk.set c x y z b) = Chunk.cz c.
Proof.
  intros Hlen H H'. apply inBounds_spec in H. apply inBounds_spec in H'.
  pose proof (index_range x y z H) as Hr.
  split_and!.
  - apply get_set_same; [exact H|lia].
  - apply get_set_other; assumption.
  - apply set_length.
  - apply set_coords.
  - apply set_coords.
Qed.

Lemma chunk_set_then_get_witness :
  let c := Generator.generateChunk (Generator.newWorldGenerator 7) 2 (-3) in
  Chunk.get (Chunk.set c 15 95 0 BlockId.Wood) 15 95 0 = Some (BlockId.Wood mod 65536) /\
  ((0, 0, 15) <> (15, 95, 0) ->
   Chunk.get (Chunk.set c 15 95 0 BlockId.Wood) 0 0 15 = Chunk.get c 0 0 15) /\
  length (Chunk.blocks (Chunk.set c 15 95 0 BlockId.Wood)) = length (Chunk.blocks c) /\
  Chunk.cx (Chunk.set c 15 95 0 BlockId.Wood) = Chunk.cx c /\
  Chunk.cz (Chunk.set c 15 95 0 BlockId.Wood) = Chunk.cz c.
Proof.
  apply (chunk_set_then_get (Generator.generateChunk (Generator.newWorldGenerator 7) 2 (-3))
           15 95 0 BlockId.Wood 0 0 15).
  - apply (generateChunk_wellFormed (Generator.newWorldGenerator 7) 2 (-3)).
  - lia.
  - lia.
Defined.

(** X7.  A chunk key is the two coordinates in decimal with a colon between
    them; [parseChunkKey] reads both coordinates back, also negative ones,
    so two chunks have the same key only when they are the same chunk. *)
Theorem chunkKey_parses_back (cx cz a b : Z) :
  Chunk.parseChunkKey (Chunk.chunkKey cx cz) = (Some cx, Some cz) /\
  (Chunk.chunkKey cx cz = Chunk.chunkKey a b -> cx = a /\ cz = b) /\
  Chunk.chunkKey (-3) 12 = "-3:12"%string.
Proof.
  split_and!.
  - apply parseChunkKey_chunkKey.
  - apply chunkKey_inj.
  - reflexivity.
Qed.

(** ** The generated terrain *)

Lemma toUint16_blockCode (b : Z) : blockCode b -> JS.toUint16 b = b.
Proof. unfold blockCode, JS.toUint16. intros H. apply Z.mod_small. lia. Qed.

Lemma set_blockCodes (c : Chunk.ChunkData) (x y z b : Z) :
  blockCode b -> Forall blockCode (Chunk.blocks c) ->
  Forall blockCode (Chunk.blocks (Chunk.set c x y z b)).
Proof.
  intros Hb H. unfold Chunk.set. destruct (negb (Chunk.inBounds x y z)); [exact H|].
  cbn [Chunk.blocks]. apply Forall_insert; [exact H|].
  rewrite toUint16_blockCode by exact Hb. exact Hb.
Qed.

Lemma columnBlock_blockCode g wx wz height y :
  blockCode (Generator.columnBlock g wx wz height y).
Proof.
  unfold Generator.columnBlock, blockCode. cbv zeta.
  repeat case_match; cbv; split; discriminate.
Qed.

Lemma generateChunk_blockCodes (g : Generator.WorldGenerator) (cx cz : Z) :
  Forall blockCode (Chunk.blocks (Generator.generateChunk g cx cz)).
Proof.
  set (P := fun c : Chunk.ChunkData => Forall blockCode (Chunk.blocks c)).
  assert (Hwood : blockCode BlockId.Wood) by (cbv; split; discriminate).
  assert (Hleaves : blockCode BlockId.Leaves) by (cbv; split; discriminate).
  unfold Generator.generateChunk, Generator.generateTrees. cbv zeta.
  apply (forRange_invariant P).
  - apply (forRange_invariant P).
    + unfold P, Chunk.newChunkData. cbn [Chunk.blocks].
      apply Forall_replicate. cbv. split; discriminate.
    + intros lx c1 _ H1. apply (forRange_invariant P); [exact H1|].
      intros lz c2 _ H2. unfold Generator.fillColumn. cbv zeta.
      apply (forRange_invariant P); [exact H2|].
      intros y c3 _ H3. apply set_blockCodes; [apply columnBlock_blockCode|exact H3].
  - intros lx c1 _ H1. apply (forRange_invariant P); [exact H1|].
    intros lz c2 _ H2. unfold Generator.growTree. cbv zeta.
    destruct (PrimFloat.ltb _ _); [exact H2|].
    destruct (_ || _); [exact H2|].
    destruct (negb _); [exact H2|].
    apply (forRange_invariant P).
    + apply (forRange_invariant P); [exact H2|].
      intros y c3 _ H3. apply set_blockCodes; assumption.
    + intros ox c3 _ H3. apply (forRange_invariant P); [exact H3|].
      intros oz c4 _ H4. apply (forRange_invariant P); [exact H4|].
      intros oy c5 _ H5. unfold Generator.placeLeaf. cbv zeta.
      repeat (case_match; try exact H5). apply set_blockCodes; assumption.
Qed.

Lemma BLOCK_DEFS_defined (b : Z) : blockCode b -> is_Some (Blocks.BLOCK_DEFS b).
Proof.
  unfold blockCode. intros H.
  assert (Hb : b = 0 \/ b = 1 \/ b = 2 \/ b = 3 \/ b = 4 \/ b = 5 \/ b = 6 \/ b = 7) by lia.
  destruct Hb as [->|[->|[->|[->|[->|[->|[->| ->]]]]]]]; eexists; reflexivity.
Qed.

(** X8.  Every chunk the generator makes carries the coordinates it was
    asked for and an array of 16 x 96 x 16 codes, each one of the eight
    block ids; so every cell that is read holds a block with an entry in
    [BLOCK_DEFS]. *)
Theorem generateChunk_blocks_are_block_ids
    (g : Generator.WorldGenerator) (cx cz x y z : Z) :
  let c := Generator.generateChunk g cx cz in
  Chunk.cx c = cx /\ Chunk.cz c = cz /\
  Z.of_nat (length (Chunk.blocks c)) = 16 * 96 * 16 /\
  Forall (fun v => 0 <= v <= 7) (Chunk.blocks c) /\
  exists b, Chunk.get c x y z = Some b /\ 0 <= b <= 7 /\ is_Some (Blocks.BLOCK_DEFS b).
Proof.
  intros c. subst c.
  pose proof (generateChunk_wellFormed g cx cz) as [Hl _].
  pose proof (generateChunk_coords g cx cz) as [Hx Hz].
  pose proof (generateChunk_blockCodes g cx cz) as Hb.
  split_and!; auto.
  unfold Chunk.get. destruct (Chunk.inBounds x y z) eqn:E; cbn [negb].
  - pose proof (index_range x y z E) as Hr.
    destruct (lookup_lt_is_Some_2 (Chunk.blocks (Generator.generateChunk g cx cz))
                (Z.to_nat (Chunk.index x y z)) ltac:(lia)) as [b Hbk].
    exists b. split; [exact Hbk|].
    pose proof (Forall_lookup_1 _ _ _ _ Hb Hbk) as Hc.
    split; [exact Hc|apply BLOCK_DEFS_defined, Hc].
  - exists BlockId.Air. split; [reflexivity|]. split; [cbv; split; discriminate|].
    eexists; reflexivity.
Qed.

(** ** The server world: writes, and the chunk files *)

Lemma server_getChunk_ext (w w2 : AuthoritativeWorld.t) (cx cz : Z) :
  AuthoritativeWorld.chunks w2 !! Chunk.chunkKey cx cz =
    AuthoritativeWorld.chunks w !! Chunk.chunkKey cx cz ->
  AuthoritativeWorld.files w2 = AuthoritativeWorld.files w ->
  AuthoritativeWorld.generator w2 = AuthoritativeWorld.generator w ->
  AuthoritativeWorld.chunksDir w2 = AuthoritativeWorld.chunksDir w ->
  fst (AuthoritativeWorld.getChunk w2 cx cz) = fst (AuthoritativeWorld.getChunk w cx cz).
Proof.
  intros Hc Hf Hg Hd. unfold AuthoritativeWorld.getChunk. cbv zeta. rewrite Hc.
  destruct (AuthoritativeWorld.chunks w !! _); [reflexivity|]. cbn [fst].
  unfold AuthoritativeWorld.readChunkFile, AuthoritativeWorld.chunkPath.
  rewrite Hf, Hg, Hd. reflexivity.
Qed.

Lemma server_getChunk_chunks (w : AuthoritativeWorld.t) (cx cz : Z) (key : string) :
  key <> Chunk.chunkKey cx cz ->
  AuthoritativeWorld.chunks (snd (AuthoritativeWorld.getChunk w cx cz)) !! key =
    AuthoritativeWorld.chunks w !! key.
Proof.
  intros Hne. unfold AuthoritativeWorld.getChunk. cbv zeta.
  destruct (AuthoritativeWorld.chunks w !! _); [reflexivity|].
  cbn [snd AuthoritativeWorld.chunks]. apply lookup_insert_ne. congruence.
Qed.

Lemma server_getChunk_lookup (w : AuthoritativeWorld.t) (cx cz : Z) :
  AuthoritativeWorld.chunks (snd (AuthoritativeWorld.getChunk w cx cz)) !!
    Chunk.chunkKey cx cz = Some (fst (AuthoritativeWorld.getChunk w cx cz)).
Proof.
  unfold AuthoritativeWorld.getChunk. cbv zeta.
  destruct (AuthoritativeWorld.chunks w !! _) eqn:E; cbn [fst snd]; [exact E|].
  cbn [AuthoritativeWorld.chunks]. apply lookup_insert_eq.
Qed.

Lemma server_getChunk_static (w : AuthoritativeWorld.t) (cx cz : Z) :
  AuthoritativeWorld.generator (snd (AuthoritativeWorld.getChunk w cx cz)) =
    AuthoritativeWorld.generator w /\
  AuthoritativeWorld.chunksDir (snd (AuthoritativeWorld.getChunk w cx cz)) =
    AuthoritativeWorld.chunksDir w.
Proof.
  unfold AuthoritativeWorld.getChunk. cbv zeta.
  destruct (AuthoritativeWorld.chunks w !! _); split; reflexivity.
Qed.

Lemma local_coords (x : Z) : 0 <= x mod 16 < 16 /\ x = 16 * (x / 16) + x mod 16.
Proof. Z.to_euclidean_division_equations. lia. Qed.

Lemma server_getBlock_fst (w : AuthoritativeWorld.t) (x y z : Z) :
  0 <= y < 96 ->
  fst (AuthoritativeWorld.getBlock w x y z) =
    Chunk.get (fst (AuthoritativeWorld.getChunk w (x / 16) (z / 16))) (x mod 16) y (z mod 16).
Proof.
  intros Hy. unfold AuthoritativeWorld.getBlock. cbv zeta.
  replace ((y <? 0) || (Config.WORLD_HEIGHT <=? y)) with false
    by (symmetry; apply orb_false_iff; unfold Config.WORLD_HEIGHT;
        split; [apply Z.ltb_ge|apply Z.leb_gt]; lia).
  unfold Config.CHUNK_SIZE. rewrite !server_mod__spec by lia.
  destruct (AuthoritativeWorld.getChunk w (x / 16) (z / 16)) as [c w1]. reflexivity.
Qed.

Lemma server_getBlock_outside (w : AuthoritativeWorld.t) (x y z : Z) :
  ~ 0 <= y < 96 -> AuthoritativeWorld.getBlock w x y z = (Some BlockId.Air, w).
Proof.
  intros Hy. unfold AuthoritativeWorld.getBlock.
  replace ((y <? 0) || (Config.WORLD_HEIGHT <=? y)) with true; [reflexivity|].
  symmetry. apply orb_true_iff. unfold Config.WORLD_HEIGHT.
  destruct (Z_lt_le_dec y 0); [left; apply Z.ltb_lt; lia|right; apply Z.leb_le; lia].
Qed.

Lemma server_setBlock_spec (w : AuthoritativeWorld.t) (x y z b x' y' z' : Z) :
  worldWellFormed w ->
  fst (AuthoritativeWorld.setBlock w x y z b) = true ->
  let w' := snd (AuthoritativeWorld.setBlock w x y z b) in
  fst (AuthoritativeWorld.getBlock w' x y z) = Some (b mod 65536) /\
  ((x', y', z') <> (x, y, z) ->
   fst (AuthoritativeWorld.getBlock w' x' y' z') =
     fst (AuthoritativeWorld.getBlock w x' y' z')) /\
  AuthoritativeWorld.dirty w' =
    {[Chunk.chunkKey (x / 16) (z / 16)]} ∪ AuthoritativeWorld.dirty w /\
  AuthoritativeWorld.files w' = AuthoritativeWorld.files w /\
  worldWellFormed w'.
Proof.
  intros Hwf Hset w'. subst w'. revert Hset.
  unfold AuthoritativeWorld.setBlock. cbv zeta.
  destruct ((y <? 0) || (Config.WORLD_HEIGHT <=? y)) eqn:Ey; [intros [=]|].
  apply orb_false_iff in Ey as [Ey1 Ey2]. apply Z.ltb_ge in Ey1. apply Z.leb_gt in Ey2.
  unfold Config.WORLD_HEIGHT, Config.CHUNK_SIZE in *.
  rewrite !server_mod__spec by lia.
  pose proof (getChunk_wellFormed w (x / 16) (z / 16) Hwf) as [Hcw Hw1].
  pose proof (server_getChunk_frame w (x / 16) (z / 16)) as (Hd1 & Hf1 & _).
  pose proof (server_getChunk_static w (x / 16) (z / 16)) as (Hg1 & Hdir1).
  pose proof (fun key => server_getChunk_chunks w (x / 16) (z / 16) key) as Hother.
  destruct (AuthoritativeWorld.getChunk w (x / 16) (z / 16)) as [chunk w1] eqn:E1.
  cbn [fst snd] in *.
  destruct (bool_decide _) eqn:Eold; [intros [=]|]. intros _. cbn [snd].
  match goal with |- context [AuthoritativeWorld.getBlock ?v x y z] => set (w2 := v) end.
  pose proof (local_coords x) as [Hlx Hx]. pose proof (local_coords z) as [Hlz Hz].
  assert (Hin : Chunk.inBounds (x mod 16) y (z mod 16) = true)
    by (apply inBounds_spec; lia).
  assert (Hsame : fst (AuthoritativeWorld.getChunk w2 (x / 16) (z / 16)) =
                  Chunk.set chunk (x mod 16) y (z mod 16) b).
  { unfold AuthoritativeWorld.getChunk. cbv zeta. unfold w2 at 1.
    cbn [AuthoritativeWorld.chunks]. rewrite lookup_insert_eq. reflexivity. }
  split_and!.
  - rewrite server_getBlock_fst, Hsame by lia. apply get_set_same; [exact Hin|].
    destruct Hcw as [Hl _]. pose proof (index_range _ _ _ Hin).
    unfold Chunk.BLOCKS_PER_CHUNK, Config.CHUNK_SIZE, Config.WORLD_HEIGHT in *. lia.
  - intros Hne.
    destruct (decide (0 <= y' < 96)) as [Hy'|Hy'];
      [|rewrite !server_getBlock_outside by exact Hy'; reflexivity].
    rewrite !server_getBlock_fst by exact Hy'.
    pose proof (local_coords x') as [Hlx' Hx']. pose proof (local_coords z') as [Hlz' Hz'].
    assert (Hin' : Chunk.inBounds (x' mod 16) y' (z' mod 16) = true)
      by (apply inBounds_spec; lia).
    destruct (decide (x' / 16 = x / 16 /\ z' / 16 = z / 16)) as [[Hcx Hcz]|Hchunk].
    + rewrite Hcx, Hcz, Hsame, E1. cbn [fst].
      apply get_set_other; [exact Hin|exact Hin'|].
      intros [= H1 H2 H3]. apply Hne. f_equal; [f_equal|]; lia.
    + f_equal. apply server_getChunk_ext.
      * unfold w2. cbn [AuthoritativeWorld.chunks].
        assert (Hkey : Chunk.chunkKey (x' / 16) (z' / 16) <> Chunk.chunkKey (x / 16) (z / 16)).
        { intros Heq. apply chunkKey_inj in Heq. contradiction. }
        rewrite lookup_insert_ne by congruence. apply Hother, Hkey.
      * unfold w2. cbn [AuthoritativeWorld.files]. exact Hf1.
      * unfold w2. cbn [AuthoritativeWorld.generator]. exact Hg1.
      * unfold w2. cbn [AuthoritativeWorld.chunksDir]. exact Hdir1.
  - unfold w2. cbn [AuthoritativeWorld.dirty]. rewrite Hd1. reflexivity.
  - unfold w2. cbn [AuthoritativeWorld.files]. exact Hf1.
  - destruct Hw1 as [Hc1 Hfiles1]. split.
    + intros key c Hk. unfold w2 in Hk. cbn [AuthoritativeWorld.chunks] in Hk.
      apply lookup_insert_Some in Hk as [[_ <-]|[_ Hk]];
        [apply set_wellFormed, Hcw|exact (Hc1 _ _ Hk)].
    + unfold w2. cbn [AuthoritativeWorld.files]. exact Hfiles1.
Qed.

(** X9.  A [setBlock] of the server world that returns true changes exactly
    one cell: that cell then reads as the new block (reduced to 16 bits),
    every other cell of the world reads as before, the chunk's key joins
    the dirty set, and no chunk file is touched. *)
Theorem server_setBlock_changes_one_cell
    (w : AuthoritativeWorld.t) (x y z b x' y' z' : Z) :
  worldWellFormed w ->
  fst (AuthoritativeWorld.setBlock w x y z b) = true ->
  let w' := snd (AuthoritativeWorld.setBlock w x y z b) in
  fst (AuthoritativeWorld.getBlock w' x y z) = Some (b mod 65536) /\
  ((x', y', z') <> (x, y, z) ->
   fst (AuthoritativeWorld.getBlock w' x' y' z') =
     fst (AuthoritativeWorld.getBlock w x' y' z')) /\
  AuthoritativeWorld.dirty w' =
    {[Chunk.chunkKey (x / 16) (z / 16)]} ∪ AuthoritativeWorld.dirty w /\
  AuthoritativeWorld.files w' = AuthoritativeWorld.files w /\
  worldWellFormed w'.
Proof. exact (server_setBlock_spec w x y z b x' y' z'). Qed.

Lemma sample_stoneChunk_wellFormed : wellFormed Sample.stoneChunk.
Proof.
  unfold wellFormed, Sample.stoneChunk, Chunk.newChunkData. cbn [Chunk.blocks]. split.
  - rewrite length_app, !length_replicate. unfold Chunk.BLOCKS_PER_CHUNK,
      Config.CHUNK_SIZE, Config.WORLD_HEIGHT. lia.
  - apply Forall_app. split; apply Forall_replicate;
      unfold Wire.isUint16, BlockId.Stone, BlockId.Air; lia.
Qed.

Lemma sample_serverWorld_wellFormed : worldWellFormed Sample.serverWorld.
Proof.
  split.
  - intros key c Hk. unfold Sample.serverWorld in Hk. cbn [AuthoritativeWorld.chunks] in Hk.
    apply lookup_singleton_Some in Hk as [_ <-]. apply sample_stoneChunk_wellFormed.
  - intros path raw Hp. unfold Sample.serverWorld in Hp. cbn [AuthoritativeWorld.files] in Hp.
    rewrite lookup_empty in Hp. discriminate.
Qed.

Lemma server_setBlock_changes_one_cell_witness :
  let w' := snd (AuthoritativeWorld.setBlock Sample.serverWorld 3 39 5 BlockId.Air) in
  fst (AuthoritativeWorld.getBlock w' 3 39 5) = Some (BlockId.Air mod 65536) /\
  ((3, 38, 5) <> (3, 39, 5) ->
   fst (AuthoritativeWorld.getBlock w' 3 38 5) =
     fst (AuthoritativeWorld.getBlock Sample.serverWorld 3 38 5)) /\
  AuthoritativeWorld.dirty w' =
    {[Chunk.chunkKey (3 / 16) (5 / 16)]} ∪ AuthoritativeWorld.dirty Sample.serverWorld /\
  AuthoritativeWorld.files w' = AuthoritativeWorld.files Sample.serverWorld /\
  worldWellFormed w'.
Proof.
  apply (server_setBlock_changes_one_cell Sample.serverWorld 3 39 5 BlockId.Air 3 38 5).
  - apply sample_serverWorld_wellFormed.
  - vm_compute. reflexivity.
Defined.

Lemma string_of_uint_noUnderscore (d : Decimal.uint) :
  sepFree "_" (NilEmpty.string_of_uint d).
Proof. induction d; cbn; auto. Qed.

Lemma showZ_noUnderscore (n : Z) : sepFree "_" (Chunk.showZ n).
Proof.
  unfold Chunk.showZ, NilZero.string_of_int, NilZero.string_of_uint.
  destruct (Z.to_int n) as [d|d]; destruct d; cbn; auto using string_of_uint_noUnderscore.
Qed.

Lemma string_of_uint_noDot (d : Decimal.uint) :
  sepFree "." (NilEmpty.string_of_uint d).
Proof. induction d; cbn; auto. Qed.

Lemma showZ_noDot (n : Z) : sepFree "." (Chunk.showZ n).
Proof.
  unfold Chunk.showZ, NilZero.string_of_int, NilZero.string_of_uint.
  destruct (Z.to_int n) as [d|d]; destruct d; cbn; auto using string_of_uint_noDot.
Qed.

Lemma sepFree_app (sep : ascii) (s t : string) :
  sepFree sep s -> sepFree sep t -> sepFree sep (s +:+ t).
Proof.
  induction s as [|c s IH]; intros Hs Ht; [exact Ht|].
  destruct Hs as [Hc Hs]. rewrite append_cons. split; [exact Hc|apply IH; assumption].
Qed.

Lemma append_inv_head (s t u : string) : s +:+ t = s +:+ u -> t = u.
Proof.
  induction s as [|c s IH]; intros H; [exact H|].
  rewrite !append_cons in H. injection H as H. apply IH, H.
Qed.

Lemma showZ_inj (a b : Z) : Chunk.showZ a = Chunk.showZ b -> a = b.
Proof.
  intros H. apply (f_equal Chunk.Number) in H. rewrite !Number_showZ in H.
  injection H as ->. reflexivity.
Qed.

(** Two chunks are written to the same file only when they are the same
    chunk. *)
Lemma chunkPath_inj (w : AuthoritativeWorld.t) (a b c d : Z) :
  AuthoritativeWorld.chunkPath w a b = AuthoritativeWorld.chunkPath w c d -> a = c /\ b = d.
Proof.
  unfold AuthoritativeWorld.chunkPath. intros H.
  apply append_inv_head in H.
  change ("/" +:+ ?s)%string with (String "/" s) in H. injection H as H.
  change ("_" +:+ ?s)%string with (String "_" s) in H.
  apply (f_equal (Chunk.split "_")) in H.
  rewrite !split_app in H by apply showZ_noUnderscore.
  rewrite !split_sepFree in H
    by (apply sepFree_app; [apply showZ_noUnderscore|cbn; auto]).
  injection H as Ha Hb.
  change (".bin")%string with (String "." "bin") in Hb.
  apply (f_equal (Chunk.split ".")) in Hb.
  rewrite !split_app in Hb by apply showZ_noDot.
  injection Hb as Hb.
  split; apply showZ_inj; assumption.
Qed.

Lemma bufferOf_length (blocks : list Z) :
  Z.of_nat (length (Wire.bufferOf blocks)) = 2 * Z.of_nat (length blocks).
Proof.
  unfold Wire.bufferOf. induction blocks as [|v l IH]; [reflexivity|].
  cbn [flat_map length app]. lia.
Qed.

Lemma flush_fold (w : AuthoritativeWorld.t) (cx cz : Z) (c : Chunk.ChunkData)
    (keys : list string) :
  AuthoritativeWorld.chunks w !! Chunk.chunkKey cx cz = Some c ->
  (forall key, key ∈ keys -> exists a b, key = Chunk.chunkKey a b) ->
  forall fs,
  fold_left (fun fs key => AuthoritativeWorld.flushOne w key fs) keys fs !!
    AuthoritativeWorld.chunkPath w cx cz =
  if bool_decide (Chunk.chunkKey cx cz ∈ keys) then Some (Wire.bufferOf (Chunk.blocks c))
  else fs !! AuthoritativeWorld.chunkPath w cx cz.
Proof.
  intros Hc. induction keys as [|key rest IH]; intros Hkeys fs; cbn [fold_left].
  - rewrite bool_decide_eq_false_2 by apply not_elem_of_nil. reflexivity.
  - rewrite IH by (intros k Hk; apply Hkeys; right; exact Hk).
    destruct (Hkeys key ltac:(left)) as (a & b & ->).
    unfold AuthoritativeWorld.flushOne. rewrite parseChunkKey_chunkKey.
    destruct (decide (Chunk.chunkKey cx cz ∈ rest)) as [Hin|Hout].
    + rewrite !bool_decide_eq_true_2; [reflexivity|right; exact Hin|exact Hin].
    + rewrite (bool_decide_eq_false_2 _ Hout).
      destruct (decide (Chunk.chunkKey a b = Chunk.chunkKey cx cz)) as [Heq|Hne].
      * rewrite bool_decide_eq_true_2 by (rewrite Heq; left).
        destruct (chunkKey_inj _ _ _ _ Heq) as [-> ->]. rewrite Hc.
        apply lookup_insert_eq.
      * rewrite bool_decide_eq_false_2
          by (intros Hin; apply elem_of_cons in Hin as [?|?]; [congruence|contradiction]).
        destruct (AuthoritativeWorld.chunks w !! Chunk.chunkKey a b); [|reflexivity].
        apply lookup_insert_ne. intros Hp. apply chunkPath_inj in Hp as [-> ->].
        contradiction.
Qed.

Lemma flushDirtyChunks_spec (w : AuthoritativeWorld.t) (cx cz : Z) (c : Chunk.ChunkData) :
  dirtyKeysOk w ->
  Chunk.chunkKey cx cz ∈ AuthoritativeWorld.dirty w ->
  AuthoritativeWorld.chunks w !! Chunk.chunkKey cx cz = Some c ->
  wellFormed c ->
  let w' := AuthoritativeWorld.flushDirtyChunks w in
  AuthoritativeWorld.dirty w' = ∅ /\
  AuthoritativeWorld.chunks w' = AuthoritativeWorld.chunks w /\
  AuthoritativeWorld.files w' !! AuthoritativeWorld.chunkPath w cx cz =
    Some (Wire.bufferOf (Chunk.blocks c)) /\
  fst (AuthoritativeWorld.getChunk (restart w') cx cz) =
    Chunk.newChunkData cx cz (Some (Chunk.blocks c)) /\
  (forall x y z, x / 16 = cx -> z / 16 = cz ->
     fst (AuthoritativeWorld.getBlock (restart w') x y z) =
       fst (AuthoritativeWorld.getBlock w x y z)).
Proof.
  intros Hkeys Hdirty Hc [Hlen Hu] w'.
  assert (Hfile : AuthoritativeWorld.files w' !! AuthoritativeWorld.chunkPath w cx cz =
                  Some (Wire.bufferOf (Chunk.blocks c))).
  { subst w'. unfold AuthoritativeWorld.flushDirtyChunks. cbn [AuthoritativeWorld.files].
    rewrite (flush_fold w cx cz c _ Hc).
    - rewrite bool_decide_eq_true_2; [reflexivity|]. apply elem_of_elements. exact Hdirty.
    - intros key Hk. apply Hkeys. apply elem_of_elements. exact Hk. }
  assert (Hchunk : fst (AuthoritativeWorld.getChunk (restart w') cx cz) =
                   Chunk.newChunkData cx cz (Some (Chunk.blocks c))).
  { unfold AuthoritativeWorld.getChunk, restart. cbv zeta.
    cbn [AuthoritativeWorld.chunks]. rewrite lookup_empty. cbn [fst].
    unfold AuthoritativeWorld.readChunkFile.
    change (AuthoritativeWorld.chunkPath _ cx cz) with (AuthoritativeWorld.chunkPath w cx cz).
    cbn [AuthoritativeWorld.files]. rewrite Hfile.
    rewrite bufferOf_length.
    replace (2 * Z.of_nat (length (Chunk.blocks c)) =? 2 * Chunk.BLOCKS_PER_CHUNK) with true
      by (symmetry; apply Z.eqb_eq; lia).
    rewrite (uint16ArrayOf_bufferOf _ Hu). reflexivity. }
  split_and!; auto.
  intros x y z Hx Hz.
  destruct (decide (0 <= y < 96)) as [Hy|Hy];
    [|rewrite !server_getBlock_outside by exact Hy; reflexivity].
  rewrite !server_getBlock_fst by exact Hy. rewrite Hx, Hz, Hchunk.
  unfold AuthoritativeWorld.getChunk. cbv zeta. rewrite Hc. reflexivity.
Qed.

(** X10.  [flushDirtyChunks] writes every dirty chunk of the cache to its
    file and empties the dirty set; a server started afterwards on the
    same directory reads such a chunk back from the file with exactly the
    blocks the chunk had, so every cell of it reads as before the flush. *)
Theorem flushDirtyChunks_persists (w : AuthoritativeWorld.t) (cx cz : Z) (c : Chunk.ChunkData) :
  dirtyKeysOk w ->
  Chunk.chunkKey cx cz ∈ AuthoritativeWorld.dirty w ->
  AuthoritativeWorld.chunks w !! Chunk.chunkKey cx cz = Some c ->
  wellFormed c ->
  let w' := AuthoritativeWorld.flushDirtyChunks w in
  AuthoritativeWorld.dirty w' = ∅ /\
  AuthoritativeWorld.chunks w' = AuthoritativeWorld.chunks w /\
  AuthoritativeWorld.files w' !! AuthoritativeWorld.chunkPath w cx cz =
    Some (Wire.bufferOf (Chunk.blocks c)) /\
  fst (AuthoritativeWorld.getChunk (restart w') cx cz) =
    Chunk.newChunkData cx cz (Some (Chunk.blocks c)) /\
  (forall x y z, x / 16 = cx -> z / 16 = cz ->
     fst (AuthoritativeWorld.getBlock (restart w') x y z) =
       fst (AuthoritativeWorld.getBlock w x y z)).
Proof. exact (flushDirtyChunks_spec w cx cz c). Qed.

Lemma setBlock_dirtyKeysOk (w : AuthoritativeWorld.t) (x y z b : Z) :
  dirtyKeysOk w -> dirtyKeysOk (snd (AuthoritativeWorld.setBlock w x y z b)).
Proof.
  intros H. unfold AuthoritativeWorld.setBlock. cbv zeta.
  destruct (_ || _); [exact H|].
  pose proof (server_getChunk_frame w (x / Config.CHUNK_SIZE) (z / Config.CHUNK_SIZE))
    as (Hd & _ & _).
  destruct (AuthoritativeWorld.getChunk w _ _) as [chunk w1]. cbn [snd] in Hd.
  destruct (bool_decide _); cbn [snd]; intros key Hk.
  - apply H. rewrite <- Hd. exact Hk.
  - cbn [AuthoritativeWorld.dirty] in Hk. apply elem_of_union in Hk as [Hk|Hk].
    + apply elem_of_singleton in Hk. eauto.
    + apply H. rewrite <- Hd. exact Hk.
Qed.

Lemma flushDirtyChunks_persists_witness :
  let w' := AuthoritativeWorld.flushDirtyChunks Scenario.editedWorld in
  AuthoritativeWorld.dirty w' = ∅ /\
  AuthoritativeWorld.chunks w' = AuthoritativeWorld.chunks Scenario.editedWorld /\
  AuthoritativeWorld.files w' !! AuthoritativeWorld.chunkPath Scenario.editedWorld 0 0 =
    Some (Wire.bufferOf (Chunk.blocks Sample.stoneChunk)) /\
  fst (AuthoritativeWorld.getChunk (restart w') 0 0) =
    Chunk.newChunkData 0 0 (Some (Chunk.blocks Sample.stoneChunk)) /\
  (forall x y z, x / 16 = 0 -> z / 16 = 0 ->
     fst (AuthoritativeWorld.getBlock (restart w') x y z) =
       fst (AuthoritativeWorld.getBlock Scenario.editedWorld x y z)).
Proof.
  apply (flushDirtyChunks_persists Scenario.editedWorld 0 0 Sample.stoneChunk).
  - intros key Hk. unfold Scenario.editedWorld in Hk. cbn [AuthoritativeWorld.dirty] in Hk.
    apply elem_of_singleton in Hk. eauto.
  - unfold Scenario.editedWorld. cbn [AuthoritativeWorld.dirty].
    apply elem_of_singleton. reflexivity.
  - unfold Scenario.editedWorld. cbn [AuthoritativeWorld.chunks]. apply lookup_singleton_eq.
  - apply sample_stoneChunk_wellFormed.
Defined.

(** ** The client's copy of the world *)

Lemma localOf_mod (f : Z) : NetworkWorldStore.localOf f = f mod 16.
Proof. unfold NetworkWorldStore.localOf, Config.CHUNK_SIZE. apply rem_rem_mod. lia. Qed.

Lemma markChunkDirty_blocks (s : NetworkWorldStore.t) (a b : Z) (key : string) :
  NetworkWorldStore.blocks <$> (NetworkWorldStore.chunks (NetworkWorldStore.markChunkDirty s a b)
                                  !! key) =
  NetworkWorldStore.blocks <$> (NetworkWorldStore.chunks s !! key).
Proof.
  unfold NetworkWorldStore.markChunkDirty.
  destruct (NetworkWorldStore.chunks s !! Chunk.chunkKey a b) as [st|] eqn:E; [|reflexivity].
  cbn [NetworkWorldStore.chunks].
  destruct (decide (key = Chunk.chunkKey a b)) as [->|Hne].
  - rewrite lookup_insert_eq, E. reflexivity.
  - rewrite lookup_insert_ne by congruence. reflexivity.
Qed.

Lemma markNeighborChunksDirty_blocks (s : NetworkWorldStore.t) (cx cz : Z) (key : string) :
  NetworkWorldStore.blocks <$>
    (NetworkWorldStore.chunks (NetworkWorldStore.markNeighborChunksDirty s cx cz) !! key) =
  NetworkWorldStore.blocks <$> (NetworkWorldStore.chunks s !! key).
Proof.
  unfold NetworkWorldStore.markNeighborChunksDirty. cbv zeta.
  rewrite !markChunkDirty_blocks. reflexivity.
Qed.

Lemma markNeighborChunksDirtyAt_blocks (s : NetworkWorldStore.t) (cx cz lx lz : Z)
    (key : string) :
  NetworkWorldStore.blocks <$>
    (NetworkWorldStore.chunks (NetworkWorldStore.markNeighborChunksDirtyAt s cx cz lx lz)
       !! key) =
  NetworkWorldStore.blocks <$> (NetworkWorldStore.chunks s !! key).
Proof.
  unfold NetworkWorldStore.markNeighborChunksDirtyAt. cbv zeta.
  repeat case_match; rewrite ?markChunkDirty_blocks; reflexivity.
Qed.

Lemma fmap_blocks_Some (m : option NetworkWorldStore.ChunkState) (l : list Z) :
  NetworkWorldStore.blocks <$> m = Some l ->
  exists st, m = Some st /\ NetworkWorldStore.blocks st = l.
Proof. destruct m as [st|]; [intros [= <-]; eauto|discriminate]. Qed.

(** A client reads, in a chunk it holds with the blocks of the server's
    chunk, what the server reads. *)
Lemma client_getBlock_server (n : NetworkWorldStore.t) (w : AuthoritativeWorld.t)
    (st : NetworkWorldStore.ChunkState) (x y z : Z) :
  NetworkWorldStore.chunks n !! Chunk.chunkKey (x / 16) (z / 16) = Some st ->
  NetworkWorldStore.blocks st =
    Chunk.blocks (fst (AuthoritativeWorld.getChunk w (x / 16) (z / 16))) ->
  NetworkWorldStore.getBlock n x y z = fst (AuthoritativeWorld.getBlock w x y z).
Proof.
  intros Hst Hb. unfold NetworkWorldStore.getBlock. cbv zeta.
  destruct (decide (0 <= y < 96)) as [Hy|Hy].
  - replace ((y <? 0) || (Config.WORLD_HEIGHT <=? y)) with false
      by (symmetry; apply orb_false_iff; unfold Config.WORLD_HEIGHT;
          split; [apply Z.ltb_ge|apply Z.leb_gt]; lia).
    rewrite server_getBlock_fst by exact Hy.
    rewrite !localOf_mod. unfold Config.CHUNK_SIZE. rewrite Hst, Hb.
    pose proof (local_coords x) as [Hlx _]. pose proof (local_coords z) as [Hlz _].
    unfold Chunk.get.
    replace (Chunk.inBounds (x mod 16) y (z mod 16)) with true
      by (symmetry; apply inBounds_spec; lia).
    reflexivity.
  - rewrite server_getBlock_outside by exact Hy.
    replace ((y <? 0) || (Config.WORLD_HEIGHT <=? y)) with true; [reflexivity|].
    symmetry. apply orb_true_iff. unfold Config.WORLD_HEIGHT.
    destruct (Z_lt_le_dec y 0); [left; apply Z.ltb_lt; lia|right; apply Z.leb_le; lia].
Qed.

(** X11.  When the client handles the chunk message that the server built
    for a chunk, it holds that chunk with exactly the server's blocks, and
    every cell of the chunk reads on the client as it reads on the server. *)
Theorem client_chunk_equals_server_chunk
    (w : AuthoritativeWorld.t) (n : NetworkWorldStore.t) (cx cz x y z : Z) :
  worldWellFormed w ->
  x / 16 = cx -> z / 16 = cz ->
  let payload := fst (AuthoritativeWorld.encodeChunkBase64 w cx cz) in
  let n' := NetworkWorldStore.onChunkData n cx cz payload in
  NetworkWorldStore.hasChunk n' cx cz = true /\
  (exists st, NetworkWorldStore.chunks n' !! Chunk.chunkKey cx cz = Some st /\
     NetworkWorldStore.blocks st =
       Chunk.blocks (fst (AuthoritativeWorld.getChunk w cx cz))) /\
  NetworkWorldStore.getBlock n' x y z = fst (AuthoritativeWorld.getBlock w x y z).
Proof.
  intros Hwf Hx Hz payload n'. subst payload n'.
  destruct (server_chunk_payload_decodes w cx cz Hwf) as [Hdec _].
  unfold NetworkWorldStore.onChunkData. rewrite Hdec.
  assert (Hst : exists st,
    NetworkWorldStore.chunks
      (NetworkWorldStore.setChunk n cx cz
         (Chunk.blocks (fst (AuthoritativeWorld.getChunk w cx cz)))) !! Chunk.chunkKey cx cz
      = Some st /\
    NetworkWorldStore.blocks st = Chunk.blocks (fst (AuthoritativeWorld.getChunk w cx cz))).
  { apply fmap_blocks_Some. unfold NetworkWorldStore.setChunk. cbv zeta.
    rewrite markNeighborChunksDirty_blocks. cbn [NetworkWorldStore.chunks].
    rewrite lookup_insert_eq. reflexivity. }
  destruct Hst as (st & Hst & Hb).
  split_and!.
  - unfold NetworkWorldStore.hasChunk. apply bool_decide_eq_true_2. rewrite Hst. eauto.
  - exists st. auto.
  - subst cx cz. eapply client_getBlock_server; eassumption.
Qed.

Lemma client_chunk_equals_server_chunk_witness :
  let payload := fst (AuthoritativeWorld.encodeChunkBase64 Sample.serverWorld 0 0) in
  let n' := NetworkWorldStore.onChunkData ClientScenario.emptyClient 0 0 payload in
  NetworkWorldStore.hasChunk n' 0 0 = true /\
  (exists st, NetworkWorldStore.chunks n' !! Chunk.chunkKey 0 0 = Some st /\
     NetworkWorldStore.blocks st =
       Chunk.blocks (fst (AuthoritativeWorld.getChunk Sample.serverWorld 0 0))) /\
  NetworkWorldStore.getBlock n' 5 39 7 =
    fst (AuthoritativeWorld.getBlock Sample.serverWorld 5 39 7).
Proof.
  apply (client_chunk_equals_server_chunk Sample.serverWorld ClientScenario.emptyClient
           0 0 5 39 7).
  - apply sample_serverWorld_wellFormed.
  - reflexivity.
  - reflexivity.
Defined.

Lemma mirrors_getChunk (n : NetworkWorldStore.t) (w : AuthoritativeWorld.t) (cx cz : Z) :
  mirrors n w -> mirrors n (snd (AuthoritativeWorld.getChunk w cx cz)).
Proof.
  intros Hm key st Hst. destruct (Hm key st Hst) as (c & Hc & Hb).
  exists c. split; [|exact Hb].
  unfold AuthoritativeWorld.getChunk. cbv zeta.
  destruct (AuthoritativeWorld.chunks w !! Chunk.chunkKey cx cz) eqn:E; [exact Hc|].
  cbn [snd AuthoritativeWorld.chunks]. rewrite lookup_insert_ne; [exact Hc|].
  intros <-. congruence.
Qed.

Lemma block_delta_spec (n : NetworkWorldStore.t) (w : AuthoritativeWorld.t) (x y z b : Z) :
  mirrors n w ->
  let r := AuthoritativeWorld.setBlock w x y z b in
  let n' := if fst r then NetworkWorldStore.applyBlockDelta n x y z b else n in
  mirrors n' (snd r) /\
  (forall x' y' z', NetworkWorldStore.hasChunk n' (x' / 16) (z' / 16) = true ->
     NetworkWorldStore.getBlock n' x' y' z' =
       fst (AuthoritativeWorld.getBlock (snd r) x' y' z')).
Proof.
  intros Hm r n'.
  assert (Hmir : mirrors n' (snd r)).
  { subst r n'. unfold AuthoritativeWorld.setBlock. cbv zeta.
    destruct ((y <? 0) || (Config.WORLD_HEIGHT <=? y)) eqn:Ey; [exact Hm|].
    pose proof (mirrors_getChunk n w (x / Config.CHUNK_SIZE) (z / Config.CHUNK_SIZE) Hm) as Hm1.
    pose proof (server_getChunk_lookup w (x / Config.CHUNK_SIZE) (z / Config.CHUNK_SIZE))
      as Hlook.
    destruct (AuthoritativeWorld.getChunk w _ _) as [chunk w1]. cbn [fst snd] in *.
    destruct (bool_decide _); cbn [fst snd]; [exact Hm1|].
    unfold NetworkWorldStore.applyBlockDelta. rewrite Ey. cbv zeta.
    apply orb_false_iff in Ey as [Ey1 Ey2]. apply Z.ltb_ge in Ey1. apply Z.leb_gt in Ey2.
    unfold Config.WORLD_HEIGHT, Config.CHUNK_SIZE in *.
    rewrite !localOf_mod, !server_mod__spec by lia.
    pose proof (local_coords x) as [Hlx _]. pose proof (local_coords z) as [Hlz _].
    destruct (NetworkWorldStore.chunks n !! Chunk.chunkKey (x / 16) (z / 16))
      as [st|] eqn:En.
    - destruct (Hm1 _ _ En) as (c & Hc & Hb). rewrite Hlook in Hc. injection Hc as <-.
      intros key st' Hst'.
      match type of Hst' with
      | NetworkWorldStore.chunks (NetworkWorldStore.markNeighborChunksDirtyAt ?S ?a ?b ?c ?d)
          !! _ = _ =>
          pose proof (markNeighborChunksDirtyAt_blocks S a b c d key) as Hbl
      end.
      rewrite Hst' in Hbl. cbn [NetworkWorldStore.chunks fmap option_fmap option_map] in Hbl.
      symmetry in Hbl.
      cbn [AuthoritativeWorld.chunks].
      destruct (decide (key = Chunk.chunkKey (x / 16) (z / 16))) as [->|Hne].
      + rewrite lookup_insert_eq in Hbl. rewrite lookup_insert_eq.
        eexists. split; [reflexivity|]. cbn [fmap option_fmap option_map] in Hbl.
        injection Hbl as Hbl. rewrite <- Hbl. cbn [NetworkWorldStore.blocks].
        unfold Chunk.set.
        replace (Chunk.inBounds (x mod 16) y (z mod 16)) with true
          by (symmetry; apply inBounds_spec; lia).
        cbn [negb Chunk.blocks]. rewrite Hb. reflexivity.
      + rewrite lookup_insert_ne in Hbl by congruence.
        rewrite lookup_insert_ne by congruence.
        apply fmap_blocks_Some in Hbl as (st0 & Hst0 & Hb0).
        destruct (Hm1 _ _ Hst0) as (c & Hc & Hbc). exists c. split; [exact Hc|congruence].
    - intros key st' Hst'. destruct (Hm1 _ _ Hst') as (c & Hc & Hb).
      exists c. split; [|exact Hb]. cbn [AuthoritativeWorld.chunks].
      rewrite lookup_insert_ne; [exact Hc|]. intros <-. congruence. }
  split; [exact Hmir|].
  intros x' y' z' Hhas. unfold NetworkWorldStore.hasChunk in Hhas.
  apply bool_decide_eq_true in Hhas as [st Hst].
  destruct (Hmir _ _ Hst) as (c & Hc & Hb).
  eapply client_getBlock_server; [exact Hst|].
  unfold AuthoritativeWorld.getChunk. cbv zeta. rewrite Hc. exact Hb.
Qed.

(** X12.  Replication of an edit.  If every chunk the client holds has the
    blocks of the server's chunk, then after a [setBlock] on the server and,
    when it returned true, the matching block delta applied on the client,
    this is still so; and wherever the client holds the chunk, a cell reads
    on the client as it reads on the server. *)
Theorem block_delta_keeps_client_in_step
    (n : NetworkWorldStore.t) (w : AuthoritativeWorld.t) (x y z b : Z) :
  mirrors n w ->
  let r := AuthoritativeWorld.setBlock w x y z b in
  let n' := if fst r then NetworkWorldStore.applyBlockDelta n x y z b else n in
  mirrors n' (snd r) /\
  (forall x' y' z', NetworkWorldStore.hasChunk n' (x' / 16) (z' / 16) = true ->
     NetworkWorldStore.getBlock n' x' y' z' =
       fst (AuthoritativeWorld.getBlock (snd r) x' y' z')).
Proof. exact (block_delta_spec n w x y z b). Qed.

Lemma sample_mirrors : mirrors ClientScenario.clientCopy Sample.serverWorld.
Proof.
  intros key st H. unfold ClientScenario.clientCopy in H.
  cbn [NetworkWorldStore.chunks] in H. apply lookup_singleton_Some in H as [<- <-].
  exists Sample.stoneChunk. split; [apply lookup_singleton_eq|reflexivity].
Qed.

Lemma block_delta_keeps_client_in_step_witness :
  let r := AuthoritativeWorld.setBlock Sample.serverWorld 8 39 8 BlockId.Air in
  let n' := if fst r
            then NetworkWorldStore.applyBlockDelta ClientScenario.clientCopy 8 39 8 BlockId.Air
            else ClientScenario.clientCopy in
  mirrors n' (snd r) /\
  (forall x' y' z', NetworkWorldStore.hasChunk n' (x' / 16) (z' / 16) = true ->
     NetworkWorldStore.getBlock n' x' y' z' =
       fst (AuthoritativeWorld.getBlock (snd r) x' y' z')).
Proof.
  apply (block_delta_keeps_client_in_step ClientScenario.clientCopy Sample.serverWorld
           8 39 8 BlockId.Air).
  apply sample_mirrors.
Defined.

(** ** Chunk streaming *)

Lemma visited_next (center : Z * Z) (dx dz : Z) (key : string) :
  -8 <= dx <= 8 -> -8 <= dz <= 8 ->
  visited center dx (dz + 1) key <->
  key = Chunk.chunkKey (fst center + dx) (snd center + dz) \/ visited center dx dz key.
Proof.
  intros Hx Hz. split.
  - intros (a & b & Ha & Hb & Ho & ->).
    destruct (Z.eq_dec a dx) as [->|Hne].
    + destruct (Z.eq_dec b dz) as [->|Hnb]; [left; reflexivity|].
      right. exists dx, b. split_and!; auto; try lia.
    + right. exists a, b. split_and!; auto; try lia.
  - intros [->|(a & b & Ha & Hb & Ho & ->)].
    + exists dx, dz. split_and!; auto; try lia.
    + exists a, b. split_and!; auto; try lia.
Qed.

Lemma visited_row (center : Z * Z) (dx : Z) (key : string) :
  visited center dx 9 key <-> visited center (dx + 1) (-8) key.
Proof.
  split; intros (a & b & Ha & Hb & Ho & ->); exists a, b; split_and!; auto; try lia.
Qed.

Lemma visited_none (center : Z * Z) (key : string) : ~ visited center (-8) (-8) key.
Proof. intros (a & b & Ha & Hb & Ho & _). lia. Qed.

Lemma visited_all (center : Z * Z) (key : string) :
  visited center 9 (-8) key <-> inView center key.
Proof.
  split.
  - intros (a & b & Ha & Hb & _ & ->). exists a, b. auto.
  - intros (a & b & Ha & Hb & ->). exists a, b. split_and!; auto; try lia.
Qed.

Lemma visited_not_yet (center : Z * Z) (dx dz : Z) :
  ~ visited center dx dz (Chunk.chunkKey (fst center + dx) (snd center + dz)).
Proof.
  intros (a & b & Ha & Hb & Ho & He). apply chunkKey_inj in He. lia.
Qed.

Lemma encodeChunkBase64_pair (w : AuthoritativeWorld.t) (cx cz : Z) :
  AuthoritativeWorld.encodeChunkBase64 w cx cz =
    (Wire.blocksToBase64 (Chunk.blocks (fst (AuthoritativeWorld.getChunk w cx cz))),
     snd (AuthoritativeWorld.getChunk w cx cz)).
Proof.
  unfold AuthoritativeWorld.encodeChunkBase64.
  destruct (AuthoritativeWorld.getChunk w cx cz). reflexivity.
Qed.

Lemma sameReads_refl (w : AuthoritativeWorld.t) : sameReads w w.
Proof. unfold sameReads. auto. Qed.

Lemma sameReads_getChunk (w0 w : AuthoritativeWorld.t) (a b : Z) :
  sameReads w0 w -> sameReads w0 (snd (AuthoritativeWorld.getChunk w a b)).
Proof.
  intros (Hf & Hg & Hd & Hy & Hr).
  destruct (server_getChunk_frame w a b) as (Hd1 & Hf1 & _).
  destruct (server_getChunk_static w a b) as (Hg1 & Hc1).
  unfold sameReads. split_and!; try congruence.
  intros cx cz. rewrite <- Hr.
  destruct (decide (Chunk.chunkKey cx cz = Chunk.chunkKey a b)) as [He|Hne].
  - apply chunkKey_inj in He. destruct He as [-> ->].
    rewrite server_getChunk_cached. reflexivity.
  - apply server_getChunk_ext; auto.
    apply server_getChunk_chunks. exact Hne.
Qed.

Lemma chunkMessage_inj (w : AuthoritativeWorld.t) (p : RoomServer.ServerPlayer)
    (a b c d : Z) :
  chunkMessage w p a b = chunkMessage w p c d -> a = c /\ b = d.
Proof.
  intros H.
  apply (f_equal (fun m => match snd m with
                           | Protocol.chunk_data x z _ => (x, z)
                           | _ => (0, 0)
                           end)) in H.
  unfold chunkMessage in H. cbn [snd] in H.
  split; [exact (f_equal fst H)|exact (f_equal snd H)].
Qed.

Lemma withSent_world (s : RoomServer.t) (w w2 : AuthoritativeWorld.t)
    (out : list (Z * Protocol.ServerMessage)) :
  RoomServer.withWorld (withSent s w out) w2 = withSent s w2 out.
Proof. reflexivity. Qed.

Lemma send_withSent (s : RoomServer.t) (w : AuthoritativeWorld.t)
    (out : list (Z * Protocol.ServerMessage)) (p : RoomServer.ServerPlayer)
    (m : Protocol.ServerMessage) :
  RoomServer.send (withSent s w out) p m =
    withSent s w (if bool_decide (RoomServer.ws p ∈ RoomServer.openSockets s)
                  then out ++ [(RoomServer.ws p, m)] else out).
Proof.
  unfold RoomServer.send, RoomServer.sendRaw. cbn [RoomServer.openSockets withSent].
  destruct (bool_decide _); reflexivity.
Qed.

Lemma withKnownChunks_twice (p : RoomServer.ServerPlayer) (a b : gset string) :
  Room.withKnownChunks (Room.withKnownChunks p a) b = Room.withKnownChunks p b.
Proof. reflexivity. Qed.

Lemma visitChunk_streamed (s : RoomServer.t) (p : RoomServer.ServerPlayer)
    (center : Z * Z) (dx dz : Z)
    (st : RoomServer.t * RoomServer.ServerPlayer * gset string) :
  -8 <= dx <= 8 -> -8 <= dz <= 8 ->
  streamed s p center dx dz st ->
  streamed s p center dx (dz + 1) (Room.visitChunk center dx dz st).
Proof.
  intros Hx Hz. destruct st as [[s1 p1] keep].
  intros (Hkeep & -> & w1 & msgs & -> & Hsame & Hnd & Hmsgs).
  pose proof (visited_not_yet center dx dz) as Hfresh.
  set (key := Chunk.chunkKey (fst center + dx) (snd center + dz)) in *.
  assert (Hnk : key ∉ keep) by (rewrite Hkeep; exact Hfresh).
  unfold Room.visitChunk. cbv zeta. fold key.
  cbn [RoomServer.knownChunks Room.withKnownChunks].
  destruct (bool_decide (key ∈ RoomServer.knownChunks p ∪ keep)) eqn:Hk.
  - apply bool_decide_eq_true in Hk.
    assert (Hin : key ∈ RoomServer.knownChunks p).
    { apply elem_of_union in Hk. destruct Hk; [assumption|contradiction]. }
    unfold streamed. split_and!.
    + intros k. rewrite visited_next by assumption. rewrite <- Hkeep.
      rewrite elem_of_union, elem_of_singleton. reflexivity.
    + f_equal. clear - Hin. set_solver.
    + exists w1, msgs. split_and!; auto.
      intros m. rewrite Hmsgs. split.
      * intros (Ho & cx & cz & Hv & Hn & ->). split; [exact Ho|].
        exists cx, cz. split_and!; auto. apply visited_next; auto.
      * intros (Ho & cx & cz & Hv & Hn & ->). split; [exact Ho|].
        exists cx, cz. split_and!; auto.
        apply visited_next in Hv; [|assumption..].
        destruct Hv as [Hv|Hv]; [|exact Hv]. fold key in Hv. rewrite Hv in Hn. contradiction.
  - apply bool_decide_eq_false in Hk.
    assert (Hout : key ∉ RoomServer.knownChunks p).
    { intros Hi. apply Hk. apply elem_of_union. left. exact Hi. }
    cbn [RoomServer.world withSent]. rewrite encodeChunkBase64_pair.
    rewrite withSent_world, send_withSent.
    cbn [RoomServer.ws Room.withKnownChunks].
    unfold streamed. split_and!.
    + intros k. rewrite visited_next by assumption. rewrite <- Hkeep.
      rewrite elem_of_union, elem_of_singleton. reflexivity.
    + rewrite withKnownChunks_twice. f_equal. clear. set_solver.
    + destruct Hsame as (Hf & Hg & Hd & Hy & Hr).
      rewrite Hr.
      change (RoomServer.ws p, Protocol.chunk_data (fst center + dx) (snd center + dz) _)
        with (chunkMessage (RoomServer.world s) p (fst center + dx) (snd center + dz)).
      set (new := chunkMessage (RoomServer.world s) p (fst center + dx) (snd center + dz)).
      assert (Hnew : new ∉ msgs).
      { intros Hi. apply Hmsgs in Hi. destruct Hi as (_ & cx & cz & Hv & _ & He).
        apply chunkMessage_inj in He. destruct He as [<- <-]. exact (Hfresh Hv). }
      exists (snd (AuthoritativeWorld.getChunk w1 (fst center + dx) (snd center + dz))),
             (if bool_decide (RoomServer.ws p ∈ RoomServer.openSockets s)
              then msgs ++ [new] else msgs).
      split_and!.
      * f_equal. destruct (bool_decide _); [rewrite app_assoc|]; reflexivity.
      * apply sameReads_getChunk. unfold sameReads. auto.
      * destruct (bool_decide _); [|exact Hnd].
        apply NoDup_app. split_and!; [exact Hnd| |apply NoDup_singleton].
        intros m Hm Hm'. apply list_elem_of_singleton in Hm'. subst m. exact (Hnew Hm).
      * intros m. destruct (bool_decide (RoomServer.ws p ∈ RoomServer.openSockets s)) eqn:Ho.
        -- apply bool_decide_eq_true in Ho.
           rewrite elem_of_app, list_elem_of_singleton, Hmsgs. split.
           ++ intros [(_ & cx & cz & Hv & Hn & ->)| ->]; (split; [exact Ho|]).
              ** exists cx, cz. split_and!; auto. apply visited_next; auto.
              ** exists (fst center + dx), (snd center + dz). split_and!; auto.
                 apply visited_next; auto.
           ++ intros (_ & cx & cz & Hv & Hn & ->).
              apply visited_next in Hv; [|assumption..].
              destruct Hv as [Hv|Hv].
              ** right. fold key in Hv. apply chunkKey_inj in Hv. destruct Hv as [-> ->].
                 reflexivity.
              ** left. split; [exact Ho|]. exists cx, cz. auto.
        -- apply bool_decide_eq_false in Ho. rewrite Hmsgs. split.
           ++ intros (Ho' & _). contradiction.
           ++ intros (Ho' & _). contradiction.
Qed.

Lemma visitLoops_streamed (s : RoomServer.t) (p : RoomServer.ServerPlayer) (center : Z * Z) :
  streamed s p center 9 (-8)
    (JS.forRange (- Room.SERVER_VIEW_DISTANCE_CHUNKS) (Room.SERVER_VIEW_DISTANCE_CHUNKS + 1)
       (fun dx =>
          JS.forRange (- Room.SERVER_VIEW_DISTANCE_CHUNKS)
            (Room.SERVER_VIEW_DISTANCE_CHUNKS + 1)
            (fun dz => Room.visitChunk center dx dz))
       (s, p, ∅)).
Proof.
  unfold Room.SERVER_VIEW_DISTANCE_CHUNKS.
  apply (forRange_counted (fun dx st => streamed s p center dx (-8) st)); [lia| |].
  - unfold streamed. split_and!.
    + intros key. split; [intros H; apply elem_of_empty in H; destruct H|].
      intros H. destruct (visited_none _ _ H).
    + destruct p. unfold Room.withKnownChunks. cbn. f_equal. clear. set_solver.
    + exists (RoomServer.world s), []. split_and!.
      * rewrite app_nil_r. destruct s. reflexivity.
      * apply sameReads_refl.
      * constructor.
      * intros m. split; [intros H; inversion H|].
        intros (_ & cx & cz & Hv & _). destruct (visited_none _ _ Hv).
  - intros dx st Hdx Hst.
    assert (Hrow : streamed s p center dx 9
              (JS.forRange (- (8)) (8 + 1) (fun dz => Room.visitChunk center dx dz) st)).
    { apply (forRange_counted (fun dz st => streamed s p center dx dz st)); [lia|exact Hst|].
      intros dz st' Hdz Hst'. apply visitChunk_streamed; [lia|lia|exact Hst']. }
    revert Hrow.
    generalize (JS.forRange (- (8)) (8 + 1) (fun dz => Room.visitChunk center dx dz) st).
    intros [[s1 p1] keep] (Hkeep & Hp & w1 & msgs & Hs & Hsame & Hnd & Hmsgs).
    unfold streamed. split_and!; auto.
    + intros key. rewrite Hkeep. apply visited_row.
    + exists w1, msgs. split_and!; auto.
      intros m. rewrite Hmsgs.
      split; intros (Ho & cx & cz & Hv & Hn & ->); (split; [exact Ho|]);
        exists cx, cz; split_and!; auto; apply visited_row; exact Hv.
Qed.

Lemma visitLoops_known (s : RoomServer.t) (p : RoomServer.ServerPlayer) (center : Z * Z) :
  (forall key, inView center key -> key ∈ RoomServer.knownChunks p) ->
  exists keep,
    JS.forRange (- Room.SERVER_VIEW_DISTANCE_CHUNKS) (Room.SERVER_VIEW_DISTANCE_CHUNKS + 1)
      (fun dx =>
         JS.forRange (- Room.SERVER_VIEW_DISTANCE_CHUNKS)
           (Room.SERVER_VIEW_DISTANCE_CHUNKS + 1)
           (fun dz => Room.visitChunk center dx dz))
      (s, p, ∅) = (s, p, keep) /\
    forall key, key ∈ keep <-> inView center key.
Proof.
  intros Hknown. unfold Room.SERVER_VIEW_DISTANCE_CHUNKS.
  assert (H : (fun dx st => exists keep, st = (s, p, keep) /\
                  forall key, key ∈ keep <-> visited center dx (- (8)) key) (8 + 1)
                (JS.forRange (- (8)) (8 + 1)
                   (fun dx => JS.forRange (- (8)) (8 + 1)
                                (fun dz => Room.visitChunk center dx dz)) (s, p, ∅))).
  { apply forRange_counted; [lia| |].
    - exists ∅. split; [reflexivity|]. intros key.
      split; [intros H; apply elem_of_empty in H; destruct H|].
      intros H. destruct (visited_none _ _ H).
    - intros dx st Hdx (keep & -> & Hkeep).
      assert (Hrow : (fun dz st => exists keep, st = (s, p, keep) /\
                         forall key, key ∈ keep <-> visited center dx dz key) (8 + 1)
                       (JS.forRange (- (8)) (8 + 1)
                          (fun dz => Room.visitChunk center dx dz) (s, p, keep))).
      { apply forRange_counted; [lia| |].
        - exists keep. auto.
        - intros dz st (Hdz1 & Hdz2) (keep' & -> & Hkeep').
          unfold Room.visitChunk. cbv zeta.
          rewrite bool_decide_eq_true_2.
          + eexists. split; [reflexivity|]. intros key.
            rewrite visited_next by lia. rewrite <- Hkeep'.
            rewrite elem_of_union, elem_of_singleton. reflexivity.
          + apply Hknown. exists dx, dz. split_and!; auto; lia. }
      cbv beta in Hrow. destruct Hrow as (keep' & -> & Hkeep').
      exists keep'. split; [reflexivity|]. intros key. rewrite Hkeep'. apply visited_row. }
  cbv beta in H. destruct H as (keep & -> & Hkeep).
  exists keep. split; [reflexivity|]. intros key. rewrite Hkeep. apply visited_all.
Qed.

Lemma sendVisibleChunks_spec (s : RoomServer.t) (p : RoomServer.ServerPlayer)
    (center : Z * Z) :
  let r := Room.sendVisibleChunks s p center in
  exists w' msgs view,
    fst r = withSent s w' (RoomServer.sent s ++ msgs) /\
    sameReads (RoomServer.world s) w' /\
    snd r = Room.withKnownChunks p view /\
    (forall key, key ∈ view <-> inView center key) /\
    NoDup msgs /\
    (forall m, m ∈ msgs <->
       (RoomServer.ws p ∈ RoomServer.openSockets s) /\
       exists cx cz, inView center (Chunk.chunkKey cx cz) /\
         (Chunk.chunkKey cx cz ∉ RoomServer.knownChunks p) /\
         m = chunkMessage (RoomServer.world s) p cx cz) /\
    Room.sendVisibleChunks (fst r) (snd r) center = r.
Proof.
  cbv zeta.
  pose proof (visitLoops_streamed s p center) as H.
  assert (Hr : forall s0 p0, Room.sendVisibleChunks s0 p0 center =
            (let '(s1, p1, keep) :=
               JS.forRange (- Room.SERVER_VIEW_DISTANCE_CHUNKS)
                 (Room.SERVER_VIEW_DISTANCE_CHUNKS + 1)
                 (fun dx =>
                    JS.forRange (- Room.SERVER_VIEW_DISTANCE_CHUNKS)
                      (Room.SERVER_VIEW_DISTANCE_CHUNKS + 1)
                      (fun dz => Room.visitChunk center dx dz)) (s0, p0, ∅) in
             (s1, Room.withKnownChunks p1
                    (filter (fun key => key ∈ keep) (RoomServer.knownChunks p1)))))
    by reflexivity.
  rewrite !Hr. revert H.
  generalize (JS.forRange (- Room.SERVER_VIEW_DISTANCE_CHUNKS)
                (Room.SERVER_VIEW_DISTANCE_CHUNKS + 1)
                (fun dx =>
                   JS.forRange (- Room.SERVER_VIEW_DISTANCE_CHUNKS)
                     (Room.SERVER_VIEW_DISTANCE_CHUNKS + 1)
                     (fun dz => Room.visitChunk center dx dz)) (s, p, ∅)).
  intros [[s1 p1] keep] (Hkeep & -> & w1 & msgs & -> & Hsame & Hnd & Hmsgs).
  cbn [fst snd RoomServer.knownChunks Room.withKnownChunks].
  assert (Hview : filter (fun key => key ∈ keep) (RoomServer.knownChunks p ∪ keep) = keep).
  { clear. apply set_eq. intros key. rewrite elem_of_filter, elem_of_union. tauto. }
  rewrite withKnownChunks_twice, Hview.
  exists w1, msgs, keep. split_and!; auto.
  - intros key. rewrite Hkeep. apply visited_all.
  - intros m. rewrite Hmsgs.
    split; intros (Ho & cx & cz & Hv & Hn & ->); (split; [exact Ho|]);
      exists cx, cz; split_and!; auto; apply visited_all; exact Hv.
  - destruct (visitLoops_known (withSent s w1 (RoomServer.sent s ++ msgs))
                (Room.withKnownChunks p keep) center) as (keep' & -> & Hkeep').
    { intros key Hv. cbn [RoomServer.knownChunks Room.withKnownChunks].
      apply Hkeep. apply visited_all. exact Hv. }
    cbn [RoomServer.knownChunks Room.withKnownChunks].
    rewrite withKnownChunks_twice. f_equal. f_equal.
    apply set_eq. intros key. rewrite elem_of_filter, Hkeep', Hkeep, visited_all. tauto.
Qed.

(** X13.  [sendVisibleChunks] leaves the room as it was except for the
    world's cache, which hands out the same chunks, and the frames sent.
    Afterwards the player's known chunks are exactly the 17 x 17 window of
    keys around the centre chunk.  If the player's socket is open, the
    frames sent are, once each, the chunks of the window that the player
    did not know before, with the blocks the world holds for them; if it is
    not open, nothing is sent.  Calling it again at once changes nothing
    and sends nothing. *)
Theorem sendVisibleChunks_streams_window (s : RoomServer.t) (p : RoomServer.ServerPlayer)
    (center : Z * Z) :
  let r := Room.sendVisibleChunks s p center in
  exists w' msgs view,
    fst r = withSent s w' (RoomServer.sent s ++ msgs) /\
    sameReads (RoomServer.world s) w' /\
    snd r = Room.withKnownChunks p view /\
    (forall key, key ∈ view <-> inView center key) /\
    NoDup msgs /\
    (forall m, m ∈ msgs <->
       (RoomServer.ws p ∈ RoomServer.openSockets s) /\
       exists cx cz, inView center (Chunk.chunkKey cx cz) /\
         (Chunk.chunkKey cx cz ∉ RoomServer.knownChunks p) /\
         m = chunkMessage (RoomServer.world s) p cx cz) /\
    Room.sendVisibleChunks (fst r) (snd r) center = r.
Proof. exact (sendVisibleChunks_spec s p center). Qed.

(** ** Snapshots *)

Lemma sendAll_withSent (s : RoomServer.t) (w : AuthoritativeWorld.t)
    (m : Protocol.ServerMessage) (l : list (string * RoomServer.ServerPlayer))
    (out : list (Z * Protocol.ServerMessage)) :
  fold_left (fun s e => RoomServer.send s (snd e) m) l (withSent s w out) =
    withSent s w
      (out ++ map (fun e => (RoomServer.ws (snd e), m))
                (filter (fun e => RoomServer.ws (snd e) ∈ RoomServer.openSockets s) l)).
Proof.
  revert out. induction l as [|e l IH]; intros out.
  - cbn. rewrite app_nil_r. reflexivity.
  - cbn [fold_left]. rewrite send_withSent, IH. f_equal.
    rewrite filter_cons. destruct (decide (RoomServer.ws (snd e) ∈ RoomServer.openSockets s)).
    + rewrite bool_decide_eq_true_2 by assumption. cbn [map]. rewrite <- app_assoc.
      reflexivity.
    + rewrite bool_decide_eq_false_2 by assumption. reflexivity.
Qed.

Lemma broadcastSnapshot_spec (s : RoomServer.t) :
  let s' := Room.broadcastSnapshot s in
  let receivers :=
    filter (fun e => RoomServer.ws (snd e) ∈ RoomServer.openSockets s)
           (map_to_list (RoomServer.players s)) in
  s' = withSent (Room.spliceChangedBlocks s) (RoomServer.world s)
         (RoomServer.sent s ++
          map (fun e => (RoomServer.ws (snd e), Room.snapshotOf s)) receivers) /\
  (forall id pl, RoomServer.players s !! id = Some pl ->
     RoomServer.ws pl ∈ RoomServer.openSockets s ->
     (RoomServer.ws pl, Room.snapshotOf s) ∈
       map (fun e => (RoomServer.ws (snd e), Room.snapshotOf s)) receivers) /\
  RoomServer.changedBlocks s' = [] /\
  exists t ps ms,
    Room.snapshotOf s = Protocol.snapshot t ps ms (RoomServer.changedBlocks s) /\
    Room.snapshotOf s' = Protocol.snapshot t ps ms [].
Proof.
  cbv zeta.
  assert (Hs : Room.broadcastSnapshot s =
            withSent (Room.spliceChangedBlocks s) (RoomServer.world s)
              (RoomServer.sent s ++
               map (fun e => (RoomServer.ws (snd e), Room.snapshotOf s))
                 (filter (fun e => RoomServer.ws (snd e) ∈ RoomServer.openSockets s)
                    (map_to_list (RoomServer.players s))))).
  { unfold Room.broadcastSnapshot. cbv zeta.
    change (Room.spliceChangedBlocks s)
      with (withSent (Room.spliceChangedBlocks s) (RoomServer.world s) (RoomServer.sent s))
      at 2.
    rewrite sendAll_withSent. reflexivity. }
  split_and!.
  - exact Hs.
  - intros id pl Hl Ho.
    apply (list_elem_of_fmap_2 (fun e => (RoomServer.ws (snd e), Room.snapshotOf s)) _ (id, pl)).
    apply list_elem_of_filter. split; [exact Ho|]. apply elem_of_map_to_list. exact Hl.
  - rewrite Hs. reflexivity.
  - rewrite Hs. unfold Room.snapshotOf. cbn. eexists _, _, _. split; reflexivity.
Qed.

(** X14.  [broadcastSnapshot] sends one and the same snapshot frame once to
    every player whose socket is open and to nobody else; the frame carries
    all block changes collected so far.  It empties the list of collected
    changes and touches nothing else in the room, so a snapshot that
    follows at once carries the same tick, players and mobs and no block
    change. *)
Theorem broadcastSnapshot_delivers_changes_once (s : RoomServer.t) :
  let s' := Room.broadcastSnapshot s in
  let receivers :=
    filter (fun e => RoomServer.ws (snd e) ∈ RoomServer.openSockets s)
           (map_to_list (RoomServer.players s)) in
  s' = withSent (Room.spliceChangedBlocks s) (RoomServer.world s)
         (RoomServer.sent s ++
          map (fun e => (RoomServer.ws (snd e), Room.snapshotOf s)) receivers) /\
  (forall id pl, RoomServer.players s !! id = Some pl ->
     RoomServer.ws pl ∈ RoomServer.openSockets s ->
     (RoomServer.ws pl, Room.snapshotOf s) ∈
       map (fun e => (RoomServer.ws (snd e), Room.snapshotOf s)) receivers) /\
  RoomServer.changedBlocks s' = [] /\
  exists t ps ms,
    Room.snapshotOf s = Protocol.snapshot t ps ms (RoomServer.changedBlocks s) /\
    Room.snapshotOf s' = Protocol.snapshot t ps ms [].
Proof. exact (broadcastSnapshot_spec s). Qed.

(** ** Spawn points *)

Lemma sameReads_getBlock (w0 w : AuthoritativeWorld.t) (x y z : Z) :
  sameReads w0 w ->
  fst (AuthoritativeWorld.getBlock w x y z) = fst (AuthoritativeWorld.getBlock w0 x y z) /\
  sameReads w0 (snd (AuthoritativeWorld.getBlock w x y z)).
Proof.
  intros Hs. pose proof (sameReads_getChunk w0 w (x / 16) (z / 16) Hs) as Hs'.
  pose proof Hs as (_ & _ & _ & _ & Hr).
  unfold AuthoritativeWorld.getBlock. cbv zeta.
  destruct ((y <? 0) || (Config.WORLD_HEIGHT <=? y)); cbn [fst snd].
  - split; [reflexivity|exact Hs].
  - unfold Config.CHUNK_SIZE. specialize (Hr (x / 16) (z / 16)).
    destruct (AuthoritativeWorld.getChunk w (x / 16) (z / 16)) as [c w1].
    destruct (AuthoritativeWorld.getChunk w0 (x / 16) (z / 16)) as [c0 w2].
    cbn [fst snd] in *. subst c0. split; [reflexivity|exact Hs'].
Qed.

Lemma findSurfaceYFrom_spec (w0 w : AuthoritativeWorld.t) (x z : Z) (n : nat) :
  sameReads w0 w ->
  let r := Room.findSurfaceYFrom w x z n in
  sameReads w0 (snd r) /\
  ((0 <= fst r < Z.of_nat n /\ surfaceAt w0 x (fst r) z /\
    forall y, fst r < y < Z.of_nat n -> ~ surfaceAt w0 x y z) \/
   (fst r = 20 /\ forall y, 0 <= y < Z.of_nat n -> ~ surfaceAt w0 x y z)).
Proof.
  revert w. induction n as [|k IH]; intros w Hs; cbv zeta.
  - cbn [Room.findSurfaceYFrom fst snd]. split; [exact Hs|]. right.
    split; [reflexivity|]. intros y Hy. lia.
  - cbn [Room.findSurfaceYFrom].
    destruct (sameReads_getBlock w0 w x (Z.of_nat k) z Hs) as [Hb Hs'].
    destruct (AuthoritativeWorld.getBlock w x (Z.of_nat k) z) as [block w1].
    cbn [fst snd] in Hb, Hs'.
    destruct (negb (bool_decide (block = Some BlockId.Air)) &&
              negb (bool_decide (block = Some BlockId.Water))) eqn:E.
    + cbn [fst snd]. split; [exact Hs'|]. left.
      apply andb_true_iff in E. destruct E as [E1 E2].
      apply negb_true_iff, bool_decide_eq_false in E1.
      apply negb_true_iff, bool_decide_eq_false in E2.
      split; [lia|]. split.
      * unfold surfaceAt. rewrite <- Hb. auto.
      * intros y Hy. lia.
    + specialize (IH w1 Hs'). cbv zeta in IH. destruct IH as [Hs2 IH].
      split; [exact Hs2|].
      assert (Hk : ~ surfaceAt w0 x (Z.of_nat k) z).
      { unfold surfaceAt. rewrite <- Hb. intros [H1 H2].
        apply andb_false_iff in E.
        destruct E as [E|E]; apply negb_false_iff, bool_decide_eq_true in E; contradiction. }
      destruct IH as [(Hr & Ht & Ha)|(Hr & Ha)].
      * left. split; [lia|]. split; [exact Ht|].
        intros y Hy. destruct (Z.eq_dec y (Z.of_nat k)) as [->|Hne]; [exact Hk|].
        apply Ha. lia.
      * right. split; [exact Hr|].
        intros y Hy. destruct (Z.eq_dec y (Z.of_nat k)) as [->|Hne]; [exact Hk|].
        apply Ha. lia.
Qed.

Lemma surfaceAt_outside (w : AuthoritativeWorld.t) (x y z : Z) :
  ~ 0 <= y < 96 -> ~ surfaceAt w x y z.
Proof.
  intros Hy [H _]. rewrite server_getBlock_outside in H by exact Hy. apply H. reflexivity.
Qed.

Lemma computeSpawnPoint_spec (w : AuthoritativeWorld.t) (x z : Z) :
  let r := Room.findSurfaceY w x z in
  sameReads w (snd r) /\
  0 <= fst r < 96 /\
  (forall y, fst r < y -> ~ surfaceAt w x y z) /\
  (surfaceAt w x (fst r) z \/ (fst r = 20 /\ forall y, ~ surfaceAt w x y z)) /\
  Room.computeSpawnPoint w x z =
    (Physics.vec3 (JS.ofZ x + 0.5)%float (JS.ofZ (fst r + 2)) (JS.ofZ z + 0.5)%float, snd r).
Proof.
  cbv zeta.
  pose proof (findSurfaceYFrom_spec w w x z (Z.to_nat Config.WORLD_HEIGHT) (sameReads_refl w))
    as H.
  cbv zeta in H. fold (Room.findSurfaceY w x z) in H.
  change (Z.of_nat (Z.to_nat Config.WORLD_HEIGHT)) with 96 in H.
  unfold Room.computeSpawnPoint.
  destruct (Room.findSurfaceY w x z) as [sy w1]. cbn [fst snd] in *.
  destruct H as [Hs [(Hr & Ht & Ha)|(Hr & Ha)]].
  - split_and!; [exact Hs|lia|lia| |left; exact Ht|reflexivity].
    intros y Hy. destruct (Z_lt_le_dec y 96); [apply Ha; lia|].
    apply surfaceAt_outside. lia.
  - split_and!; [exact Hs|lia|lia| | |reflexivity].
    + intros y Hy. destruct (Z_lt_le_dec y 96); [apply Ha; lia|].
      apply surfaceAt_outside. lia.
    + right. split; [exact Hr|]. intros y.
      destruct (Z_lt_le_dec y 0); [apply surfaceAt_outside; lia|].
      destruct (Z_lt_le_dec y 96); [apply Ha; lia|apply surfaceAt_outside; lia].
Qed.

(** X15.  [findSurfaceY] returns a height between 0 and 95 and changes the
    world in its cache only.  Every cell of the column above the returned
    height reads as air or water.  The cell at the returned height reads as
    neither, except when the whole column is air or water and the answer is
    the fixed height 20.  [computeSpawnPoint] puts the player two cells
    above that height, in the middle of the column. *)
Theorem spawn_point_is_above_the_surface (w : AuthoritativeWorld.t) (x z : Z) :
  let r := Room.findSurfaceY w x z in
  sameReads w (snd r) /\
  0 <= fst r < 96 /\
  (forall y, fst r < y -> ~ surfaceAt w x y z) /\
  (surfaceAt w x (fst r) z \/ (fst r = 20 /\ forall y, ~ surfaceAt w x y z)) /\
  Room.computeSpawnPoint w x z =
    (Physics.vec3 (JS.ofZ x + 0.5)%float (JS.ofZ (fst r + 2)) (JS.ofZ z + 0.5)%float, snd r).
Proof. exact (computeSpawnPoint_spec w x z). Qed.

(** ** Numbers: order *)

Lemma SFcompare_antisym (x y : spec_float) :
  SFcompare y x = option_map CompOpp (SFcompare x y).
Proof.
  destruct x as [s|s| |s m e], y as [s'|s'| |s' m' e']; cbn [SFcompare option_map];
    try reflexivity;
    try (destruct s; reflexivity); try (destruct s'; reflexivity);
    try (destruct s, s'; reflexivity).
  destruct s, s'; cbn [CompOpp]; try reflexivity.
  - rewrite (Z.compare_antisym e e'). destruct (e ?= e'); cbn [CompOpp]; try reflexivity.
    rewrite (ZC4 m' m). reflexivity.
  - rewrite (Z.compare_antisym e e'). destruct (e ?= e'); cbn [CompOpp]; try reflexivity.
    f_equal. apply ZC4.
Qed.

Lemma SFcompare_refl (x : spec_float) : x <> S754_nan -> SFcompare x x = Some Eq.
Proof.
  destruct x as [s|s| |s m e]; cbn [SFcompare]; intros H.
  - reflexivity.
  - destruct s; reflexivity.
  - contradiction.
  - rewrite Z.compare_refl, Pos.compare_cont_refl. destruct s; reflexivity.
Qed.

Lemma SFcompare_defined (x y : spec_float) :
  x <> S754_nan -> y <> S754_nan -> exists c, SFcompare x y = Some c.
Proof.
  destruct x, y; cbn [SFcompare]; intros Hx Hy; try contradiction; eexists; reflexivity.
Qed.

Lemma is_nan_false (a : float) : PrimFloat.is_nan a = false <-> Prim2SF a <> S754_nan.
Proof.
  unfold PrimFloat.is_nan. rewrite FloatAxioms.eqb_spec. unfold SFeqb. split.
  - intros H E. rewrite E in H. discriminate.
  - intros H. rewrite SFcompare_refl by exact H. reflexivity.
Qed.

Lemma float_leb_refl (a : float) : PrimFloat.is_nan a = false -> PrimFloat.leb a a = true.
Proof.
  intros H. apply is_nan_false in H. rewrite FloatAxioms.leb_spec. unfold SFleb.
  rewrite SFcompare_refl by exact H. reflexivity.
Qed.

Lemma float_ltb_leb (a b : float) : PrimFloat.ltb a b = true -> PrimFloat.leb a b = true.
Proof.
  rewrite FloatAxioms.ltb_spec, FloatAxioms.leb_spec. unfold SFltb, SFleb.
  destruct (SFcompare _ _) as [[| |]|]; auto.
Qed.

Lemma float_total (a b : float) :
  PrimFloat.is_nan a = false -> PrimFloat.is_nan b = false ->
  PrimFloat.ltb a b = false -> PrimFloat.leb b a = true.
Proof.
  intros Ha Hb. apply is_nan_false in Ha. apply is_nan_false in Hb.
  rewrite FloatAxioms.ltb_spec, FloatAxioms.leb_spec. unfold SFltb, SFleb.
  rewrite (SFcompare_antisym (Prim2SF a) (Prim2SF b)).
  destruct (SFcompare_defined _ _ Ha Hb) as [c ->]. destruct c; cbn; auto.
Qed.

Lemma float_leb_not_nan (a b : float) :
  PrimFloat.leb a b = true -> PrimFloat.is_nan a = false /\ PrimFloat.is_nan b = false.
Proof.
  rewrite FloatAxioms.leb_spec. unfold SFleb. intros H.
  split; apply is_nan_false; intros E; rewrite E in H.
  - discriminate.
  - destruct (Prim2SF a); discriminate.
Qed.

Lemma Math_min_spec (a b : float) :
  PrimFloat.is_nan a = false -> PrimFloat.is_nan b = false ->
  (JS.Math_min a b = a \/ JS.Math_min a b = b) /\
  PrimFloat.leb (JS.Math_min a b) a = true /\
  PrimFloat.leb (JS.Math_min a b) b = true /\
  (PrimFloat.ltb b a = true -> JS.Math_min a b = b).
Proof.
  intros Ha Hb. unfold JS.Math_min. rewrite Ha, Hb. cbn [orb].
  destruct (PrimFloat.ltb a b) eqn:L1.
  - split_and!; auto using float_leb_refl, float_ltb_leb.
    intros L2. apply float_ltb_leb in L2.
    pose proof (float_total b a Hb Ha) as T.
    rewrite FloatAxioms.ltb_spec in L1, T. rewrite FloatAxioms.leb_spec in L2, T.
    unfold SFltb, SFleb in *. rewrite (SFcompare_antisym (Prim2SF a) (Prim2SF b)) in L2, T.
    destruct (SFcompare (Prim2SF a) (Prim2SF b)) as [[| |]|]; cbn in *; discriminate.
  - destruct (PrimFloat.ltb b a) eqn:L2.
    + split_and!; auto using float_leb_refl, float_ltb_leb.
    + pose proof (float_total a b Ha Hb L1). pose proof (float_total b a Hb Ha L2).
      destruct (JS.is_negzero a); split_and!; auto using float_leb_refl; discriminate.
Qed.

Lemma Math_max_spec (a b : float) :
  PrimFloat.is_nan a = false -> PrimFloat.is_nan b = false ->
  (JS.Math_max a b = a \/ JS.Math_max a b = b) /\
  PrimFloat.leb a (JS.Math_max a b) = true /\
  PrimFloat.leb b (JS.Math_max a b) = true /\
  (PrimFloat.ltb a b = true -> JS.Math_max a b = b).
Proof.
  intros Ha Hb. unfold JS.Math_max. rewrite Ha, Hb. cbn [orb].
  destruct (PrimFloat.ltb a b) eqn:L1.
  - split_and!; auto using float_leb_refl, float_ltb_leb.
  - destruct (PrimFloat.ltb b a) eqn:L2.
    + split_and!; auto using float_leb_refl, float_ltb_leb. discriminate.
    + pose proof (float_total a b Ha Hb L1). pose proof (float_total b a Hb Ha L2).
      destruct (JS.is_negzero a); split_and!; auto using float_leb_refl; discriminate.
Qed.

Lemma Math_nan (a b : float) :
  PrimFloat.is_nan a = true \/ PrimFloat.is_nan b = true ->
  JS.Math_max a b = PrimFloat.nan /\ JS.Math_min a b = PrimFloat.nan.
Proof.
  intros H. unfold JS.Math_max, JS.Math_min.
  replace (PrimFloat.is_nan a || PrimFloat.is_nan b) with true; [auto|].
  symmetry. apply orb_true_iff. exact H.
Qed.

Lemma clamp_spec (value lo hi : float) :
  PrimFloat.leb lo hi = true ->
  let r := Room.clamp value lo hi in
  (PrimFloat.is_nan value = true -> r = PrimFloat.nan) /\
  (PrimFloat.is_nan value = false ->
   PrimFloat.leb lo r = true /\ PrimFloat.leb r hi = true /\
   (r = value \/ r = lo \/ r = hi) /\
   (PrimFloat.ltb lo value = true -> PrimFloat.ltb value hi = true -> r = value)).
Proof.
  intros Hle. cbv zeta. unfold Room.clamp.
  destruct (float_leb_not_nan _ _ Hle) as [Hlo Hhi]. split.
  - intros Hv. destruct (Math_nan hi value (or_intror Hv)) as [_ ->].
    destruct (Math_nan lo PrimFloat.nan (or_intror eq_refl)) as [-> _]. reflexivity.
  - intros Hv.
    destruct (Math_min_spec hi value Hhi Hv) as (Hm & Hm1 & Hm2 & Hm3).
    assert (Hmn : PrimFloat.is_nan (JS.Math_min hi value) = false)
      by (destruct Hm as [-> | ->]; assumption).
    destruct (Math_max_spec lo (JS.Math_min hi value) Hlo Hmn) as (Hr & Hr1 & Hr2 & Hr3).
    split_and!.
    + exact Hr1.
    + destruct Hr as [-> | ->]; assumption.
    + destruct Hr as [-> | ->]; [auto|]. destruct Hm as [-> | ->]; auto.
    + intros L1 L2. rewrite (Hm3 L2) in *. apply Hr3. exact L1.
Qed.

(** X16.  [clamp] with bounds [min <= max]: a value that is not NaN comes
    back inside the bounds, as itself or as one of the bounds, and as itself
    when it lies strictly between them; NaN comes back as NaN. *)
Theorem clamp_stays_in_range (value lo hi : float) :
  PrimFloat.leb lo hi = true ->
  let r := Room.clamp value lo hi in
  (PrimFloat.is_nan value = true -> r = PrimFloat.nan) /\
  (PrimFloat.is_nan value = false ->
   PrimFloat.leb lo r = true /\ PrimFloat.leb r hi = true /\
   (r = value \/ r = lo \/ r = hi) /\
   (PrimFloat.ltb lo value = true -> PrimFloat.ltb value hi = true -> r = value)).
Proof. exact (clamp_spec value lo hi). Qed.

Lemma clamp_stays_in_range_witness :
  (PrimFloat.is_nan 3.5 = true -> Room.clamp 3.5 (-1) 1 = PrimFloat.nan) /\
  (PrimFloat.is_nan 3.5 = false ->
   PrimFloat.leb (-1) (Room.clamp 3.5 (-1) 1) = true /\
   PrimFloat.leb (Room.clamp 3.5 (-1) 1) 1 = true /\
   (Room.clamp 3.5 (-1) 1 = 3.5%float \/ Room.clamp 3.5 (-1) 1 = (-1)%float \/
    Room.clamp 3.5 (-1) 1 = 1%float) /\
   (PrimFloat.ltb (-1) 3.5 = true -> PrimFloat.ltb 3.5 1 = true ->
    Room.clamp 3.5 (-1) 1 = 3.5%float)).
Proof.
  apply (clamp_stays_in_range 3.5 (-1) 1). reflexivity.
Defined.

(** ** The block table *)

Lemma blockTable_spec :
  (forall i b, Blocks.itemToBlockId i = Some b ->
     BlockTable.blockIdToDrop b = Some (Some i) /\ BlockTable.isSolidBlock b = Some true) /\
  (forall b i, BlockTable.blockIdToDrop b = Some (Some i) -> Blocks.itemToBlockId i = Some b) /\
  (forall b, BlockTable.blockIdToDrop b = Some None <->
             b = BlockId.Air \/ b = BlockId.Water) /\
  (forall b, BlockTable.isSolidBlock b = Some false <->
             b = BlockId.Air \/ b = BlockId.Water) /\
  (forall b, BlockTable.blockIdToDrop b = None <-> ~ 0 <= b <= 7) /\
  (forall b, BlockTable.isSolidBlock b = None <-> ~ 0 <= b <= 7).
Proof.
  assert (Hcases : forall b, ~ 0 <= b <= 7 \/ b = 0 \/ b = 1 \/ b = 2 \/ b = 3 \/ b = 4 \/
                             b = 5 \/ b = 6 \/ b = 7) by (intros b; lia).
  assert (Hout : forall b, ~ 0 <= b <= 7 -> Blocks.BLOCK_DEFS b = None).
  { intros b Hb. unfold Blocks.BLOCK_DEFS, BlockId.Air, BlockId.Grass, BlockId.Dirt,
      BlockId.Stone, BlockId.Wood, BlockId.Leaves, BlockId.Sand, BlockId.Water.
    destruct (Z.eqb_spec b 0); [lia|]. destruct (Z.eqb_spec b 1); [lia|].
    destruct (Z.eqb_spec b 2); [lia|]. destruct (Z.eqb_spec b 3); [lia|].
    destruct (Z.eqb_spec b 4); [lia|]. destruct (Z.eqb_spec b 5); [lia|].
    destruct (Z.eqb_spec b 6); [lia|]. destruct (Z.eqb_spec b 7); [lia|]. reflexivity. }
  unfold BlockTable.blockIdToDrop, BlockTable.isSolidBlock.
  split_and!.
  - intros i b H. destruct i; cbn in H; inversion H; subst; cbn; auto.
  - intros b i H.
    destruct (Hcases b) as [Hb|Hb].
    + rewrite (Hout b Hb) in H. discriminate.
    + destruct Hb as [->|[->|[->|[->|[->|[->|[->| ->]]]]]]]; cbn in H;
        inversion H; subst; reflexivity.
  - intros b. destruct (Hcases b) as [Hb|Hb].
    + rewrite (Hout b Hb). unfold BlockId.Air, BlockId.Water.
      split; [discriminate|]. intros [-> | ->]; exfalso; apply Hb; lia.
    + unfold BlockId.Air, BlockId.Water.
      destruct Hb as [->|[->|[->|[->|[->|[->|[->| ->]]]]]]]; cbn;
        split; auto; try discriminate; intros [H|H]; discriminate.
  - intros b. destruct (Hcases b) as [Hb|Hb].
    + rewrite (Hout b Hb). unfold BlockId.Air, BlockId.Water.
      split; [discriminate|]. intros [-> | ->]; exfalso; apply Hb; lia.
    + unfold BlockId.Air, BlockId.Water.
      destruct Hb as [->|[->|[->|[->|[->|[->|[->| ->]]]]]]]; cbn;
        split; auto; try discriminate; intros [H|H]; discriminate.
  - intros b. destruct (Hcases b) as [Hb|Hb].
    + rewrite (Hout b Hb). tauto.
    + destruct Hb as [->|[->|[->|[->|[->|[->|[->| ->]]]]]]]; cbn;
        (split; [discriminate|intros H; exfalso; apply H; lia]).
  - intros b. destruct (Hcases b) as [Hb|Hb].
    + rewrite (Hout b Hb). tauto.
    + destruct Hb as [->|[->|[->|[->|[->|[->|[->| ->]]]]]]]; cbn;
        (split; [discriminate|intros H; exfalso; apply H; lia]).
Qed.

(** X17.  The block table and the item table agree: the block that an item
    places is solid and drops that same item when mined, and every item
    that a block drops places that block again.  Air and water, and only
    they, drop nothing and are not solid.  For a number that is no block id
    (outside 0..7) both look-ups throw. *)
Theorem placed_block_drops_its_item :
  (forall i b, Blocks.itemToBlockId i = Some b ->
     BlockTable.blockIdToDrop b = Some (Some i) /\ BlockTable.isSolidBlock b = Some true) /\
  (forall b i, BlockTable.blockIdToDrop b = Some (Some i) -> Blocks.itemToBlockId i = Some b) /\
  (forall b, BlockTable.blockIdToDrop b = Some None <->
             b = BlockId.Air \/ b = BlockId.Water) /\
  (forall b, BlockTable.isSolidBlock b = Some false <->
             b = BlockId.Air \/ b = BlockId.Water) /\
  (forall b, BlockTable.blockIdToDrop b = None <-> ~ 0 <= b <= 7) /\
  (forall b, BlockTable.isSolidBlock b = None <-> ~ 0 <= b <= 7).
Proof. exact blockTable_spec. Qed.

(** ** Player files *)

Lemma safeUnit_not_separator (u : Z) :
  Room.safeUnit u = true -> u <> 46 /\ u <> 47 /\ u <> 92 /\ u <> 0 /\ u <> 58.
Proof. unfold Room.safeUnit. lia. Qed.

Lemma safeName_spec (nickname : list Z) :
  length (Room.safeName nickname) = length nickname /\
  Forall (fun u => Room.safeUnit u = true) (Room.safeName nickname) /\
  Forall (fun u => u <> 46 /\ u <> 47 /\ u <> 92 /\ u <> 0 /\ u <> 58)
         (Room.safeName nickname) /\
  (Forall (fun u => Room.safeUnit u = true) nickname -> Room.safeName nickname = nickname) /\
  Room.safeName (Room.safeName nickname) = Room.safeName nickname.
Proof.
  assert (Hsafe : Forall (fun u => Room.safeUnit u = true) (Room.safeName nickname)).
  { unfold Room.safeName. induction nickname as [|v l IH]; cbn [map]; constructor.
    - destruct (Room.safeUnit v) eqn:E; [exact E|reflexivity].
    - exact IH. }
  assert (Hid : forall l, Forall (fun u => Room.safeUnit u = true) l -> Room.safeName l = l).
  { intros l Hl. unfold Room.safeName. induction Hl as [|u l Hu Hl IH]; [reflexivity|].
    cbn [map]. rewrite Hu, IH. reflexivity. }
  split_and!.
  - unfold Room.safeName. apply length_map.
  - exact Hsafe.
  - eapply Forall_impl; [exact Hsafe|]. intros u Hu. apply safeUnit_not_separator. exact Hu.
  - apply Hid.
  - apply Hid. exact Hsafe.
Qed.

(** X18.  The name under which a player is stored keeps the length of the
    nickname and consists of ASCII letters, digits, underscore and hyphen
    only, so it holds no dot, slash, backslash, colon or NUL.  A nickname
    made of such characters is kept as it is, and sanitising twice is the
    same as once. *)
Theorem playerFile_name_is_safe (nickname : list Z) :
  length (Room.safeName nickname) = length nickname /\
  Forall (fun u => Room.safeUnit u = true) (Room.safeName nickname) /\
  Forall (fun u => u <> 46 /\ u <> 47 /\ u <> 92 /\ u <> 0 /\ u <> 58)
         (Room.safeName nickname) /\
  (Forall (fun u => Room.safeUnit u = true) nickname -> Room.safeName nickname = nickname) /\
  Room.safeName (Room.safeName nickname) = Room.safeName nickname.
Proof. exact (safeName_spec nickname). Qed.

(** ** The single-player store: edits *)

Lemma remeshed_refl (st : WorldStore.ChunkState) : remeshed st st.
Proof. unfold remeshed. auto. Qed.

Lemma remeshedAt_refl (m : gmap string WorldStore.ChunkState) (key : string) :
  remeshedAt m m key.
Proof. unfold remeshedAt. destruct (m !! key); [apply remeshed_refl|exact I]. Qed.

Lemma remeshedAt_trans (m1 m2 m3 : gmap string WorldStore.ChunkState) (key : string) :
  remeshedAt m1 m2 key -> remeshedAt m2 m3 key -> remeshedAt m1 m3 key.
Proof.
  unfold remeshedAt, remeshed.
  destruct (m1 !! key), (m2 !! key), (m3 !! key); try tauto.
  intros (A1 & A2 & A3 & A4) (B1 & B2 & B3 & B4). split_and!; try congruence. auto.
Qed.

Lemma markChunkMeshDirty_lookup (s : WorldStore.t) (cx cz : Z) (key : string) :
  WorldStore.chunks (WorldStore.markChunkMeshDirty s cx cz) !! key =
    if decide (key = Chunk.chunkKey cx cz)
    then (fun st => WorldStore.withMeshDirty st true) <$> WorldStore.chunks s !! key
    else WorldStore.chunks s !! key.
Proof.
  unfold WorldStore.markChunkMeshDirty.
  destruct (WorldStore.chunks s !! Chunk.chunkKey cx cz) as [st|] eqn:E.
  - cbn [WorldStore.chunks WorldStore.withChunks].
    destruct (decide (key = Chunk.chunkKey cx cz)) as [->|Hne].
    + rewrite lookup_insert_eq, E. reflexivity.
    + rewrite lookup_insert_ne by congruence. reflexivity.
  - destruct (decide (key = Chunk.chunkKey cx cz)) as [->|Hne]; [rewrite E|]; reflexivity.
Qed.

Lemma markChunkMeshDirty_remeshed (s : WorldStore.t) (cx cz : Z) (key : string) :
  remeshedAt (WorldStore.chunks s)
             (WorldStore.chunks (WorldStore.markChunkMeshDirty s cx cz)) key.
Proof.
  unfold remeshedAt. rewrite markChunkMeshDirty_lookup.
  destruct (decide (key = Chunk.chunkKey cx cz)); destruct (WorldStore.chunks s !! key);
    cbn; unfold remeshed; auto.
Qed.

Lemma markChunkMeshDirty_marks (s : WorldStore.t) (cx cz : Z) (st : WorldStore.ChunkState) :
  WorldStore.chunks (WorldStore.markChunkMeshDirty s cx cz) !! Chunk.chunkKey cx cz = Some st ->
  WorldStore.meshDirty st = true.
Proof.
  rewrite markChunkMeshDirty_lookup. rewrite decide_True by reflexivity.
  destruct (WorldStore.chunks s !! _); cbn; [|discriminate]. intros [= <-]. reflexivity.
Qed.

Lemma remeshedAt_meshDirty (m m' : gmap string WorldStore.ChunkState) (key : string)
    (st st' : WorldStore.ChunkState) :
  remeshedAt m m' key -> m !! key = Some st -> m' !! key = Some st' ->
  WorldStore.meshDirty st = true -> WorldStore.meshDirty st' = true.
Proof.
  unfold remeshedAt. intros H E E'. rewrite E, E' in H. destruct H as (_ & _ & _ & H). exact H.
Qed.

Lemma client_blockAt_inside (s : WorldStore.t) (x y z : Z) :
  0 <= y < 96 ->
  WorldStore.blockAt s x y z =
    match WorldStore.chunks s !! Chunk.chunkKey (x / 16) (z / 16) with
    | Some st => Chunk.get (WorldStore.chunk st) (x mod 16) y (z mod 16)
    | None => Some BlockId.Air
    end.
Proof.
  intros Hy. unfold WorldStore.blockAt.
  replace ((y <? 0) || (Config.WORLD_HEIGHT <=? y)) with false
    by (symmetry; apply orb_false_iff; unfold Config.WORLD_HEIGHT;
        split; [apply Z.ltb_ge|apply Z.leb_gt]; lia).
  cbv zeta. unfold WorldStore.worldToChunkLocal, WorldStore.floorDiv, Config.CHUNK_SIZE.
  cbn [WorldStore.l_cx WorldStore.l_cz WorldStore.l_lx WorldStore.l_lz].
  rewrite !mod__spec by lia. reflexivity.
Qed.

Lemma client_blockAt_outside (s : WorldStore.t) (x y z : Z) :
  ~ 0 <= y < 96 -> WorldStore.blockAt s x y z = Some BlockId.Air.
Proof.
  intros Hy. unfold WorldStore.blockAt.
  replace ((y <? 0) || (Config.WORLD_HEIGHT <=? y)) with true; [reflexivity|].
  symmetry. apply orb_true_iff. unfold Config.WORLD_HEIGHT.
  destruct (Z_lt_le_dec y 0); [left; apply Z.ltb_lt; lia|right; apply Z.leb_le; lia].
Qed.

Lemma remeshedAt_blockAt (s s' : WorldStore.t) (x y z : Z) :
  remeshedAt (WorldStore.chunks s) (WorldStore.chunks s') (Chunk.chunkKey (x / 16) (z / 16)) ->
  WorldStore.blockAt s' x y z = WorldStore.blockAt s x y z.
Proof.
  intros H. destruct (decide (0 <= y < 96)) as [Hy|Hy];
    [|rewrite !client_blockAt_outside by exact Hy; reflexivity].
  rewrite !client_blockAt_inside by exact Hy. unfold remeshedAt in H.
  destruct (WorldStore.chunks s !! _), (WorldStore.chunks s' !! _); try contradiction;
    [|reflexivity].
  destruct H as (-> & _). reflexivity.
Qed.

(** The store after the two border tests of [setBlock]. *)
Lemma border_marks_remeshed (s : WorldStore.t) (cx cz lx lz : Z) (key : string) :
  let s1 := if lx =? 0 then WorldStore.markChunkMeshDirty s (cx - 1) cz
            else if lx =? Config.CHUNK_SIZE - 1 then WorldStore.markChunkMeshDirty s (cx + 1) cz
            else s in
  let s2 := if lz =? 0 then WorldStore.markChunkMeshDirty s1 cx (cz - 1)
            else if lz =? Config.CHUNK_SIZE - 1 then WorldStore.markChunkMeshDirty s1 cx (cz + 1)
            else s1 in
  remeshedAt (WorldStore.chunks s) (WorldStore.chunks s2) key /\
  scheduler s2 = scheduler s /\
  (forall st, lx = 0 -> WorldStore.chunks s2 !! Chunk.chunkKey (cx - 1) cz = Some st ->
              WorldStore.meshDirty st = true) /\
  (forall st, lx = 15 -> WorldStore.chunks s2 !! Chunk.chunkKey (cx + 1) cz = Some st ->
              WorldStore.meshDirty st = true) /\
  (forall st, lz = 0 -> WorldStore.chunks s2 !! Chunk.chunkKey cx (cz - 1) = Some st ->
              WorldStore.meshDirty st = true) /\
  (forall st, lz = 15 -> WorldStore.chunks s2 !! Chunk.chunkKey cx (cz + 1) = Some st ->
              WorldStore.meshDirty st = true).
Proof.
  intros s1 s2.
  assert (H1 : forall k, remeshedAt (WorldStore.chunks s) (WorldStore.chunks s1) k).
  { intros k. subst s1. destruct (lx =? 0); [apply markChunkMeshDirty_remeshed|].
    destruct (lx =? _); [apply markChunkMeshDirty_remeshed|apply remeshedAt_refl]. }
  assert (H2 : forall k, remeshedAt (WorldStore.chunks s1) (WorldStore.chunks s2) k).
  { intros k. subst s2. destruct (lz =? 0); [apply markChunkMeshDirty_remeshed|].
    destruct (lz =? _); [apply markChunkMeshDirty_remeshed|apply remeshedAt_refl]. }
  assert (Hx : forall a st, (lx = 0 /\ a = cx - 1) \/ (lx = 15 /\ a = cx + 1) ->
             WorldStore.chunks s2 !! Chunk.chunkKey a cz = Some st ->
             WorldStore.meshDirty st = true).
  { intros a st Ha Hst. specialize (H2 (Chunk.chunkKey a cz)). unfold remeshedAt in H2.
    rewrite Hst in H2. destruct (WorldStore.chunks s1 !! Chunk.chunkKey a cz) as [st1|] eqn:E1;
      [|contradiction].
    destruct H2 as (_ & _ & _ & H2). apply H2. revert E1. subst s1.
    unfold Config.CHUNK_SIZE.
    destruct Ha as [[-> ->]|[-> ->]]; cbn [Z.eqb Z.sub Z.add Z.opp Z.pos_sub Pos.eqb];
      apply markChunkMeshDirty_marks. }
  split_and!.
  - eapply remeshedAt_trans; [apply H1|apply H2].
  - subst s2 s1.
    repeat (match goal with
            | |- context [if ?b then _ else _] => destruct b
            end; rewrite ?markChunkMeshDirty_scheduler); reflexivity.
  - intros st Hl. apply Hx. auto.
  - intros st Hl. apply Hx. auto.
  - intros st -> Hst. subst s2. cbn [Z.eqb] in Hst.
    exact (markChunkMeshDirty_marks _ _ _ _ Hst).
  - intros st -> Hst. subst s2. unfold Config.CHUNK_SIZE in Hst.
    cbn [Z.eqb Z.sub Z.add Z.opp Z.pos_sub Pos.eqb] in Hst.
    exact (markChunkMeshDirty_marks _ _ _ _ Hst).
Qed.

Lemma client_setBlock_spec (s : WorldStore.t) (x y z b x' y' z' : Z) (now : float) :
  storeWellFormed s ->
  let r := WorldStore.setBlock s x y z b now in
  let key := Chunk.chunkKey (x / 16) (z / 16) in
  (WorldStore.chunks s !! key = None -> r = (false, s)) /\
  (fst r = true ->
   WorldStore.blockAt (snd r) x y z = Some (b mod 65536) /\
   ((x', y', z') <> (x, y, z) ->
    WorldStore.blockAt (snd r) x' y' z' = WorldStore.blockAt s x' y' z') /\
   (exists st st', WorldStore.chunks s !! key = Some st /\
      WorldStore.chunks (snd r) !! key = Some st' /\
      WorldStore.chunk st' = Chunk.set (WorldStore.chunk st) (x mod 16) y (z mod 16) b /\
      WorldStore.dirty st' = true /\ WorldStore.meshDirty st' = true /\
      WorldStore.lastTouched st' = now) /\
   (forall k, k <> key ->
      remeshedAt (WorldStore.chunks s) (WorldStore.chunks (snd r)) k) /\
   (forall st, x mod 16 = 0 ->
      WorldStore.chunks (snd r) !! Chunk.chunkKey (x / 16 - 1) (z / 16) = Some st ->
      WorldStore.meshDirty st = true) /\
   (forall st, x mod 16 = 15 ->
      WorldStore.chunks (snd r) !! Chunk.chunkKey (x / 16 + 1) (z / 16) = Some st ->
      WorldStore.meshDirty st = true) /\
   (forall st, z mod 16 = 0 ->
      WorldStore.chunks (snd r) !! Chunk.chunkKey (x / 16) (z / 16 - 1) = Some st ->
      WorldStore.meshDirty st = true) /\
   (forall st, z mod 16 = 15 ->
      WorldStore.chunks (snd r) !! Chunk.chunkKey (x / 16) (z / 16 + 1) = Some st ->
      WorldStore.meshDirty st = true) /\
   scheduler (snd r) = scheduler s /\
   storeWellFormed (snd r)).
Proof.
  intros Hwf. cbv zeta. unfold WorldStore.setBlock. cbv zeta.
  unfold WorldStore.worldToChunkLocal, WorldStore.floorDiv.
  cbn [WorldStore.l_cx WorldStore.l_cz WorldStore.l_lx WorldStore.l_lz].
  unfold Config.CHUNK_SIZE. rewrite !mod__spec by lia.
  destruct ((y <? 0) || (Config.WORLD_HEIGHT <=? y)) eqn:Ey;
    [split; [reflexivity|intros [=]]|].
  apply orb_false_iff in Ey as [Ey1 Ey2]. apply Z.ltb_ge in Ey1. apply Z.leb_gt in Ey2.
  unfold Config.WORLD_HEIGHT in Ey2.
  destruct (WorldStore.chunks s !! Chunk.chunkKey (x / 16) (z / 16)) as [st|] eqn:Est;
    [|split; [reflexivity|intros [=]]].
  split; [discriminate|].
  destruct (bool_decide _) eqn:Eold; [intros [=]|]. intros _. cbn [snd].
  set (key := Chunk.chunkKey (x / 16) (z / 16)) in *.
  set (st1 := {| WorldStore.chunk := Chunk.set (WorldStore.chunk st) (x mod 16) y (z mod 16) b;
                 WorldStore.dirty := true; WorldStore.meshDirty := true;
                 WorldStore.lastTouched := now |}).
  set (s1 := WorldStore.withChunks s (<[key := st1]> (WorldStore.chunks s))).
  pose proof (fun k => border_marks_remeshed s1 (x / 16) (z / 16) (x mod 16) (z mod 16) k)
    as Hmarks.
  cbv zeta in Hmarks. unfold Config.CHUNK_SIZE in Hmarks.
  match goal with |- context [WorldStore.blockAt ?v x y z] => set (s2 := v) in * end.
  pose proof (local_coords x) as [Hlx Hx]. pose proof (local_coords z) as [Hlz Hz].
  assert (Hin : Chunk.inBounds (x mod 16) y (z mod 16) = true)
    by (apply inBounds_spec; lia).
  destruct (Hmarks key) as (Hkey & Hsched & Hx0 & Hx15 & Hz0 & Hz15).
  assert (Hs1key : WorldStore.chunks s1 !! key = Some st1).
  { unfold s1. cbn [WorldStore.chunks WorldStore.withChunks]. apply lookup_insert_eq. }
  assert (Hs1other : forall k, k <> key -> WorldStore.chunks s1 !! k = WorldStore.chunks s !! k).
  { intros k Hk. unfold s1. cbn [WorldStore.chunks WorldStore.withChunks].
    apply lookup_insert_ne. congruence. }
  assert (Hother : forall k, k <> key ->
            remeshedAt (WorldStore.chunks s) (WorldStore.chunks s2) k).
  { intros k Hk. destruct (Hmarks k) as (Hk' & _). unfold remeshedAt in *.
    rewrite (Hs1other k Hk) in Hk'. exact Hk'. }
  assert (Hst2 : exists st2, WorldStore.chunks s2 !! key = Some st2 /\ remeshed st1 st2).
  { unfold remeshedAt in Hkey. rewrite Hs1key in Hkey.
    destruct (WorldStore.chunks s2 !! key) as [st2|]; [|contradiction]. exists st2. auto. }
  destruct Hst2 as (st2 & Hst2 & Hc2 & Hd2 & Hl2 & Hm2).
  split_and!.
  - rewrite client_blockAt_inside by lia. fold key. rewrite Hst2, Hc2.
    unfold st1. cbn [WorldStore.chunk]. apply get_set_same; [exact Hin|].
    destruct (Hwf _ _ Est) as [Hl _]. pose proof (index_range _ _ _ Hin).
    unfold Chunk.BLOCKS_PER_CHUNK, Config.CHUNK_SIZE, Config.WORLD_HEIGHT in *. lia.
  - intros Hne.
    destruct (decide (Chunk.chunkKey (x' / 16) (z' / 16) = key)) as [Hk|Hk].
    + destruct (decide (0 <= y' < 96)) as [Hy'|Hy'];
        [|rewrite !client_blockAt_outside by exact Hy'; reflexivity].
      rewrite !client_blockAt_inside by exact Hy'. rewrite Hk, Hst2, Est, Hc2.
      unfold st1. cbn [WorldStore.chunk].
      pose proof (local_coords x') as [Hlx' Hx']. pose proof (local_coords z') as [Hlz' Hz'].
      apply get_set_other; [exact Hin|apply inBounds_spec; lia|].
      unfold key in Hk. apply chunkKey_inj in Hk. destruct Hk as [Hk1 Hk2].
      intros [= H1 H2 H3]. apply Hne. f_equal; [f_equal|]; lia.
    + apply remeshedAt_blockAt. apply Hother. exact Hk.
  - exists st, st2. split_and!; auto.
  - exact Hother.
  - intros st' H0. apply Hx0. exact H0.
  - intros st' H0. apply Hx15. exact H0.
  - intros st' H0. apply Hz0. exact H0.
  - intros st' H0. apply Hz15. exact H0.
  - rewrite Hsched. reflexivity.
  - intros k st' Hk. destruct (decide (k = key)) as [->|Hne].
    + rewrite Hst2 in Hk. injection Hk as <-. rewrite Hc2. unfold st1.
      cbn [WorldStore.chunk]. apply set_wellFormed. exact (Hwf _ _ Est).
    + specialize (Hother k Hne). unfold remeshedAt in Hother. rewrite Hk in Hother.
      destruct (WorldStore.chunks s !! k) as [st0|] eqn:E0; [|contradiction].
      destruct Hother as (-> & _). exact (Hwf _ _ E0).
Qed.

(** X19.  [setBlock] of the single-player store on a cell whose chunk is
    not resident returns false and leaves the store as it was.  When it
    returns true, the cell reads as the new block (reduced to 16 bits) and
    every other cell as before; the chunk of the cell is flagged dirty and
    in need of a new mesh and is stamped with the time of the call; no chunk
    appears or disappears, and the other chunks change at most in asking for
    a new mesh, which the neighbour across the border does when the cell
    lies on a border of its chunk.  The scheduler's queues are not
    touched. *)
Theorem client_setBlock_edits_one_cell
    (s : WorldStore.t) (x y z b x' y' z' : Z) (now : float) :
  storeWellFormed s ->
  let r := WorldStore.setBlock s x y z b now in
  let key := Chunk.chunkKey (x / 16) (z / 16) in
  (WorldStore.chunks s !! key = None -> r = (false, s)) /\
  (fst r = true ->
   WorldStore.blockAt (snd r) x y z = Some (b mod 65536) /\
   ((x', y', z') <> (x, y, z) ->
    WorldStore.blockAt (snd r) x' y' z' = WorldStore.blockAt s x' y' z') /\
   (exists st st', WorldStore.chunks s !! key = Some st /\
      WorldStore.chunks (snd r) !! key = Some st' /\
      WorldStore.chunk st' = Chunk.set (WorldStore.chunk st) (x mod 16) y (z mod 16) b /\
      WorldStore.dirty st' = true /\ WorldStore.meshDirty st' = true /\
      WorldStore.lastTouched st' = now) /\
   (forall k, k <> key ->
      remeshedAt (WorldStore.chunks s) (WorldStore.chunks (snd r)) k) /\
   (forall st, x mod 16 = 0 ->
      WorldStore.chunks (snd r) !! Chunk.chunkKey (x / 16 - 1) (z / 16) = Some st ->
      WorldStore.meshDirty st = true) /\
   (forall st, x mod 16 = 15 ->
      WorldStore.chunks (snd r) !! Chunk.chunkKey (x / 16 + 1) (z / 16) = Some st ->
      WorldStore.meshDirty st = true) /\
   (forall st, z mod 16 = 0 ->
      WorldStore.chunks (snd r) !! Chunk.chunkKey (x / 16) (z / 16 - 1) = Some st ->
      WorldStore.meshDirty st = true) /\
   (forall st, z mod 16 = 15 ->
      WorldStore.chunks (snd r) !! Chunk.chunkKey (x / 16) (z / 16 + 1) = Some st ->
      WorldStore.meshDirty st = true) /\
   scheduler (snd r) = scheduler s /\
   storeWellFormed (snd r)).
Proof. exact (client_setBlock_spec s x y z b x' y' z' now). Qed.

Lemma solo_store_wellFormed : storeWellFormed Solo.store.
Proof.
  intros key st Hk. unfold Solo.store in Hk.
  cbn [WorldStore.chunks WorldStore.withChunks] in Hk.
  apply lookup_insert_Some in Hk as [[_ <-]|[_ Hk]].
  - apply sample_stoneChunk_wellFormed.
  - apply lookup_singleton_Some in Hk as [_ <-]. apply newChunkData_wellFormed.
Qed.

Lemma client_setBlock_edits_one_cell_witness :
  let r := WorldStore.setBlock Solo.store 0 39 5 BlockId.Air 1 in
  let key := Chunk.chunkKey (0 / 16) (5 / 16) in
  (WorldStore.chunks Solo.store !! key = None -> r = (false, Solo.store)) /\
  (fst r = true ->
   WorldStore.blockAt (snd r) 0 39 5 = Some (BlockId.Air mod 65536) /\
   ((0, 38, 5) <> (0, 39, 5) ->
    WorldStore.blockAt (snd r) 0 38 5 = WorldStore.blockAt Solo.store 0 38 5) /\
   (exists st st', WorldStore.chunks Solo.store !! key = Some st /\
      WorldStore.chunks (snd r) !! key = Some st' /\
      WorldStore.chunk st' =
        Chunk.set (WorldStore.chunk st) (0 mod 16) 39 (5 mod 16) BlockId.Air /\
      WorldStore.dirty st' = true /\ WorldStore.meshDirty st' = true /\
      WorldStore.lastTouched st' = 1%float) /\
   (forall k, k <> key ->
      remeshedAt (WorldStore.chunks Solo.store) (WorldStore.chunks (snd r)) k) /\
   (forall st, 0 mod 16 = 0 ->
      WorldStore.chunks (snd r) !! Chunk.chunkKey (0 / 16 - 1) (5 / 16) = Some st ->
      WorldStore.meshDirty st = true) /\
   (forall st, 0 mod 16 = 15 ->
      WorldStore.chunks (snd r) !! Chunk.chunkKey (0 / 16 + 1) (5 / 16) = Some st ->
      WorldStore.meshDirty st = true) /\
   (forall st, 5 mod 16 = 0 ->
      WorldStore.chunks (snd r) !! Chunk.chunkKey (0 / 16) (5 / 16 - 1) = Some st ->
      WorldStore.meshDirty st = true) /\
   (forall st, 5 mod 16 = 15 ->
      WorldStore.chunks (snd r) !! Chunk.chunkKey (0 / 16) (5 / 16 + 1) = Some st ->
      WorldStore.meshDirty st = true) /\
   scheduler (snd r) = scheduler Solo.store /\
   storeWellFormed (snd r)).
Proof.
  apply (client_setBlock_edits_one_cell Solo.store 0 39 5 BlockId.Air 0 38 5 1).
  apply solo_store_wellFormed.
Defined.

(** In the sample store the edit goes through. *)
Example solo_edit_goes_through :
  fst (WorldStore.setBlock Solo.store 0 39 5 BlockId.Air 1) = true.
Proof. vm_compute. reflexivity. Qed.

(** ** The single-player store: eviction and flushing *)

Lemma unloadScan_rejected (s : WorldStore.t) (center : Z * Z) (radius : Z)
    (saveOk : string -> bool) (entries : list (string * WorldStore.ChunkState))
    (removals : list string) :
  snd (WorldStore.unloadScan s center radius saveOk entries removals) = None <->
  exists key st, (key, st) ∈ entries /\ isFar center radius key = true /\
    WorldStore.dirty st = true /\ saveOk (storageKeyFor s key) = false.
Proof.
  revert removals. induction entries as [|[k st] rest IH]; intros removals.
  - cbn. split; [discriminate|]. intros (key & st & Hin & _). inversion Hin.
  - cbn [WorldStore.unloadScan].
    assert (Hfar : (let '(cx, cz) := Chunk.parseChunkKey k in
                    WorldStore.farther cx (fst center) radius ||
                    WorldStore.farther cz (snd center) radius) = isFar center radius k).
    { unfold isFar. destruct (Chunk.parseChunkKey k). reflexivity. }
    assert (Hkey : WorldStore.storageKeyOf s (fst (Chunk.parseChunkKey k))
                     (snd (Chunk.parseChunkKey k)) = storageKeyFor s k) by reflexivity.
    destruct (Chunk.parseChunkKey k) as [cx cz] eqn:Ep. cbn [fst snd] in Hkey.
    rewrite Hfar. clear Hfar.
    destruct (isFar center radius k) eqn:Ef.
    + destruct (WorldStore.dirty st) eqn:Ed.
      * rewrite Hkey. destruct (saveOk (storageKeyFor s k)) eqn:Eok.
        -- destruct (WorldStore.unloadScan s center radius saveOk rest (removals ++ [k]))
             as [log r] eqn:Er. cbn [snd].
           specialize (IH (removals ++ [k])). rewrite Er in IH. cbn [snd] in IH.
           rewrite IH. split.
           ++ intros (key & st0 & Hin & H). exists key, st0. split; [right; exact Hin|exact H].
           ++ intros (key & st0 & Hin & Hf & Hd & Hs).
              apply elem_of_cons in Hin as [[= -> ->]|Hin]; [congruence|].
              exists key, st0. auto.
        -- cbn [snd]. split; [|reflexivity]. intros _. exists k, st.
           split; [left|auto].
      * rewrite IH. split.
        -- intros (key & st0 & Hin & H). exists key, st0. split; [right; exact Hin|exact H].
        -- intros (key & st0 & Hin & Hf & Hd & Hs).
           apply elem_of_cons in Hin as [[= -> ->]|Hin]; [congruence|].
           exists key, st0. auto.
    + rewrite IH. split.
      * intros (key & st0 & Hin & H). exists key, st0. split; [right; exact Hin|exact H].
      * intros (key & st0 & Hin & Hf & Hd & Hs).
        apply elem_of_cons in Hin as [[= -> ->]|Hin]; [congruence|].
        exists key, st0. auto.
Qed.

Lemma isFar_chunkKey (center : Z * Z) (radius a b : Z) :
  isFar center radius (Chunk.chunkKey a b) = true <->
  radius < Z.abs (a - fst center) \/ radius < Z.abs (b - snd center).
Proof.
  unfold isFar. rewrite parseChunkKey_chunkKey. cbn [fst snd WorldStore.farther].
  rewrite orb_true_iff, !Z.ltb_lt. reflexivity.
Qed.

Lemma unloadFarChunks_exact
    (s : WorldStore.t) (db0 : gmap string (list Z)) (x z radius : Z)
    (saveOk : string -> bool) :
  let r := WorldStore.unloadFarChunks s db0 x z radius saveOk in
  let center := WorldStore.worldToChunk x z in
  (WorldStore.rejected r = true <->
   exists key st, WorldStore.chunks s !! key = Some st /\ isFar center radius key = true /\
     WorldStore.dirty st = true /\ saveOk (storageKeyFor s key) = false) /\
  (WorldStore.rejected r = true -> WorldStore.store r = s) /\
  (WorldStore.rejected r = false ->
   forall key, WorldStore.chunks (WorldStore.store r) !! key =
               if isFar center radius key then None else WorldStore.chunks s !! key) /\
  (forall a b, isFar center radius (Chunk.chunkKey a b) = true <->
               radius < Z.abs (a - x / 16) \/ radius < Z.abs (b - z / 16)) /\
  scheduler (WorldStore.store r) = scheduler s.
Proof.
  cbv zeta.
  pose proof (unloadFarChunks_scheduler s db0 x z radius saveOk) as Hsched.
  pose proof (unloadScan_rejected s (WorldStore.worldToChunk x z) radius saveOk
                (map_to_list (WorldStore.chunks s)) []) as Hrej.
  unfold WorldStore.unloadFarChunks in *. cbv zeta in *.
  destruct (WorldStore.unloadScan s (WorldStore.worldToChunk x z) radius saveOk
              (map_to_list (WorldStore.chunks s)) []) as [saves removals] eqn:E.
  cbn [snd] in Hrej.
  assert (Hiff : (exists key st, (key, st) ∈ map_to_list (WorldStore.chunks s) /\
                    isFar (WorldStore.worldToChunk x z) radius key = true /\
                    WorldStore.dirty st = true /\ saveOk (storageKeyFor s key) = false) <->
                 (exists key st, WorldStore.chunks s !! key = Some st /\
                    isFar (WorldStore.worldToChunk x z) radius key = true /\
                    WorldStore.dirty st = true /\ saveOk (storageKeyFor s key) = false)).
  { split; intros (key & st & Hin & H); exists key, st; (split; [|exact H]);
      apply elem_of_map_to_list; exact Hin. }
  split_and!.
  - rewrite <- Hiff, <- Hrej. destruct removals; cbn [WorldStore.rejected]; split; congruence.
  - destruct removals; cbn [WorldStore.rejected WorldStore.store]; [discriminate|reflexivity].
  - destruct removals as [keys|]; cbn [WorldStore.rejected WorldStore.store];
      [intros _|discriminate].
    intros key. cbn [WorldStore.chunks WorldStore.withChunks]. rewrite lookup_fold_delete.
    destruct (unloadScan_spec _ _ _ _ _ _ _ _ E) as (added & -> & Hfar & Hall).
    rewrite app_nil_l.
    destruct (isFar (WorldStore.worldToChunk x z) radius key) eqn:Ef.
    + destruct (WorldStore.chunks s !! key) as [st|] eqn:Ek.
      * rewrite bool_decide_eq_true_2; [reflexivity|].
        apply (Hall key st); [apply elem_of_map_to_list; exact Ek|exact Ef].
      * destruct (bool_decide _); reflexivity.
    + rewrite bool_decide_eq_false_2; [reflexivity|].
      intros Hin. apply Hfar in Hin. congruence.
  - intros a b. apply isFar_chunkKey.
  - exact Hsched.
Qed.

(** X20.  [unloadFarChunks] is refused exactly when the repository rejects
    the write of a resident chunk that is dirty and beyond the radius, and
    then no chunk leaves the store.  Otherwise the store afterwards holds
    exactly the chunks that are not beyond the radius, each as it was: a
    chunk is beyond the radius when one of its two coordinates differs from
    the centre chunk's by more than the radius.  The scheduler's queues are
    not touched either way. *)
Theorem unloadFarChunks_removes_exactly_the_far
    (s : WorldStore.t) (db0 : gmap string (list Z)) (x z radius : Z)
    (saveOk : string -> bool) :
  let r := WorldStore.unloadFarChunks s db0 x z radius saveOk in
  let center := WorldStore.worldToChunk x z in
  (WorldStore.rejected r = true <->
   exists key st, WorldStore.chunks s !! key = Some st /\ isFar center radius key = true /\
     WorldStore.dirty st = true /\ saveOk (storageKeyFor s key) = false) /\
  (WorldStore.rejected r = true -> WorldStore.store r = s) /\
  (WorldStore.rejected r = false ->
   forall key, WorldStore.chunks (WorldStore.store r) !! key =
               if isFar center radius key then None else WorldStore.chunks s !! key) /\
  (forall a b, isFar center radius (Chunk.chunkKey a b) = true <->
               radius < Z.abs (a - x / 16) \/ radius < Z.abs (b - z / 16)) /\
  scheduler (WorldStore.store r) = scheduler s.
Proof. exact (unloadFarChunks_exact s db0 x z radius saveOk). Qed.

Lemma applySaves_miss (saveOk : string -> bool) (log : list WorldStore.Effect)
    (db : gmap string (list Z)) (q : string) :
  (forall b, WorldStore.SaveChunk q b ∈ log -> saveOk q = false) ->
  WorldStore.applySaves saveOk log db !! q = db !! q.
Proof.
  unfold WorldStore.applySaves. revert db.
  induction log as [|ev log IH]; intros db H; [reflexivity|].
  cbn [fold_left]. rewrite IH by (intros b Hb; apply (H b); right; exact Hb).
  destruct ev as [k b|k]; [|reflexivity].
  destruct (saveOk k) eqn:Ek; [|reflexivity].
  apply lookup_insert_ne. intros ->.
  rewrite (H b) in Ek by left. discriminate.
Qed.

Lemma applySaves_hit (saveOk : string -> bool) (log : list WorldStore.Effect)
    (db : gmap string (list Z)) (q : string) (b0 : list Z) :
  (forall b, WorldStore.SaveChunk q b ∈ log -> b = b0) ->
  saveOk q = true ->
  (exists b, WorldStore.SaveChunk q b ∈ log) \/ db !! q = Some b0 ->
  WorldStore.applySaves saveOk log db !! q = Some b0.
Proof.
  unfold WorldStore.applySaves. revert db.
  induction log as [|ev log IH]; intros db Hsame Hok Hin.
  - destruct Hin as [(b & Hb)|Hdb]; [inversion Hb|exact Hdb].
  - cbn [fold_left]. apply IH; [intros b Hb; apply Hsame; right; exact Hb|exact Hok|].
    destruct ev as [k b|k].
    + destruct (decide (k = q)) as [->|Hne].
      * right. rewrite Hok. rewrite (Hsame b) by left. apply lookup_insert_eq.
      * destruct Hin as [(b' & Hb)|Hdb].
        -- apply elem_of_cons in Hb as [[= -> ->]|Hb]; [contradiction|]. left. eauto.
        -- right. destruct (saveOk k); [rewrite lookup_insert_ne by exact Hne|]; exact Hdb.
    + destruct Hin as [(b' & Hb)|Hdb]; [|right; exact Hdb].
      apply elem_of_cons in Hb as [[=]|Hb]. left. eauto.
Qed.

Lemma storageKeyFor_chunkKey (s : WorldStore.t) (a b : Z) :
  storageKeyFor s (Chunk.chunkKey a b) = WorldStore.storageChunkKey s a b.
Proof. unfold storageKeyFor. rewrite parseChunkKey_chunkKey. reflexivity. Qed.

Lemma storageChunkKey_inj (s : WorldStore.t) (a b c d : Z) :
  WorldStore.storageChunkKey s a b = WorldStore.storageChunkKey s c d -> a = c /\ b = d.
Proof.
  unfold WorldStore.storageChunkKey, WorldStore.storageKeyOf. cbn [Chunk.showNumber].
  intros H. apply append_inv_head in H. apply chunkKey_inj. exact H.
Qed.

Lemma withDirty_clean (st : WorldStore.ChunkState) :
  WorldStore.dirty st = false -> WorldStore.withDirty st false = st.
Proof. destruct st. cbn. intros ->. reflexivity. Qed.

(** ** The single-player store: flushDirtyChunks, run by run *)

(** Where [flushSeek] stops: at the first of the keys whose chunk is dirty,
    with the blocks the chunk has then. *)
Lemma flushSeek_spec (s : WorldStore.t) (saveOk : string -> bool) (keys : list string) :
  match WorldStore.flushSeek s saveOk keys with
  | Some (ev, f) =>
      exists pre st,
        keys = pre ++ WorldStore.awaited f :: WorldStore.todo f /\
        (forall k st', k ∈ pre -> WorldStore.chunks s !! k = Some st' ->
           WorldStore.dirty st' = false) /\
        WorldStore.chunks s !! WorldStore.awaited f = Some st /\
        WorldStore.dirty st = true /\
        ev = WorldStore.SaveChunk (storageKeyFor s (WorldStore.awaited f))
               (Chunk.blocks (WorldStore.chunk st)) /\
        WorldStore.accepted f = saveOk (storageKeyFor s (WorldStore.awaited f))
  | None =>
      forall k st', k ∈ keys -> WorldStore.chunks s !! k = Some st' ->
        WorldStore.dirty st' = false
  end.
Proof.
  induction keys as [|key rest IH]; cbn [WorldStore.flushSeek].
  - intros k st' Hk. inversion Hk.
  - assert (Hskip : forall P : Prop,
              (forall st', WorldStore.chunks s !! key = Some st' ->
                 WorldStore.dirty st' = false) ->
              match WorldStore.flushSeek s saveOk rest with
              | Some (ev, f) =>
                  exists pre st,
                    key :: rest = pre ++ WorldStore.awaited f :: WorldStore.todo f /\
                    (forall k st', k ∈ pre -> WorldStore.chunks s !! k = Some st' ->
                       WorldStore.dirty st' = false) /\
                    WorldStore.chunks s !! WorldStore.awaited f = Some st /\
                    WorldStore.dirty st = true /\
                    ev = WorldStore.SaveChunk (storageKeyFor s (WorldStore.awaited f))
                           (Chunk.blocks (WorldStore.chunk st)) /\
                    WorldStore.accepted f = saveOk (storageKeyFor s (WorldStore.awaited f))
              | None =>
                  forall k st', k ∈ key :: rest -> WorldStore.chunks s !! k = Some st' ->
                    WorldStore.dirty st' = false
              end).
    { intros _ Hkey. destruct (WorldStore.flushSeek s saveOk rest) as [[ev f]|].
      - destruct IH as (pre & st & -> & Hpre & Hst & Hd & Hev & Hok).
        exists (key :: pre), st. split; [reflexivity|]. split; [|auto].
        intros k st' Hk Hl. apply elem_of_cons in Hk as [->|Hk]; [apply Hkey; exact Hl|].
        apply (Hpre k st' Hk Hl).
      - intros k st' Hk Hl. apply elem_of_cons in Hk as [->|Hk]; [apply Hkey; exact Hl|].
        apply (IH k st' Hk Hl). }
    destruct (WorldStore.chunks s !! key) as [state|] eqn:Ek.
    + destruct (WorldStore.dirty state) eqn:Ed; cbn [negb].
      * assert (Hkey : WorldStore.storageKeyOf s (fst (Chunk.parseChunkKey key))
                         (snd (Chunk.parseChunkKey key)) = storageKeyFor s key) by reflexivity.
        destruct (Chunk.parseChunkKey key) as [cx cz]. cbn [fst snd] in Hkey. rewrite Hkey.
        exists [], state. cbn [WorldStore.awaited WorldStore.accepted WorldStore.todo app].
        split; [reflexivity|]. split; [intros k st' Hk; inversion Hk|]. auto.
      * apply (Hskip True). intros st' [= <-]. exact Ed.
    + apply (Hskip True). intros st' [=].
Qed.

(** What [flushResume] does to the store. *)
Lemma flushResume_spec (mid : WorldStore.t) (saveOk : string -> bool) (f : WorldStore.Flush)
    (live : bool) (keys : list string) :
  let r := WorldStore.flushResume mid saveOk f live keys in
  let s' := fst (fst r) in
  (WorldStore.accepted f = false -> r = (mid, None, true)) /\
  (WorldStore.accepted f = true ->
   snd r = false /\
   snd (fst r) = WorldStore.flushSeek s' saveOk keys /\
   scheduler s' = scheduler mid /\
   (forall k, k <> WorldStore.awaited f ->
      WorldStore.chunks s' !! k = WorldStore.chunks mid !! k) /\
   WorldStore.chunks s' !! WorldStore.awaited f =
     if live
     then option_map (fun st => WorldStore.withDirty st false)
            (WorldStore.chunks mid !! WorldStore.awaited f)
     else WorldStore.chunks mid !! WorldStore.awaited f).
Proof.
  cbv zeta. unfold WorldStore.flushResume.
  destruct (WorldStore.accepted f); cbn [negb]; (split; [intros H|intros H]);
    try discriminate; [|reflexivity].
  cbn [fst snd]. split; [reflexivity|]. split; [reflexivity|].
  destruct (WorldStore.chunks mid !! WorldStore.awaited f) as [state|] eqn:Ek.
  - destruct live.
    + cbn [WorldStore.chunks WorldStore.withChunks option_map]. split; [reflexivity|].
      split; [|apply lookup_insert_eq].
      intros k Hk. apply lookup_insert_ne. congruence.
    + rewrite Ek. auto.
  - rewrite Ek. destruct live; auto.
Qed.

(** A call that nothing disturbs is [flushSeek] and [flushResume] by
    turns, each run on the store that the run before it left. *)
Lemma flushUndisturbed_turns (s : WorldStore.t) (saveOk : string -> bool) (keys : list string) :
  WorldStore.flushUndisturbed s saveOk keys =
  match WorldStore.flushSeek s saveOk keys with
  | None => ([], s, false)
  | Some (ev, f) =>
      if snd (WorldStore.flushResume s saveOk f true (WorldStore.todo f)) then ([ev], s, true)
      else
        let s' := fst (fst (WorldStore.flushResume s saveOk f true (WorldStore.todo f))) in
        let '(log, s'', r) := WorldStore.flushUndisturbed s' saveOk (WorldStore.todo f) in
        (ev :: log, s'', r)
  end.
Proof.
  induction keys as [|key rest IH]; cbn [WorldStore.flushUndisturbed WorldStore.flushSeek];
    [reflexivity|].
  destruct (WorldStore.chunks s !! key) as [state|] eqn:Ek; [|exact IH].
  destruct (WorldStore.dirty state) eqn:Ed; cbn [negb]; [|exact IH].
  destruct (Chunk.parseChunkKey key) as [cx cz].
  unfold WorldStore.flushResume. cbn [WorldStore.awaited WorldStore.accepted WorldStore.todo].
  destruct (saveOk (WorldStore.storageKeyOf s cx cz)); cbn [negb fst snd]; [|reflexivity].
  rewrite Ek. reflexivity.
Qed.

(** A successful [setBlock] found the chunk of the cell resident, with
    another block in the cell. *)
Lemma client_setBlock_true (s : WorldStore.t) (x y z b : Z) (now : float) :
  fst (WorldStore.setBlock s x y z b now) = true ->
  0 <= y < 96 /\
  exists st, WorldStore.chunks s !! Chunk.chunkKey (x / 16) (z / 16) = Some st /\
    Chunk.get (WorldStore.chunk st) (x mod 16) y (z mod 16) <> Some b.
Proof.
  unfold WorldStore.setBlock. cbv zeta.
  unfold WorldStore.worldToChunkLocal, WorldStore.floorDiv.
  cbn [WorldStore.l_cx WorldStore.l_cz WorldStore.l_lx WorldStore.l_lz].
  unfold Config.CHUNK_SIZE. rewrite !mod__spec by lia.
  destruct ((y <? 0) || (Config.WORLD_HEIGHT <=? y)) eqn:Ey; [intros [=]|].
  apply orb_false_iff in Ey as [Ey1 Ey2]. apply Z.ltb_ge in Ey1. apply Z.leb_gt in Ey2.
  unfold Config.WORLD_HEIGHT in Ey2.
  destruct (WorldStore.chunks s !! Chunk.chunkKey (x / 16) (z / 16)) as [st|]; [|intros [=]].
  destruct (bool_decide _) eqn:Eold; [intros [=]|]. intros _.
  apply bool_decide_eq_false in Eold. split; [lia|]. exists st. auto.
Qed.

(** An edit of a chunk while its write is awaited: the write took the
    blocks before the edit, and the run after the wait clears the flag that
    the edit set. *)
Lemma flushResume_after_edit (s mid : WorldStore.t) (saveOk : string -> bool)
    (f : WorldStore.Flush) (keys' : list string) (st : WorldStore.ChunkState)
    (x y z b : Z) (now : float) :
  storeWellFormed s ->
  0 <= b < 65536 ->
  WorldStore.chunks s !! WorldStore.awaited f = Some st ->
  WorldStore.awaited f = Chunk.chunkKey (x / 16) (z / 16) ->
  WorldStore.accepted f = true ->
  WorldStore.setBlock s x y z b now = (true, mid) ->
  let s' := fst (fst (WorldStore.flushResume mid saveOk f true keys')) in
  exists st', WorldStore.chunks s' !! WorldStore.awaited f = Some st' /\
    WorldStore.dirty st' = false /\
    Chunk.blocks (WorldStore.chunk st') <> Chunk.blocks (WorldStore.chunk st) /\
    WorldStore.blockAt s' x y z = Some b /\
    WorldStore.blockAt s x y z <> Some b.
Proof.
  intros Hwf Hb Hst Hkey Hacc Hset. cbv zeta.
  assert (Htrue : fst (WorldStore.setBlock s x y z b now) = true) by (rewrite Hset; reflexivity).
  destruct (client_setBlock_true s x y z b now Htrue) as (Hy & st0 & Hst0 & Hold).
  rewrite Hkey in Hst. rewrite Hst in Hst0. injection Hst0 as <-.
  destruct (client_setBlock_spec s x y z b x y z now Hwf) as (_ & Hspec).
  destruct (Hspec Htrue) as (Hnew & _ & (st1 & stm & Hst1 & Hstm & Hchunk & _) & _).
  rewrite Hset in Hnew, Hstm. cbn [snd] in Hnew, Hstm.
  rewrite Hst in Hst1. injection Hst1 as <-.
  rewrite Z.mod_small in Hnew by lia.
  destruct (flushResume_spec mid saveOk f true keys') as (_ & Hres).
  destruct (Hres Hacc) as (_ & _ & _ & _ & Hat). cbv zeta in Hat.
  rewrite Hkey in Hat. rewrite Hstm in Hat. cbn [option_map] in Hat.
  rewrite client_blockAt_inside in Hnew by exact Hy. rewrite Hstm in Hnew.
  assert (Hget : forall c c', Chunk.blocks c' = Chunk.blocks c ->
            Chunk.get c' (x mod 16) y (z mod 16) = Chunk.get c (x mod 16) y (z mod 16)).
  { intros c c' Hc. unfold Chunk.get. rewrite Hc. reflexivity. }
  exists (WorldStore.withDirty stm false). rewrite Hkey. split; [exact Hat|].
  split; [destruct stm; reflexivity|].
  assert (Hc : WorldStore.chunk (WorldStore.withDirty stm false) = WorldStore.chunk stm)
    by (destruct stm; reflexivity).
  split; [|split].
  - rewrite Hc. intros Heq. apply Hold. rewrite <- (Hget _ _ Heq). exact Hnew.
  - rewrite client_blockAt_inside by exact Hy. rewrite Hat, Hc. exact Hnew.
  - rewrite client_blockAt_inside by exact Hy. rewrite Hst. exact Hold.
Qed.

(** X21.  [flushDirtyChunks] of the single-player store, run by run.  The
    loop stops at the first dirty chunk that its iterator yields: it starts
    the write of the blocks which the chunk has then under the storage key
    of the chunk, and waits.  A rejected write ends the call with an error
    and no change of the store.  After an accepted write the call clears
    the dirty flag of that chunk, if the chunk has not been unloaded
    since, changes nothing else of the store, and goes on with the keys
    that are left.  The flag is cleared after the wait and without a look
    at the chunk: when a block of the chunk is set during the wait, the
    chunk is marked as saved although the repository received the blocks
    from before the edit. *)
Theorem flush_clears_the_flag_after_the_wait (s mid : WorldStore.t)
    (saveOk : string -> bool) (keys keys' : list string) (ev : WorldStore.Effect)
    (f : WorldStore.Flush) (live : bool) :
  WorldStore.flushSeek s saveOk keys = Some (ev, f) ->
  let r := WorldStore.flushResume mid saveOk f live keys' in
  let s' := fst (fst r) in
  (exists pre st,
     keys = pre ++ WorldStore.awaited f :: WorldStore.todo f /\
     (forall k st', k ∈ pre -> WorldStore.chunks s !! k = Some st' ->
        WorldStore.dirty st' = false) /\
     WorldStore.chunks s !! WorldStore.awaited f = Some st /\
     WorldStore.dirty st = true /\
     ev = WorldStore.SaveChunk (storageKeyFor s (WorldStore.awaited f))
            (Chunk.blocks (WorldStore.chunk st)) /\
     WorldStore.accepted f = saveOk (storageKeyFor s (WorldStore.awaited f)) /\
     (WorldStore.accepted f = true ->
      forall db0, WorldStore.applySaves saveOk [ev] db0 !!
                    storageKeyFor s (WorldStore.awaited f) =
                  Some (Chunk.blocks (WorldStore.chunk st))) /\
     (forall x y z b now,
        storeWellFormed s -> 0 <= b < 65536 ->
        WorldStore.awaited f = Chunk.chunkKey (x / 16) (z / 16) ->
        WorldStore.accepted f = true -> live = true ->
        WorldStore.setBlock s x y z b now = (true, mid) ->
        exists st', WorldStore.chunks s' !! WorldStore.awaited f = Some st' /\
          WorldStore.dirty st' = false /\
          Chunk.blocks (WorldStore.chunk st') <> Chunk.blocks (WorldStore.chunk st) /\
          WorldStore.blockAt s' x y z = Some b /\
          WorldStore.blockAt s x y z <> Some b)) /\
  (WorldStore.accepted f = false -> r = (mid, None, true)) /\
  (WorldStore.accepted f = true ->
   snd r = false /\
   snd (fst r) = WorldStore.flushSeek s' saveOk keys' /\
   scheduler s' = scheduler mid /\
   (forall k, k <> WorldStore.awaited f ->
      WorldStore.chunks s' !! k = WorldStore.chunks mid !! k) /\
   WorldStore.chunks s' !! WorldStore.awaited f =
     if live
     then option_map (fun st => WorldStore.withDirty st false)
            (WorldStore.chunks mid !! WorldStore.awaited f)
     else WorldStore.chunks mid !! WorldStore.awaited f).
Proof.
  intros Hseek. cbv zeta.
  pose proof (flushSeek_spec s saveOk keys) as Hspec. rewrite Hseek in Hspec.
  destruct Hspec as (pre & st & Hkeys & Hpre & Hst & Hd & Hev & Hok).
  split; [|exact (flushResume_spec mid saveOk f live keys')].
  exists pre, st. do 6 (split; [assumption|]). split.
  - intros Hacc db0. rewrite Hev. unfold WorldStore.applySaves. cbn [fold_left].
    rewrite <- Hok, Hacc. apply lookup_insert_eq.
  - intros x y z b now Hwf Hb Hkey Hacc -> Hset.
    exact (flushResume_after_edit s mid saveOk f keys' st x y z b now Hwf Hb Hst Hkey Hacc Hset).
Qed.

Lemma flush_clears_the_flag_after_the_wait_witness :
  let s := Solo.store in
  let mid := snd (WorldStore.setBlock Solo.store 0 39 5 BlockId.Air 1) in
  let saveOk := fun _ : string => true in
  let keys := [Chunk.chunkKey (-1) 0; Chunk.chunkKey 0 0] in
  let keys' : list string := [] in
  let ev := WorldStore.SaveChunk (WorldStore.storageChunkKey Solo.store 0 0)
              (Chunk.blocks Sample.stoneChunk) in
  let f := {| WorldStore.awaited := Chunk.chunkKey 0 0; WorldStore.accepted := true;
              WorldStore.todo := [] |} in
  let live := true in
  WorldStore.flushSeek s saveOk keys = Some (ev, f) /\
  let r := WorldStore.flushResume mid saveOk f live keys' in
  let s' := fst (fst r) in
  (exists pre st,
     keys = pre ++ WorldStore.awaited f :: WorldStore.todo f /\
     (forall k st', k ∈ pre -> WorldStore.chunks s !! k = Some st' ->
        WorldStore.dirty st' = false) /\
     WorldStore.chunks s !! WorldStore.awaited f = Some st /\
     WorldStore.dirty st = true /\
     ev = WorldStore.SaveChunk (storageKeyFor s (WorldStore.awaited f))
            (Chunk.blocks (WorldStore.chunk st)) /\
     WorldStore.accepted f = saveOk (storageKeyFor s (WorldStore.awaited f)) /\
     (WorldStore.accepted f = true ->
      forall db0, WorldStore.applySaves saveOk [ev] db0 !!
                    storageKeyFor s (WorldStore.awaited f) =
                  Some (Chunk.blocks (WorldStore.chunk st))) /\
     (forall x y z b now,
        storeWellFormed s -> 0 <= b < 65536 ->
        WorldStore.awaited f = Chunk.chunkKey (x / 16) (z / 16) ->
        WorldStore.accepted f = true -> live = true ->
        WorldStore.setBlock s x y z b now = (true, mid) ->
        exists st', WorldStore.chunks s' !! WorldStore.awaited f = Some st' /\
          WorldStore.dirty st' = false /\
          Chunk.blocks (WorldStore.chunk st') <> Chunk.blocks (WorldStore.chunk st) /\
          WorldStore.blockAt s' x y z = Some b /\
          WorldStore.blockAt s x y z <> Some b)) /\
  (WorldStore.accepted f = false -> r = (mid, None, true)) /\
  (WorldStore.accepted f = true ->
   snd r = false /\
   snd (fst r) = WorldStore.flushSeek s' saveOk keys' /\
   scheduler s' = scheduler mid /\
   (forall k, k <> WorldStore.awaited f ->
      WorldStore.chunks s' !! k = WorldStore.chunks mid !! k) /\
   WorldStore.chunks s' !! WorldStore.awaited f =
     if live
     then option_map (fun st => WorldStore.withDirty st false)
            (WorldStore.chunks mid !! WorldStore.awaited f)
     else WorldStore.chunks mid !! WorldStore.awaited f).
Proof.
  assert (H : WorldStore.flushSeek Solo.store (fun _ : string => true)
                [Chunk.chunkKey (-1) 0; Chunk.chunkKey 0 0] =
              Some (WorldStore.SaveChunk (WorldStore.storageChunkKey Solo.store 0 0)
                      (Chunk.blocks Sample.stoneChunk),
                    {| WorldStore.awaited := Chunk.chunkKey 0 0; WorldStore.accepted := true;
                       WorldStore.todo := [] |})) by reflexivity.
  split; [exact H|].
  exact (flush_clears_the_flag_after_the_wait Solo.store
           (snd (WorldStore.setBlock Solo.store 0 39 5 BlockId.Air 1)) (fun _ => true)
           [Chunk.chunkKey (-1) 0; Chunk.chunkKey 0 0] [] _ _ true H).
Defined.

(** The sample store while the write of chunk (0, 0) is awaited: the block
    at (0, 39, 5) is removed, the write is accepted, and the call goes on.
    The chunk ends up marked as saved and without the block, and the
    repository received the chunk with the block. *)
Example edit_during_the_wait_is_marked_saved :
  let saveOk := fun _ : string => true in
  let f := {| WorldStore.awaited := Chunk.chunkKey 0 0; WorldStore.accepted := true;
              WorldStore.todo := [] |} in
  let mid := snd (WorldStore.setBlock Solo.store 0 39 5 BlockId.Air 1) in
  let s' := fst (fst (WorldStore.flushResume mid saveOk f true [])) in
  option_map fst (WorldStore.flushSeek Solo.store saveOk [Chunk.chunkKey 0 0]) =
    Some (WorldStore.SaveChunk (WorldStore.storageChunkKey Solo.store 0 0)
            (Chunk.blocks Sample.stoneChunk)) /\
  Chunk.get Sample.stoneChunk 0 39 5 = Some BlockId.Stone /\
  fst (WorldStore.setBlock Solo.store 0 39 5 BlockId.Air 1) = true /\
  WorldStore.blockAt s' 0 39 5 = Some BlockId.Air /\
  option_map WorldStore.dirty (WorldStore.chunks s' !! Chunk.chunkKey 0 0) = Some false.
Proof.
  cbv zeta. split; [reflexivity|]. split; [vm_compute; reflexivity|].
  split; [vm_compute; reflexivity|]. split; vm_compute; reflexivity.
Qed.

Lemma solo_store_keysOk : storeKeysOk Solo.store.
Proof.
  intros key st Hk. unfold Solo.store in Hk.
  cbn [WorldStore.chunks WorldStore.withChunks] in Hk.
  apply lookup_insert_Some in Hk as [[<- _]|[_ Hk]]; [eauto|].
  apply lookup_singleton_Some in Hk as [<- _]. eauto.
Qed.

(** ** The single-player store: a chunk that leaves and comes back *)

Lemma unloadScan_log (s : WorldStore.t) (center : Z * Z) (radius : Z)
    (saveOk : string -> bool) (entries : list (string * WorldStore.ChunkState))
    (removals : list string) (ev : WorldStore.Effect) :
  ev ∈ fst (WorldStore.unloadScan s center radius saveOk entries removals) ->
  exists k st, (k, st) ∈ entries /\ WorldStore.dirty st = true /\
    ev = WorldStore.SaveChunk (storageKeyFor s k) (Chunk.blocks (WorldStore.chunk st)).
Proof.
  revert removals. induction entries as [|[k st] rest IH]; intros removals.
  - cbn. intros H. inversion H.
  - cbn [WorldStore.unloadScan].
    assert (Hkey : WorldStore.storageKeyOf s (fst (Chunk.parseChunkKey k))
                     (snd (Chunk.parseChunkKey k)) = storageKeyFor s k) by reflexivity.
    destruct (Chunk.parseChunkKey k) as [cx cz] eqn:Ep. cbn [fst snd] in Hkey.
    assert (Hrest : forall removals',
              ev ∈ fst (WorldStore.unloadScan s center radius saveOk rest removals') ->
              exists k0 st0, (k0, st0) ∈ (k, st) :: rest /\ WorldStore.dirty st0 = true /\
                ev = WorldStore.SaveChunk (storageKeyFor s k0)
                       (Chunk.blocks (WorldStore.chunk st0))).
    { intros removals' H. destruct (IH _ H) as (k0 & st0 & Hi & H0).
      exists k0, st0. split; [right; exact Hi|exact H0]. }
    destruct (_ || _); [|apply Hrest].
    destruct (WorldStore.dirty st) eqn:Ed; [|apply Hrest].
    rewrite Hkey. destruct (saveOk (storageKeyFor s k)).
    + specialize (Hrest (removals ++ [k])).
      destruct (WorldStore.unloadScan s center radius saveOk rest (removals ++ [k]))
        as [log r]. cbn [fst] in *.
      intros H. apply elem_of_cons in H as [->|H]; [|apply Hrest; exact H].
      exists k, st. split_and!; auto. left.
    + cbn [fst]. intros H. apply list_elem_of_singleton in H as ->.
      exists k, st. split_and!; auto. left.
Qed.

Lemma loadChunkResolved_lookup (s : WorldStore.t) (cx cz : Z) (persisted : option (list Z))
    (now : float) :
  exists st, WorldStore.chunks (WorldStore.loadChunkResolved s cx cz persisted now) !!
               Chunk.chunkKey cx cz = Some st /\
    WorldStore.chunk st =
      match persisted with
      | Some b => Chunk.newChunkData cx cz (Some b)
      | None => Generator.generateChunk (WorldStore.generator s) cx cz
      end /\
    WorldStore.dirty st = false /\ WorldStore.meshDirty st = true /\
    WorldStore.lastTouched st = now.
Proof.
  unfold WorldStore.loadChunkResolved. cbv zeta.
  set (st1 := {| WorldStore.chunk := _; WorldStore.dirty := false |}).
  set (s1 := WorldStore.withChunks s _).
  assert (Hs1 : WorldStore.chunks s1 !! Chunk.chunkKey cx cz = Some st1).
  { unfold s1. cbn [WorldStore.chunks WorldStore.withChunks]. apply lookup_insert_eq. }
  assert (H : remeshedAt (WorldStore.chunks s1)
                (WorldStore.chunks
                   (WorldStore.markChunkMeshDirty
                      (WorldStore.markChunkMeshDirty
                         (WorldStore.markChunkMeshDirty
                            (WorldStore.markChunkMeshDirty s1 (cx - 1) cz) (cx + 1) cz)
                         cx (cz - 1)) cx (cz + 1)))
                (Chunk.chunkKey cx cz)).
  { eapply remeshedAt_trans; [|apply markChunkMeshDirty_remeshed].
    eapply remeshedAt_trans; [|apply markChunkMeshDirty_remeshed].
    eapply remeshedAt_trans; [|apply markChunkMeshDirty_remeshed].
    apply markChunkMeshDirty_remeshed. }
  unfold remeshedAt in H. rewrite Hs1 in H.
  match type of H with
  | match ?t with _ => _ end => destruct t as [st|] eqn:E; [|contradiction]
  end.
  destruct H as (Hc & Hd & Hl & Hm). exists st. split_and!; auto.
Qed.

Lemma evicted_chunk_spec (s : WorldStore.t) (db0 : gmap string (list Z)) (x z radius : Z)
    (saveOk : string -> bool) (a b : Z) (st : WorldStore.ChunkState) (now : float)
    (x' y' z' : Z) :
  storeKeysOk s ->
  WorldStore.chunks s !! Chunk.chunkKey a b = Some st ->
  WorldStore.dirty st = true ->
  isFar (WorldStore.worldToChunk x z) radius (Chunk.chunkKey a b) = true ->
  WorldStore.rejected (WorldStore.unloadFarChunks s db0 x z radius saveOk) = false ->
  let r := WorldStore.unloadFarChunks s db0 x z radius saveOk in
  let s2 := WorldStore.loadChunkResolved (WorldStore.store r) a b
              (WorldStore.db r !! WorldStore.storageChunkKey (WorldStore.store r) a b) now in
  WorldStore.chunks (WorldStore.store r) !! Chunk.chunkKey a b = None /\
  WorldStore.db r !! WorldStore.storageChunkKey s a b =
    Some (Chunk.blocks (WorldStore.chunk st)) /\
  (exists st2, WorldStore.chunks s2 !! Chunk.chunkKey a b = Some st2 /\
     WorldStore.chunk st2 = Chunk.newChunkData a b (Some (Chunk.blocks (WorldStore.chunk st))) /\
     WorldStore.dirty st2 = false /\ WorldStore.meshDirty st2 = true) /\
  (x' / 16 = a -> z' / 16 = b ->
   WorldStore.blockAt s2 x' y' z' = WorldStore.blockAt s x' y' z').
Proof.
  intros Hkeys Hk Hd Hfar Hrej. cbv zeta.
  assert (Hgone : WorldStore.chunks
            (WorldStore.store (WorldStore.unloadFarChunks s db0 x z radius saveOk)) !!
            Chunk.chunkKey a b = None).
  { revert Hrej. unfold WorldStore.unloadFarChunks. cbv zeta.
    destruct (WorldStore.unloadScan s (WorldStore.worldToChunk x z) radius saveOk
                (map_to_list (WorldStore.chunks s)) []) as [saves [keys|]] eqn:E;
      cbn [WorldStore.rejected WorldStore.store]; [intros _|discriminate].
    cbn [WorldStore.chunks WorldStore.withChunks]. rewrite lookup_fold_delete.
    destruct (unloadScan_spec _ _ _ _ _ _ _ _ E) as (added & -> & _ & Hall).
    rewrite app_nil_l. rewrite bool_decide_eq_true_2; [reflexivity|].
    apply (Hall _ st); [apply elem_of_map_to_list; exact Hk|exact Hfar]. }
  assert (Hdb : WorldStore.db (WorldStore.unloadFarChunks s db0 x z radius saveOk) !!
                  WorldStore.storageChunkKey s a b =
                Some (Chunk.blocks (WorldStore.chunk st))).
  { revert Hrej. unfold WorldStore.unloadFarChunks. cbv zeta.
    pose proof (fun ev => unloadScan_log s (WorldStore.worldToChunk x z) radius saveOk
                            (map_to_list (WorldStore.chunks s)) [] ev) as Hlog.
    destruct (WorldStore.unloadScan s (WorldStore.worldToChunk x z) radius saveOk
                (map_to_list (WorldStore.chunks s)) []) as [saves [keys|]] eqn:E;
      cbn [WorldStore.rejected WorldStore.db fst] in *; [intros _|discriminate].
    destruct (unloadScan_spec _ _ _ _ _ _ _ _ E) as (added & _ & _ & Hall).
    destruct (Hall _ st (proj2 (elem_of_map_to_list _ _ _) Hk) Hfar) as [_ Hsave].
    destruct (Hsave Hd) as [Hin Hok]. rewrite storageKeyFor_chunkKey in Hin, Hok.
    apply applySaves_hit; [|exact Hok|left; eauto].
    intros blocks Hq. destruct (Hlog _ Hq) as (k0 & st0 & Hi & _ & He).
    apply elem_of_map_to_list in Hi. destruct (Hkeys _ _ Hi) as (a' & b' & ->).
    rewrite storageKeyFor_chunkKey in He. injection He as He ->.
    apply storageChunkKey_inj in He. destruct He as [<- <-].
    rewrite Hk in Hi. injection Hi as <-. reflexivity. }
  assert (Hprefix : WorldStore.storageChunkKey
                      (WorldStore.store (WorldStore.unloadFarChunks s db0 x z radius saveOk))
                      a b = WorldStore.storageChunkKey s a b).
  { unfold WorldStore.unloadFarChunks. cbv zeta.
    destruct (WorldStore.unloadScan _ _ _ _ _ _) as [saves [keys|]]; reflexivity. }
  rewrite Hprefix, Hdb.
  destruct (loadChunkResolved_lookup
              (WorldStore.store (WorldStore.unloadFarChunks s db0 x z radius saveOk)) a b
              (Some (Chunk.blocks (WorldStore.chunk st))) now)
    as (st2 & Hst2 & Hc2 & Hd2 & Hm2 & _).
  split_and!; auto.
  - exists st2. auto.
  - intros <- <-.
    destruct (decide (0 <= y' < 96)) as [Hy|Hy];
      [|rewrite !client_blockAt_outside by exact Hy; reflexivity].
    rewrite !client_blockAt_inside by exact Hy. rewrite Hst2, Hk, Hc2. reflexivity.
Qed.

(** X22.  A dirty chunk that [unloadFarChunks] evicts comes back as it was.
    When the call is not refused, the chunk has left the store and the
    repository holds its blocks under its storage key; when [loadChunk]
    then gets the repository's answer for that chunk, the chunk is resident
    again with exactly those blocks, clean and in need of a mesh, and every
    cell of it reads as before the eviction. *)
Theorem evicted_chunk_comes_back_as_saved
    (s : WorldStore.t) (db0 : gmap string (list Z)) (x z radius : Z)
    (saveOk : string -> bool) (a b : Z) (st : WorldStore.ChunkState) (now : float)
    (x' y' z' : Z) :
  storeKeysOk s ->
  WorldStore.chunks s !! Chunk.chunkKey a b = Some st ->
  WorldStore.dirty st = true ->
  isFar (WorldStore.worldToChunk x z) radius (Chunk.chunkKey a b) = true ->
  WorldStore.rejected (WorldStore.unloadFarChunks s db0 x z radius saveOk) = false ->
  let r := WorldStore.unloadFarChunks s db0 x z radius saveOk in
  let s2 := WorldStore.loadChunkResolved (WorldStore.store r) a b
              (WorldStore.db r !! WorldStore.storageChunkKey (WorldStore.store r) a b) now in
  WorldStore.chunks (WorldStore.store r) !! Chunk.chunkKey a b = None /\
  WorldStore.db r !! WorldStore.storageChunkKey s a b =
    Some (Chunk.blocks (WorldStore.chunk st)) /\
  (exists st2, WorldStore.chunks s2 !! Chunk.chunkKey a b = Some st2 /\
     WorldStore.chunk st2 = Chunk.newChunkData a b (Some (Chunk.blocks (WorldStore.chunk st))) /\
     WorldStore.dirty st2 = false /\ WorldStore.meshDirty st2 = true) /\
  (x' / 16 = a -> z' / 16 = b ->
   WorldStore.blockAt s2 x' y' z' = WorldStore.blockAt s x' y' z').
Proof. exact (evicted_chunk_spec s db0 x z radius saveOk a b st now x' y' z'). Qed.

Lemma solo_eviction_accepted :
  WorldStore.rejected (WorldStore.unloadFarChunks Solo.store ∅ 1000 0 12 (fun _ => true)) = false.
Proof.
  destruct (WorldStore.rejected _) eqn:E; [|reflexivity].
  apply (proj1 (unloadFarChunks_exact Solo.store ∅ 1000 0 12
                  (fun _ => true))) in E.
  destruct E as (key & st & _ & _ & _ & H). discriminate.
Qed.

Lemma evicted_chunk_comes_back_as_saved_witness :
  let st := {| WorldStore.chunk := Sample.stoneChunk; WorldStore.dirty := true;
               WorldStore.meshDirty := false; WorldStore.lastTouched := 0 |} in
  let r := WorldStore.unloadFarChunks Solo.store ∅ 1000 0 12 (fun _ => true) in
  let s2 := WorldStore.loadChunkResolved (WorldStore.store r) 0 0
              (WorldStore.db r !! WorldStore.storageChunkKey (WorldStore.store r) 0 0) 2 in
  WorldStore.chunks (WorldStore.store r) !! Chunk.chunkKey 0 0 = None /\
  WorldStore.db r !! WorldStore.storageChunkKey Solo.store 0 0 =
    Some (Chunk.blocks (WorldStore.chunk st)) /\
  (exists st2, WorldStore.chunks s2 !! Chunk.chunkKey 0 0 = Some st2 /\
     WorldStore.chunk st2 = Chunk.newChunkData 0 0 (Some (Chunk.blocks (WorldStore.chunk st))) /\
     WorldStore.dirty st2 = false /\ WorldStore.meshDirty st2 = true) /\
  (3 / 16 = 0 -> 5 / 16 = 0 ->
   WorldStore.blockAt s2 3 39 5 = WorldStore.blockAt Solo.store 3 39 5).
Proof.
  apply (evicted_chunk_comes_back_as_saved Solo.store ∅ 1000 0 12 (fun _ => true) 0 0
           {| WorldStore.chunk := Sample.stoneChunk; WorldStore.dirty := true;
              WorldStore.meshDirty := false; WorldStore.lastTouched := 0 |} 2 3 39 5).
  - apply solo_store_keysOk.
  - unfold Solo.store. cbn [WorldStore.chunks WorldStore.withChunks]. apply lookup_insert_eq.
  - reflexivity.
  - apply isFar_chunkKey. left. vm_compute. reflexivity.
  - apply solo_eviction_accepted.
Defined.

(** ** Single-player: placing and breaking *)

Lemma client_getBlock_spec (s : WorldStore.t) (x y z : Z) (now : float) :
  fst (WorldStore.getBlock s x y z now) = WorldStore.blockAt s x y z /\
  forall key, touchedAt (WorldStore.chunks s)
                        (WorldStore.chunks (snd (WorldStore.getBlock s x y z now))) key.
Proof.
  assert (Hrefl : forall m key, touchedAt m m key).
  { intros m key. unfold touchedAt. destruct (m !! key); auto. }
  unfold WorldStore.getBlock, WorldStore.blockAt. cbv zeta.
  destruct ((y <? 0) || (Config.WORLD_HEIGHT <=? y)); [split; [reflexivity|apply Hrefl]|].
  destruct (WorldStore.chunks s !! _) as [st|] eqn:E; [|split; [reflexivity|apply Hrefl]].
  cbn [fst snd]. split; [reflexivity|]. intros key. unfold touchedAt.
  cbn [WorldStore.chunks WorldStore.withChunks].
  match goal with
  | |- context [<[?k := _]> _] => destruct (decide (key = k)) as [->|Hne]
  end.
  - rewrite lookup_insert_eq, E. cbn. auto.
  - rewrite lookup_insert_ne by congruence. destruct (WorldStore.chunks s !! key); auto.
Qed.

Lemma touched_sameBlocks (s s' : WorldStore.t) :
  (forall key, touchedAt (WorldStore.chunks s) (WorldStore.chunks s') key) -> sameBlocks s s'.
Proof.
  intros H x y z. destruct (decide (0 <= y < 96)) as [Hy|Hy];
    [|rewrite !client_blockAt_outside by exact Hy; reflexivity].
  rewrite !client_blockAt_inside by exact Hy.
  specialize (H (Chunk.chunkKey (x / 16) (z / 16))). unfold touchedAt in H.
  destruct (WorldStore.chunks s !! _), (WorldStore.chunks s' !! _); try contradiction;
    [|reflexivity].
  destruct H as (-> & _). reflexivity.
Qed.

Lemma touched_wellFormed (s s' : WorldStore.t) :
  (forall key, touchedAt (WorldStore.chunks s) (WorldStore.chunks s') key) ->
  storeWellFormed s -> storeWellFormed s'.
Proof.
  intros H Hwf key st' Hk. specialize (H key). unfold touchedAt in H. rewrite Hk in H.
  destruct (WorldStore.chunks s !! key) as [st|] eqn:E; [|contradiction].
  destruct H as (-> & _). exact (Hwf _ _ E).
Qed.

Lemma consumeSelected_spec (inv : ServerInventory.t) (slot : Protocol.SharedItemStack) :
  inventoryOk inv ->
  ServerInventory.at_ (ServerInventory.hotbar inv) (ServerInventory.selectedSlot inv) =
    Some (Some slot) ->
  let r := ServerInventory.consumeSelected inv 1 in
  fst r = true /\
  Crafting.countItem (snd r) (Protocol.item slot) =
    Crafting.countItem inv (Protocol.item slot) - 1 /\
  (forall j, j <> Protocol.item slot -> Crafting.countItem (snd r) j = Crafting.countItem inv j) /\
  ServerInventory.selectedSlot (snd r) = ServerInventory.selectedSlot inv /\
  inventoryOk (snd r).
Proof.
  intros [Hlen Hok] Hat. cbv zeta. unfold ServerInventory.consumeSelected. rewrite Hat.
  apply at_Some in Hat. destruct Hat as [Hsel Hlook].
  assert (Hslot : 1 <= Protocol.count slot <= Config.MAX_STACK).
  { rewrite Forall_forall in Hok. apply (Hok (Some slot)).
    apply list_elem_of_lookup. eauto. }
  replace (Protocol.count slot <? 1) with false by (symmetry; apply Z.ltb_ge; lia).
  cbn [fst snd Protocol.count Protocol.item]. rewrite !countItem_total.
  cbn [ServerInventory.hotbar ServerInventory.selectedSlot].
  split_and!.
  - reflexivity.
  - rewrite (total_insert _ _ _ _ _ Hlook). cbn [slotCount].
    rewrite bool_decide_eq_true_2 by reflexivity.
    destruct (Protocol.count slot - 1 <=? 0) eqn:E; cbn [slotCount Protocol.item Protocol.count].
    + apply Z.leb_le in E. lia.
    + rewrite bool_decide_eq_true_2 by reflexivity. lia.
  - intros j Hj. rewrite !countItem_total.
    cbn [ServerInventory.hotbar ServerInventory.selectedSlot].
    rewrite (total_insert _ _ _ _ _ Hlook). cbn [slotCount].
    rewrite bool_decide_eq_false_2 by congruence.
    destruct (Protocol.count slot - 1 <=? 0); cbn [slotCount Protocol.item Protocol.count];
      [lia|]. rewrite bool_decide_eq_false_2 by congruence. lia.
  - reflexivity.
  - split; cbn [ServerInventory.hotbar].
    + rewrite length_insert. exact Hlen.
    + apply Forall_insert; [exact Hok|].
      destruct (Protocol.count slot - 1 <=? 0) eqn:E; cbn [stackOk Protocol.count]; [exact I|].
      apply Z.leb_gt in E. lia.
Qed.

Lemma getSelectedStack_Some (inv : MultiplayerGame.Inventory) (sel : Protocol.SharedItemStack) :
  Inventory.getSelectedStack inv = Some sel ->
  ServerInventory.at_ (MultiplayerGame.hotbar inv) (MultiplayerGame.selectedSlot inv) =
    Some (Some sel).
Proof.
  unfold Inventory.getSelectedStack.
  destruct (ServerInventory.at_ _ _) as [[st|]|]; try discriminate.
  intros [= <-]. destruct st. reflexivity.
Qed.

Lemma itemToBlockId_code (i : Protocol.SharedItemId) (b : Z) :
  Blocks.itemToBlockId i = Some b -> 1 <= b <= 6.
Proof.
  destruct i; cbn; intros [= <-];
    unfold BlockId.Grass, BlockId.Dirt, BlockId.Stone, BlockId.Wood, BlockId.Leaves,
      BlockId.Sand; lia.
Qed.

Lemma tryPlaceBlock_spec (w : WorldStore.t) (inv : MultiplayerGame.Inventory)
    (position : Physics.Vec3) (hit : Game.VoxelHit) (now1 now2 : float) :
  storeWellFormed w -> hotbarOk (MultiplayerGame.hotbar inv) ->
  let r := Game.tryPlaceBlock w inv position hit now1 now2 in
  let w' := snd (fst r) in
  let inv' := snd r in
  (fst (fst r) = Game.Placed ->
   exists sel b,
     Inventory.getSelectedStack inv = Some sel /\
     Blocks.itemToBlockId (Protocol.item sel) = Some b /\
     (blockAtCell w (placeCell hit) = Some BlockId.Air \/
      blockAtCell w (placeCell hit) = Some BlockId.Water) /\
     blockAtCell w' (placeCell hit) = Some b /\
     (forall x y z, (x, y, z) <> placeCell hit ->
        WorldStore.blockAt w' x y z = WorldStore.blockAt w x y z) /\
     Inventory.count inv' (Protocol.item sel) = Inventory.count inv (Protocol.item sel) - 1 /\
     (forall j, j <> Protocol.item sel -> Inventory.count inv' j = Inventory.count inv j) /\
     MultiplayerGame.selectedSlot inv' = MultiplayerGame.selectedSlot inv /\
     hotbarOk (MultiplayerGame.hotbar inv')) /\
  (fst (fst r) <> Game.Placed -> inv' = inv /\ sameBlocks w w') /\
  storeWellFormed w'.
Proof.
  intros Hwf Hinv. cbv zeta. unfold Game.tryPlaceBlock.
  assert (Hsame0 : sameBlocks w w) by (intros x y z; reflexivity).
  destruct (Inventory.getSelectedStack inv) as [sel|] eqn:Esel;
    [|cbn [fst snd]; split_and!; [discriminate|auto|exact Hwf]].
  destruct (Blocks.itemToBlockId (Protocol.item sel)) as [b|] eqn:Eb;
    [|cbn [fst snd]; split_and!; [discriminate|auto|exact Hwf]].
  cbv zeta.
  set (px := Game.hit_x hit + Game.normal_x hit).
  set (py := Game.hit_y hit + Game.normal_y hit).
  set (pz := Game.hit_z hit + Game.normal_z hit).
  destruct ((py <? 0) || (Config.WORLD_HEIGHT <=? py)) eqn:Ey;
    [cbn [fst snd]; split_and!; [discriminate|auto|exact Hwf]|].
  destruct (client_getBlock_spec w px py pz now1) as [Hread Htouch].
  pose proof (touched_sameBlocks _ _ Htouch) as Hsame1.
  pose proof (touched_wellFormed _ _ Htouch Hwf) as Hwf1.
  destruct (WorldStore.getBlock w px py pz now1) as [existing w1]. cbn [fst snd] in *.
  destruct (negb (bool_decide (existing = Some BlockId.Air)) &&
            negb (bool_decide (existing = Some BlockId.Water))) eqn:Eocc;
    [cbn [fst snd]; split_and!; [discriminate|auto|exact Hwf1]|].
  destruct (Physics.aabbIntersectsBlock _ _ _ _ _);
    [cbn [fst snd]; split_and!; [discriminate|auto|exact Hwf1]|].
  pose proof (fun x' y' z' => client_setBlock_spec w1 px py pz b x' y' z' now2 Hwf1) as Hset.
  cbv zeta in Hset.
  destruct (WorldStore.setBlock w1 px py pz b now2) as [changed w2] eqn:Eset.
  cbn [fst snd] in Hset. destruct changed; cbn [fst snd].
  - split_and!; [intros _| intros H; contradiction |].
    + exists sel, b.
      pose proof (getSelectedStack_Some _ _ Esel) as Hat.
      destruct (consumeSelected_spec (Inventory.toServer inv) sel Hinv Hat)
        as (_ & C1 & C2 & C3 & C4).
      unfold Inventory.consumeSelected. cbv zeta. cbn [snd].
      unfold Inventory.count, blockAtCell, placeCell. cbn [fst snd]. fold px py pz.
      assert (Hcode : b mod 65536 = b)
        by (apply itemToBlockId_code in Eb; apply Z.mod_small; lia).
      assert (Hinv2 : forall i2 : ServerInventory.t,
                Inventory.toServer (Inventory.ofServer i2) = i2) by (intros []; reflexivity).
      rewrite !Hinv2.
      split; [reflexivity|]. split; [exact Eb|]. split.
      { rewrite <- Hread.
        apply andb_false_iff in Eocc.
        destruct Eocc as [E|E]; apply negb_false_iff, bool_decide_eq_true in E; auto. }
      split.
      { destruct (Hset px py pz) as [_ Hs]. destruct (Hs eq_refl) as (Hs1 & _).
        rewrite Hs1, Hcode. reflexivity. }
      split.
      { intros x y z Hne. destruct (Hset x y z) as [_ Hs].
        destruct (Hs eq_refl) as (_ & Hs2 & _). rewrite Hs2 by exact Hne. apply Hsame1. }
      split; [exact C1|]. split; [exact C2|]. split; [exact C3|exact C4].
    + destruct (Hset px py pz) as [_ Hs]. destruct (Hs eq_refl) as (_ & _ & _ & _ & _ & _ & _ & _ & _ & Hw).
      exact Hw.
  - assert (Hw2 : w2 = w1).
    { pose proof (f_equal snd Eset) as H2. cbn [snd] in H2. rewrite <- H2.
      clear - Eset. revert Eset. unfold WorldStore.setBlock. cbv zeta.
      destruct (_ || _); [reflexivity|].
      destruct (_ !! _); [|reflexivity].
      destruct (bool_decide _); [reflexivity|]. intros [=]. }
    subst w2. split_and!; [discriminate|auto|exact Hwf1].
Qed.

Lemma client_setBlock_false (s : WorldStore.t) (x y z b : Z) (now : float) :
  fst (WorldStore.setBlock s x y z b now) = false ->
  snd (WorldStore.setBlock s x y z b now) = s /\
  (WorldStore.blockAt s x y z = Some BlockId.Air \/ WorldStore.blockAt s x y z = Some b).
Proof.
  unfold WorldStore.setBlock, WorldStore.blockAt. cbv zeta.
  destruct (_ || _); [auto|].
  destruct (_ !! _); [|auto].
  destruct (bool_decide _) eqn:E; [|intros [=]].
  apply bool_decide_eq_true in E. auto.
Qed.

Lemma solid_block_drop (b : Z) :
  1 <= b <= 6 ->
  exists d, BlockTable.blockIdToDrop b = Some (Some d) /\ Blocks.itemToBlockId d = Some b.
Proof.
  intros H. assert (Hb : b = 1 \/ b = 2 \/ b = 3 \/ b = 4 \/ b = 5 \/ b = 6) by lia.
  destruct Hb as [->|[->|[->|[->|[->| ->]]]]]; eexists; split; reflexivity.
Qed.

Lemma breakBlock_spec (w : WorldStore.t) (inv : MultiplayerGame.Inventory)
    (hit : Game.VoxelHit) (now1 now2 : float) :
  storeWellFormed w ->
  let r := Game.breakBlock w inv hit now1 now2 in
  let w' := snd (fst r) in
  let inv' := snd r in
  fst (fst r) <> Game.BreakUnchanged /\
  (fst (fst r) = Game.NothingThere <->
   blockAtCell w (hitCell hit) = Some BlockId.Air \/
   blockAtCell w (hitCell hit) = Some BlockId.Water) /\
  (fst (fst r) = Game.NothingThere -> inv' = inv /\ sameBlocks w w') /\
  (forall b, blockAtCell w (hitCell hit) = Some b -> b <> BlockId.Air -> b <> BlockId.Water ->
     blockAtCell w' (hitCell hit) = Some BlockId.Air /\
     (forall x y z, (x, y, z) <> hitCell hit ->
        WorldStore.blockAt w' x y z = WorldStore.blockAt w x y z) /\
     (1 <= b <= 6 ->
      fst (fst r) = Game.Broke /\
      exists d, BlockTable.blockIdToDrop b = Some (Some d) /\
        Blocks.itemToBlockId d = Some b /\
        inv' = snd (Inventory.add inv d 1)) /\
     (~ 0 <= b <= 7 -> fst (fst r) = Game.BreakThrew /\ inv' = inv)) /\
  storeWellFormed w'.
Proof.
  intros Hwf. cbv zeta. unfold Game.breakBlock, blockAtCell, hitCell. cbn [fst snd].
  pose proof blockTable_spec as (_ & _ & _ & _ & Hthrow & _).
  set (x := Game.hit_x hit). set (y := Game.hit_y hit). set (z := Game.hit_z hit).
  destruct (client_getBlock_spec w x y z now1) as [Hread Htouch].
  pose proof (touched_sameBlocks _ _ Htouch) as Hsame1.
  pose proof (touched_wellFormed _ _ Htouch Hwf) as Hwf1.
  destruct (WorldStore.getBlock w x y z now1) as [block w1]. cbn [fst snd] in *.
  subst block.
  destruct (bool_decide (WorldStore.blockAt w x y z = Some BlockId.Air) ||
            bool_decide (WorldStore.blockAt w x y z = Some BlockId.Water)) eqn:Enone.
  - apply orb_true_iff in Enone.
    assert (Hnone : WorldStore.blockAt w x y z = Some BlockId.Air \/
                    WorldStore.blockAt w x y z = Some BlockId.Water)
      by (destruct Enone as [E|E]; apply bool_decide_eq_true in E; auto).
    cbn [fst snd]. split_and!; try discriminate; auto.
    + tauto.
    + intros b Hb Ha Hw. rewrite Hb in Hnone. destruct Hnone as [[= ->]|[= ->]]; contradiction.
  - apply orb_false_iff in Enone. destruct Enone as [E1 E2].
    apply bool_decide_eq_false in E1. apply bool_decide_eq_false in E2.
    pose proof (fun x' y' z' => client_setBlock_spec w1 x y z BlockId.Air x' y' z' now2 Hwf1)
      as Hset.
    pose proof (client_setBlock_false w1 x y z BlockId.Air now2) as Hfalse.
    cbv zeta in Hset.
    destruct (WorldStore.setBlock w1 x y z BlockId.Air now2) as [changed w2].
    cbn [fst snd] in Hset, Hfalse. destruct changed.
    2:{ destruct (Hfalse eq_refl) as [_ H]. rewrite Hsame1 in H. tauto. }
    assert (Hnot : forall e : Game.BreakExit * WorldStore.t * MultiplayerGame.Inventory,
              fst (fst e) = Game.Broke \/ fst (fst e) = Game.BreakThrew ->
              fst (fst e) <> Game.BreakUnchanged /\
              (fst (fst e) = Game.NothingThere <->
               WorldStore.blockAt w x y z = Some BlockId.Air \/
               WorldStore.blockAt w x y z = Some BlockId.Water) /\
              (fst (fst e) = Game.NothingThere ->
               snd e = inv /\ sameBlocks w (snd (fst e)))).
    { intros e [He|He]; rewrite He; split_and!; try discriminate; try tauto.
      - split; [discriminate|tauto].
      - split; [discriminate|tauto]. }
    assert (Hw2 : storeWellFormed w2).
    { destruct (Hset x y z) as [_ Hs].
      destruct (Hs eq_refl) as (_ & _ & _ & _ & _ & _ & _ & _ & _ & H). exact H. }
    assert (Hcell : WorldStore.blockAt w2 x y z = Some BlockId.Air).
    { destruct (Hset x y z) as [_ Hs]. destruct (Hs eq_refl) as (H & _). exact H. }
    assert (Hothers : forall x' y' z', (x', y', z') <> (x, y, z) ->
              WorldStore.blockAt w2 x' y' z' = WorldStore.blockAt w x' y' z').
    { intros x' y' z' Hne. destruct (Hset x' y' z') as [_ Hs].
      destruct (Hs eq_refl) as (_ & H & _). rewrite H by exact Hne. apply Hsame1. }
    destruct (WorldStore.blockAt w x y z) as [b|] eqn:Eb.
    + cbn [mbind option_bind].
      destruct (BlockTable.blockIdToDrop b) as [[d|]|] eqn:Ed; cbn [fst snd].
      * destruct (Hnot (Game.Broke, w2, snd (Inventory.add inv d 1))) as (N1 & N2 & N3);
          [left; reflexivity|]. cbn [fst snd] in *.
        split_and!; auto.
        intros b' [= <-] Ha Hw. split_and!; auto.
        -- intros Hb. split; [reflexivity|].
           destruct (solid_block_drop b Hb) as (d' & Hd' & Hi). rewrite Ed in Hd'.
           injection Hd' as ->. exists d'. auto.
        -- intros Hb. apply Hthrow in Hb. rewrite Hb in Ed. discriminate.
      * destruct (Hnot (Game.Broke, w2, inv)) as (N1 & N2 & N3); [left; reflexivity|].
        cbn [fst snd] in *. split_and!; auto.
        intros b' [= <-] Ha Hw. split_and!; auto.
        -- intros Hb. destruct (solid_block_drop b Hb) as (d' & Hd' & Hi).
           rewrite Ed in Hd'. discriminate.
        -- intros Hb. apply Hthrow in Hb. rewrite Hb in Ed. discriminate.
      * destruct (Hnot (Game.BreakThrew, w2, inv)) as (N1 & N2 & N3); [right; reflexivity|].
        cbn [fst snd] in *. split_and!; auto.
        intros b' [= <-] Ha Hw. split_and!; auto.
        intros Hb. destruct (solid_block_drop b Hb) as (d' & Hd' & Hi).
        rewrite Ed in Hd'. discriminate.
    + cbn [mbind option_bind fst snd].
      destruct (Hnot (Game.BreakThrew, w2, inv)) as (N1 & N2 & N3); [right; reflexivity|].
      cbn [fst snd] in *. split_and!; auto. intros b' [=].
Qed.

(** X23.  Placing in single-player takes an item exactly when a block was
    placed.  When [tryPlaceBlock] places, the target cell held air or water
    and now holds the block of the selected item, every other cell reads as
    before, and the inventory holds one item less of the selected kind and
    is otherwise as it was.  At every other exit (nothing selected, not a
    block item, outside the world, cell taken, cell inside the player, or
    the chunk of the cell not resident) the inventory is unchanged and
    every cell reads as before. *)
Theorem tryPlaceBlock_takes_item_iff_placed (w : WorldStore.t)
    (inv : MultiplayerGame.Inventory) (position : Physics.Vec3) (hit : Game.VoxelHit)
    (now1 now2 : float) :
  storeWellFormed w -> hotbarOk (MultiplayerGame.hotbar inv) ->
  let r := Game.tryPlaceBlock w inv position hit now1 now2 in
  let w' := snd (fst r) in
  let inv' := snd r in
  (fst (fst r) = Game.Placed ->
   exists sel b,
     Inventory.getSelectedStack inv = Some sel /\
     Blocks.itemToBlockId (Protocol.item sel) = Some b /\
     (blockAtCell w (placeCell hit) = Some BlockId.Air \/
      blockAtCell w (placeCell hit) = Some BlockId.Water) /\
     blockAtCell w' (placeCell hit) = Some b /\
     (forall x y z, (x, y, z) <> placeCell hit ->
        WorldStore.blockAt w' x y z = WorldStore.blockAt w x y z) /\
     Inventory.count inv' (Protocol.item sel) = Inventory.count inv (Protocol.item sel) - 1 /\
     (forall j, j <> Protocol.item sel -> Inventory.count inv' j = Inventory.count inv j) /\
     MultiplayerGame.selectedSlot inv' = MultiplayerGame.selectedSlot inv /\
     hotbarOk (MultiplayerGame.hotbar inv')) /\
  (fst (fst r) <> Game.Placed -> inv' = inv /\ sameBlocks w w') /\
  storeWellFormed w'.
Proof. exact (tryPlaceBlock_spec w inv position hit now1 now2). Qed.

Lemma client_starter_hotbarOk : hotbarOk (MultiplayerGame.hotbar Inventory.createStarterInventory).
Proof.
  assert (H : MultiplayerGame.hotbar Inventory.createStarterInventory =
              [ Some {| Protocol.item := Protocol.grass_block; Protocol.count := 32 |};
                Some {| Protocol.item := Protocol.dirt; Protocol.count := 32 |};
                Some {| Protocol.item := Protocol.stone; Protocol.count := 32 |};
                Some {| Protocol.item := Protocol.wood; Protocol.count := 16 |};
                Some {| Protocol.item := Protocol.sand; Protocol.count := 16 |};
                None; None; None; None ]) by (vm_compute; reflexivity).
  rewrite H. split; [reflexivity|].
  repeat constructor; cbn; unfold Config.MAX_STACK; lia.
Qed.

Lemma tryPlaceBlock_takes_item_iff_placed_witness :
  let hit := {| Game.hit_x := 3; Game.hit_y := 39; Game.hit_z := 5;
                Game.normal_x := 0; Game.normal_y := 1; Game.normal_z := 0;
                Game.hit_block := BlockId.Stone |} in
  let inv := Inventory.createStarterInventory in
  let r := Game.tryPlaceBlock Solo.store inv (Physics.vec3 8.5 40 8.5) hit 1 2 in
  let w' := snd (fst r) in
  let inv' := snd r in
  (fst (fst r) = Game.Placed ->
   exists sel b,
     Inventory.getSelectedStack inv = Some sel /\
     Blocks.itemToBlockId (Protocol.item sel) = Some b /\
     (blockAtCell Solo.store (placeCell hit) = Some BlockId.Air \/
      blockAtCell Solo.store (placeCell hit) = Some BlockId.Water) /\
     blockAtCell w' (placeCell hit) = Some b /\
     (forall x y z, (x, y, z) <> placeCell hit ->
        WorldStore.blockAt w' x y z = WorldStore.blockAt Solo.store x y z) /\
     Inventory.count inv' (Protocol.item sel) = Inventory.count inv (Protocol.item sel) - 1 /\
     (forall j, j <> Protocol.item sel -> Inventory.count inv' j = Inventory.count inv j) /\
     MultiplayerGame.selectedSlot inv' = MultiplayerGame.selectedSlot inv /\
     hotbarOk (MultiplayerGame.hotbar inv')) /\
  (fst (fst r) <> Game.Placed -> inv' = inv /\ sameBlocks Solo.store w') /\
  storeWellFormed w'.
Proof.
  apply (tryPlaceBlock_takes_item_iff_placed Solo.store Inventory.createStarterInventory
           (Physics.vec3 8.5 40 8.5)
           {| Game.hit_x := 3; Game.hit_y := 39; Game.hit_z := 5;
              Game.normal_x := 0; Game.normal_y := 1; Game.normal_z := 0;
              Game.hit_block := BlockId.Stone |} 1 2).
  - apply solo_store_wellFormed.
  - apply client_starter_hotbarOk.
Defined.

(** In the sample the block is placed, and a second try at a cell inside
    the player is not. *)
Example solo_place_goes_through :
  fst (fst (Game.tryPlaceBlock Solo.store Inventory.createStarterInventory
              (Physics.vec3 8.5 40 8.5)
              {| Game.hit_x := 3; Game.hit_y := 39; Game.hit_z := 5;
                 Game.normal_x := 0; Game.normal_y := 1; Game.normal_z := 0;
                 Game.hit_block := BlockId.Stone |} 1 2)) = Game.Placed /\
  fst (fst (Game.tryPlaceBlock Solo.store Inventory.createStarterInventory
              (Physics.vec3 8.5 40 8.5)
              {| Game.hit_x := 8; Game.hit_y := 39; Game.hit_z := 8;
                 Game.normal_x := 0; Game.normal_y := 1; Game.normal_z := 0;
                 Game.hit_block := BlockId.Stone |} 1 2)) = Game.InsidePlayer.
Proof. split; vm_compute; reflexivity. Qed.

(** X24.  Breaking in single-player.  [breakBlock] does nothing exactly
    when the cell of the hit reads as air or water.  Otherwise the cell
    reads as air afterwards and every other cell as before; for one of the
    six solid blocks the inventory is the result of adding one item of the
    block's drop, which is the item that places this block; for a code that
    is no block id the look-up of the drop throws after the cell has been
    cleared, and nothing is added. *)
Theorem breakBlock_clears_cell_and_drops (w : WorldStore.t)
    (inv : MultiplayerGame.Inventory) (hit : Game.VoxelHit) (now1 now2 : float) :
  storeWellFormed w ->
  let r := Game.breakBlock w inv hit now1 now2 in
  let w' := snd (fst r) in
  let inv' := snd r in
  fst (fst r) <> Game.BreakUnchanged /\
  (fst (fst r) = Game.NothingThere <->
   blockAtCell w (hitCell hit) = Some BlockId.Air \/
   blockAtCell w (hitCell hit) = Some BlockId.Water) /\
  (fst (fst r) = Game.NothingThere -> inv' = inv /\ sameBlocks w w') /\
  (forall b, blockAtCell w (hitCell hit) = Some b -> b <> BlockId.Air -> b <> BlockId.Water ->
     blockAtCell w' (hitCell hit) = Some BlockId.Air /\
     (forall x y z, (x, y, z) <> hitCell hit ->
        WorldStore.blockAt w' x y z = WorldStore.blockAt w x y z) /\
     (1 <= b <= 6 ->
      fst (fst r) = Game.Broke /\
      exists d, BlockTable.blockIdToDrop b = Some (Some d) /\
        Blocks.itemToBlockId d = Some b /\
        inv' = snd (Inventory.add inv d 1)) /\
     (~ 0 <= b <= 7 -> fst (fst r) = Game.BreakThrew /\ inv' = inv)) /\
  storeWellFormed w'.
Proof. exact (breakBlock_spec w inv hit now1 now2). Qed.

Lemma breakBlock_clears_cell_and_drops_witness :
  let hit := {| Game.hit_x := 3; Game.hit_y := 39; Game.hit_z := 5;
                Game.normal_x := 0; Game.normal_y := 1; Game.normal_z := 0;
                Game.hit_block := BlockId.Stone |} in
  let inv := Inventory.createStarterInventory in
  let r := Game.breakBlock Solo.store inv hit 1 2 in
  let w' := snd (fst r) in
  let inv' := snd r in
  fst (fst r) <> Game.BreakUnchanged /\
  (fst (fst r) = Game.NothingThere <->
   blockAtCell Solo.store (hitCell hit) = Some BlockId.Air \/
   blockAtCell Solo.store (hitCell hit) = Some BlockId.Water) /\
  (fst (fst r) = Game.NothingThere -> inv' = inv /\ sameBlocks Solo.store w') /\
  (forall b, blockAtCell Solo.store (hitCell hit) = Some b ->
     b <> BlockId.Air -> b <> BlockId.Water ->
     blockAtCell w' (hitCell hit) = Some BlockId.Air /\
     (forall x y z, (x, y, z) <> hitCell hit ->
        WorldStore.blockAt w' x y z = WorldStore.blockAt Solo.store x y z) /\
     (1 <= b <= 6 ->
      fst (fst r) = Game.Broke /\
      exists d, BlockTable.blockIdToDrop b = Some (Some d) /\
        Blocks.itemToBlockId d = Some b /\
        inv' = snd (Inventory.add inv d 1)) /\
     (~ 0 <= b <= 7 -> fst (fst r) = Game.BreakThrew /\ inv' = inv)) /\
  storeWellFormed w'.
Proof.
  apply (breakBlock_clears_cell_and_drops Solo.store Inventory.createStarterInventory
           {| Game.hit_x := 3; Game.hit_y := 39; Game.hit_z := 5;
              Game.normal_x := 0; Game.normal_y := 1; Game.normal_z := 0;
              Game.hit_block := BlockId.Stone |} 1 2).
  apply solo_store_wellFormed.
Defined.

(** In the sample the stone is broken and one stone is added to the third
    slot. *)
Example solo_break_goes_through :
  let r := Game.breakBlock Solo.store Inventory.createStarterInventory
             {| Game.hit_x := 3; Game.hit_y := 39; Game.hit_z := 5;
                Game.normal_x := 0; Game.normal_y := 1; Game.normal_z := 0;
                Game.hit_block := BlockId.Stone |} 1 2 in
  fst (fst r) = Game.Broke /\
  Inventory.count (snd r) Protocol.stone = 33.
Proof. split; vm_compute; reflexivity. Qed.

(** ** The client's input buffer *)

Lemma captured_movement_unit (g : MultiplayerGame.t) (dt : float)
    (kd ka ks kw sp sh : bool) :
  let p := fst (MultiplayerGame.captureMovementInput g dt kd ka ks kw sp sh) in
  let mx := MultiplayerGame.moveX p in
  let mz := MultiplayerGame.moveZ p in
  PrimFloat.leb (mx * mx + mz * mz) 1 = true /\
  (kd = ka -> mx = 0%float) /\ (ks = kw -> mz = 0%float) /\
  (ks = kw -> kd = true -> ka = false -> mx = 1%float) /\
  (ks = kw -> kd = false -> ka = true -> mx = (-1)%float) /\
  (kd = ka -> ks = true -> kw = false -> mz = 1%float) /\
  (kd = ka -> ks = false -> kw = true -> mz = (-1)%float).
Proof.
  cbv zeta. unfold MultiplayerGame.captureMovementInput. cbv zeta.
  cbn [fst MultiplayerGame.moveX MultiplayerGame.moveZ].
  destruct kd, ka, ks, kw; vm_compute; split_and!; intros; congruence.
Qed.

Lemma bufferInput_spec (g : MultiplayerGame.t) (dt : float) (kd ka ks kw sp sh : bool) :
  let g' := MultiplayerGame.bufferInput g dt kd ka ks kw sp sh in
  let p := fst (MultiplayerGame.captureMovementInput g dt kd ka ks kw sp sh) in
  MultiplayerGame.inputSeq g' = MultiplayerGame.inputSeq g + 1 /\
  MultiplayerGame.seq p = MultiplayerGame.inputSeq g + 1 /\
  MultiplayerGame.dt p = dt /\ MultiplayerGame.jump p = sp /\ MultiplayerGame.sprint p = sh /\
  PrimFloat.leb (MultiplayerGame.moveX p * MultiplayerGame.moveX p +
                 MultiplayerGame.moveZ p * MultiplayerGame.moveZ p) 1 = true /\
  last (MultiplayerGame.pendingInputs g') = Some p /\
  ((length (MultiplayerGame.pendingInputs g) < 120)%nat ->
   MultiplayerGame.pendingInputs g' = MultiplayerGame.pendingInputs g ++ [p]) /\
  ((120 <= length (MultiplayerGame.pendingInputs g))%nat ->
   MultiplayerGame.pendingInputs g' = tail (MultiplayerGame.pendingInputs g ++ [p])) /\
  ((length (MultiplayerGame.pendingInputs g) <= 120)%nat ->
   (length (MultiplayerGame.pendingInputs g') <= 120)%nat).
Proof.
  cbv zeta.
  pose proof (captured_movement_unit g dt kd ka ks kw sp sh) as (Hunit & _).
  unfold MultiplayerGame.bufferInput.
  destruct (MultiplayerGame.captureMovementInput g dt kd ka ks kw sp sh) as [p g1] eqn:E.
  assert (Hp : MultiplayerGame.seq p = MultiplayerGame.inputSeq g + 1 /\
               MultiplayerGame.dt p = dt /\ MultiplayerGame.jump p = sp /\
               MultiplayerGame.sprint p = sh /\
               MultiplayerGame.pendingInputs g1 = MultiplayerGame.pendingInputs g /\
               MultiplayerGame.inputSeq g1 = MultiplayerGame.inputSeq g + 1).
  { unfold MultiplayerGame.captureMovementInput in E. cbv zeta in E.
    injection E as <- <-. cbn. split_and!; reflexivity. }
  destruct Hp as (P1 & P2 & P3 & P4 & P5 & P6).
  cbn [fst MultiplayerGame.inputSeq MultiplayerGame.pendingInputs] in *.
  rewrite P5.
  assert (Hlen : length (MultiplayerGame.pendingInputs g ++ [p]) =
                 S (length (MultiplayerGame.pendingInputs g)))
    by (rewrite length_app; cbn; lia).
  split_and!; auto.
  - destruct (120 <? length _)%nat eqn:L.
    + destruct (MultiplayerGame.pendingInputs g) as [|q l] eqn:El.
      * cbn in L. discriminate.
      * cbn [app tail]. apply last_snoc.
    + apply last_snoc.
  - intros Hl. replace (120 <? length _)%nat with false; [reflexivity|].
    symmetry. apply Nat.ltb_ge. lia.
  - intros Hl. replace (120 <? length _)%nat with true; [reflexivity|].
    symmetry. apply Nat.ltb_lt. lia.
  - intros Hl. destruct (120 <? length _)%nat eqn:L.
    + destruct (MultiplayerGame.pendingInputs g) as [|q l]; cbn in *; [lia|].
      rewrite length_app. cbn. lia.
    + apply Nat.ltb_ge in L. lia.
Qed.

(** X25.  The buffering step of [updateFixed] of the multiplayer client,
    from the call of [captureMovementInput] to the shift of the buffer: it
    hands out the next sequence number and appends the captured input to
    the pending buffer, dropping the oldest entry once the buffer held 120,
    so a buffer of at most 120 inputs stays one.  The captured movement is
    a vector of length at most 1, so moving diagonally is not faster than
    moving straight. *)
Theorem pending_buffer_stays_bounded (g : MultiplayerGame.t) (dt : float)
    (kd ka ks kw sp sh : bool) :
  let g' := MultiplayerGame.bufferInput g dt kd ka ks kw sp sh in
  let p := fst (MultiplayerGame.captureMovementInput g dt kd ka ks kw sp sh) in
  MultiplayerGame.inputSeq g' = MultiplayerGame.inputSeq g + 1 /\
  MultiplayerGame.seq p = MultiplayerGame.inputSeq g + 1 /\
  MultiplayerGame.dt p = dt /\ MultiplayerGame.jump p = sp /\ MultiplayerGame.sprint p = sh /\
  PrimFloat.leb (MultiplayerGame.moveX p * MultiplayerGame.moveX p +
                 MultiplayerGame.moveZ p * MultiplayerGame.moveZ p) 1 = true /\
  last (MultiplayerGame.pendingInputs g') = Some p /\
  ((length (MultiplayerGame.pendingInputs g) < 120)%nat ->
   MultiplayerGame.pendingInputs g' = MultiplayerGame.pendingInputs g ++ [p]) /\
  ((120 <= length (MultiplayerGame.pendingInputs g))%nat ->
   MultiplayerGame.pendingInputs g' = tail (MultiplayerGame.pendingInputs g ++ [p])) /\
  ((length (MultiplayerGame.pendingInputs g) <= 120)%nat ->
   (length (MultiplayerGame.pendingInputs g') <= 120)%nat).
Proof. exact (bufferInput_spec g dt kd ka ks kw sp sh). Qed.

(** ** Rendering: which blocks are drawn *)

Lemma isSolidBlock_id (b : Z) :
  0 <= b <= 7 ->
  BlockTable.isSolidBlock b = Some (negb (bool_decide (b = BlockId.Air \/ b = BlockId.Water))).
Proof.
  intros H. assert (Hb : b = 0 \/ b = 1 \/ b = 2 \/ b = 3 \/ b = 4 \/ b = 5 \/ b = 6 \/ b = 7)
    by lia.
  destruct Hb as [->|[->|[->|[->|[->|[->|[->| ->]]]]]]]; vm_compute; reflexivity.
Qed.

Section Rendering.
Variable getBlock : Z -> Z -> Z -> option Z.
Hypothesis Hids : blockIdsOnly getBlock.

Lemma visibleAmong_spec (x y z : Z) (ns : list (Z * Z * Z)) :
  exists v, TerrainRenderer.visibleAmong getBlock x y z ns = Some v /\
    (v = true <->
     exists d, d ∈ ns /\
       let '(dx, dy, dz) := d in
       (getBlock (x + dx) (y + dy) (z + dz) = Some BlockId.Air \/
        getBlock (x + dx) (y + dy) (z + dz) = Some BlockId.Water)).
Proof.
  induction ns as [|[[dx dy] dz] rest IH].
  - exists false. split; [reflexivity|]. split; [discriminate|].
    intros (d & Hd & _). inversion Hd.
  - cbn [TerrainRenderer.visibleAmong].
    destruct (Hids (x + dx) (y + dy) (z + dz)) as (b & Hb & Hr). rewrite Hb.
    cbn [mbind option_bind]. rewrite (isSolidBlock_id b Hr).
    destruct (decide (b = BlockId.Air \/ b = BlockId.Water)) as [Hn|Hn].
    + rewrite bool_decide_eq_true_2 by exact Hn. cbn [negb].
      exists true. split; [reflexivity|]. split; [|reflexivity]. intros _.
      exists (dx, dy, dz). split; [left|]. rewrite Hb. destruct Hn as [-> | ->]; auto.
    + rewrite bool_decide_eq_false_2 by exact Hn. cbn [negb].
      destruct IH as (v & Hv & Hiff). exists v. split; [exact Hv|]. rewrite Hiff. split.
      * intros (d & Hd & H). exists d. split; [right; exact Hd|exact H].
      * intros (d & Hd & H). apply elem_of_cons in Hd as [->|Hd]; [|eauto].
        rewrite Hb in H. exfalso. apply Hn. destruct H as [[= ->]|[= ->]]; auto.
Qed.

Lemma isBlockVisible_spec (x y z : Z) :
  exists v, TerrainRenderer.isBlockVisible getBlock x y z = Some v /\
    (v = true <-> exposed getBlock (x, y, z)).
Proof. apply visibleAmong_spec. Qed.

End Rendering.

Lemma pushInstance_entries (k : option Z) (cell : Z * Z * Z) (m : TerrainRenderer.Instances)
    (key : option Z) (cells : list (Z * Z * Z)) :
  (key, cells) ∈ TerrainRenderer.pushInstance k cell m ->
  key = k \/ (key, cells) ∈ m.
Proof.
  induction m as [|[b entries] rest IH]; cbn [TerrainRenderer.pushInstance].
  - intros H. apply list_elem_of_singleton in H. injection H as -> _. auto.
  - destruct (decide (b = k)) as [->|Hne].
    + intros H. apply elem_of_cons in H as [[= -> ->]|H]; [auto|]. right. right. exact H.
    + intros H. apply elem_of_cons in H as [[= -> ->]|H]; [right; left|].
      destruct (IH H) as [->|H']; [auto|right; right; exact H'].
Qed.

Lemma pushInstance_keys (k : option Z) (cell : Z * Z * Z) (m : TerrainRenderer.Instances) :
  NoDup (map fst m) ->
  NoDup (map fst (TerrainRenderer.pushInstance k cell m)) /\
  forall key, key ∈ map fst (TerrainRenderer.pushInstance k cell m) <->
              key = k \/ key ∈ map fst m.
Proof.
  induction m as [|[b entries] rest IH]; cbn [TerrainRenderer.pushInstance map fst]; intros Hnd.
  - split; [repeat constructor; apply not_elem_of_nil|].
    intros key. rewrite list_elem_of_singleton. split; [auto|].
    intros [H|H]; [exact H|inversion H].
  - apply NoDup_cons in Hnd as [Hb Hnd].
    destruct (decide (b = k)) as [->|Hne]; cbn [map fst].
    + split; [apply NoDup_cons; auto|]. intros key. rewrite elem_of_cons. tauto.
    + destruct (IH Hnd) as [IH1 IH2]. split.
      * apply NoDup_cons. split; [|exact IH1]. rewrite IH2. intros [H|H]; [congruence|auto].
      * intros key. rewrite !elem_of_cons, IH2. tauto.
Qed.

Lemma pushInstance_cells (k : option Z) (cell : Z * Z * Z) (m : TerrainRenderer.Instances) :
  drawnCells (TerrainRenderer.pushInstance k cell m) ≡ₚ cell :: drawnCells m.
Proof.
  unfold drawnCells.
  induction m as [|[b entries] rest IH]; cbn [TerrainRenderer.pushInstance map snd concat].
  - reflexivity.
  - destruct (decide (b = k)); cbn [map snd concat].
    + rewrite <- app_assoc. cbn [app].
      rewrite <- Permutation_middle. reflexivity.
    + rewrite IH. rewrite Permutation_middle. reflexivity.
Qed.

Lemma drawn_nil (b : Z) (cell : Z * Z * Z) : ~ drawn [] b cell.
Proof. intros (cells & Hin & _). inversion Hin. Qed.

Lemma drawn_cons (k : option Z) (entries : list (Z * Z * Z)) (rest : TerrainRenderer.Instances)
    (b : Z) (cell : Z * Z * Z) :
  drawn ((k, entries) :: rest) b cell <-> (k = Some b /\ cell ∈ entries) \/ drawn rest b cell.
Proof.
  unfold drawn. split.
  - intros (cells & Hin & Hc). apply elem_of_cons in Hin as [Heq|Hin].
    + left. injection Heq as H1 H2. subst. auto.
    + right. eauto.
  - intros [[Hk Hc]|(cells & Hin & Hc)].
    + subst k. exists entries. split; [left|exact Hc].
    + exists cells. split; [right; exact Hin|exact Hc].
Qed.

Lemma pushInstance_drawn (b : Z) (cell : Z * Z * Z) (m : TerrainRenderer.Instances)
    (b' : Z) (cell' : Z * Z * Z) :
  drawn (TerrainRenderer.pushInstance (Some b) cell m) b' cell' <->
  drawn m b' cell' \/ (b' = b /\ cell' = cell).
Proof.
  induction m as [|[k entries] rest IH]; cbn [TerrainRenderer.pushInstance].
  - rewrite drawn_cons, list_elem_of_singleton. split.
    + intros [[Hk Hc]|H]; [|destruct (drawn_nil _ _ H)]. injection Hk as ->. auto.
    + intros [H|[-> ->]]; [destruct (drawn_nil _ _ H)|auto].
  - destruct (decide (k = Some b)) as [Hk|Hne].
    + subst k. rewrite !drawn_cons, elem_of_app, list_elem_of_singleton. split.
      * intros [[Hk [Hc|Hc]]|H]; [auto|injection Hk as ->; auto|auto].
      * intros [[[Hk Hc]|H]|[-> ->]]; auto.
    + rewrite !drawn_cons, IH. tauto.
Qed.

Lemma drawn_cells (m : TerrainRenderer.Instances) (b : Z) (cell : Z * Z * Z) :
  drawn m b cell -> cell ∈ drawnCells m.
Proof.
  intros (cells & Hin & Hc). unfold drawnCells.
  apply list_elem_of_In, in_concat. exists cells.
  split; [|apply list_elem_of_In; exact Hc].
  apply in_map_iff. exists (Some b, cells). split; [reflexivity|apply list_elem_of_In, Hin].
Qed.

Lemma cells_drawn (m : TerrainRenderer.Instances) (cell : Z * Z * Z) :
  (forall key cells, (key, cells) ∈ m -> exists b, key = Some b /\ 1 <= b <= 6) ->
  cell ∈ drawnCells m -> exists b, drawn m b cell.
Proof.
  intros Hkeys Hin. unfold drawnCells in Hin.
  apply list_elem_of_In, in_concat in Hin. destruct Hin as (cells & Hc & Hin).
  apply in_map_iff in Hc. destruct Hc as ([key cs] & <- & Hm). cbn [snd] in Hin.
  apply list_elem_of_In in Hm. destruct (Hkeys _ _ Hm) as (b & -> & _).
  exists b, cs. split; [exact Hm|apply list_elem_of_In; exact Hin].
Qed.

Lemma scanned_next (cx cz lx lz y : Z) (cell : Z * Z * Z) :
  0 <= lx < 16 -> 0 <= lz < 16 -> 0 <= y < 96 ->
  scanned cx cz lx lz (y + 1) cell <->
  scanned cx cz lx lz y cell \/ cell = (cx * 16 + lx, y, cz * 16 + lz).
Proof.
  intros Hx Hz Hy. unfold scanned. split.
  - intros (a & c & h & Ha & Hc & Hh & Ho & ->).
    destruct (decide (a = lx /\ c = lz /\ h = y)) as [(-> & -> & ->)|Hne]; [auto|].
    left. exists a, c, h. split_and!; auto; lia.
  - intros [(a & c & h & Ha & Hc & Hh & Ho & ->)| ->].
    + exists a, c, h. split_and!; auto; lia.
    + exists lx, lz, y. split_and!; auto; lia.
Qed.

Lemma scanned_column (cx cz lx lz : Z) (cell : Z * Z * Z) :
  scanned cx cz lx lz 96 cell <-> scanned cx cz lx (lz + 1) 0 cell.
Proof.
  unfold scanned.
  split; intros (a & c & h & Ha & Hc & Hh & Ho & ->); exists a, c, h; split_and!; auto; lia.
Qed.

Lemma scanned_row (cx cz lx : Z) (cell : Z * Z * Z) :
  scanned cx cz lx 16 0 cell <-> scanned cx cz (lx + 1) 0 0 cell.
Proof.
  unfold scanned.
  split; intros (a & c & h & Ha & Hc & Hh & Ho & ->); exists a, c, h; split_and!; auto; lia.
Qed.

Lemma scanned_none (cx cz : Z) (cell : Z * Z * Z) : ~ scanned cx cz 0 0 0 cell.
Proof. intros (a & c & h & Ha & Hc & Hh & Ho & _). lia. Qed.

Lemma scanned_all (cx cz : Z) (cell : Z * Z * Z) :
  scanned cx cz 16 0 0 cell <-> cellOfChunk cx cz cell.
Proof.
  unfold scanned, cellOfChunk. split.
  - intros (a & c & h & Ha & Hc & Hh & _ & ->). lia.
  - destruct cell as [[x y] z]. intros (Hx & Hy & Hz).
    exists (x - cx * 16), (z - cz * 16), y. split_and!; try lia.
    f_equal; [f_equal|]; lia.
Qed.

Lemma collected_cells_ext (getBlock : Z -> Z -> Z -> option Z) (cx cz lx lz y lx' lz' y' : Z)
    (acc : option TerrainRenderer.Instances) :
  (forall cell, scanned cx cz lx lz y cell <-> scanned cx cz lx' lz' y' cell) ->
  collected_cells getBlock cx cz lx lz y acc -> collected_cells getBlock cx cz lx' lz' y' acc.
Proof.
  intros Hs (m & -> & H1 & H2 & H3 & H4). exists m. split_and!; auto.
  intros b cell. rewrite H4, Hs. reflexivity.
Qed.

Lemma visitCell_collected (getBlock : Z -> Z -> Z -> option Z) (cx cz lx lz y : Z)
    (acc : option TerrainRenderer.Instances) :
  blockIdsOnly getBlock ->
  0 <= lx < 16 -> 0 <= lz < 16 -> 0 <= y < 96 ->
  collected_cells getBlock cx cz lx lz y acc ->
  collected_cells getBlock cx cz lx lz (y + 1)
    (TerrainRenderer.visitCell getBlock (cx * 16) (cz * 16) lx lz y acc).
Proof.
  intros Hids Hx Hz Hy (m & -> & Hk & Hc & Hkeys & Hdrawn).
  unfold TerrainRenderer.visitCell. cbv zeta.
  set (cell := (cx * 16 + lx, y, cz * 16 + lz)).
  assert (Hfresh : ~ scanned cx cz lx lz y cell).
  { intros (a & c & h & Ha & Hc' & Hh & Ho & He). unfold cell in He.
    injection He as H1 H2 H3. lia. }
  assert (Hskip : (forall b, ~ (getBlock (cx * 16 + lx) y (cz * 16 + lz) = Some b /\
                                b <> BlockId.Air /\ b <> BlockId.Water /\
                                exposed getBlock cell)) ->
                  collected_cells getBlock cx cz lx lz (y + 1) (Some m)).
  { intros Hno. exists m. split_and!; auto.
    intros b c. rewrite Hdrawn, scanned_next by assumption. split.
    - intros (Hs & H). split; [left; exact Hs|exact H].
    - intros ([Hs| ->] & H); [split; [exact Hs|exact H]|].
      destruct (Hno b). exact H. }
  destruct (Hids (cx * 16 + lx) y (cz * 16 + lz)) as (b & Hb & Hr). rewrite Hb.
  destruct (bool_decide (Some b = Some BlockId.Air) ||
            bool_decide (Some b = Some BlockId.Water)) eqn:Enone.
  - apply Hskip. intros b' (Hb' & Ha & Hw & _). rewrite Hb in Hb'. injection Hb' as <-.
    apply orb_true_iff in Enone.
    destruct Enone as [E|E]; apply bool_decide_eq_true in E; injection E as E; contradiction.
  - apply orb_false_iff in Enone. destruct Enone as [E1 E2].
    apply bool_decide_eq_false in E1. apply bool_decide_eq_false in E2.
    destruct (isBlockVisible_spec getBlock Hids (cx * 16 + lx) y (cz * 16 + lz))
      as (v & -> & Hv). fold cell in Hv.
    destruct v.
    + assert (Hexp : exposed getBlock cell) by (apply Hv; reflexivity).
      destruct (pushInstance_keys (Some b) cell m Hk) as [Hk' Hk''].
      exists (TerrainRenderer.pushInstance (Some b) cell m). split_and!.
      * reflexivity.
      * exact Hk'.
      * rewrite pushInstance_cells. apply NoDup_cons. split; [|exact Hc].
        intros Hin. destruct (cells_drawn m cell Hkeys Hin) as (b0 & Hd).
        apply Hdrawn in Hd. destruct Hd as (Hs & _). exact (Hfresh Hs).
      * intros key cells Hin. apply pushInstance_entries in Hin as [->|Hin];
          [|exact (Hkeys _ _ Hin)].
        exists b. split; [reflexivity|].
        unfold BlockId.Air, BlockId.Water in *.
        assert (b <> 0) by congruence. assert (b <> 7) by congruence. lia.
      * intros b' c. rewrite pushInstance_drawn, Hdrawn, scanned_next by assumption. split.
        -- intros [(Hs & H)|[-> ->]]; [split; [left; exact Hs|exact H]|].
           split; [right; reflexivity|]. unfold cell at 1 2 3. cbn [fst snd].
           split_and!; auto; congruence.
        -- intros ([Hs| ->] & H); [left; split; [exact Hs|exact H]|].
           right. split; [|reflexivity]. unfold cell in H. cbn [fst snd] in H.
           destruct H as (H & _). rewrite Hb in H. injection H as ->. reflexivity.
    + apply Hskip. intros b' (_ & _ & _ & Hexp). apply Hv in Hexp. discriminate.
Qed.

Lemma filter_all_true {A : Type} (f : A -> bool) (l : list A) :
  (forall a, a ∈ l -> f a = true) -> List.filter f l = l.
Proof.
  induction l as [|a l IH]; intros H; [reflexivity|]. cbn [List.filter].
  rewrite (H a) by left. f_equal. apply IH. intros b Hb. apply H. right. exact Hb.
Qed.

Lemma rebuildChunk_spec (getBlock : Z -> Z -> Z -> option Z) (cx cz : Z) :
  blockIdsOnly getBlock ->
  exists group,
    TerrainRenderer.rebuildChunk getBlock cx cz = Some group /\
    NoDup (map fst group) /\
    NoDup (drawnCells group) /\
    (forall b cell, drawn group b cell <->
       cellOfChunk cx cz cell /\
       getBlock (fst (fst cell)) (snd (fst cell)) (snd cell) = Some b /\
       b <> BlockId.Air /\ b <> BlockId.Water /\ exposed getBlock cell) /\
    (forall cell, cell ∈ drawnCells group <->
       cellOfChunk cx cz cell /\ exposed getBlock cell /\
       getBlock (fst (fst cell)) (snd (fst cell)) (snd cell) <> Some BlockId.Air /\
       getBlock (fst (fst cell)) (snd (fst cell)) (snd cell) <> Some BlockId.Water).
Proof.
  intros Hids.
  assert (H : collected_cells getBlock cx cz 16 0 0
                (TerrainRenderer.collectInstances getBlock cx cz)).
  { unfold TerrainRenderer.collectInstances, Config.CHUNK_SIZE, Config.WORLD_HEIGHT.
    cbv zeta.
    apply (forRange_counted (fun lx acc => collected_cells getBlock cx cz lx 0 0 acc));
      [lia| |].
    - exists []. split_and!; try constructor.
      + intros key cells Hin. inversion Hin.
      + intros (cells & Hin & _). inversion Hin.
      + intros (Hs & _). destruct (scanned_none _ _ _ Hs).
    - intros lx acc Hlx Hacc.
      apply (collected_cells_ext getBlock cx cz lx 16 0); [apply scanned_row|].
      apply (forRange_counted (fun lz acc => collected_cells getBlock cx cz lx lz 0 acc));
        [lia|exact Hacc|].
      intros lz acc' Hlz Hacc'.
      apply (collected_cells_ext getBlock cx cz lx lz 96); [apply scanned_column|].
      apply (forRange_counted (fun y acc => collected_cells getBlock cx cz lx lz y acc));
        [lia|exact Hacc'|].
      intros y acc'' Hy Hacc''. apply visitCell_collected; auto. }
  destruct H as (m & Hm & Hk & Hc & Hkeys & Hdrawn).
  unfold TerrainRenderer.rebuildChunk. rewrite Hm. cbn [option_map].
  rewrite filter_all_true.
  2:{ intros [key cells] Hin. destruct (Hkeys _ _ Hin) as (b & -> & Hb).
      cbn. apply andb_true_iff. split; [apply Z.leb_le|apply Z.leb_le]; lia. }
  exists m. split_and!; auto.
  - intros b cell. rewrite Hdrawn, scanned_all. reflexivity.
  - intros cell. split.
    + intros Hin. destruct (cells_drawn m cell Hkeys Hin) as (b & Hd).
      apply Hdrawn in Hd. destruct Hd as (Hs & Hb & Ha & Hw & He).
      apply scanned_all in Hs. rewrite Hb.
      split; [exact Hs|]. split; [exact He|].
      split; intros [= E]; contradiction.
    + intros (Hs & He & Ha & Hw).
      destruct cell as [[x y] z]. cbn [fst snd] in *.
      destruct (Hids x y z) as (b & Hb & _).
      apply (drawn_cells m b). apply Hdrawn. cbn [fst snd].
      split; [apply scanned_all; exact Hs|]. split; [exact Hb|].
      split; [intros ->; apply Ha; exact Hb|].
      split; [intros ->; apply Hw; exact Hb|exact He].
Qed.

(** X26.  When the world hands out block ids only, [rebuildChunk] builds a
    group with one mesh for each block that occurs (no block twice), and a
    cell carries an instance of the mesh of a block exactly when it is a
    cell of the chunk that holds this block, the block is neither air nor
    water, and at least one of the six cells next to it reads as air or
    water.  No cell carries two instances. *)
Theorem rebuildChunk_draws_the_exposed_blocks
    (getBlock : Z -> Z -> Z -> option Z) (cx cz : Z) :
  blockIdsOnly getBlock ->
  exists group,
    TerrainRenderer.rebuildChunk getBlock cx cz = Some group /\
    NoDup (map fst group) /\
    NoDup (drawnCells group) /\
    (forall b cell, drawn group b cell <->
       cellOfChunk cx cz cell /\
       getBlock (fst (fst cell)) (snd (fst cell)) (snd cell) = Some b /\
       b <> BlockId.Air /\ b <> BlockId.Water /\ exposed getBlock cell) /\
    (forall cell, cell ∈ drawnCells group <->
       cellOfChunk cx cz cell /\ exposed getBlock cell /\
       getBlock (fst (fst cell)) (snd (fst cell)) (snd cell) <> Some BlockId.Air /\
       getBlock (fst (fst cell)) (snd (fst cell)) (snd cell) <> Some BlockId.Water).
Proof. exact (rebuildChunk_spec getBlock cx cz). Qed.

Lemma rebuildChunk_draws_the_exposed_blocks_witness :
  blockIdsOnly stoneFloor /\
  exists group,
    TerrainRenderer.rebuildChunk stoneFloor 0 0 = Some group /\
    NoDup (map fst group) /\
    NoDup (drawnCells group) /\
    (forall b cell, drawn group b cell <->
       cellOfChunk 0 0 cell /\
       stoneFloor (fst (fst cell)) (snd (fst cell)) (snd cell) = Some b /\
       b <> BlockId.Air /\ b <> BlockId.Water /\ exposed stoneFloor cell) /\
    (forall cell, cell ∈ drawnCells group <->
       cellOfChunk 0 0 cell /\ exposed stoneFloor cell /\
       stoneFloor (fst (fst cell)) (snd (fst cell)) (snd cell) <> Some BlockId.Air /\
       stoneFloor (fst (fst cell)) (snd (fst cell)) (snd cell) <> Some BlockId.Water).
Proof.
  assert (H : blockIdsOnly stoneFloor).
  { intros x y z. unfold stoneFloor.
    destruct (y <? 40); eexists; (split; [reflexivity|]);
      unfold BlockId.Stone, BlockId.Air; lia. }
  split; [exact H|].
  apply (rebuildChunk_draws_the_exposed_blocks stoneFloor 0 0 H).
Defined.

(** ** Meshes of the multiplayer world *)

Lemma forRange_ext {S : Type} (lo hi : Z) (f g : Z -> S -> S) (s : S) :
  (forall i s, lo <= i < hi -> f i s = g i s) ->
  JS.forRange lo hi f s = JS.forRange lo hi g s.
Proof.
  intros H. destruct (Z_lt_le_dec hi lo) as [Hlt|Hle].
  - rewrite !forRange_empty by lia. reflexivity.
  - apply (forRange_counted (fun i acc => acc = JS.forRange lo i g s)); [exact Hle| |].
    + rewrite forRange_empty by lia. reflexivity.
    + intros i acc Hi ->. rewrite H by exact Hi.
      clear H. revert s. generalize Hi. clear Hle.
      intros _ s. remember (Z.to_nat (i - lo)) as n eqn:En.
      revert lo s Hi En. induction n as [|n IH]; intros lo s Hi En.
      * assert (i = lo) as -> by lia. rewrite forRange_empty by lia.
        rewrite forRange_step by lia. rewrite forRange_empty by lia. reflexivity.
      * rewrite (forRange_step lo i) by lia. rewrite (forRange_step lo (i + 1)) by lia.
        apply IH; lia.
Qed.

Lemma visibleAmong_ext (g1 g2 : Z -> Z -> Z -> option Z) (x y z : Z)
    (neighbors : list (Z * Z * Z)) :
  (forall d, d ∈ neighbors ->
     g1 (x + fst (fst d)) (y + snd (fst d)) (z + snd d) =
     g2 (x + fst (fst d)) (y + snd (fst d)) (z + snd d)) ->
  TerrainRenderer.visibleAmong g1 x y z neighbors =
  TerrainRenderer.visibleAmong g2 x y z neighbors.
Proof.
  induction neighbors as [|[[dx dy] dz] rest IH]; intros H; [reflexivity|].
  cbn [TerrainRenderer.visibleAmong].
  pose proof (H (dx, dy, dz) (list_elem_of_here _ _)) as H0. cbn [fst snd] in H0.
  rewrite H0, IH; [reflexivity|].
  intros d Hd. apply H. apply list_elem_of_further. exact Hd.
Qed.

(** The group of a chunk depends on the cells of the chunk and on the cells
    next to them only. *)
Lemma rebuildChunk_ext (g1 g2 : Z -> Z -> Z -> option Z) (cx cz : Z) :
  (forall x y z, readBy cx cz (x, y, z) -> g1 x y z = g2 x y z) ->
  TerrainRenderer.rebuildChunk g1 cx cz = TerrainRenderer.rebuildChunk g2 cx cz.
Proof.
  intros H. unfold TerrainRenderer.rebuildChunk.
  apply (f_equal (option_map (List.filter (fun e => TerrainRenderer.hasMaterial (fst e))))).
  unfold TerrainRenderer.collectInstances, Config.CHUNK_SIZE, Config.WORLD_HEIGHT. cbv zeta.
  apply forRange_ext. intros lx acc Hlx.
  apply forRange_ext. intros lz acc' Hlz.
  apply forRange_ext. intros y acc'' Hy.
  unfold TerrainRenderer.visitCell. destruct acc'' as [m|]; [|reflexivity]. cbv zeta.
  assert (Hown : cellOfChunk cx cz (cx * 16 + lx, y, cz * 16 + lz)).
  { unfold cellOfChunk. lia. }
  rewrite (H (cx * 16 + lx) y (cz * 16 + lz)).
  2:{ exists (cx * 16 + lx, y, cz * 16 + lz), (0, 0, 0).
      split; [exact Hown|]. split; [left; reflexivity|]. cbn [fst snd].
      f_equal; [f_equal|]; lia. }
  unfold TerrainRenderer.isBlockVisible.
  rewrite (visibleAmong_ext g1 g2); [reflexivity|].
  intros d Hd. apply H.
  exists (cx * 16 + lx, y, cz * 16 + lz), d.
  split; [exact Hown|]. split; [right; exact Hd|]. reflexivity.
Qed.

Lemma isResident_chunkKey (w : NetworkWorldStore.t) (cx cz : Z) :
  TerrainRenderer.isResident w (Chunk.chunkKey cx cz) =
  bool_decide (is_Some (NetworkWorldStore.chunks w !! Chunk.chunkKey cx cz)).
Proof.
  unfold TerrainRenderer.isResident. rewrite parseChunkKey_chunkKey. reflexivity.
Qed.

Lemma rebuildKey_chunkKey (w : NetworkWorldStore.t) (cx cz : Z) :
  TerrainRenderer.rebuildKey w (Chunk.chunkKey cx cz) =
  TerrainRenderer.rebuildChunk (NetworkWorldStore.getBlock w) cx cz.
Proof.
  unfold TerrainRenderer.rebuildKey. rewrite parseChunkKey_chunkKey. reflexivity.
Qed.

(** Reads see the arrays only, not the flags. *)
Lemma net_getBlock_blocks (w w' : NetworkWorldStore.t) (x y z : Z) :
  (NetworkWorldStore.blocks <$>
     (NetworkWorldStore.chunks w' !! Chunk.chunkKey (x / 16) (z / 16))) =
  (NetworkWorldStore.blocks <$>
     (NetworkWorldStore.chunks w !! Chunk.chunkKey (x / 16) (z / 16))) ->
  NetworkWorldStore.getBlock w' x y z = NetworkWorldStore.getBlock w x y z.
Proof.
  intros H. unfold NetworkWorldStore.getBlock, Config.CHUNK_SIZE. cbv zeta.
  destruct ((y <? 0) || (Config.WORLD_HEIGHT <=? y)); [reflexivity|].
  destruct (NetworkWorldStore.chunks w' !! _) as [st'|],
           (NetworkWorldStore.chunks w !! _) as [st|];
    cbn in H; try discriminate; [|reflexivity].
  injection H as ->. reflexivity.
Qed.

Lemma rebuildKey_blocks (w w' : NetworkWorldStore.t) (key : string) :
  (forall k, NetworkWorldStore.blocks <$> (NetworkWorldStore.chunks w' !! k) =
             NetworkWorldStore.blocks <$> (NetworkWorldStore.chunks w !! k)) ->
  TerrainRenderer.rebuildKey w' key = TerrainRenderer.rebuildKey w key.
Proof.
  intros H. unfold TerrainRenderer.rebuildKey.
  assert (Hres : forall k, bool_decide (is_Some (NetworkWorldStore.chunks w' !! k)) =
                           bool_decide (is_Some (NetworkWorldStore.chunks w !! k))).
  { intros k. apply bool_decide_ext. specialize (H k).
    destruct (NetworkWorldStore.chunks w' !! k), (NetworkWorldStore.chunks w !! k);
      cbn in H; try discriminate; split; intros [? ?]; try discriminate; eauto. }
  destruct (Chunk.parseChunkKey key) as [[cx|] [cz|]].
  - apply rebuildChunk_ext. intros x y z _. apply net_getBlock_blocks. apply H.
  - rewrite Hres. reflexivity.
  - rewrite Hres. reflexivity.
  - rewrite Hres. reflexivity.
Qed.

Lemma passOk_blocks (w : NetworkWorldStore.t) (g0 : gmap string TerrainRenderer.Instances)
    (maxChunkRebuilds : Z) (p : TerrainRenderer.Pass) (done : list string) :
  passOk w g0 maxChunkRebuilds p done ->
  forall k, NetworkWorldStore.blocks <$>
              (NetworkWorldStore.chunks (TerrainRenderer.world p) !! k) =
            NetworkWorldStore.blocks <$> (NetworkWorldStore.chunks w !! k).
Proof.
  intros (_ & _ & _ & Hdone & Hrest & _) k.
  destruct (decide (k ∈ done)) as [Hin|Hnin].
  - destruct (Hdone k Hin) as (st & g & Hw & _ & _ & Hw' & _). rewrite Hw, Hw'. reflexivity.
  - rewrite (Hrest k Hnin). reflexivity.
Qed.

(** One call of the callback of [update], on an entry that no earlier call
    has touched. *)
Lemma visitEntry_passOk (w : NetworkWorldStore.t) (g0 : gmap string TerrainRenderer.Instances)
    (maxChunkRebuilds : Z) (p : TerrainRenderer.Pass) (done : list string)
    (key : string) (st : NetworkWorldStore.ChunkState) :
  passOk w g0 maxChunkRebuilds p done ->
  NetworkWorldStore.chunks w !! key = Some st ->
  key ∉ done ->
  let p' := TerrainRenderer.visitEntry maxChunkRebuilds (key, st) p in
  exists done',
    passOk w g0 maxChunkRebuilds p' done' /\
    (forall k, k ∈ done' -> k ∈ done \/ k = key) /\
    (forall k, k ∈ done -> k ∈ done') /\
    (TerrainRenderer.threw p = true -> TerrainRenderer.threw p' = true) /\
    (TerrainRenderer.threw p' = false ->
     TerrainRenderer.rebuilt p' < maxChunkRebuilds ->
     TerrainRenderer.rebuilt p < maxChunkRebuilds /\
     (key ∈ done' \/ NetworkWorldStore.meshDirty st = false)).
Proof.
  intros Hp Hst Hnew p'.
  pose proof (passOk_blocks _ _ _ _ _ Hp) as Hblocks.
  destruct Hp as (Hnd & Hcount & Hmax & Hdone & Hrest & Hgroups & Hthrew).
  subst p'. unfold TerrainRenderer.visitEntry.
  destruct (TerrainRenderer.threw p) eqn:Et.
  { exists done. split; [repeat split; auto; rewrite ?Et; auto|].
    split; [auto|]. split; [auto|]. split; [auto|].
    rewrite Et; discriminate. }
  destruct (maxChunkRebuilds <=? TerrainRenderer.rebuilt p) eqn:Eb.
  { exists done. split; [repeat split; auto; rewrite ?Et; auto|].
    split; [auto|]. split; [auto|]. split; [discriminate|].
    apply Z.leb_le in Eb. intros _ Hlt. lia. }
  apply Z.leb_gt in Eb.
  destruct (NetworkWorldStore.meshDirty st) eqn:Ed; cbn [negb].
  2:{ exists done. split; [repeat split; auto; rewrite ?Et; auto|].
      split; [auto|]. split; [auto|]. split; [discriminate|].
      intros _ _. split; [exact Eb|right; reflexivity]. }
  rewrite (rebuildKey_blocks w (TerrainRenderer.world p) key Hblocks).
  destruct (TerrainRenderer.rebuildKey w key) as [group|] eqn:Er.
  - exists (key :: done).
    split.
    + unfold passOk.
      cbn [TerrainRenderer.rebuilt TerrainRenderer.groups TerrainRenderer.world
           TerrainRenderer.threw NetworkWorldStore.chunks length].
      split; [constructor; assumption|].
      split; [lia|]. split; [lia|].
      split.
      { intros k Hk. apply elem_of_cons in Hk as [->|Hk].
        - exists st, group. cbn [NetworkWorldStore.chunks]. rewrite !lookup_insert_eq.
          split_and!; auto.
        - assert (k <> key) by congruence.
          destruct (Hdone k Hk) as (st0 & g & ? & ? & ? & ? & ?).
          exists st0, g. cbn [NetworkWorldStore.chunks].
          rewrite !lookup_insert_ne by congruence. split_and!; auto. }
      split.
      { intros k Hk. apply not_elem_of_cons in Hk as [Hne Hk].
        cbn [NetworkWorldStore.chunks].
        rewrite lookup_insert_ne by congruence. apply Hrest. exact Hk. }
      split; [|discriminate].
      intros k Hk. apply not_elem_of_cons in Hk as [Hne Hk].
      rewrite lookup_insert_ne by congruence.
      destruct (Hgroups k Hk) as [Hg0|[Hg0 _]]; [left; assumption|discriminate].
    + cbn [TerrainRenderer.rebuilt TerrainRenderer.groups TerrainRenderer.threw].
      split; [intros k Hk; apply elem_of_cons in Hk as [->|Hk]; auto|].
      split; [intros k Hk; apply list_elem_of_further; exact Hk|].
      split; [discriminate|].
      intros _ Hlt; split; [lia|left; apply list_elem_of_here].
  - exists done.
    assert (Hfail : failedAt w (delete key (TerrainRenderer.groups p)) key).
    { exists st. rewrite lookup_delete_eq. split_and!; auto. }
    split.
    + unfold passOk.
      cbn [TerrainRenderer.rebuilt TerrainRenderer.groups TerrainRenderer.world
           TerrainRenderer.threw].
      split; [assumption|]. split; [assumption|]. split; [assumption|].
      split.
      { intros k Hk. assert (k <> key) by congruence.
        destruct (Hdone k Hk) as (st0 & g & ? & ? & ? & ? & ?).
        exists st0, g. rewrite lookup_delete_ne by congruence. split_and!; auto. }
      split; [exact Hrest|].
      split; [|intros _; exists key; auto].
      intros k Hk. destruct (decide (k = key)) as [->|Hne]; [right; auto|].
      rewrite lookup_delete_ne by congruence.
      destruct (Hgroups k Hk) as [Hg0|[Hg0 _]]; [left; assumption|discriminate].
    + cbn [TerrainRenderer.rebuilt TerrainRenderer.groups TerrainRenderer.threw].
      split; [auto|]. split; [auto|]. split; [reflexivity|].
      discriminate.
Qed.

(** The loop of [update] over entries that no earlier call has touched. *)
Lemma pass_spec (w : NetworkWorldStore.t) (g0 : gmap string TerrainRenderer.Instances)
    (maxChunkRebuilds : Z) (entries : list (string * NetworkWorldStore.ChunkState)) :
  forall (p : TerrainRenderer.Pass) (done : list string),
  NoDup (map fst entries) ->
  (forall key st, (key, st) ∈ entries ->
     NetworkWorldStore.chunks w !! key = Some st /\ key ∉ done) ->
  passOk w g0 maxChunkRebuilds p done ->
  let p' := fold_left (fun p entry => TerrainRenderer.visitEntry maxChunkRebuilds entry p)
              entries p in
  exists done',
    passOk w g0 maxChunkRebuilds p' done' /\
    (forall k, k ∈ done -> k ∈ done') /\
    (TerrainRenderer.threw p = true -> TerrainRenderer.threw p' = true) /\
    (TerrainRenderer.threw p' = false ->
     TerrainRenderer.rebuilt p' < maxChunkRebuilds ->
     TerrainRenderer.rebuilt p < maxChunkRebuilds /\
     forall key st, (key, st) ∈ entries ->
       key ∈ done' \/ NetworkWorldStore.meshDirty st = false).
Proof.
  induction entries as [|[key st] rest IH]; intros p done Hnd Hin Hp; cbn [fold_left].
  - exists done. split; [exact Hp|]. split; [auto|]. split; [auto|].
    intros _ Hlt. split; [exact Hlt|]. intros k s Hk. inversion Hk.
  - cbn [map fst] in Hnd. apply NoDup_cons in Hnd as [Hkey Hnd].
    destruct (Hin key st (list_elem_of_here _ _)) as [Hst Hnew].
    destruct (visitEntry_passOk w g0 maxChunkRebuilds p done key st Hp Hst Hnew)
      as (done1 & Hp1 & Hsub1 & Hmono1 & Hthrew1 & Hleft1).
    destruct (IH (TerrainRenderer.visitEntry maxChunkRebuilds (key, st) p) done1 Hnd)
      as (done' & Hp' & Hmono & Hthrew & Hleft); [|exact Hp1|].
    { intros k s Hk. destruct (Hin k s (list_elem_of_further _ _ _ Hk)) as [Hs Hk'].
      split; [exact Hs|]. intros Hd. destruct (Hsub1 k Hd) as [Hd0| ->]; [contradiction|].
      apply Hkey. apply (list_elem_of_fmap_2 fst) in Hk. exact Hk. }
    exists done'. split; [exact Hp'|]. split; [auto|]. split; [auto|].
    intros Hf Hlt. destruct (Hleft Hf Hlt) as [Hlt1 Hrest].
    assert (Hf1 : TerrainRenderer.threw
                    (TerrainRenderer.visitEntry maxChunkRebuilds (key, st) p) = false).
    { destruct (TerrainRenderer.threw (TerrainRenderer.visitEntry _ _ p)) eqn:E;
        [|reflexivity]. rewrite Hthrew in Hf by reflexivity. discriminate. }
    destruct (Hleft1 Hf1 Hlt1) as [Hlt0 Hhere].
    split; [exact Hlt0|].
    intros k s Hk. apply elem_of_cons in Hk as [[= -> ->]|Hk]; [|apply Hrest; exact Hk].
    destruct Hhere as [Hd|Hc]; [left; apply Hmono; exact Hd|right; exact Hc].
Qed.

Lemma removeStale_lookup (w : NetworkWorldStore.t)
    (groups : gmap string TerrainRenderer.Instances) (key : string) :
  TerrainRenderer.removeStaleChunkGroups w groups !! key =
  if TerrainRenderer.isResident w key then groups !! key else None.
Proof.
  unfold TerrainRenderer.removeStaleChunkGroups.
  destruct (TerrainRenderer.isResident w key) eqn:E.
  - destruct (groups !! key) as [g|] eqn:Eg.
    + apply map_lookup_filter_Some. split; [exact Eg|exact E].
    + apply map_lookup_filter_None. left. exact Eg.
  - apply map_lookup_filter_None. right. intros g _. cbn [fst]. rewrite E. discriminate.
Qed.

Lemma net_blockIdsOnly (w : NetworkWorldStore.t) :
  netBlocksOk w -> blockIdsOnly (NetworkWorldStore.getBlock w).
Proof.
  intros H x y z. unfold NetworkWorldStore.getBlock. cbv zeta.
  destruct ((y <? 0) || (Config.WORLD_HEIGHT <=? y)) eqn:Ey.
  { exists BlockId.Air. split; [reflexivity|]. unfold BlockId.Air. lia. }
  apply orb_false_iff in Ey as [Ey1 Ey2]. apply Z.ltb_ge in Ey1. apply Z.leb_gt in Ey2.
  destruct (NetworkWorldStore.chunks w !! _) as [st|] eqn:E.
  2:{ exists BlockId.Air. split; [reflexivity|]. unfold BlockId.Air. lia. }
  destruct (H _ _ E) as [Hlen Hall].
  rewrite !localOf_mod.
  pose proof (local_coords x) as [Hlx _]. pose proof (local_coords z) as [Hlz _].
  unfold NetworkWorldStore.index, Chunk.BLOCKS_PER_CHUNK, Config.CHUNK_SIZE,
    Config.WORLD_HEIGHT in *.
  destruct (lookup_lt_is_Some_2 (NetworkWorldStore.blocks st)
              (Z.to_nat (x mod 16 + z mod 16 * 16 + y * 16 * 16))) as [b Hb]; [lia|].
  exists b. split; [exact Hb|].
  exact (proj1 (Forall_lookup _ _) Hall _ _ Hb).
Qed.

Lemma rebuildKey_Some (w : NetworkWorldStore.t) (key : string) :
  netKeysOk w -> netBlocksOk w ->
  is_Some (NetworkWorldStore.chunks w !! key) ->
  is_Some (TerrainRenderer.rebuildKey w key).
Proof.
  intros Hk Hb [st Hst]. destruct (Hk _ _ Hst) as (cx & cz & ->).
  rewrite rebuildKey_chunkKey.
  destruct (rebuildChunk_spec _ cx cz (net_blockIdsOnly w Hb)) as (g & -> & _).
  eauto.
Qed.

(** What one call of [update] does. *)
Lemma update_spec (r : TerrainRenderer.t) (w : NetworkWorldStore.t) (maxChunkRebuilds : Z)
    (startedAt endedAt : float) :
  let out := TerrainRenderer.update r w maxChunkRebuilds startedAt endedAt in
  let r' := fst (fst out) in
  let w' := snd (fst out) in
  let threw := snd out in
  exists done,
    NoDup done /\
    Z.of_nat (length done) <= Z.max 0 maxChunkRebuilds /\
    (forall key, key ∈ done -> rebuiltAt w w' (TerrainRenderer.chunkGroups r') key) /\
    (forall key, key ∉ done ->
       NetworkWorldStore.chunks w' !! key = NetworkWorldStore.chunks w !! key) /\
    (forall key, key ∉ done ->
       TerrainRenderer.chunkGroups r' !! key =
         (if TerrainRenderer.isResident w key then TerrainRenderer.chunkGroups r !! key
          else None) \/
       (threw = true /\ failedAt w (TerrainRenderer.chunkGroups r') key)) /\
    (threw = true ->
       exists key, (key ∉ done) /\ failedAt w (TerrainRenderer.chunkGroups r') key) /\
    (threw = false ->
       Z.of_nat (length done) = Z.max 0 maxChunkRebuilds \/
       forall key st, NetworkWorldStore.chunks w' !! key = Some st ->
         NetworkWorldStore.meshDirty st = false) /\
    (netKeysOk w -> netBlocksOk w -> threw = false).
Proof.
  intros out r' w' threw. subst out r' w' threw.
  unfold TerrainRenderer.update. cbv zeta. cbn [fst snd TerrainRenderer.chunkGroups].
  set (g0 := TerrainRenderer.removeStaleChunkGroups w (TerrainRenderer.chunkGroups r)).
  set (p0 := {| TerrainRenderer.rebuilt := 0; TerrainRenderer.groups := g0;
                TerrainRenderer.world := w; TerrainRenderer.threw := false |}).
  assert (Hp0 : passOk w g0 maxChunkRebuilds p0 []).
  { unfold passOk. subst p0. cbn [TerrainRenderer.rebuilt TerrainRenderer.groups
      TerrainRenderer.world TerrainRenderer.threw length].
    split; [constructor|]. split; [reflexivity|]. split; [lia|].
    split; [intros k Hk; inversion Hk|]. split; [reflexivity|].
    split; [left; reflexivity|discriminate]. }
  destruct (pass_spec w g0 maxChunkRebuilds (map_to_list (NetworkWorldStore.chunks w))
              p0 [] (NoDup_fst_map_to_list _)) as (done & Hp & _ & _ & Hleft);
    [|exact Hp0|].
  { intros k s Hk. apply elem_of_map_to_list in Hk. split; [exact Hk|]. intros Hn.
    inversion Hn. }
  set (p := fold_left _ _ p0) in *.
  pose proof Hp as (Hnd & Hcount & Hmax & Hdone & Hrest & Hgroups & Hthrew).
  exists done.
  split; [exact Hnd|]. split; [exact Hmax|]. split; [exact Hdone|]. split; [exact Hrest|].
  split.
  { intros k Hk. destruct (Hgroups k Hk) as [Hg|Hf]; [left|right; exact Hf].
    rewrite Hg. apply removeStale_lookup. }
  split; [exact Hthrew|].
  split.
  - intros Hf.
    destruct (Z_lt_le_dec (TerrainRenderer.rebuilt p) maxChunkRebuilds) as [Hlt|Hge].
    + right. destruct (Hleft Hf Hlt) as [_ Hclean].
      intros k s Hk. destruct (decide (k ∈ done)) as [Hd|Hd].
      * destruct (Hdone k Hd) as (s0 & g & _ & _ & _ & Hk' & _).
        rewrite Hk in Hk'. injection Hk' as ->. reflexivity.
      * rewrite (Hrest k Hd) in Hk.
        destruct (Hclean k s) as [Hd'|Hc]; [apply elem_of_map_to_list; exact Hk| |exact Hc].
        contradiction.
    + left. lia.
  - intros Hkeys Hblocks. destruct (TerrainRenderer.threw p) eqn:Et; [|reflexivity].
    destruct (Hthrew eq_refl) as (k & _ & s & Hk & _ & Hnone & _).
    destruct (rebuildKey_Some w k Hkeys Hblocks) as [g Hg]; [eauto|]. congruence.
Qed.

(** *** Edits of the store and the meshes *)

Lemma markChunkDirty_clean (s : NetworkWorldStore.t) (a b : Z) (key : string)
    (st : NetworkWorldStore.ChunkState) :
  NetworkWorldStore.chunks (NetworkWorldStore.markChunkDirty s a b) !! key = Some st ->
  NetworkWorldStore.meshDirty st = false ->
  NetworkWorldStore.chunks s !! key = Some st /\ key <> Chunk.chunkKey a b.
Proof.
  unfold NetworkWorldStore.markChunkDirty.
  destruct (NetworkWorldStore.chunks s !! Chunk.chunkKey a b) as [st0|] eqn:E.
  - cbn [NetworkWorldStore.chunks]. intros Hst Hclean.
    destruct (decide (key = Chunk.chunkKey a b)) as [->|Hne].
    + rewrite lookup_insert_eq in Hst. injection Hst as <-. discriminate.
    + rewrite lookup_insert_ne in Hst by congruence. auto.
  - intros Hst _. split; [exact Hst|]. intros ->. congruence.
Qed.

Lemma markNeighborChunksDirty_clean (s : NetworkWorldStore.t) (cx cz : Z) (key : string)
    (st : NetworkWorldStore.ChunkState) :
  NetworkWorldStore.chunks (NetworkWorldStore.markNeighborChunksDirty s cx cz) !! key
    = Some st ->
  NetworkWorldStore.meshDirty st = false ->
  NetworkWorldStore.chunks s !! key = Some st /\
  key <> Chunk.chunkKey (cx - 1) cz /\ key <> Chunk.chunkKey (cx + 1) cz /\
  key <> Chunk.chunkKey cx (cz - 1) /\ key <> Chunk.chunkKey cx (cz + 1).
Proof.
  unfold NetworkWorldStore.markNeighborChunksDirty. cbv zeta. intros H Hc.
  apply markChunkDirty_clean in H as [H H4]; [|exact Hc].
  apply markChunkDirty_clean in H as [H H3]; [|exact Hc].
  apply markChunkDirty_clean in H as [H H2]; [|exact Hc].
  apply markChunkDirty_clean in H as [H H1]; [|exact Hc].
  auto.
Qed.

Lemma markNeighborChunksDirtyAt_clean (s : NetworkWorldStore.t) (cx cz lx lz : Z)
    (key : string) (st : NetworkWorldStore.ChunkState) :
  NetworkWorldStore.chunks (NetworkWorldStore.markNeighborChunksDirtyAt s cx cz lx lz) !! key
    = Some st ->
  NetworkWorldStore.meshDirty st = false ->
  NetworkWorldStore.chunks s !! key = Some st /\
  (lx = 0 -> key <> Chunk.chunkKey (cx - 1) cz) /\
  (lx = 15 -> key <> Chunk.chunkKey (cx + 1) cz) /\
  (lz = 0 -> key <> Chunk.chunkKey cx (cz - 1)) /\
  (lz = 15 -> key <> Chunk.chunkKey cx (cz + 1)).
Proof.
  unfold NetworkWorldStore.markNeighborChunksDirtyAt, Config.CHUNK_SIZE. cbv zeta.
  intros H Hc.
  destruct (Z.eqb_spec lz 0) as [Hz0|Hz0];
    [|destruct (Z.eqb_spec lz (16 - 1)) as [Hz1|Hz1]];
    try (apply markChunkDirty_clean in H as [H Hz]; [|exact Hc]);
    (destruct (Z.eqb_spec lx 0) as [Hx0|Hx0];
      [|destruct (Z.eqb_spec lx (16 - 1)) as [Hx1|Hx1]];
      try (apply markChunkDirty_clean in H as [H Hx]; [|exact Hc]));
    (split; [exact H|]); split_and!; intros ?; try lia; assumption.
Qed.

Lemma blocks_is_Some (m m' : option NetworkWorldStore.ChunkState) :
  NetworkWorldStore.blocks <$> m' = NetworkWorldStore.blocks <$> m ->
  is_Some m' <-> is_Some m.
Proof.
  destruct m, m'; cbn; intros H; try discriminate; split; intros [? ?];
    try discriminate; eauto.
Qed.

Lemma setChunk_blocks (w : NetworkWorldStore.t) (cx cz : Z) (blocks : list Z)
    (key : string) :
  NetworkWorldStore.blocks <$>
    (NetworkWorldStore.chunks (NetworkWorldStore.setChunk w cx cz blocks) !! key) =
  if decide (key = Chunk.chunkKey cx cz) then Some blocks
  else NetworkWorldStore.blocks <$> (NetworkWorldStore.chunks w !! key).
Proof.
  unfold NetworkWorldStore.setChunk. cbv zeta.
  rewrite markNeighborChunksDirty_blocks. cbn [NetworkWorldStore.chunks].
  destruct (decide (key = Chunk.chunkKey cx cz)) as [->|Hne].
  - rewrite lookup_insert_eq. reflexivity.
  - rewrite lookup_insert_ne by congruence. reflexivity.
Qed.

(** A read as a look-up in the array of the chunk. *)
Lemma net_getBlock_array (w : NetworkWorldStore.t) (x y z : Z) :
  NetworkWorldStore.getBlock w x y z =
  if (y <? 0) || (96 <=? y) then Some BlockId.Air
  else match NetworkWorldStore.blocks <$>
               (NetworkWorldStore.chunks w !! Chunk.chunkKey (x / 16) (z / 16)) with
       | None => Some BlockId.Air
       | Some blocks => blocks !! Z.to_nat (x mod 16 + z mod 16 * 16 + y * 16 * 16)
       end.
Proof.
  unfold NetworkWorldStore.getBlock, NetworkWorldStore.index, Config.CHUNK_SIZE,
    Config.WORLD_HEIGHT. cbv zeta. rewrite !localOf_mod.
  destruct ((y <? 0) || (96 <=? y)); [reflexivity|].
  destruct (NetworkWorldStore.chunks w !! _); reflexivity.
Qed.

Lemma applyBlockDelta_blocks (w : NetworkWorldStore.t) (x y z b : Z) (key : string) :
  NetworkWorldStore.blocks <$>
    (NetworkWorldStore.chunks (NetworkWorldStore.applyBlockDelta w x y z b) !! key) =
  if (y <? 0) || (96 <=? y) then
    NetworkWorldStore.blocks <$> (NetworkWorldStore.chunks w !! key)
  else if decide (key = Chunk.chunkKey (x / 16) (z / 16)) then
    (fun blocks => <[Z.to_nat (x mod 16 + z mod 16 * 16 + y * 16 * 16) := JS.toUint16 b]> blocks)
      <$> (NetworkWorldStore.blocks <$> (NetworkWorldStore.chunks w !! key))
  else NetworkWorldStore.blocks <$> (NetworkWorldStore.chunks w !! key).
Proof.
  unfold NetworkWorldStore.applyBlockDelta, NetworkWorldStore.index, Config.CHUNK_SIZE,
    Config.WORLD_HEIGHT. cbv zeta. rewrite !localOf_mod.
  destruct ((y <? 0) || (96 <=? y)); [reflexivity|].
  destruct (NetworkWorldStore.chunks w !! Chunk.chunkKey (x / 16) (z / 16)) as [st|] eqn:E.
  - rewrite markNeighborChunksDirtyAt_blocks. cbn [NetworkWorldStore.chunks].
    destruct (decide (key = Chunk.chunkKey (x / 16) (z / 16))) as [->|Hne].
    + rewrite lookup_insert_eq, E. reflexivity.
    + rewrite lookup_insert_ne by congruence. reflexivity.
  - destruct (decide (key = Chunk.chunkKey (x / 16) (z / 16))) as [->|Hne];
      [rewrite E|]; reflexivity.
Qed.

(** A block delta changes the one cell it names. *)
Lemma applyBlockDelta_getBlock_other (w : NetworkWorldStore.t) (x y z b x' y' z' : Z) :
  (x', y', z') <> (x, y, z) ->
  NetworkWorldStore.getBlock (NetworkWorldStore.applyBlockDelta w x y z b) x' y' z' =
  NetworkWorldStore.getBlock w x' y' z'.
Proof.
  intros Hne. rewrite !net_getBlock_array.
  destruct ((y' <? 0) || (96 <=? y')) eqn:Ey'; [reflexivity|].
  rewrite applyBlockDelta_blocks.
  destruct ((y <? 0) || (96 <=? y)) eqn:Ey; [reflexivity|].
  destruct (decide (Chunk.chunkKey (x' / 16) (z' / 16) = Chunk.chunkKey (x / 16) (z / 16)))
    as [Heq|Hk]; [|reflexivity].
  destruct (NetworkWorldStore.chunks w !! _) as [st|]; [|reflexivity].
  cbn [fmap option_fmap option_map].
  apply list_lookup_insert_ne.
  apply chunkKey_inj in Heq as [Hx Hz].
  apply orb_false_iff in Ey as [Ey1 Ey2]. apply Z.ltb_ge in Ey1. apply Z.leb_gt in Ey2.
  apply orb_false_iff in Ey' as [Ey1' Ey2']. apply Z.ltb_ge in Ey1'. apply Z.leb_gt in Ey2'.
  pose proof (local_coords x) as [Hlx Hxe]. pose proof (local_coords z) as [Hlz Hze].
  pose proof (local_coords x') as [Hlx' Hxe']. pose proof (local_coords z') as [Hlz' Hze'].
  intros Hi. apply Hne.
  assert (x mod 16 = x' mod 16 /\ y = y' /\ z mod 16 = z' mod 16) as (Hmx & -> & Hmz) by lia.
  f_equal; [f_equal|]; lia.
Qed.

(** The chunks in which [rebuildChunk] reads: the chunk itself, and across
    a border the chunk on the other side. *)
Lemma readBy_cases (cx cz x y z : Z) :
  readBy cx cz (x, y, z) ->
  (x / 16 = cx /\ z / 16 = cz) \/
  (x / 16 = cx - 1 /\ z / 16 = cz /\ x mod 16 = 15) \/
  (x / 16 = cx + 1 /\ z / 16 = cz /\ x mod 16 = 0) \/
  (x / 16 = cx /\ z / 16 = cz - 1 /\ z mod 16 = 15) \/
  (x / 16 = cx /\ z / 16 = cz + 1 /\ z mod 16 = 0).
Proof.
  intros ([[x0 y0] z0] & [[dx dy] dz] & Hown & Hd & Heq).
  cbn [fst snd] in Heq. injection Heq as -> -> ->.
  unfold cellOfChunk in Hown.
  pose proof (local_coords (x0 + dx)) as [Hlx Hxe].
  pose proof (local_coords (z0 + dz)) as [Hlz Hze].
  assert (Hcases : (dx, dy, dz) = (0, 0, 0) \/ (dx, dy, dz) = (1, 0, 0) \/
                   (dx, dy, dz) = (-1, 0, 0) \/ (dx, dy, dz) = (0, 1, 0) \/
                   (dx, dy, dz) = (0, -1, 0) \/ (dx, dy, dz) = (0, 0, 1) \/
                   (dx, dy, dz) = (0, 0, -1)).
  { destruct Hd as [Hd|Hd]; [left; exact Hd|right].
    unfold TerrainRenderer.CARDINAL_NEIGHBORS in Hd.
    repeat (apply elem_of_cons in Hd as [Hd|Hd]; [tauto|]). inversion Hd. }
  clear Hd. revert Hlx Hxe Hlz Hze. generalize ((x0 + dx) / 16), ((z0 + dz) / 16).
  generalize ((x0 + dx) mod 16), ((z0 + dz) mod 16). intros mx mz qx qz Hlx Hxe Hlz Hze.
  destruct Hcases as [H|[H|[H|[H|[H|[H|H]]]]]]; injection H as -> -> ->; lia.
Qed.

Lemma setChunk_meshesOk (r : TerrainRenderer.t) (w : NetworkWorldStore.t) (cx cz : Z)
    (blocks : list Z) :
  meshesOk r w -> meshesOk r (NetworkWorldStore.setChunk w cx cz blocks).
Proof.
  intros (Hkeys & Hgroups & Hcur).
  assert (Hres : forall key,
            is_Some (NetworkWorldStore.chunks (NetworkWorldStore.setChunk w cx cz blocks)
                       !! key) <->
            key = Chunk.chunkKey cx cz \/ is_Some (NetworkWorldStore.chunks w !! key)).
  { intros key. pose proof (setChunk_blocks w cx cz blocks key) as Hb.
    destruct (decide (key = Chunk.chunkKey cx cz)) as [->|Hne].
    - split; [auto|]. intros _.
      destruct (NetworkWorldStore.chunks _ !! _); [eauto|discriminate].
    - apply blocks_is_Some in Hb. rewrite Hb. tauto. }
  split; [|split].
  - intros key st Hst. destruct (proj1 (Hres key)) as [->|[st0 Hst0]]; eauto.
  - intros key group Hg. apply Hres. right. eapply Hgroups. exact Hg.
  - intros key st Hst Hclean.
    unfold NetworkWorldStore.setChunk in Hst. cbv zeta in Hst.
    apply markNeighborChunksDirty_clean in Hst as (Hst & H1 & H2 & H3 & H4); [|exact Hclean].
    cbn [NetworkWorldStore.chunks] in Hst.
    destruct (decide (key = Chunk.chunkKey cx cz)) as [->|Hne].
    { rewrite lookup_insert_eq in Hst. injection Hst as <-. discriminate. }
    rewrite lookup_insert_ne in Hst by congruence.
    rewrite (Hcur key st Hst Hclean).
    destruct (Hkeys key st Hst) as (a & b & ->). rewrite !rebuildKey_chunkKey.
    apply rebuildChunk_ext. intros x y z Hread. symmetry.
    apply net_getBlock_blocks. rewrite setChunk_blocks.
    destruct (decide (Chunk.chunkKey (x / 16) (z / 16) = Chunk.chunkKey cx cz))
      as [Heq|Hk]; [exfalso|reflexivity].
    apply chunkKey_inj in Heq as [<- <-].
    destruct (readBy_cases a b x y z Hread)
      as [[<- <-]|[(Ha & <- & _)|[(Ha & <- & _)|[(<- & Hb & _)|(<- & Hb & _)]]]].
    + apply Hne. reflexivity.
    + apply H2. f_equal; lia.
    + apply H1. f_equal; lia.
    + apply H4. f_equal; lia.
    + apply H3. f_equal; lia.
Qed.

Lemma applyBlockDelta_clean (w : NetworkWorldStore.t) (x y z b : Z) (key : string)
    (st : NetworkWorldStore.ChunkState) :
  NetworkWorldStore.chunks (NetworkWorldStore.applyBlockDelta w x y z b) !! key = Some st ->
  NetworkWorldStore.meshDirty st = false ->
  NetworkWorldStore.chunks w !! key = Some st /\
  (NetworkWorldStore.applyBlockDelta w x y z b = w \/
   (key <> Chunk.chunkKey (x / 16) (z / 16) /\
    (x mod 16 = 0 -> key <> Chunk.chunkKey (x / 16 - 1) (z / 16)) /\
    (x mod 16 = 15 -> key <> Chunk.chunkKey (x / 16 + 1) (z / 16)) /\
    (z mod 16 = 0 -> key <> Chunk.chunkKey (x / 16) (z / 16 - 1)) /\
    (z mod 16 = 15 -> key <> Chunk.chunkKey (x / 16) (z / 16 + 1)))).
Proof.
  unfold NetworkWorldStore.applyBlockDelta, Config.CHUNK_SIZE. cbv zeta.
  rewrite !localOf_mod.
  destruct ((y <? 0) || (Config.WORLD_HEIGHT <=? y)); [auto|].
  destruct (NetworkWorldStore.chunks w !! Chunk.chunkKey (x / 16) (z / 16)) as [st0|] eqn:E;
    [|auto].
  intros Hst Hclean.
  apply markNeighborChunksDirtyAt_clean in Hst as (Hst & Hmarks); [|exact Hclean].
  cbn [NetworkWorldStore.chunks] in Hst.
  destruct (decide (key = Chunk.chunkKey (x / 16) (z / 16))) as [->|Hne].
  { rewrite lookup_insert_eq in Hst. injection Hst as <-. discriminate. }
  rewrite lookup_insert_ne in Hst by congruence.
  split; [exact Hst|]. right. split; [exact Hne|exact Hmarks].
Qed.

Lemma applyBlockDelta_meshesOk (r : TerrainRenderer.t) (w : NetworkWorldStore.t)
    (x y z b : Z) :
  meshesOk r w -> meshesOk r (NetworkWorldStore.applyBlockDelta w x y z b).
Proof.
  intros (Hkeys & Hgroups & Hcur).
  assert (Hres : forall key,
            is_Some (NetworkWorldStore.chunks (NetworkWorldStore.applyBlockDelta w x y z b)
                       !! key) <->
            is_Some (NetworkWorldStore.chunks w !! key)).
  { intros key. pose proof (applyBlockDelta_blocks w x y z b key) as Hb.
    destruct ((y <? 0) || (96 <=? y)); [apply blocks_is_Some; exact Hb|].
    destruct (decide (key = Chunk.chunkKey (x / 16) (z / 16)));
      [|apply blocks_is_Some; exact Hb].
    destruct (NetworkWorldStore.chunks (NetworkWorldStore.applyBlockDelta w x y z b) !! key),
             (NetworkWorldStore.chunks w !! key); cbn in Hb; try discriminate;
      split; intros [? ?]; try discriminate; eauto. }
  split; [|split].
  - intros key st Hst. destruct (proj1 (Hres key)) as [st0 Hst0]; eauto.
  - intros key group Hg. apply Hres. eapply Hgroups. exact Hg.
  - intros key st Hst Hclean.
    destruct (applyBlockDelta_clean w x y z b key st Hst Hclean) as [Hst0 Hwhat].
    rewrite (Hcur key st Hst0 Hclean).
    destruct Hwhat as [->|(Hne & H1 & H2 & H3 & H4)]; [reflexivity|].
    destruct (Hkeys key st Hst0) as (a & c & ->). rewrite !rebuildKey_chunkKey.
    apply rebuildChunk_ext. intros x' y' z' Hread. symmetry.
    apply applyBlockDelta_getBlock_other. intros [= -> -> ->].
    destruct (readBy_cases a c x y z Hread)
      as [[<- <-]|[(Ha & <- & Hm)|[(Ha & <- & Hm)|[(<- & Hc & Hm)|(<- & Hc & Hm)]]]].
    + apply Hne. reflexivity.
    + apply (H2 Hm). f_equal; lia.
    + apply (H1 Hm). f_equal; lia.
    + apply (H4 Hm). f_equal; lia.
    + apply (H3 Hm). f_equal; lia.
Qed.

Lemma onServerMessage_meshesOk (r : TerrainRenderer.t) (w : NetworkWorldStore.t) :
  meshesOk r w ->
  (forall cx cz payload, meshesOk r (NetworkWorldStore.onChunkData w cx cz payload)) /\
  (forall deltas, meshesOk r (NetworkWorldStore.onChangedBlocks w deltas)).
Proof.
  intros H. split.
  - intros cx cz payload. unfold NetworkWorldStore.onChunkData.
    destruct (Wire.decodeChunkBase64 payload); [apply setChunk_meshesOk|]; exact H.
  - intros deltas. unfold NetworkWorldStore.onChangedBlocks.
    revert w H. induction deltas as [|d rest IH]; intros w H; [exact H|].
    cbn [fold_left]. apply IH. apply applyBlockDelta_meshesOk. exact H.
Qed.

(** *** [update] and the meshes *)

Lemma elem_of_flagged (w : NetworkWorldStore.t) (key : string) :
  key ∈ flagged w <->
  exists st, NetworkWorldStore.chunks w !! key = Some st /\
             NetworkWorldStore.meshDirty st = true.
Proof.
  unfold flagged. rewrite elem_of_dom. split.
  - intros [st Hst]. apply map_lookup_filter_Some in Hst as [Hst Hd]. eauto.
  - intros (st & Hst & Hd). exists st. apply map_lookup_filter_Some. auto.
Qed.

(** When no chunk is flagged, the groups are the meshes of the world. *)
Lemma meshesOk_sceneShows (r : TerrainRenderer.t) (w : NetworkWorldStore.t) :
  meshesOk r w ->
  (forall key st, NetworkWorldStore.chunks w !! key = Some st ->
     NetworkWorldStore.meshDirty st = false) ->
  sceneShows r w.
Proof.
  intros (_ & Hgroups & Hcur) Hclean key.
  destruct (NetworkWorldStore.chunks w !! key) as [st|] eqn:E.
  - apply (Hcur key st E). apply (Hclean key st E).
  - destruct (TerrainRenderer.chunkGroups r !! key) as [g|] eqn:Eg; [|reflexivity].
    destruct (Hgroups key g Eg) as [st Hst]. congruence.
Qed.

Lemma update_meshesOk (r : TerrainRenderer.t) (w : NetworkWorldStore.t)
    (maxChunkRebuilds : Z) (startedAt endedAt : float) :
  meshesOk r w ->
  let out := TerrainRenderer.update r w maxChunkRebuilds startedAt endedAt in
  let r' := fst (fst out) in
  let w' := snd (fst out) in
  let threw := snd out in
  meshesOk r' w' /\
  (forall x y z, NetworkWorldStore.getBlock w' x y z = NetworkWorldStore.getBlock w x y z) /\
  (forall key, key ∈ flagged w' -> key ∈ flagged w) /\
  (threw = false -> Z.of_nat (size (flagged w)) <= maxChunkRebuilds ->
   flagged w' = ∅ /\ sceneShows r' w').
Proof.
  intros Hok out r' w' threw.
  destruct (update_spec r w maxChunkRebuilds startedAt endedAt)
    as (done & Hnd & Hmax & Hdone & Hrest & Hgroups & Hthrew & Hleft & _).
  fold out in Hdone, Hrest, Hgroups, Hthrew, Hleft.
  fold r' in Hdone, Hgroups, Hthrew. fold w' in Hdone, Hrest, Hleft.
  fold threw in Hgroups, Hthrew, Hleft.
  destruct Hok as (Hkeys & Hgr & Hcur).
  assert (Hblocks : forall k,
            NetworkWorldStore.blocks <$> (NetworkWorldStore.chunks w' !! k) =
            NetworkWorldStore.blocks <$> (NetworkWorldStore.chunks w !! k)).
  { intros k. destruct (decide (k ∈ done)) as [Hd|Hd].
    - destruct (Hdone k Hd) as (st & g & Hw & _ & _ & Hw' & _). rewrite Hw, Hw'. reflexivity.
    - rewrite (Hrest k Hd). reflexivity. }
  assert (Hok' : meshesOk r' w').
  { split; [|split].
    - intros key st Hst.
      destruct (proj1 (blocks_is_Some _ _ (Hblocks key))) as [st0 Hst0]; eauto.
    - intros key group Hg. destruct (decide (key ∈ done)) as [Hd|Hd].
      + destruct (Hdone key Hd) as (st & g & _ & _ & _ & Hw' & _). eauto.
      + destruct (Hgroups key Hd) as [Heq|(_ & st & _ & _ & _ & Hnone)]; [|congruence].
        rewrite (Hrest key Hd). rewrite Hg in Heq.
        destruct (TerrainRenderer.isResident w key); [|discriminate].
        apply (Hgr key group). symmetry. exact Heq.
    - intros key st Hst Hclean.
      rewrite (rebuildKey_blocks w w' key Hblocks).
      destruct (decide (key ∈ done)) as [Hd|Hd].
      + destruct (Hdone key Hd) as (st0 & g & _ & _ & Hg & _ & Hg'). congruence.
      + rewrite (Hrest key Hd) in Hst.
        destruct (Hgroups key Hd) as [Heq|(_ & st0 & Hst0 & Hdirty & _)]; [|congruence].
        rewrite Heq. destruct (Hkeys key st Hst) as (a & b & ->).
        rewrite isResident_chunkKey, Hst.
        rewrite bool_decide_eq_true_2 by eauto.
        apply (Hcur _ st Hst Hclean). }
  assert (Hflag : forall key, key ∈ flagged w' -> key ∈ flagged w /\ key ∉ done).
  { intros key Hk. apply elem_of_flagged in Hk as (st & Hst & Hd).
    destruct (decide (key ∈ done)) as [Hin|Hnin].
    - destruct (Hdone key Hin) as (st0 & g & _ & _ & _ & Hw' & _).
      rewrite Hst in Hw'. injection Hw' as ->. discriminate.
    - split; [|exact Hnin]. apply elem_of_flagged. exists st.
      rewrite <- (Hrest key Hnin). auto. }
  split; [exact Hok'|].
  split; [intros x y z; apply net_getBlock_blocks; apply Hblocks|].
  split; [intros key Hk; apply (Hflag key Hk)|].
  intros Hf Hfew.
  assert (Hnone : flagged w' = ∅).
  { destruct (Hleft Hf) as [Hfull|Hclean].
    - assert (Hsub : list_to_set (C := gset string) done ⊆ flagged w).
      { intros k Hk. apply elem_of_list_to_set in Hk.
        destruct (Hdone k Hk) as (st & g & Hst & Hd & _).
        apply elem_of_flagged. eauto. }
      assert (Heq : list_to_set (C := gset string) done = flagged w).
      { apply set_subseteq_size_eq; [exact Hsub|].
        rewrite size_list_to_set by exact Hnd. lia. }
      apply set_eq. intros key. split; [|intros Hk; inversion Hk].
      intros Hk. destruct (Hflag key Hk) as [Hin Hnin].
      rewrite <- Heq in Hin. apply elem_of_list_to_set in Hin. contradiction.
    - apply set_eq. intros key. split; [|intros Hk; inversion Hk].
      intros Hk. apply elem_of_flagged in Hk as (st & Hst & Hd).
      rewrite (Hclean key st Hst) in Hd. discriminate. }
  split; [exact Hnone|].
  apply meshesOk_sceneShows; [exact Hok'|].
  intros key st Hst. destruct (NetworkWorldStore.meshDirty st) eqn:Ed; [|reflexivity].
  assert (Hk : key ∈ flagged w') by (apply elem_of_flagged; eauto).
  rewrite Hnone in Hk. inversion Hk.
Qed.

(** X27.  One call of [update] of the terrain renderer over the multiplayer
    world, where chunks and groups are filed under chunk keys, rebuilds at
    most [maxChunkRebuilds] chunks.  Each chunk it rebuilt was flagged, now
    has the group that [rebuildChunk] builds from the world, and has its
    flag cleared; no other chunk changes, and no array of blocks changes at
    all.  A key that was not rebuilt keeps its group when its chunk is
    resident and loses it otherwise, except for the key at which
    [rebuildChunk] threw: that chunk stays flagged and has no group.  A call
    that does not throw stops short of its budget only when no chunk is left
    flagged, and no call throws over a world whose arrays are full arrays of
    block ids. *)
Theorem update_rebuilds_within_budget
    (r : TerrainRenderer.t) (w : NetworkWorldStore.t) (maxChunkRebuilds : Z)
    (startedAt endedAt : float) :
  netKeysOk w -> groupKeysOk r ->
  let out := TerrainRenderer.update r w maxChunkRebuilds startedAt endedAt in
  let r' := fst (fst out) in
  let w' := snd (fst out) in
  let threw := snd out in
  exists done,
    NoDup done /\
    Z.of_nat (length done) <= Z.max 0 maxChunkRebuilds /\
    (forall key, key ∈ done -> rebuiltAt w w' (TerrainRenderer.chunkGroups r') key) /\
    (forall key, key ∉ done ->
       NetworkWorldStore.chunks w' !! key = NetworkWorldStore.chunks w !! key) /\
    (forall key, key ∉ done ->
       TerrainRenderer.chunkGroups r' !! key =
         match NetworkWorldStore.chunks w !! key with
         | Some _ => TerrainRenderer.chunkGroups r !! key
         | None => None
         end \/
       (threw = true /\ failedAt w (TerrainRenderer.chunkGroups r') key)) /\
    (threw = true ->
       exists key, (key ∉ done) /\ failedAt w (TerrainRenderer.chunkGroups r') key) /\
    (threw = false ->
       Z.of_nat (length done) = Z.max 0 maxChunkRebuilds \/
       forall key st, NetworkWorldStore.chunks w' !! key = Some st ->
         NetworkWorldStore.meshDirty st = false) /\
    (netBlocksOk w -> threw = false).
Proof.
  intros Hkeys Hgk out r' w' threw.
  destruct (update_spec r w maxChunkRebuilds startedAt endedAt)
    as (done & Hnd & Hmax & Hdone & Hrest & Hgroups & Hthrew & Hleft & Hsafe).
  exists done.
  split; [exact Hnd|]. split; [exact Hmax|]. split; [exact Hdone|]. split; [exact Hrest|].
  split; [|split; [exact Hthrew|split; [exact Hleft|exact (Hsafe Hkeys)]]].
  intros key Hk. destruct (Hgroups key Hk) as [Hg|Hf]; [left|right; exact Hf].
  fold out in Hg. fold r' in Hg. rewrite Hg.
  destruct (TerrainRenderer.chunkGroups r !! key) as [group|] eqn:Eg.
  - destruct (Hgk key group Eg) as (a & b & ->).
    rewrite isResident_chunkKey.
    destruct (NetworkWorldStore.chunks w !! Chunk.chunkKey a b) as [st|] eqn:E.
    + rewrite bool_decide_eq_true_2 by eauto. reflexivity.
    + rewrite bool_decide_eq_false_2; [reflexivity|]. intros [st Hst]. discriminate.
  - destruct (TerrainRenderer.isResident w key), (NetworkWorldStore.chunks w !! key);
      reflexivity.
Qed.

Lemma fresh_groupKeysOk : groupKeysOk freshRenderer.
Proof. intros key group H. cbn in H. rewrite lookup_empty in H. discriminate. Qed.

Lemma fresh_meshesOk : meshesOk freshRenderer ClientScenario.emptyClient.
Proof.
  split; [|split].
  - intros key st H. cbn in H. rewrite lookup_empty in H. discriminate.
  - intros key group H. cbn in H. rewrite lookup_empty in H. discriminate.
  - intros key st H. cbn in H. rewrite lookup_empty in H. discriminate.
Qed.

Lemma arrived_meshesOk : meshesOk freshRenderer arrivedClient.
Proof. apply setChunk_meshesOk. exact fresh_meshesOk. Qed.

Lemma update_rebuilds_within_budget_witness :
  netKeysOk arrivedClient /\ groupKeysOk freshRenderer /\
  let out := TerrainRenderer.update freshRenderer arrivedClient 3 0 1 in
  let r' := fst (fst out) in
  let w' := snd (fst out) in
  let threw := snd out in
  exists done,
    NoDup done /\
    Z.of_nat (length done) <= Z.max 0 3 /\
    (forall key, key ∈ done ->
       rebuiltAt arrivedClient w' (TerrainRenderer.chunkGroups r') key) /\
    (forall key, key ∉ done ->
       NetworkWorldStore.chunks w' !! key = NetworkWorldStore.chunks arrivedClient !! key) /\
    (forall key, key ∉ done ->
       TerrainRenderer.chunkGroups r' !! key =
         match NetworkWorldStore.chunks arrivedClient !! key with
         | Some _ => TerrainRenderer.chunkGroups freshRenderer !! key
         | None => None
         end \/
       (threw = true /\ failedAt arrivedClient (TerrainRenderer.chunkGroups r') key)) /\
    (threw = true ->
       exists key, (key ∉ done) /\
         failedAt arrivedClient (TerrainRenderer.chunkGroups r') key) /\
    (threw = false ->
       Z.of_nat (length done) = Z.max 0 3 \/
       forall key st, NetworkWorldStore.chunks w' !! key = Some st ->
         NetworkWorldStore.meshDirty st = false) /\
    (netBlocksOk arrivedClient -> threw = false).
Proof.
  split; [exact (proj1 arrived_meshesOk)|]. split; [exact fresh_groupKeysOk|].
  exact (update_rebuilds_within_budget freshRenderer arrivedClient 3 0 1
           (proj1 arrived_meshesOk) fresh_groupKeysOk).
Defined.

(** X28.  Edits of the client's copy of the world keep the meshes in step.
    Suppose every key of the store is a chunk key, every group belongs to a
    resident chunk, and the group of every chunk that is not flagged is the
    one [rebuildChunk] would build from the world as it is.  Then this is
    still so after [setChunk], after [applyBlockDelta], after a chunk
    message and after the block deltas of a snapshot: every chunk whose
    mesh the edit can change is flagged by it. *)
Theorem store_edits_keep_meshes_current
    (r : TerrainRenderer.t) (w : NetworkWorldStore.t) :
  meshesOk r w ->
  (forall cx cz blocks, meshesOk r (NetworkWorldStore.setChunk w cx cz blocks)) /\
  (forall x y z b, meshesOk r (NetworkWorldStore.applyBlockDelta w x y z b)) /\
  (forall cx cz payload, meshesOk r (NetworkWorldStore.onChunkData w cx cz payload)) /\
  (forall deltas, meshesOk r (NetworkWorldStore.onChangedBlocks w deltas)).
Proof.
  intros H.
  split; [intros; apply setChunk_meshesOk; exact H|].
  split; [intros; apply applyBlockDelta_meshesOk; exact H|].
  exact (onServerMessage_meshesOk r w H).
Qed.

Lemma store_edits_keep_meshes_current_witness :
  meshesOk freshRenderer arrivedClient /\
  (forall cx cz blocks,
     meshesOk freshRenderer (NetworkWorldStore.setChunk arrivedClient cx cz blocks)) /\
  (forall x y z b,
     meshesOk freshRenderer (NetworkWorldStore.applyBlockDelta arrivedClient x y z b)) /\
  (forall cx cz payload,
     meshesOk freshRenderer (NetworkWorldStore.onChunkData arrivedClient cx cz payload)) /\
  (forall deltas,
     meshesOk freshRenderer (NetworkWorldStore.onChangedBlocks arrivedClient deltas)).
Proof.
  split; [exact arrived_meshesOk|].
  exact (store_edits_keep_meshes_current freshRenderer arrivedClient arrived_meshesOk).
Defined.

(** X29.  [update] keeps the meshes in step and catches up.  Under the
    assumptions of X28, they hold again after a call of [update], whether
    it throws or not; no cell reads differently and no chunk becomes
    flagged.  When the call does not throw and no more chunks were flagged
    than [maxChunkRebuilds], then no chunk is flagged afterwards and the
    scene shows the world: every resident chunk has exactly the group that
    [rebuildChunk] builds from the world as it is, and there is no other
    group. *)
Theorem update_keeps_meshes_current
    (r : TerrainRenderer.t) (w : NetworkWorldStore.t)
    (maxChunkRebuilds : Z) (startedAt endedAt : float) :
  meshesOk r w ->
  let out := TerrainRenderer.update r w maxChunkRebuilds startedAt endedAt in
  let r' := fst (fst out) in
  let w' := snd (fst out) in
  let threw := snd out in
  meshesOk r' w' /\
  (forall x y z, NetworkWorldStore.getBlock w' x y z = NetworkWorldStore.getBlock w x y z) /\
  (forall key, key ∈ flagged w' -> key ∈ flagged w) /\
  (threw = false -> Z.of_nat (size (flagged w)) <= maxChunkRebuilds ->
   flagged w' = ∅ /\ sceneShows r' w').
Proof. exact (update_meshesOk r w maxChunkRebuilds startedAt endedAt). Qed.

Lemma update_keeps_meshes_current_witness :
  meshesOk freshRenderer arrivedClient /\
  let out := TerrainRenderer.update freshRenderer arrivedClient 3 0 1 in
  let r' := fst (fst out) in
  let w' := snd (fst out) in
  let threw := snd out in
  meshesOk r' w' /\
  (forall x y z, NetworkWorldStore.getBlock w' x y z =
                 NetworkWorldStore.getBlock arrivedClient x y z) /\
  (forall key, key ∈ flagged w' -> key ∈ flagged arrivedClient) /\
  (threw = false -> Z.of_nat (size (flagged arrivedClient)) <= 3 ->
   flagged w' = ∅ /\ sceneShows r' w').
Proof.
  split; [exact arrived_meshesOk|].
  exact (update_keeps_meshes_current freshRenderer arrivedClient 3 0 1 arrived_meshesOk).
Defined.

(** ** Keys and buttons *)

Lemma dispatchAll_snoc (s : InputController.t) (events : list InputController.DomEvent)
    (event : InputController.DomEvent) :
  InputController.dispatchAll s (events ++ [event]) =
  InputController.dispatch (InputController.dispatchAll s events) event.
Proof. unfold InputController.dispatchAll. rewrite fold_left_app. reflexivity. Qed.

Lemma dispatch_keyPressed (s : InputController.t) (event : InputController.DomEvent)
    (code : string) :
  code ∈ InputController.keyPressed (InputController.dispatch s event) <->
  code ∈ InputController.keyPressed s \/
  (event = InputController.KeyDown code /\ code ∉ InputController.keyDown s).
Proof.
  destruct event as [c|c|b|b|[|] mx my|[|] dy]; cbn;
    try (split; [intros H; left; exact H|intros [H|[H _]]; [exact H|discriminate]]).
  destruct (bool_decide_reflect (c ∈ InputController.keyDown s)) as [Hc|Hc]; cbn [negb].
  - split; [intros H; left; exact H|intros [H|[[= ->] Hn]]; [exact H|contradiction]].
  - rewrite elem_of_union, elem_of_singleton. split.
    + intros [H| ->]; [left; exact H|right; split; [reflexivity|exact Hc]].
    + intros [H|[[= ->] _]]; [left; exact H|right; reflexivity].
Qed.

Lemma dispatch_mousePressed (s : InputController.t) (event : InputController.DomEvent)
    (button : Z) :
  button ∈ InputController.mousePressed (InputController.dispatch s event) <->
  button ∈ InputController.mousePressed s \/
  (event = InputController.MouseDown button /\ button ∉ InputController.mouseDown s).
Proof.
  destruct event as [c|c|b|b|[|] mx my|[|] dy]; cbn;
    try (split; [intros H; left; exact H|intros [H|[H _]]; [exact H|discriminate]]).
  destruct (bool_decide_reflect (b ∈ InputController.mouseDown s)) as [Hc|Hc]; cbn [negb].
  - split; [intros H; left; exact H|intros [H|[[= ->] Hn]]; [exact H|contradiction]].
  - rewrite elem_of_union, elem_of_singleton. split.
    + intros [H| ->]; [left; exact H|right; split; [reflexivity|exact Hc]].
    + intros [H|[[= ->] _]]; [left; exact H|right; reflexivity].
Qed.

(** A press is on record exactly when it was on record before or one of the
    events is the key going down while it was up. *)
Lemma keyPressed_spec (s : InputController.t) (events : list InputController.DomEvent)
    (code : string) :
  code ∈ InputController.keyPressed (InputController.dispatchAll s events) <->
  code ∈ InputController.keyPressed s \/
  exists pre post,
    events = pre ++ InputController.KeyDown code :: post /\
    code ∉ InputController.keyDown (InputController.dispatchAll s pre).
Proof.
  induction events as [|event events IH] using rev_ind.
  - cbn. split; [intros H; left; exact H|].
    intros [H|(pre & post & Heq & _)]; [exact H|]. destruct pre; discriminate.
  - rewrite dispatchAll_snoc, dispatch_keyPressed, IH. split.
    + intros [[H|(pre & post & -> & Hup)]|[-> Hup]].
      * left. exact H.
      * right. exists pre, (post ++ [event]). split; [|exact Hup].
        rewrite <- app_assoc. reflexivity.
      * right. exists events, []. split; [reflexivity|exact Hup].
    + intros [H|(pre & post & Heq & Hup)]; [left; left; exact H|].
      destruct post as [|e post _] using rev_ind.
      * apply app_inj_tail in Heq as [-> ->]. right. split; [reflexivity|exact Hup].
      * change (pre ++ InputController.KeyDown code :: post ++ [e])
          with (pre ++ (InputController.KeyDown code :: post) ++ [e]) in Heq.
        rewrite app_assoc in Heq. apply app_inj_tail in Heq as [-> ->].
        left. right. exists pre, post. split; [reflexivity|exact Hup].
Qed.

Lemma mousePressed_spec (s : InputController.t) (events : list InputController.DomEvent)
    (button : Z) :
  button ∈ InputController.mousePressed (InputController.dispatchAll s events) <->
  button ∈ InputController.mousePressed s \/
  exists pre post,
    events = pre ++ InputController.MouseDown button :: post /\
    button ∉ InputController.mouseDown (InputController.dispatchAll s pre).
Proof.
  induction events as [|event events IH] using rev_ind.
  - cbn. split; [intros H; left; exact H|].
    intros [H|(pre & post & Heq & _)]; [exact H|]. destruct pre; discriminate.
  - rewrite dispatchAll_snoc, dispatch_mousePressed, IH. split.
    + intros [[H|(pre & post & -> & Hup)]|[-> Hup]].
      * left. exact H.
      * right. exists pre, (post ++ [event]). split; [|exact Hup].
        rewrite <- app_assoc. reflexivity.
      * right. exists events, []. split; [reflexivity|exact Hup].
    + intros [H|(pre & post & Heq & Hup)]; [left; left; exact H|].
      destruct post as [|e post _] using rev_ind.
      * apply app_inj_tail in Heq as [-> ->]. right. split; [reflexivity|exact Hup].
      * change (pre ++ InputController.MouseDown button :: post ++ [e])
          with (pre ++ (InputController.MouseDown button :: post) ++ [e]) in Heq.
        rewrite app_assoc in Heq. apply app_inj_tail in Heq as [-> ->].
        left. right. exists pre, post. split; [reflexivity|exact Hup].
Qed.

(** A key that is held stays down as long as no event releases it. *)
Lemma keyDown_held (events : list InputController.DomEvent) (code : string) :
  forall s : InputController.t,
  code ∈ InputController.keyDown s ->
  (forall event, event ∈ events -> event <> InputController.KeyUp code) ->
  code ∈ InputController.keyDown (InputController.dispatchAll s events).
Proof.
  induction events as [|event events IH]; intros s Hs Hno; [exact Hs|].
  cbn [InputController.dispatchAll fold_left]. apply IH.
  - pose proof (Hno event (list_elem_of_here _ _)) as Hne.
    destruct event as [c|c|b|b|[|] mx my|[|] dy]; cbn; try exact Hs.
    + apply elem_of_union. left. exact Hs.
    + apply elem_of_difference. split; [exact Hs|].
      rewrite elem_of_singleton. intros ->. apply Hne. reflexivity.
  - intros e He. apply Hno. apply list_elem_of_further. exact He.
Qed.

Lemma mouseDown_held (events : list InputController.DomEvent) (button : Z) :
  forall s : InputController.t,
  button ∈ InputController.mouseDown s ->
  (forall event, event ∈ events -> event <> InputController.MouseUp button) ->
  button ∈ InputController.mouseDown (InputController.dispatchAll s events).
Proof.
  induction events as [|event events IH]; intros s Hs Hno; [exact Hs|].
  cbn [InputController.dispatchAll fold_left]. apply IH.
  - pose proof (Hno event (list_elem_of_here _ _)) as Hne.
    destruct event as [c|c|b|b|[|] mx my|[|] dy]; cbn; try exact Hs.
    + apply elem_of_union. left. exact Hs.
    + apply elem_of_difference. split; [exact Hs|].
      rewrite elem_of_singleton. intros ->. apply Hne. reflexivity.
  - intros e He. apply Hno. apply list_elem_of_further. exact He.
Qed.

(** X30.  Presses are edges.  After [endFrame] and any events, a key is
    reported by [wasKeyPressed] exactly when one of these events was the key
    going down while it was up; so a key that is held over the events,
    whatever key-down events its repetition sends, is reported as down and
    not as pressed.  The same holds for the mouse buttons. *)
Theorem presses_are_edges
    (s : InputController.t) (events : list InputController.DomEvent) :
  let s0 := InputController.endFrame s in
  let s' := InputController.dispatchAll s0 events in
  (forall code,
     (InputController.wasKeyPressed s' code = true <->
      exists pre post,
        events = pre ++ InputController.KeyDown code :: post /\
        InputController.isKeyDown (InputController.dispatchAll s0 pre) code = false) /\
     (InputController.isKeyDown s code = true ->
      (forall event, event ∈ events -> event <> InputController.KeyUp code) ->
      InputController.isKeyDown s' code = true /\
      InputController.wasKeyPressed s' code = false)) /\
  (forall button,
     (InputController.wasMousePressed s' button = true <->
      exists pre post,
        events = pre ++ InputController.MouseDown button :: post /\
        InputController.isMouseDown (InputController.dispatchAll s0 pre) button = false) /\
     (InputController.isMouseDown s button = true ->
      (forall event, event ∈ events -> event <> InputController.MouseUp button) ->
      InputController.isMouseDown s' button = true /\
      InputController.wasMousePressed s' button = false)).
Proof.
  intros s0 s'. split.
  - intros code.
    assert (Hedge : InputController.wasKeyPressed s' code = true <->
              exists pre post,
                events = pre ++ InputController.KeyDown code :: post /\
                InputController.isKeyDown (InputController.dispatchAll s0 pre) code = false).
    { unfold InputController.wasKeyPressed, InputController.isKeyDown.
      rewrite bool_decide_eq_true. subst s'. rewrite keyPressed_spec. split.
      - intros [H|(pre & post & Heq & Hup)]; [inversion H|].
        exists pre, post. split; [exact Heq|]. apply bool_decide_eq_false. exact Hup.
      - intros (pre & post & Heq & Hup). right. exists pre, post.
        split; [exact Heq|]. apply bool_decide_eq_false in Hup. exact Hup. }
    split; [exact Hedge|].
    intros Hdown Hno. unfold InputController.isKeyDown in Hdown.
    apply bool_decide_eq_true in Hdown.
    split.
    + apply bool_decide_eq_true. apply keyDown_held; [exact Hdown|exact Hno].
    + apply not_true_is_false. intros E.
      apply Hedge in E as (pre & post & -> & Hup).
      unfold InputController.isKeyDown in Hup. apply bool_decide_eq_false in Hup.
      apply Hup. apply keyDown_held; [exact Hdown|].
      intros e He. apply Hno. apply elem_of_app. left. exact He.
  - intros button.
    assert (Hedge : InputController.wasMousePressed s' button = true <->
              exists pre post,
                events = pre ++ InputController.MouseDown button :: post /\
                InputController.isMouseDown (InputController.dispatchAll s0 pre) button
                  = false).
    { unfold InputController.wasMousePressed, InputController.isMouseDown.
      rewrite bool_decide_eq_true. subst s'. rewrite mousePressed_spec. split.
      - intros [H|(pre & post & Heq & Hup)]; [inversion H|].
        exists pre, post. split; [exact Heq|]. apply bool_decide_eq_false. exact Hup.
      - intros (pre & post & Heq & Hup). right. exists pre, post.
        split; [exact Heq|]. apply bool_decide_eq_false in Hup. exact Hup. }
    split; [exact Hedge|].
    intros Hdown Hno. unfold InputController.isMouseDown in Hdown.
    apply bool_decide_eq_true in Hdown.
    split.
    + apply bool_decide_eq_true. apply mouseDown_held; [exact Hdown|exact Hno].
    + apply not_true_is_false. intros E.
      apply Hedge in E as (pre & post & -> & Hup).
      unfold InputController.isMouseDown in Hup. apply bool_decide_eq_false in Hup.
      apply Hup. apply mouseDown_held; [exact Hdown|].
      intros e He. apply Hno. apply elem_of_app. left. exact He.
Qed.

(** ** The generator, wherever it is used *)



(** The seed does enter: the columns at the origin of the worlds of seeds
    42 and 43 have different heights. *)
Example getHeight_depends_on_the_seed :
  Generator.getHeight (Generator.newWorldGenerator 42) 0 0 <>
  Generator.getHeight (Generator.newWorldGenerator 43) 0 0.
Proof. vm_compute. discriminate. Qed.

